(* ===== verification/_CoqProject ===== *)
-Q . S2P
Prelude.v
Number.v
JSMap.v
Events.v
Samples.v
Pinch.v
Handlers.v
System.v
Gestures.v
Spec.v
Lifecycle.v
FloatLaws.v
Symmetry.v
Simulation.v
Refines.v
Sessions.v
Natural.v
Worlds.v
Component.v
Page.v
PageWorld.v
Journey.v
Site.v
SiteWorld.v
Crowd.v
Apart.v
FloatRuns.v
Ideal.v
