(* ===== verification/Prelude.v ===== *)
(** * Verification of tldraw's [useDomCanvasEvents] hook

    ** The program

    [src/packages/editor/src/lib/hooks/useDomCanvasEvents.ts] is one React
    hook.  Its effect listens to the raw [pointerdown], [pointermove],
    [pointerup], [pointercancel] and [wheel] events of the canvas container
    and turns them into the editor's gesture events: [pinch_start], [pinch]
    and [pinch_end] for two fingers, [wheel] for the wheel.  Its parts:

    - the contact tracker: the [Map] [activePointers] from pointer id to the
      pointer's last event, whose first two values are the fingers of a
      pinch;
    - the pinch classifier [updatePinchState]: a state machine over
      ['not sure'], [zooming] and [panning] driven by two measurements, the
      change of the fingers' distance since the pinch started (thresholds 24
      and 64) and the drift of their midpoint (threshold 16);
    - the pointer handlers, which start a pinch when a [pointerdown] leaves
      two pointers active, report it on every [pointermove], and end it on
      a [pointerup], the [pinch_end] being deferred to the next animation
      frame;
    - the wheel handler, with its focus check and its exemption for a
      scrollable shape that is being edited;
    - the effect itself: container styles, listeners, cleanup.
    The editor, the timer service, [normalizeWheel], [isAccelKey] and [Vec]
    are imported from files that are not part of [src/].

    ** The development, file by file

    - [Prelude] (this file): tactics, and the reader-state-writer monad
      [RSW] in which a handler is written statement by statement: it reads
      the editor, assigns the variables of the closure, and calls out.
    - [Number]: the class [Number] of the arithmetic the hook uses, and its
      instance on Rocq's primitive binary64 floats, which are JavaScript's
      numbers.  All handlers are generic in the class; every concrete run
      is on floats.
    - [JSMap]: [Map] as the list of entries in insertion order, with
      [set], [has], [delete], [size], [values]; the invariant [wf] (no key
      twice), preserved by every operation; the refinement [to_gmap] to
      stdpp's finite maps; the relation [similar] of maps with the same
      entries, which every operation respects.
    - [Events]: the DOM events ([DOM.MouseEvent] and its extensions), the
      event infos, the record [Editor] of the editor's answers, the class
      [Host] of the imported helpers, and [Effect], one call out of the
      hook; equality of calls is decidable when it is for the numbers.
    - [Samples]: concrete events, editors and a host, for the witnesses.
    - [Pinch]: the record [State] of the closure variables (lines 28-36),
      [getPointerDistance], [getPointerCenter], and the classifier:
      [nextPinchState] is the [switch] of [updatePinchState].
    - [Handlers]: [onPointerDown], [onPointerMove], [onPointerUp],
      [onWheel] and the deferred callback [pinchEndCallback], each with one
      lemma per path through it and the theorems of the handler.
    - [System]: [listener] (which handler runs for which input), the
      transition relation [step] with one rule for each path through a
      listener, the runs [run] and [trace] over a sequence of inputs, the
      inductive predicate [reachable], the invariant of the reachable
      states, and the predicate [wellFormed] of the calls.
    - [Gestures]: sequences of inputs: the moves of a pinch, a whole
      two-finger gesture, the callbacks that wait for the frame, a tap,
      the wheel in the middle of a pinch, a release that comes twice.
    - [Spec]: the state machine the specification of the hook describes
      (its contact tracker, pinch classifier and wheel normalizer), written
      from the specification alone: an unordered contact set, a session
      that exists while two contacts or more are active, pinch-ends that
      are complete when they are deferred.
    - [Lifecycle]: the effect and its cleanup over a [World] (container,
      live variables, variables kept alive by waiting callbacks).
    - [FloatLaws]: the facts of binary64 arithmetic the hook relies on,
      proved from the specification of the floating-point operations
      ([SpecFloat]): [+] and [*] commute, the square of a difference is
      symmetric, square roots and absolute values are not negative.
    - [Symmetry]: the class [SymmetricNumber] of the two laws under which the
      order of the fingers cannot be observed, its instance on binary64,
      the relation [similar] between states whose maps hold the same
      pointers, and the [Proper] instances: every listener and every run
      respects it.
    - [Simulation]: the machine of [Spec] on the inputs of the hook, the
      protocol of the inputs ([regular]: which pointers an event names;
      [timely]: when it comes), the abstraction [absWith] from the
      variables of the hook to a state of [Spec], and one lemma for each
      rule of [step]: the operation of the specification computes what
      the rule computes.
    - [Refines]: the refinement along the protocol with its invariant
      [good], the refinement up to what a [pinch_end] reports on inputs
      that are only regular, and the runs that show why each condition
      of the protocol is there.
    - [Sessions]: what the hook inherits from the specification: the
      contact set of the two agrees on every input sequence, and along
      the protocol the pinch events are bracketed, which is proved of the
      machine of [Spec] by an invariant and carried over by the
      simulation.
    - [Natural]: what fingers do, as a grammar of gestures ([Gesture]: a
      frame, a wheel event, a tap, a pinch of two fingers), and the proof
      that every sequence of gestures follows the protocol.
    - [Worlds]: renders with new dependencies, unmounts, events and frames
      in any order, as the actions of a transition system over [World],
      with the invariant [sound] of the worlds the component reaches and
      the callbacks that wait across cleanups ([waiting], [due]).
    - [Component]: the specification over the life of the component
      (its teardown starts every mount from the initial state), the
      protocol extended by when React may tear the effect down, and the
      simulation [matches] between a world and the state of the
      specification.
    - [Page]: the page in detail.  Elements are told apart and each keeps
      the list of its listeners, a listener being an event type and a
      function of one effect ([listen] and [unlisten] are the DOM's
      [addEventListener] and [removeEventListener]); the variables of
      every effect that has run are kept ([heap]); the callbacks handed to
      [requestAnimationFrame] wait in the one queue of the page
      ([timers]); a call is paired with the editor of the effect that
      makes it.  [mount] is the body of the effect (lines 19-36 and
      233-237, through [styled], [allocate] and [attach]), [dismount] the
      function it returns (lines 239-245, through [detach]);
      [dispatchEvent] and [runFrame] are the browser's side.  The
      invariant [neat] of the pages that are reached.
    - [PageWorld]: the simulation [stands] between a page and a [World],
      and the projection [toWorlds] of what happens on the page to the
      actions of [Worlds] (an event counts when it is on the container of
      the effect in place).
    - [Journey]: the whole, for what a user does: a [Stay] is the time of
      the hook on one container with one editor, with the gestures of
      [Natural] on it, and a journey is the stays from the first render
      to the unmount.
    - [Site]: a page with several editors.  Every component has the
      cleanup React holds for it ([hooks]); the hooks share the elements
      and the queue of the timers.  [mountAt] and [unmountAt] run
      [Page.mount] and [Page.dismount] for one component.  An event has a
      path, its target and then the ancestors: [dispatchPath] runs the
      listeners of one element after the other ([dispatchAt]), each
      listener with the editor of its effect, and stops after the element
      on which a listener has called [stopEventPropagation] ([stopped]).
      The invariant [orderly] of the sites that are reached.
    - [SiteWorld]: the projection of a site to one editor: [ownOf] is the
      page as its component has it, [callsOf] the calls made on it,
      [views] the actions of [Worlds] that are its renders and unmounts,
      the events that reach its container ([reach]) and the frames.
    - [Crowd]: the life of a component as stays of gestures ([lifeOf]),
      which follows the protocol of [Component], and with it the calls of
      an editor among others.
    - [Apart]: the site and the page of one component compared: [alone]
      is what the actions of the site are on the page on which a
      component is alone, [apart] the condition that no wheel event has
      two containers on its path, [beside] the invariant that relates the
      two.
    - [FloatRuns]: what is particular to binary64 (NaN, infinity, where
      the thresholds fall, a third finger), by evaluation.
    - [Ideal]: the hook instantiated at the real numbers, where the
      measurements of the classifier are Euclidean distances: what the
      thresholds mean in terms of how far the fingers have travelled, and
      how the zoom follows the distance of the fingers.

    ** Correspondence with the code

    A [let] variable of the effect is a field of [State] with the same
    name; an assignment is a [modify] with the field's setter; a call of
    [editor.dispatch], [preventDefault] or [stopEventPropagation] is a
    [tell] of an [Effect]; a query of the editor is a field of the [Editor]
    the handler runs with, so the editor may differ from one event to the
    next.  An early [return] is the [then] branch of an [if] whose [else]
    branch is the rest of the function.  A callback handed to
    [requestAnimationFrame] is a [FrameCallback], the values it captured;
    it is appended to [animationFrames] and runs, reading the variables as
    they are then, at the next [animationFrame] input.

    ** What the theorems show

    - Classifier ([Pinch]): the exact conditions of each transition, that
      the state never moves down in ['not sure' < panning < zooming], and
      that the early return of [updatePinchState] agrees with its switch.
    - Handlers ([Handlers]): the complete effect of each handler on each
      path: which variables change, what is dispatched with which zoom,
      point and delta, what is deferred; an untracked pointer that moves is
      ignored.
    - System ([System], [Gestures]): every two-finger gesture dispatches
      exactly one [pinch_start], then [pinch] events only, then exactly
      one [pinch_end]; the invariant of the reachable states; the tracked
      pointers depend on the pointer events alone; every call is
      well-formed (a zoom in the point of a pinch info, no wheel info with
      a zero delta, consistent modifier keys); a pinch-end that is deferred
      is dispatched by the next frame whatever arrives before it; a tap
      that makes no pair leaves the state as it was; a second release of
      a pointer is ignored unless two pointers are tracked then; after a
      wheel event the classifier starts over; along any inputs but the
      three that write ['not sure'] the pinch state never moves down, and
      once zooming it stays zooming ([pinch_state_never_demotes]); with
      three pointers tracked no move is reported, and when one of them is
      lifted the remaining pair takes over the variables of the pinch
      ([third_pointer_hands_over]).
    - Lifecycle ([Lifecycle], [Worlds]): a live effect is the transition
      system of [System]; after the unmount the only calls are the
      [pinch_end] events that were waiting ([unmounted_hook_is_silent]);
      in every
      world the component reaches a live effect has its listeners and a
      reachable state ([world_invariant]); no render, unmount or event
      removes a callback that waits, and the frame runs each of them once
      ([no_pinch_end_is_lost]); after a render the [pinch_end] events of
      the effect before are dispatched at the first frame, inside whatever
      the new effect dispatches ([stale_pinch_ends_join_the_frame]).
    - The page ([Page], [PageWorld]): on every page that is reached an
      element carries the five listeners of the effect in place when it is
      its container and none otherwise, so the cleanup removes what the
      effect attached and no listener is ever registered twice
      ([page_invariant]); the page refines the world of [Lifecycle]: it
      makes the same calls, an event on another element or on the
      container of an earlier render runs nothing, and the callbacks of
      the effects that are gone wait in the queue in the order in which
      the world runs them ([page_refines_world]); with [Component] this
      gives the refinement of the specification by the page
      ([page_refines_spec]); running frames until no callback waits ends
      after one frame ([frame_loop_terminates]).  The three layers, the
      page, the world and the machine of [Spec], are each an abstraction
      of the one before, related by [stands] and [matches].
    - End to end ([Journey]): on every journey, renders with gestures of
      the user between them and the unmount, the calls on the page are the
      calls of the machine of [Spec], stay by stay, each on the editor of
      its stay, and the hook leaves no listener and no callback behind
      ([journey_refines_spec]).  Nothing is assumed there but the shape
      of the gestures: during a stay the page is the transition system
      of [System] ([stay_runs]), and the gestures follow the protocol.
    - Several editors ([Site], [SiteWorld], [Crowd]): on every site that
      is reached the listeners of an element are the functions of the
      effects in place on it, five for each, effect after effect in the
      order in which they ran, so the cleanup of one hook leaves the
      listeners of the others where they are ([site_invariant]); an
      event runs the listeners of its path up to the first element with
      an editor that handles it, which only a wheel event has, so a
      pointer event reaches every hook on the path, and the default
      action of the event is prevented when an editor on the path handles
      it and only then ([wheel_stops_at_the_handling_editor]); the calls made on one
      editor are those of the world of [Lifecycle] for its component
      alone, whatever the other hooks do on the same elements and in the
      same queue ([site_projects_to_world]), hence those of the
      specification along the protocol ([every_editor_refines_spec]),
      and with no protocol assumed when what reaches the editor are
      gestures ([editor_in_a_crowd]); when no wheel event has two
      containers on its path the calls on an editor are those of the
      page of [Page] on which its component is alone
      ([hook_as_if_alone]), and two nested editors that both have the
      focus show that the condition is needed
      ([nested_wheel_is_not_alone]).  The projection is proved like the
      refinement of the page: [stands] relates the world of an editor to
      the site restricted to it, a function of another editor leaves the
      relation as it is ([invoke_foreign]), one of its own is a step of
      the world ([invoke_own]).
    - Refinements: [JSMap] refines a finite map; the listeners implement
      the rules of [step], and exactly those; a mounted hook refines the
      transition system of [System].
    - The specification ([Spec], [Refines]): along the protocol the hook
      makes exactly the calls of the specification's machine, with any
      number of pointers down, and its variables read as the state of that
      machine ([hook_refines_spec]); this holds of the hook whenever its
      effect has run in a world where no callback waits, and over the
      whole life of the component, through renders and unmounts, as long
      as the effect is torn down only when no [pinch_end] is deferred
      ([component_refines_spec]); the contact set agrees with the
      specification's on every input sequence, protocol or not
      ([tracker_refines_spec]); along the protocol the pinch events are
      bracketed, start, updates, end, for any number of gestures
      ([sessions_are_bracketed]); on inputs that are regular but come at
      any time the calls agree except for the point, zoom and delta of a
      [pinch_end] ([calls_agree_up_to_pinch_end]), which is where the
      hook reads its variables later than the specification says; and
      the protocol cannot be dropped:
      for each of its conditions a run on binary64 breaks it and ends in
      different calls ([protocol_is_tight]); and the hook recovers: once
      no pointer is down and the frame has run, whatever came before,
      it makes the calls of the specification again on every
      continuation along the protocol ([hook_recovers]); and the
      protocol is what fingers do: every sequence of frames, wheel
      events, taps and pinches of two fingers in which one of them moves
      follows it, whatever the editor answers
      ([natural_inputs_follow_protocol]).  The proof of the refinement is a forward
      simulation: one lemma per rule of [step], with the invariant [good]
      (no callback waits while a pinch is on, at most one callback ever
      waits, the current distance is the one measured in this session) and the two laws of
      [SymmetricNumber], since the specification does not say which of the
      two contacts comes first.
    - Order of the fingers ([Symmetry], [FloatLaws]): the map is read in
      insertion order, but no run can tell two maps with the same entries
      apart, on any numbers that are [SymmetricNumber], binary64 included.
    - Numbers ([FloatLaws], [FloatRuns], [Ideal]): on binary64 the stored
      distances and the classifier's measurements are never negative, a
      NaN measurement counts as no movement, and the thresholds are
      strict; over the reals a pinch stays undecided while the fingers
      have travelled at most 24 pixels in total, a rigid translation is
      never a zoom, a symmetric spread is never a pan, and the zoom grows
      with the distance of the fingers.
    - Findings, each a theorem with a concrete witness: [onPointerUp] ends
      a pinch for a pointer that was never tracked; a repeated
      [pointerdown] restarts a pinch; a pinch released without a move
      reports a zoom computed from a stale distance (0 after mount); the
      deferred [pinch_end] reports the midpoint of the NEXT pinch when a
      finger goes down before the frame; the cleanup cancels no pending
      [pinch_end], which after a render arrives inside the pinch of the
      new effect and goes to the editor of the old one; the cleanup
      leaves the styles the effect set on the container; a render in the
      middle of a pinch drops the pinch; two
      fingers at the same point make the zoom NaN or infinite; with three
      pointers down, lifting one of the first two hands the pinch over to
      the remaining pair without a [pinch_end] or a [pinch_start], and
      the zoom jumps to the distance of the new pair over the initial
      distance of the old one; an
      editing shape whose id is the empty string is not exempted from the
      wheel handling; a wheel event lets a zoom fall back to a pan within
      one pinch; when an editor is rendered inside the container of
      another, a pinch on the inner one is tracked and dispatched by both
      hooks, since no pointer listener stops the event or looks at its
      target.

    ** Bounds and fuel

    The source has no loop and no recursion: every handler is a finite
    sequence of statements, a total function, and the runs recurse on the
    list of inputs.  The one iteration is the browser's: it runs animation
    frames while callbacks wait, and a callback may request another.
    [Page.frameLoop] is that loop, with fuel for the number of frames
    after the first look at the queue.  [frame_loop_terminates] shows
    that it returns a result with any fuel of one or more, on every page
    that is reached: the callback of a [pinch_end] requests nothing, so
    the first frame leaves the queue empty.  No other definition uses
    fuel.  The numbers
    of the program are not bounded or idealised: the instance the hook
    runs on is binary64 with its rounding, infinities and NaN.  The one
    operation binary64 does not determine is [**]: ECMAScript leaves it
    implementation-approximated, so [float_pow] is exact on the exponents
    0, 1, 2, -1 and 1/2 and NaN elsewhere; the theorems that are generic
    in [Number] do not depend on it.  The real numbers of [Ideal] are a
    second instance, used only to say what the thresholds mean: they have
    no NaN and no infinity, [x / 0] is a number there, and [R_pow] is the
    power for a base that is not negative, so the theorems on the zoom
    assume a positive initial distance.  Nothing proved on the reals is
    claimed of binary64.

    ** What is not modelled

    React's scheduling of effects and the browser's event delivery beyond
    the order of renders, unmounts, events and frames; the capture phase
    of an event (the hook registers no capturing listener: [Site] models
    the target and the bubble phase, with the path of the event given);
    the default action [preventDefault] prevents, which is the browser's
    ([Site.prevented] says when it is prevented); [normalizeWheel] and
    [isAccelKey] beyond their types (fields of [Host]); [Vec.Dist] is
    taken to be the Euclidean distance computed as [getPointerDistance]
    computes it; [new Vec()] is taken to be the point [(0, 0)]; listeners
    that are passive (the hook registers every listener with
    [{ passive: false }], so the browser takes every call of
    [preventDefault]).  An editor is known by its identity and by the answers it
    gives when a function asks; what it does with a dispatched event is
    its own, and so is the disposal of an editor, which may cancel the
    callbacks its timers hold.  In [Lifecycle] and [Worlds] a listener is known by the type
    of its event and an event reaches the effect that is live; [Page]
    does without that, and [PageWorld] proves the two agree.

    The rounding error of the measurements is not bounded.  [Ideal] says
    what the thresholds mean over the reals and [FloatLaws] what binary64
    guarantees exactly (signs, symmetry, commutation); a bound that
    carries the tolerance of [Ideal] over to binary64 needs the error
    analysis of [sqrt], [*] and [-] on floats, for which the standard
    library has the specification of the operations ([SpecFloat]) but no
    theory of rounding, and [**] is implementation-approximated in
    ECMAScript, so the zoom has no bound to prove.

    The machine of [Spec] is not code of the repository: it is written
    from the specification, and where the specification leaves a choice
    (which two of three contacts are the pair, what a third contact does
    to a session) it makes the choice noted at its definition.

    ** Plan

    What is left, in the order of its use: what an input that is not
    regular changes, call by call; [float_pow] on further exponents; the
    capture phase and listeners of other code on the path of an event,
    which may stop it before it reaches the container. *)

From stdpp Require Export prelude.
From Stdlib Require Export ZArith.

(** ** Tactics *)

(** [case_if] destructs the first [if] or [match] scrutinee of the goal and
    keeps the equation. *)
Ltac case_scrutinee :=
  match goal with
  | |- context [if ?b then _ else _] => destruct b eqn:?
  | |- context [match ?x with _ => _ end] => destruct x eqn:?
  end.

(** [conjunct H] closes the goal with [H] or with one of the conjuncts of
    its statement. *)
Ltac conjunct H :=
  first [ exact H | conjunct (proj1 H) | conjunct (proj2 H) ].

(** ** The reader-state-writer monad

    A handler of the hook reads the editor (environment [R]), mutates the
    variables of the closure (state [S]) and calls the editor and the DOM
    (outputs [W], in call order).  [RSW R S W A] is the type of such a
    computation returning an [A]. *)

Definition RSW (R S W A : Type) : Type := R → S → A * S * list W.

Section rsw.
Context {R S W : Type}.

Definition rsw_ret {A} (a : A) : RSW R S W A := λ _ s, (a, s, []).

Definition rsw_bind {A B} (k : A → RSW R S W B) (m : RSW R S W A) : RSW R S W B :=
  λ r s, let '(a, s1, w1) := m r s in
         let '(b, s2, w2) := k a r s1 in
         (b, s2, w1 ++ w2).

(** The environment, the state, and one output. *)
Definition ask : RSW R S W R := λ r s, (r, s, []).
Definition get : RSW R S W S := λ _ s, (s, s, []).
Definition put (s : S) : RSW R S W unit := λ _ _, (tt, s, []).
Definition modify (f : S → S) : RSW R S W unit := λ _ s, (tt, f s, []).
Definition tell (w : W) : RSW R S W unit := λ _ s, (tt, s, [w]).

(** [for (const a of l) f(a)] *)
Fixpoint rsw_iter {A} (f : A → RSW R S W unit) (l : list A) : RSW R S W unit :=
  match l with
  | [] => rsw_ret tt
  | a :: l' => rsw_bind (λ _, rsw_iter f l') (f a)
  end.

(** The three components of a run. *)
Definition result {A} (m : RSW R S W A) (r : R) (s : S) : A := (m r s).1.1.
Definition exec {A} (m : RSW R S W A) (r : R) (s : S) : S := (m r s).1.2.
Definition outputs {A} (m : RSW R S W A) (r : R) (s : S) : list W := (m r s).2.

End rsw.

#[export] Instance rsw_mret {R S W} : MRet (RSW R S W) := @rsw_ret R S W.
#[export] Instance rsw_mbind {R S W} : MBind (RSW R S W) := @rsw_bind R S W.

(** [rsw_run] evaluates the binds and the primitive operations of the goal;
    it stops at the first [if] or [match] on a value it does not know. *)
Ltac rsw_run :=
  cbv beta iota zeta delta
    [mbind mret rsw_mbind rsw_mret rsw_bind rsw_ret
     ask get put modify tell result exec outputs fst snd].

(** ** Monad laws and the equations of [exec] and [outputs]

    The laws hold pointwise (at every environment and state), so no
    extensionality is needed. *)

Section rsw_laws.
Context {R S W : Type}.
Implicit Types (r : R) (s : S).

(** Unfolds one bind of the goal and names the run of its first part. *)
Ltac unfold_bind m r s :=
  unfold result, exec, outputs, mbind, rsw_mbind, rsw_bind; simpl;
  destruct (m r s) as [[??]?]; simpl.

Lemma rsw_left_id {A B} (a : A) (k : A → RSW R S W B) r s :
  (mret a ≫= k) r s = k a r s.
Proof. unfold mbind, rsw_mbind, rsw_bind; simpl. by destruct (k a r s) as [[??]?]. Qed.

Lemma rsw_right_id {A} (m : RSW R S W A) r s : (m ≫= mret) r s = m r s.
Proof. unfold_bind m r s. by rewrite app_nil_r. Qed.

Lemma rsw_assoc {A B C} (m : RSW R S W A) (k : A → RSW R S W B)
    (h : B → RSW R S W C) r s :
  ((m ≫= k) ≫= h) r s = (m ≫= (λ a, k a ≫= h)) r s.
Proof.
  unfold_bind m r s. destruct (k _ r _) as [[??]?]; simpl.
  destruct (h _ r _) as [[??]?]; simpl. by rewrite app_assoc.
Qed.

Lemma exec_bind {A B} (m : RSW R S W A) (k : A → RSW R S W B) r s :
  exec (m ≫= k) r s = exec (k (result m r s)) r (exec m r s).
Proof. unfold_bind m r s. by destruct (k _ r _) as [[??]?]. Qed.

Lemma outputs_bind {A B} (m : RSW R S W A) (k : A → RSW R S W B) r s :
  outputs (m ≫= k) r s = outputs m r s ++ outputs (k (result m r s)) r (exec m r s).
Proof. unfold_bind m r s. by destruct (k _ r _) as [[??]?]. Qed.

Lemma result_bind {A B} (m : RSW R S W A) (k : A → RSW R S W B) r s :
  result (m ≫= k) r s = result (k (result m r s)) r (exec m r s).
Proof. unfold_bind m r s. by destruct (k _ r _) as [[??]?]. Qed.

(** A run is the triple of its components. *)
Lemma run_eta {A} (m : RSW R S W A) r s :
  m r s = (result m r s, exec m r s, outputs m r s).
Proof. unfold result, exec, outputs. by destruct (m r s) as [[??]?]. Qed.

Lemma exec_iter_nil {A} (f : A → RSW R S W unit) r s : rsw_iter f [] r s = (tt, s, []).
Proof. done. Qed.

Lemma outputs_iter_cons {A} (f : A → RSW R S W unit) a l r s :
  outputs (rsw_iter f (a :: l)) r s
    = outputs (f a) r s ++ outputs (rsw_iter f l) r (exec (f a) r s).
Proof. apply (outputs_bind (f a) (λ _, rsw_iter f l)). Qed.

Lemma exec_iter_cons {A} (f : A → RSW R S W unit) a l r s :
  exec (rsw_iter f (a :: l)) r s = exec (rsw_iter f l) r (exec (f a) r s).
Proof. apply (exec_bind (f a) (λ _, rsw_iter f l)). Qed.

End rsw_laws.

(** Rewriting with [rsw] pushes [exec], [outputs] and [result] through the
    binds of a handler, where evaluating the handler is not wanted. *)
Create Rewrite HintDb rsw.
#[export] Hint Rewrite @exec_bind @outputs_bind @result_bind
  @exec_iter_cons @outputs_iter_cons : rsw.
