(* ===== verification/Number.v ===== *)
(** * Numbers: the arithmetic the hook uses

    The hook computes with JavaScript numbers: IEEE 754 binary64 values with
    [+], [-], [*], [/], [**], [Math.sqrt], [Math.abs], [>] and [===].  The
    class [Number] is that signature; the handlers are written against it.

    - [float_Number] is the instance the program runs on: Rocq's primitive
      floats are binary64 with round-to-nearest-even, as JavaScript's
      numbers are, so the handlers evaluate on concrete events by
      [vm_compute], NaN and infinities included.
    - The exponentiation [**] is the one operation binary64 does not fix:
      ECMAScript leaves its general case "implementation-approximated".
      [float_pow] fixes it on the exponents the runs of this development
      use and is NaN elsewhere. *)

From S2P Require Import Prelude.
From Stdlib Require Import Floats.

(** ** The signature *)

Class Number (N : Type) := {
  n_of_Z : Z → N;            (* the literal [z] *)
  nadd : N → N → N;          (* [x + y] *)
  nsub : N → N → N;          (* [x - y] *)
  nmul : N → N → N;          (* [x * y] *)
  ndiv : N → N → N;          (* [x / y] *)
  npow : N → N → N;          (* [x ** y] *)
  nsqrt : N → N;             (* [Math.sqrt(x)] *)
  nabs : N → N;              (* [Math.abs(x)] *)
  ngtb : N → N → bool;       (* [x > y] *)
  neqb : N → N → bool;       (* [x === y] *)
}.

Declare Scope num_scope.
Delimit Scope num_scope with num.
Notation "# z" := (n_of_Z z%Z) (at level 1, z at level 0, format "# z") : num_scope.
Infix "+" := nadd : num_scope.
Infix "-" := nsub : num_scope.
Infix "*" := nmul : num_scope.
Infix "/" := ndiv : num_scope.
Infix "**" := npow (at level 30, right associativity) : num_scope.
Infix ">?" := ngtb (at level 70, no associativity) : num_scope.
Infix "===" := neqb (at level 70, no associativity) : num_scope.

(** ** JavaScript numbers *)

(** An integer literal as a binary64 value (exact below 2^53). *)
Definition float_of_Z (z : Z) : float :=
  match z with
  | Z0 => PrimFloat.zero
  | Zpos _ => PrimFloat.of_uint63 (Uint63.of_Z z)
  | Zneg p => PrimFloat.opp (PrimFloat.of_uint63 (Uint63.of_Z (Zpos p)))
  end.

(** [b ** e] on the exponents used in this development: ECMAScript's
    special cases for a NaN or zero exponent, the exact results for the
    exponents 1, 2 and -1, the correctly rounded square root for 1/2. *)
Definition float_pow (b e : float) : float :=
  if PrimFloat.is_nan e then PrimFloat.nan
  else if PrimFloat.eqb e 0 then 1%float
  else if PrimFloat.eqb e 1 then b
  else if PrimFloat.eqb e 2 then PrimFloat.mul b b
  else if PrimFloat.eqb e (-1) then PrimFloat.div 1 b
  else if PrimFloat.eqb e 0.5 then PrimFloat.sqrt b
  else PrimFloat.nan.

#[export] Instance float_Number : Number float := {|
  n_of_Z := float_of_Z;
  nadd := PrimFloat.add;
  nsub := PrimFloat.sub;
  nmul := PrimFloat.mul;
  ndiv := PrimFloat.div;
  npow := float_pow;
  nsqrt := PrimFloat.sqrt;
  nabs := PrimFloat.abs;
  ngtb := λ x y, PrimFloat.ltb y x;
  neqb := PrimFloat.eqb;
|}.

(** Whether two JavaScript numbers are the same value is decidable on
    their specifications: [-0] is not [0], and there is one NaN. *)
#[export] Instance spec_float_eq_dec : EqDecision spec_float.
Proof. solve_decision. Defined.

#[export] Instance float_eq_dec : EqDecision float.
Proof.
  refine (λ a b, cast_if (decide (Prim2SF a = Prim2SF b)));
    [by apply Prim2SF_inj|congruence].
Defined.

(** ** Sanity of the instance on concrete values *)

Local Open Scope num_scope.

Example float_literals : (#24 : float) = 24%float ∧ (#0 : float) = 0%float.
Proof. by vm_compute. Qed.

(** A comparison with NaN is false, whichever side it is on. *)
Example float_gt_nan :
  (PrimFloat.nan >? #24) = false ∧ (#24 >? PrimFloat.nan) = false.
Proof. by vm_compute. Qed.

(** [0 === -0], and NaN is not [===] to itself. *)
Example float_eq_zero_nan :
  ((#0 : float) === PrimFloat.neg_zero) = true
  ∧ (PrimFloat.nan === PrimFloat.nan) = false.
Proof. by vm_compute. Qed.
