(* ===== verification/JSMap.v ===== *)
(** * JSMap: the [Map] that tracks the active pointers

    [activePointers] is an ECMAScript [Map<number, PointerEvent>].  Such a
    map iterates in insertion order, and [Array.from(m.values())] is what
    the hook destructures into the two fingers of a pinch: the order is
    part of the behaviour.  [JSMap.t V] is therefore the list of entries in
    insertion order; [set] overwrites an existing key in place and appends a
    new one, [delete] removes the entry.

    The file gives the operations the hook calls, the well-formedness
    invariant (no key twice) with its preservation by every operation, the
    insertion-order facts, and the refinement to stdpp's [gmap]: read
    through [to_gmap], the operations are the finite-map ones. *)

From S2P Require Import Prelude.
From stdpp Require Import gmap.

Module JSMap.

(** Entries, oldest first.  Keys are pointer ids. *)
Definition t (V : Type) : Type := list (Z * V).

Section ops.
Context {V : Type}.
Implicit Types (m : t V) (k : Z) (v : V).

(** [new Map()] *)
Definition empty : t V := [].

(** [m.has(k)] *)
Fixpoint has k m : bool :=
  match m with
  | [] => false
  | (k', _) :: m' => if decide (k = k') then true else has k m'
  end.

(** [m.get(k)] *)
Fixpoint get k m : option V :=
  match m with
  | [] => None
  | (k', v') :: m' => if decide (k = k') then Some v' else get k m'
  end.

(** [m.set(k, v)]: an existing key keeps its place. *)
Fixpoint set k v m : t V :=
  match m with
  | [] => [(k, v)]
  | (k', v') :: m' =>
      if decide (k = k') then (k, v) :: m' else (k', v') :: set k v m'
  end.

(** [m.delete(k)] *)
Fixpoint delete k m : t V :=
  match m with
  | [] => []
  | (k', v') :: m' => if decide (k = k') then m' else (k', v') :: delete k m'
  end.

(** [m.size] *)
Definition size m : nat := length m.

(** [Array.from(m.values())] and [Array.from(m.keys())] *)
Definition values m : list V := m.*2.
Definition keys m : list Z := m.*1.

(** No key twice. *)
Definition wf m : Prop := NoDup (keys m).

(** The finite map a [JSMap] stands for. *)
Definition to_gmap m : gmap Z V := list_to_map m.

End ops.

Section facts.
Context {V : Type}.
Implicit Types (m : t V) (k : Z) (v : V).

(** ** Membership *)

Lemma has_keys k m : has k m = true ↔ k ∈ keys m.
Proof.
  induction m as [|[k' v'] m IH]; simpl.
  - split; [done|]. by intros ?%elem_of_nil.
  - rewrite elem_of_cons, <-IH. case_decide; intuition congruence.
Qed.

Lemma has_false_keys k m : has k m = false ↔ k ∉ keys m.
Proof. rewrite <-has_keys. by destruct (has k m). Qed.

Lemma get_has k m : is_Some (get k m) ↔ has k m = true.
Proof.
  induction m as [|[k' v'] m IH]; simpl.
  - split; [by intros [??]|done].
  - case_decide; [|done]. split; eauto.
Qed.

(** ** [set] *)

Lemma keys_set_old k v m : has k m = true → keys (set k v m) = keys m.
Proof.
  induction m as [|[k' v'] m IH]; simpl; [done|].
  case_decide; subst; simpl; [done|]. intros ?. f_equal. by apply IH.
Qed.

Lemma set_new k v m : has k m = false → set k v m = m ++ [(k, v)].
Proof.
  induction m as [|[k' v'] m IH]; simpl; [done|].
  case_decide; [done|]. intros ?. f_equal. by apply IH.
Qed.

Lemma keys_set_new k v m : has k m = false → keys (set k v m) = keys m ++ [k].
Proof. intros ?. rewrite set_new by done. unfold keys. by rewrite fmap_app. Qed.

Lemma has_set k k' v m : has k' (set k v m) = bool_decide (k' = k) || has k' m.
Proof.
  induction m as [|[k0 v0] m IH]; simpl.
  - by repeat case_bool_decide; repeat case_decide.
  - repeat (case_decide; simpl); subst; rewrite ?IH;
      by repeat case_bool_decide.
Qed.

Lemma get_set k k' v m :
  get k' (set k v m) = if decide (k' = k) then Some v else get k' m.
Proof.
  induction m as [|[k0 v0] m IH]; simpl.
  - by repeat case_decide.
  - repeat (case_decide; simpl); subst; rewrite ?IH; by repeat case_decide.
Qed.

Lemma size_set k v m :
  size (set k v m) = if has k m then size m else S (size m).
Proof.
  induction m as [|[k' v'] m IH]; simpl; [done|].
  case_decide; simpl; [done|]. unfold size in *. rewrite IH. by destruct (has k m).
Qed.

(** ** [delete] *)

Lemma delete_absent k m : has k m = false → delete k m = m.
Proof.
  induction m as [|[k' v'] m IH]; simpl; [done|].
  case_decide; [done|]. intros ?. f_equal. by apply IH.
Qed.

(** Deleting what was just added gives the [Map] back, order included. *)
Lemma delete_set_new k v m : has k m = false → delete k (set k v m) = m.
Proof.
  induction m as [|[k' v'] m IH]; simpl; [by rewrite decide_True|].
  case_decide; [done|]. intros ?. simpl. rewrite decide_False by done. f_equal. by apply IH.
Qed.

Lemma size_delete k m :
  size (delete k m) = if has k m then pred (size m) else size m.
Proof.
  induction m as [|[k' v'] m IH]; simpl; [done|].
  case_decide; simpl; [done|]. unfold size in *. rewrite IH.
  destruct (has k m) eqn:E; [|done]. by destruct m.
Qed.

Lemma keys_delete_sublist k m : keys (delete k m) `sublist_of` keys m.
Proof.
  induction m as [|[k' v'] m IH]; simpl; [done|].
  case_decide; simpl; [by apply sublist_cons|by apply sublist_skip].
Qed.

Lemma has_delete k k' m :
  wf m → has k' (delete k m) = negb (bool_decide (k' = k)) && has k' m.
Proof.
  unfold wf. induction m as [|[k0 v0] m IH]; simpl.
  - by rewrite andb_false_r.
  - intros [Hk0 Hnd]%NoDup_cons.
    repeat (case_decide; simpl); subst; rewrite ?IH by done;
      repeat case_bool_decide; simpl; try done.
    by apply has_false_keys.
Qed.

(** ** The invariant *)

Lemma wf_empty : wf (@empty V).
Proof. apply NoDup_nil_2. Qed.

Lemma wf_set k v m : wf m → wf (set k v m).
Proof.
  unfold wf. intros Hnd. destruct (has k m) eqn:E.
  - by rewrite keys_set_old.
  - rewrite keys_set_new by done. apply NoDup_app. split_and!; [done| |apply NoDup_singleton].
    intros x Hx ->%list_elem_of_singleton. by apply has_false_keys in E.
Qed.

Lemma wf_delete k m : wf m → wf (delete k m).
Proof. unfold wf. intros. eapply sublist_NoDup; [done|apply keys_delete_sublist]. Qed.

(** ** Properties of all entries *)

Lemma Forall_set (P : Z * V → Prop) k v m : P (k, v) → Forall P m → Forall P (set k v m).
Proof.
  intros Hkv. induction 1 as [|[k' v'] m ? ? IH]; simpl; [by repeat constructor|].
  case_decide; by constructor.
Qed.

Lemma Forall_delete (P : Z * V → Prop) k m : Forall P m → Forall P (delete k m).
Proof.
  induction 1 as [|[k' v'] m ? ? IH]; simpl; [done|]. case_decide; [done|by constructor].
Qed.

Lemma size_set_old k v m : has k m = true → size (set k v m) = size m.
Proof. intros Hh. by rewrite size_set, Hh. Qed.

Lemma size_set_ge k v m : size m ≤ size (set k v m).
Proof. rewrite size_set. destruct (has k m); lia. Qed.

Lemma size_delete_ge k m : pred (size m) ≤ size (delete k m).
Proof. rewrite size_delete. destruct (has k m); lia. Qed.

End facts.

(** The facts that keep a map well-formed and its entries in a predicate,
    for [auto with jsmap]. *)
Create HintDb jsmap discriminated.
#[export] Hint Resolve wf_empty wf_set wf_delete Forall_set Forall_delete : jsmap.

(** ** Insertion order *)

Section order.
Context {V : Type}.
Implicit Types (m : t V) (k : Z) (v : V).

(** A new key goes last; an update changes one value and no position. *)
Lemma values_set_new k v m : has k m = false → values (set k v m) = values m ++ [v].
Proof. intros ?. rewrite set_new by done. unfold values. by rewrite fmap_app. Qed.

Lemma length_values m : length (values m) = size m.
Proof. unfold values, size. by rewrite length_fmap. Qed.

(** With two entries, [const [p1, p2] = Array.from(m.values())] binds both. *)
Lemma values_size_two m : size m = 2 → ∃ p1 p2, values m = [p1; p2].
Proof. destruct m as [|[??] [|[??] [|??]]]; simpl; intros; simplify_eq; eauto. Qed.

Lemma size_values_two m p1 p2 : values m = [p1; p2] → size m = 2.
Proof. intros Hv. by rewrite <-length_values, Hv. Qed.

Lemma values_set_old k v m i :
  keys m !! i = Some k →
  wf m → values (set k v m) = <[i := v]> (values m).
Proof.
  unfold wf. revert i. induction m as [|[k' v'] m IH]; intros i; simpl; [done|].
  intros Hi [Hk' Hnd]%NoDup_cons. destruct i as [|i]; simplify_eq/=.
  - by rewrite decide_True.
  - rewrite decide_False; [simpl; f_equal; by apply IH|].
    intros ->. apply Hk'. by eapply list_elem_of_lookup_2.
Qed.

End order.

(** ** Refinement: a [JSMap] read as a finite map *)

Section refinement.
Context {V : Type}.
Implicit Types (m : t V) (k : Z) (v : V).

Lemma to_gmap_lookup m k : to_gmap m !! k = get k m.
Proof.
  unfold to_gmap. induction m as [|[k' v'] m IH]; simpl; [done|].
  case_decide; subst; [by rewrite lookup_insert_eq|by rewrite lookup_insert_ne].
Qed.

Lemma to_gmap_empty : to_gmap (@empty V) = ∅.
Proof. done. Qed.

Lemma to_gmap_set k v m : to_gmap (set k v m) = <[k := v]> (to_gmap m).
Proof.
  apply map_eq; intros k'. rewrite lookup_insert, !to_gmap_lookup, get_set.
  by repeat case_decide.
Qed.

Lemma get_delete k k' m :
  wf m → get k' (delete k m) = if decide (k' = k) then None else get k' m.
Proof.
  unfold wf. induction m as [|[k0 v0] m IH]; simpl; [by case_decide|].
  intros [Hk0 Hnd]%NoDup_cons.
  repeat (case_decide; simpl); subst; rewrite ?IH by done;
    repeat case_decide; try done.
  apply eq_None_not_Some. rewrite get_has. by intros ?%has_keys.
Qed.

Lemma to_gmap_delete k m : wf m → to_gmap (delete k m) = base.delete k (to_gmap m).
Proof.
  intros. apply map_eq; intros k'.
  rewrite lookup_delete, !to_gmap_lookup, get_delete by done. by repeat case_decide.
Qed.

Lemma has_to_gmap k m : has k m = bool_decide (k ∈ dom (to_gmap m)).
Proof.
  case_bool_decide as Hk; rewrite elem_of_dom, to_gmap_lookup, get_has in Hk;
    [done|by apply not_true_is_false].
Qed.

Lemma size_to_gmap m : wf m → base.size (to_gmap m) = size m.
Proof. apply map_size_list_to_map. Qed.

Lemma values_to_gmap m : wf m → values m ≡ₚ (map_to_list (to_gmap m)).*2.
Proof. intros. unfold to_gmap. by rewrite map_to_list_to_map. Qed.

End refinement.

(** ** Maps with the same entries

    Two well-formed maps are [similar] when they hold the same entries,
    whatever the order in which these were inserted.  The relation is a
    partial equivalence (it is reflexive on the well-formed maps), and
    every operation of the map respects it: only [values] sees the order,
    and it sees it as a permutation. *)

Section similar.
Context {V : Type}.
Implicit Types (m : t V) (k : Z) (v : V).

Definition similar m1 m2 : Prop := wf m1 ∧ wf m2 ∧ to_gmap m1 = to_gmap m2.

Lemma similar_refl m : wf m → similar m m.
Proof. by intros ?. Qed.

(** A reordering of a well-formed map is similar to it. *)
Lemma similar_perm m1 m2 : wf m1 → m1 ≡ₚ m2 → similar m1 m2.
Proof.
  unfold similar, wf, keys, to_gmap. intros Hwf Hp. split_and!; [done| |].
  - by rewrite <-Hp.
  - by apply list_to_map_proper.
Qed.

#[export] Instance similar_per : RelationClasses.PER similar.
Proof.
  split.
  - intros m1 m2 (? & ? & ?). by split_and!.
  - intros m1 m2 m3 (? & ? & ?) (? & ? & ?). split_and!; [done..|congruence].
Qed.

#[export] Instance set_similar k v : Proper (similar ==> similar) (set k v).
Proof.
  intros m1 m2 (? & ? & Hg). split_and!; auto with jsmap.
  by rewrite !to_gmap_set, Hg.
Qed.

#[export] Instance delete_similar k : Proper (similar ==> similar) (delete k).
Proof.
  intros m1 m2 (? & ? & Hg). split_and!; auto with jsmap.
  by rewrite !to_gmap_delete, Hg.
Qed.

#[export] Instance has_similar k : Proper (similar ==> eq) (has k).
Proof. intros m1 m2 (? & ? & Hg). by rewrite !has_to_gmap, Hg. Qed.

#[export] Instance get_similar k : Proper (similar ==> eq) (get k).
Proof. intros m1 m2 (? & ? & Hg). by rewrite <-!to_gmap_lookup, Hg. Qed.

#[export] Instance size_similar : Proper (similar ==> eq) size.
Proof. intros m1 m2 (? & ? & Hg). by rewrite <-!size_to_gmap, Hg. Qed.

#[export] Instance values_similar : Proper (similar ==> (≡ₚ)) values.
Proof. intros m1 m2 (? & ? & Hg). by rewrite !values_to_gmap, Hg. Qed.

(** The two fingers of a pinch, read from similar maps, are the same two
    pointers, possibly in the other order. *)
Lemma similar_values_two m1 m2 p1 p2 :
  similar m1 m2 → values m1 = [p1; p2] →
  values m2 = [p1; p2] ∨ values m2 = [p2; p1].
Proof.
  intros Hs%values_similar Hv. rewrite Hv in Hs.
  by apply Permutation_length_2_inv.
Qed.

End similar.

(** ** What the map promises *)

Section theorems.
Context {V : Type}.
Implicit Types (m : t V) (k : Z) (v : V).


(** [set] keeps the insertion order: a key that is not in the map is
    appended after all entries, and a key that is in the map at position [i]
    keeps that position, only its value changing. *)
Theorem set_insertion_order m k v :
  wf m →
  (has k m = false → set k v m = m ++ [(k, v)])
  ∧ (∀ i, keys m !! i = Some k →
       keys (set k v m) = keys m ∧ values (set k v m) = <[i := v]> (values m)).
Proof.
  intros Hwf. split; [apply set_new|]. intros i Hi. split.
  - apply keys_set_old, has_keys. by eapply list_elem_of_lookup_2.
  - by apply values_set_old.
Qed.

End theorems.

(** The two theorems on the map [1 ↦ 10, 2 ↦ 20]. *)
Definition sample : t nat := [(1%Z, 10); (2%Z, 20)].


Lemma set_insertion_order_witness : values (set 1 11 sample) = [11; 20].
Proof.
  assert (Hwf : wf sample) by (by apply (bool_decide_unpack _)).
  exact (proj2 (proj2 (set_insertion_order sample 1 11 Hwf) 0 eq_refl)).
Defined.

End JSMap.
