(* ===== verification/Events.v ===== *)
(** * Events: what the hook receives and what it sends

    - [DOM]: the browser events the listeners receive.  [PointerEvent] and
      [WheelEvent] extend [MouseEvent], as in the DOM; the coercions let a
      handler read [e.(DOM.clientX)] or [e.(DOM.shiftKey)] of either.
    - The editor's event infos ([TLPinchEventInfo], [TLWheelEventInfo]) the
      hook builds and passes to [editor.dispatch].
    - [Editor]: the queries of the editor a handler makes; a value of the
      record is the editor as one handler run sees it.
    - [Host]: the helpers imported from outside the hook's file
      ([isAccelKey], [normalizeWheel]).
    - [Effect]: one call out of the hook, in call order. *)

From S2P Require Import Prelude Number.
From stdpp Require Import strings.

(** ** Vectors *)

(** The class [Vec] of the editor's primitives, as far as the hook uses it:
    two mutable coordinates. *)
Record Vec (N : Type) := mkVec { vec_x : N; vec_y : N }.
Arguments mkVec {N}.
Arguments vec_x {N}.
Arguments vec_y {N}.

(** [VecModel], the plain object [{ x, y, z? }] of the event infos. *)
Record VecModel (N : Type) := mkVecModel { x : N; y : N; z : option N }.
Arguments mkVecModel {N}.
Arguments x {N}.
Arguments y {N}.
Arguments z {N}.

(** ** Browser events *)

Module DOM.

Record MouseEvent (N : Type) := {
  clientX : N;
  clientY : N;
  shiftKey : bool;
  altKey : bool;
  ctrlKey : bool;
  metaKey : bool;
}.
Arguments clientX {N}.
Arguments clientY {N}.
Arguments shiftKey {N}.
Arguments altKey {N}.
Arguments ctrlKey {N}.
Arguments metaKey {N}.

Record PointerEvent (N : Type) := {
  pointerId : Z;
  pointer_mouse :> MouseEvent N;
}.
Arguments pointerId {N}.
Arguments pointer_mouse {N}.

Record WheelEvent (N : Type) := {
  deltaX : N;
  deltaY : N;
  deltaZ : N;
  deltaMode : Z;
  wheel_mouse :> MouseEvent N;
}.
Arguments deltaX {N}.
Arguments deltaY {N}.
Arguments deltaZ {N}.
Arguments deltaMode {N}.
Arguments wheel_mouse {N}.

End DOM.
Export (coercions) DOM.

(** ** The editor's events *)

Inductive TLPinchEventName := pinch_start | pinch | pinch_end.

#[export] Instance TLPinchEventName_eq_dec : EqDecision TLPinchEventName.
Proof. solve_decision. Defined.

(** The modifier keys every event info carries. *)
Record TLBaseEventInfo := {
  shiftKey : bool;
  altKey : bool;
  ctrlKey : bool;
  metaKey : bool;
  accelKey : bool;
}.

Record TLPinchEventInfo (N : Type) := {
  pinch_name : TLPinchEventName;
  pinch_point : VecModel N;
  pinch_delta : VecModel N;
  pinch_keys : TLBaseEventInfo;
}.
Arguments pinch_name {N}.
Arguments pinch_point {N}.
Arguments pinch_delta {N}.
Arguments pinch_keys {N}.

Record TLWheelEventInfo (N : Type) := {
  wheel_delta : VecModel N;
  wheel_point : Vec N;
  wheel_keys : TLBaseEventInfo;
}.
Arguments wheel_delta {N}.
Arguments wheel_point {N}.
Arguments wheel_keys {N}.

(** The [type] field of an info is the constructor. *)
Inductive TLEventInfo (N : Type) :=
| PinchInfo (info : TLPinchEventInfo N)
| WheelInfo (info : TLWheelEventInfo N).
Arguments PinchInfo {N}.
Arguments WheelInfo {N}.

(** ** The editor, as a handler queries it *)

Definition TLShapeId := string.

Record TLShape := { shape_id : TLShapeId; shape_type : string }.

(** Page-space bounds: the corner and the extent. *)
Record Box (N : Type) := { box_x : N; box_y : N; box_w : N; box_h : N }.
Arguments box_x {N}.
Arguments box_y {N}.
Arguments box_w {N}.
Arguments box_h {N}.

Record Editor (N : Type) := {
  getZoomLevel : N;                                (* editor.getZoomLevel() *)
  zoomSpeed : N;                                   (* editor.getCameraOptions().zoomSpeed *)
  isFocused : bool;                                (* editor.getInstanceState().isFocused *)
  getEditingShapeId : option TLShapeId;            (* editor.getEditingShapeId() *)
  getShape : TLShapeId → option TLShape;           (* editor.getShape(id) *)
  canScroll : TLShape → bool;                      (* editor.getShapeUtil(shape).canScroll(shape) *)
  getShapePageBounds : TLShapeId → option (Box N); (* editor.getShapePageBounds(id) *)
  currentPagePoint : Vec N;                        (* editor.inputs.currentPagePoint *)
}.
Arguments getZoomLevel {N}.
Arguments zoomSpeed {N}.
Arguments isFocused {N}.
Arguments getEditingShapeId {N}.
Arguments getShape {N}.
Arguments canScroll {N}.
Arguments getShapePageBounds {N}.
Arguments currentPagePoint {N}.

(** ** Helpers imported by the hook *)

Class Host (N : Type) := {
  (* [isAccelKey(e)]: the platform's primary modifier is held *)
  isAccelKey : DOM.MouseEvent N → bool;
  (* [normalizeWheel(e)]: the wheel deltas in the editor's units and signs *)
  normalizeWheel : DOM.WheelEvent N → VecModel N;
}.

(** ** Calls out of the hook *)

Inductive Effect (N : Type) :=
| Dispatch (info : TLEventInfo N)        (* editor.dispatch(info) *)
| PreventDefault                         (* preventDefault(e) *)
| StopEventPropagation.                  (* stopEventPropagation(e) *)
Arguments Dispatch {N}.
Arguments PreventDefault {N}.
Arguments StopEventPropagation {N}.

(** Whether two calls are the same is decidable when it is for the
    numbers. *)
Section decidable.
Context {N : Type} `{EqDecision N}.

#[export] Instance Vec_eq_dec : EqDecision (Vec N).
Proof. solve_decision. Defined.
#[export] Instance VecModel_eq_dec : EqDecision (VecModel N).
Proof. solve_decision. Defined.
#[export] Instance TLBaseEventInfo_eq_dec : EqDecision TLBaseEventInfo.
Proof. solve_decision. Defined.
#[export] Instance TLPinchEventInfo_eq_dec : EqDecision (TLPinchEventInfo N).
Proof. solve_decision. Defined.
#[export] Instance TLWheelEventInfo_eq_dec : EqDecision (TLWheelEventInfo N).
Proof. solve_decision. Defined.
#[export] Instance TLEventInfo_eq_dec : EqDecision (TLEventInfo N).
Proof. solve_decision. Defined.
#[export] Instance Effect_eq_dec : EqDecision (Effect N).
Proof. solve_decision. Defined.

End decidable.

Section events.
Context {N : Type} `{Number N, Host N}.
Local Open Scope num_scope.

(** The modifier fields every info of the hook is built with:
    [ctrlKey] is [e.metaKey || e.ctrlKey]. *)
Definition eventKeys (e : DOM.MouseEvent N) : TLBaseEventInfo := {|
  shiftKey := e.(DOM.shiftKey);
  altKey := e.(DOM.altKey);
  ctrlKey := e.(DOM.metaKey) || e.(DOM.ctrlKey);
  metaKey := e.(DOM.metaKey);
  accelKey := isAccelKey e;
|}.

(** [bounds.containsPoint(p)]: the point is within the bounds, borders
    included. *)
Definition containsPoint (b : Box N) (p : Vec N) : bool :=
  negb ((b.(box_x) >? p.(vec_x))
        || (b.(box_y) >? p.(vec_y))
        || (p.(vec_x) >? b.(box_x) + b.(box_w))
        || (p.(vec_y) >? b.(box_y) + b.(box_h))).

(** The infos that were dispatched, among the calls. *)
Definition dispatched (ws : list (Effect N)) : list (TLEventInfo N) :=
  omap (λ w, match w with Dispatch i => Some i | _ => None end) ws.

(** The pinch infos with a given name, among the calls. *)
Definition pinches (n : TLPinchEventName) (ws : list (Effect N)) : list (TLPinchEventInfo N) :=
  omap (λ i, match i with
             | PinchInfo p => if decide (p.(pinch_name) = n) then Some p else None
             | _ => None
             end) (dispatched ws).

End events.
