(* ===== verification/Samples.v ===== *)
(** * Samples: concrete events, editors and a host on JavaScript numbers

    The inputs on which the theorems of the development are instantiated:
    every witness evaluates the handlers on [float], the numbers of the
    program.  Nothing here models code of the hook. *)

From S2P Require Import Prelude Number Events.
From Stdlib Require Import Floats.
From stdpp Require Import strings.

(** A host as on a non-Apple platform: the accelerator key is Control (or
    Meta), and the wheel deltas are negated. *)
#[export] Instance sampleHost : Host float := {|
  isAccelKey := λ e, e.(DOM.ctrlKey) || e.(DOM.metaKey);
  normalizeWheel := λ w,
    mkVecModel (PrimFloat.opp w.(DOM.deltaX)) (PrimFloat.opp w.(DOM.deltaY)) None;
|}.

(** A mouse event at [(px, py)] with no modifier key held. *)
Definition mouseAt (px py : float) : DOM.MouseEvent float := {|
  DOM.clientX := px; DOM.clientY := py;
  DOM.shiftKey := false; DOM.altKey := false;
  DOM.ctrlKey := false; DOM.metaKey := false;
|}.

(** The pointer [id] at [(px, py)]. *)
Definition finger (id : Z) (px py : float) : DOM.PointerEvent float :=
  {| DOM.pointerId := id; DOM.pointer_mouse := mouseAt px py |}.

(** A wheel event at [(px, py)] with the raw deltas [(dx, dy)]. *)
Definition wheelAt (px py dx dy : float) : DOM.WheelEvent float := {|
  DOM.deltaX := dx; DOM.deltaY := dy; DOM.deltaZ := 0%float; DOM.deltaMode := 0;
  DOM.wheel_mouse := mouseAt px py;
|}.

(** A focused editor at zoom [zm] with the zoom speed [speed], editing no
    shape. *)
Definition editorAt (zm speed : float) : Editor float := {|
  getZoomLevel := zm;
  zoomSpeed := speed;
  isFocused := true;
  getEditingShapeId := None;
  getShape := λ _, None;
  canScroll := λ _, false;
  getShapePageBounds := λ _, None;
  currentPagePoint := mkVec 0%float 0%float;
|}.

(** A focused editor editing a scrollable shape with the page bounds
    [(0, 0, 100, 100)], the pointer being at the page point [(px, py)]. *)
Definition editorEditing (px py : float) : Editor float := {|
  getZoomLevel := 1%float;
  zoomSpeed := 1%float;
  isFocused := true;
  getEditingShapeId := Some "shape:note";
  getShape := λ id, Some {| shape_id := id; shape_type := "note" |};
  canScroll := λ _, true;
  getShapePageBounds := λ _,
    Some {| box_x := 0%float; box_y := 0%float; box_w := 100%float; box_h := 100%float |};
  currentPagePoint := mkVec px py;
|}.

(** An editor that does not have the focus. *)
Definition editorBlurred : Editor float := {|
  getZoomLevel := 1%float;
  zoomSpeed := 1%float;
  isFocused := false;
  getEditingShapeId := None;
  getShape := λ _, None;
  canScroll := λ _, false;
  getShapePageBounds := λ _, None;
  currentPagePoint := mkVec 0%float 0%float;
|}.

(** The samples are what they are meant to be. *)
Example sample_keys :
  eventKeys (mouseAt 1 2) = {| shiftKey := false; altKey := false; ctrlKey := false;
                               metaKey := false; accelKey := false |}.
Proof. reflexivity. Qed.
