(* ===== verification/Pinch.v ===== *)
(** * Pinch: the variables of the hook and the pinch classifier

    - [State]: the variables the effect of [useDomCanvasEvents] closes over
      ([activePointers], [pinchState], the distances, the zoom and the two
      centre points), with the callbacks the hook has handed to
      [editor.timers.requestAnimationFrame] and that have not run yet.
    - [getPointerDistance], [getPointerCenter]: the geometry of two pointers.
    - [nextPinchState], [updatePinchState]: the decision between zooming and
      panning, with its thresholds (24, 16 and 64 pixels).

    The theorems of this file are about the classifier alone: which state it
    moves to on which measurements, that it never moves down in the order
    [not_sure < panning < zooming], and that it touches no other variable. *)

From S2P Require Import Prelude Number JSMap Events.

(** ** State *)

(** ['not sure' | 'zooming' | 'panning'] *)
Inductive PinchState := not_sure | zooming | panning.

#[export] Instance PinchState_eq_dec : EqDecision PinchState.
Proof. solve_decision. Defined.

(** A callback waiting for the next animation frame: the closure of the
    arrow function in [onPointerUp], which captures the event [e] and
    [finalZoom]. *)
Record FrameCallback (N : Type) := {
  frame_event : DOM.PointerEvent N;
  frame_finalZoom : N;
}.
Arguments frame_event {N}.
Arguments frame_finalZoom {N}.

Record State (N : Type) := {
  activePointers : JSMap.t (DOM.PointerEvent N);
  pinchState : PinchState;
  initDistanceBetweenFingers : N;
  initZoom : N;
  currDistanceBetweenFingers : N;
  initPointBetweenFingers : Vec N;
  prevPointBetweenFingers : Vec N;
  animationFrames : list (FrameCallback N);
}.
Arguments activePointers {N}.
Arguments pinchState {N}.
Arguments initDistanceBetweenFingers {N}.
Arguments initZoom {N}.
Arguments currDistanceBetweenFingers {N}.
Arguments initPointBetweenFingers {N}.
Arguments prevPointBetweenFingers {N}.
Arguments animationFrames {N}.

(** A handler: it reads the editor, updates the state, and calls out. *)
Abbreviation Hook N := (RSW (Editor N) (State N) (Effect N)).

Section state.
Context {N : Type}.
Implicit Types (s : State N).

(** Assignments to one variable. *)
Definition set_activePointers (f : JSMap.t (DOM.PointerEvent N) → JSMap.t (DOM.PointerEvent N)) s : State N :=
  {| activePointers := f s.(activePointers);
     pinchState := s.(pinchState);
     initDistanceBetweenFingers := s.(initDistanceBetweenFingers);
     initZoom := s.(initZoom);
     currDistanceBetweenFingers := s.(currDistanceBetweenFingers);
     initPointBetweenFingers := s.(initPointBetweenFingers);
     prevPointBetweenFingers := s.(prevPointBetweenFingers);
     animationFrames := s.(animationFrames) |}.

Definition set_pinchState (v : PinchState) s : State N :=
  {| activePointers := s.(activePointers);
     pinchState := v;
     initDistanceBetweenFingers := s.(initDistanceBetweenFingers);
     initZoom := s.(initZoom);
     currDistanceBetweenFingers := s.(currDistanceBetweenFingers);
     initPointBetweenFingers := s.(initPointBetweenFingers);
     prevPointBetweenFingers := s.(prevPointBetweenFingers);
     animationFrames := s.(animationFrames) |}.

Definition set_initDistanceBetweenFingers (v : N) s : State N :=
  {| activePointers := s.(activePointers);
     pinchState := s.(pinchState);
     initDistanceBetweenFingers := v;
     initZoom := s.(initZoom);
     currDistanceBetweenFingers := s.(currDistanceBetweenFingers);
     initPointBetweenFingers := s.(initPointBetweenFingers);
     prevPointBetweenFingers := s.(prevPointBetweenFingers);
     animationFrames := s.(animationFrames) |}.

Definition set_initZoom (v : N) s : State N :=
  {| activePointers := s.(activePointers);
     pinchState := s.(pinchState);
     initDistanceBetweenFingers := s.(initDistanceBetweenFingers);
     initZoom := v;
     currDistanceBetweenFingers := s.(currDistanceBetweenFingers);
     initPointBetweenFingers := s.(initPointBetweenFingers);
     prevPointBetweenFingers := s.(prevPointBetweenFingers);
     animationFrames := s.(animationFrames) |}.

Definition set_currDistanceBetweenFingers (v : N) s : State N :=
  {| activePointers := s.(activePointers);
     pinchState := s.(pinchState);
     initDistanceBetweenFingers := s.(initDistanceBetweenFingers);
     initZoom := s.(initZoom);
     currDistanceBetweenFingers := v;
     initPointBetweenFingers := s.(initPointBetweenFingers);
     prevPointBetweenFingers := s.(prevPointBetweenFingers);
     animationFrames := s.(animationFrames) |}.

Definition set_initPointBetweenFingers (v : Vec N) s : State N :=
  {| activePointers := s.(activePointers);
     pinchState := s.(pinchState);
     initDistanceBetweenFingers := s.(initDistanceBetweenFingers);
     initZoom := s.(initZoom);
     currDistanceBetweenFingers := s.(currDistanceBetweenFingers);
     initPointBetweenFingers := v;
     prevPointBetweenFingers := s.(prevPointBetweenFingers);
     animationFrames := s.(animationFrames) |}.

Definition set_prevPointBetweenFingers (v : Vec N) s : State N :=
  {| activePointers := s.(activePointers);
     pinchState := s.(pinchState);
     initDistanceBetweenFingers := s.(initDistanceBetweenFingers);
     initZoom := s.(initZoom);
     currDistanceBetweenFingers := s.(currDistanceBetweenFingers);
     initPointBetweenFingers := s.(initPointBetweenFingers);
     prevPointBetweenFingers := v;
     animationFrames := s.(animationFrames) |}.

Definition set_animationFrames (f : list (FrameCallback N) → list (FrameCallback N)) s : State N :=
  {| activePointers := s.(activePointers);
     pinchState := s.(pinchState);
     initDistanceBetweenFingers := s.(initDistanceBetweenFingers);
     initZoom := s.(initZoom);
     currDistanceBetweenFingers := s.(currDistanceBetweenFingers);
     initPointBetweenFingers := s.(initPointBetweenFingers);
     prevPointBetweenFingers := s.(prevPointBetweenFingers);
     animationFrames := f s.(animationFrames) |}.

End state.

(** [hook_run] evaluates a handler as far as its tests allow and reads the
    variables through the assignments. *)
Ltac state_simpl :=
  cbn [activePointers pinchState initDistanceBetweenFingers initZoom
       currDistanceBetweenFingers initPointBetweenFingers
       prevPointBetweenFingers animationFrames
       set_activePointers set_pinchState set_initDistanceBetweenFingers
       set_initZoom set_currDistanceBetweenFingers
       set_initPointBetweenFingers set_prevPointBetweenFingers
       set_animationFrames app negb andb orb].
Ltac hook_run := rsw_run; state_simpl.

Section pinch.
Context {N : Type} `{Number N}.
Local Open Scope num_scope.

(** The variables as the effect declares them. *)
Definition initialState : State N := {|
  activePointers := JSMap.empty;
  pinchState := not_sure;
  initDistanceBetweenFingers := #1;
  initZoom := #1;
  currDistanceBetweenFingers := #0;
  initPointBetweenFingers := mkVec #0 #0;
  prevPointBetweenFingers := mkVec #0 #0;
  animationFrames := [];
|}.

(** ** Geometry *)

Definition getPointerDistance (p1 p2 : DOM.PointerEvent N) : N :=
  let dx := p1.(DOM.clientX) - p2.(DOM.clientX) in
  let dy := p1.(DOM.clientY) - p2.(DOM.clientY) in
  nsqrt (dx * dx + dy * dy).

Definition getPointerCenter (p1 p2 : DOM.PointerEvent N) : Vec N :=
  mkVec ((p1.(DOM.clientX) + p2.(DOM.clientX)) / #2)
        ((p1.(DOM.clientY) + p2.(DOM.clientY)) / #2).

(** [Vec.Dist(A, B)]: the Euclidean distance of two points. *)
Definition Vec_Dist (A B : Vec N) : N :=
  let dx := A.(vec_x) - B.(vec_x) in
  let dy := A.(vec_y) - B.(vec_y) in
  nsqrt (dx * dx + dy * dy).

(** ** The classifier *)

(** The [switch] of [updatePinchState]: the next state from the current one,
    the change of the fingers' distance and the drift of their centre. *)
Definition nextPinchState (st : PinchState) (touchDistance originDistance : N) : PinchState :=
  match st with
  | not_sure =>
      if touchDistance >? #24 then zooming
      else if originDistance >? #16 then panning
      else not_sure
  | panning => if touchDistance >? #64 then zooming else panning
  | zooming => zooming
  end.

Definition touchDistance (s : State N) : N :=
  nabs (s.(currDistanceBetweenFingers) - s.(initDistanceBetweenFingers)).

Definition originDistance (s : State N) : N :=
  Vec_Dist s.(initPointBetweenFingers) s.(prevPointBetweenFingers).

Definition updatePinchState : Hook N unit :=
  s ← get;
  if decide (s.(pinchState) = zooming) then mret tt
  else modify (set_pinchState (nextPinchState s.(pinchState) (touchDistance s) (originDistance s))).

(** The order in which the classifier may move. *)
Definition rank (st : PinchState) : nat :=
  match st with not_sure => 0 | panning => 1 | zooming => 2 end.

End pinch.

(** ** The classifier: what it decides *)

Section classifier_facts.
Context {N : Type} `{Number N}.
Implicit Types (st : PinchState) (t o : N) (s : State N) (ed : Editor N).
Local Open Scope num_scope.

(** Assigning a variable its own value changes nothing. *)
Lemma set_pinchState_id s : set_pinchState s.(pinchState) s = s.
Proof. by destruct s. Qed.

Lemma pinchState_set_pinchState st s : (set_pinchState st s).(pinchState) = st.
Proof. done. Qed.

Lemma exec_updatePinchState ed s :
  exec updatePinchState ed s
    = set_pinchState (nextPinchState s.(pinchState) (touchDistance s) (originDistance s)) s.
Proof.
  unfold updatePinchState. hook_run. case_decide as Hz; [|done].
  destruct s; simpl in *; by subst.
Qed.

Lemma outputs_updatePinchState ed s : outputs updatePinchState ed s = [].
Proof. unfold updatePinchState. hook_run. by case_decide. Qed.

(** The moves of the classifier out of ['not sure'] and out of panning. *)
Lemma not_sure_zooming t o : nextPinchState not_sure t o = zooming ↔ (t >? #24) = true.
Proof. simpl. destruct (t >? #24), (o >? #16); intuition congruence. Qed.

Lemma not_sure_panning t o :
  nextPinchState not_sure t o = panning ↔ (t >? #24) = false ∧ (o >? #16) = true.
Proof. simpl. destruct (t >? #24), (o >? #16); intuition congruence. Qed.

Lemma not_sure_stays t o :
  nextPinchState not_sure t o = not_sure ↔ (t >? #24) = false ∧ (o >? #16) = false.
Proof. simpl. destruct (t >? #24), (o >? #16); intuition congruence. Qed.

Lemma panning_zooming t o : nextPinchState panning t o = zooming ↔ (t >? #64) = true.
Proof. simpl. destruct (t >? #64); intuition congruence. Qed.

Lemma panning_stays t o : nextPinchState panning t o = panning ↔ (t >? #64) = false.
Proof. simpl. destruct (t >? #64); intuition congruence. Qed.

(** C14. The thresholds of the classifier.  From ['not sure'] it moves to
    zooming exactly when the fingers' distance changed by more than 24, to
    panning exactly when it did not and the centre drifted by more than 16,
    and stays otherwise.  From panning it moves to zooming exactly when
    the distance changed by more than 64 and keeps panning otherwise: it
    never returns to ['not sure'].  Zooming stays zooming. *)
Theorem classifier_thresholds t o :
  ((nextPinchState not_sure t o = zooming ↔ (t >? #24) = true)
   ∧ (nextPinchState not_sure t o = panning ↔ (t >? #24) = false ∧ (o >? #16) = true)
   ∧ (nextPinchState not_sure t o = not_sure ↔ (t >? #24) = false ∧ (o >? #16) = false))
  ∧ ((nextPinchState panning t o = zooming ↔ (t >? #64) = true)
     ∧ (nextPinchState panning t o = panning ↔ (t >? #64) = false)
     ∧ nextPinchState panning t o ≠ not_sure)
  ∧ nextPinchState zooming t o = zooming.
Proof.
  split_and!; [apply not_sure_zooming|apply not_sure_panning|apply not_sure_stays
              |apply panning_zooming|apply panning_stays| |done].
  simpl. by destruct (t >? #64).
Qed.

Lemma nextPinchState_rank st t o : rank st ≤ rank (nextPinchState st t o).
Proof. destruct st; simpl; repeat case_scrutinee; simpl; lia. Qed.

(** [updatePinchState] assigns [pinchState] the classifier's decision
    on the two measurements and calls nothing: its early return when
    zooming is the classifier's own fixed point, so the guard changes no
    result. *)
Theorem updatePinchState_spec ed s :
  exec updatePinchState ed s
    = set_pinchState (nextPinchState s.(pinchState) (touchDistance s) (originDistance s)) s
  ∧ outputs updatePinchState ed s = [].
Proof. split; [apply exec_updatePinchState|apply outputs_updatePinchState]. Qed.

(** A run of [updatePinchState] never moves [pinchState] down in the
    order ['not sure' < panning < zooming]; in particular zooming is kept. *)
Lemma updatePinchState_monotone ed s :
  rank s.(pinchState) ≤ rank (exec updatePinchState ed s).(pinchState).
Proof. rewrite exec_updatePinchState. apply nextPinchState_rank. Qed.

End classifier_facts.
