(* ===== verification/Handlers.v ===== *)
(** * Handlers: the five listeners of the hook

    [onPointerDown], [onPointerMove], [onPointerUp] (also the listener of
    [pointercancel]) and [onWheel], written in the [Hook] monad statement by
    statement, and the callback [onPointerUp] defers to the next animation
    frame.  An early [return] of the source is the [then] branch of an [if]
    whose [else] branch is the rest of the function. *)

From S2P Require Import Prelude Number JSMap Events Samples Pinch.
From stdpp Require Import strings.
From Stdlib Require Import Floats.

Section handlers.
Context {N : Type} `{Number N, Host N}.
Local Open Scope num_scope.

(** The object literal of a pinch info. *)
Definition pinchInfo (name : TLPinchEventName) (point delta : VecModel N)
    (e : DOM.MouseEvent N) : TLEventInfo N :=
  PinchInfo {| pinch_name := name; pinch_point := point; pinch_delta := delta;
               pinch_keys := eventKeys e |}.

(** [editor.timers.requestAnimationFrame(cb)]: [cb] runs after the
    callbacks requested before it. *)
Definition requestAnimationFrame (cb : FrameCallback N) : Hook N unit :=
  modify (set_animationFrames (λ q, q ++ [cb])).

(** ** pointerdown *)

Definition onPointerDown (e : DOM.PointerEvent N) : Hook N unit :=
  modify (set_activePointers (JSMap.set e.(DOM.pointerId) e)) ;;
  s ← get;
  if decide (JSMap.size s.(activePointers) = 2) then
    match JSMap.values s.(activePointers) with
    | p1 :: p2 :: _ =>
        let center := getPointerCenter p1 p2 in
        modify (set_pinchState not_sure) ;;
        modify (set_prevPointBetweenFingers (mkVec center.(vec_x) center.(vec_y))) ;;
        modify (set_initPointBetweenFingers (mkVec center.(vec_x) center.(vec_y))) ;;
        modify (set_initDistanceBetweenFingers (getPointerDistance p1 p2)) ;;
        ed ← ask;
        modify (set_initZoom ed.(getZoomLevel)) ;;
        tell (Dispatch (pinchInfo pinch_start
                (mkVecModel center.(vec_x) center.(vec_y) (Some ed.(getZoomLevel)))
                (mkVecModel #0 #0 None) e))
    | _ => mret tt
    end
  else mret tt.

(** ** pointermove *)

Definition onPointerMove (e : DOM.PointerEvent N) : Hook N unit :=
  s ← get;
  if negb (JSMap.has e.(DOM.pointerId) s.(activePointers)) then mret tt else
  modify (set_activePointers (JSMap.set e.(DOM.pointerId) e)) ;;
  s ← get;
  if decide (JSMap.size s.(activePointers) = 2) then
    match JSMap.values s.(activePointers) with
    | p1 :: p2 :: _ =>
        let center := getPointerCenter p1 p2 in
        modify (set_currDistanceBetweenFingers (getPointerDistance p1 p2)) ;;
        s ← get;
        let dx := center.(vec_x) - s.(prevPointBetweenFingers).(vec_x) in
        let dy := center.(vec_y) - s.(prevPointBetweenFingers).(vec_y) in
        modify (set_prevPointBetweenFingers (mkVec center.(vec_x) center.(vec_y))) ;;
        updatePinchState ;;
        s ← get;
        ed ← ask;
        match s.(pinchState) with
        | zooming =>
            let scale := s.(currDistanceBetweenFingers) / s.(initDistanceBetweenFingers) in
            let currZoom := s.(initZoom) * scale ** ed.(zoomSpeed) in
            tell (Dispatch (pinchInfo pinch
                    (mkVecModel center.(vec_x) center.(vec_y) (Some currZoom))
                    (mkVecModel dx dy None) e))
        | panning =>
            tell (Dispatch (pinchInfo pinch
                    (mkVecModel center.(vec_x) center.(vec_y) (Some s.(initZoom)))
                    (mkVecModel dx dy None) e))
        | not_sure => mret tt
        end
    | _ => mret tt
    end
  else mret tt.

(** ** pointerup and pointercancel *)

(** The deferred arrow function: it reads [prevPointBetweenFingers] when it
    runs, and [e] and [finalZoom] as they were when it was created. *)
Definition pinchEndCallback (cb : FrameCallback N) : Hook N unit :=
  s ← get;
  let prev := s.(prevPointBetweenFingers) in
  tell (Dispatch (pinchInfo pinch_end
          (mkVecModel prev.(vec_x) prev.(vec_y) (Some cb.(frame_finalZoom)))
          (mkVecModel prev.(vec_x) prev.(vec_y) None) cb.(frame_event))).

Definition onPointerUp (e : DOM.PointerEvent N) : Hook N unit :=
  s ← get;
  (if decide (JSMap.size s.(activePointers) = 2) then
     ed ← ask;
     let scale := s.(currDistanceBetweenFingers) / s.(initDistanceBetweenFingers) in
     let finalZoom := s.(initZoom) * scale ** ed.(zoomSpeed) in
     modify (set_pinchState not_sure) ;;
     requestAnimationFrame {| frame_event := e; frame_finalZoom := finalZoom |}
   else mret tt) ;;
  modify (set_activePointers (JSMap.delete e.(DOM.pointerId))).

(** The next animation frame: the pending callbacks run in the order they
    were requested, and the queue is empty afterwards. *)
Definition onAnimationFrame : Hook N unit :=
  s ← get;
  modify (set_animationFrames (λ _, [])) ;;
  rsw_iter pinchEndCallback s.(animationFrames).

(** ** wheel *)

(** The wheel event is over the shape being edited, and that shape scrolls:
    the condition under which [onWheel] leaves the event to the browser.
    An id that is the empty string is falsy, and [bounds?.containsPoint] of
    missing bounds is [undefined]. *)
Definition scrollsEditingShape (ed : Editor N) : bool :=
  match ed.(getEditingShapeId) with
  | Some editingShapeId =>
      if decide (editingShapeId = "") then false else
      match ed.(getShape) editingShapeId with
      | Some shape =>
          if ed.(canScroll) shape then
            match ed.(getShapePageBounds) editingShapeId with
            | Some bounds => containsPoint bounds ed.(currentPagePoint)
            | None => false
            end
          else false
      | None => false
      end
  | None => false
  end.

Definition onWheel (e : DOM.WheelEvent N) : Hook N unit :=
  ed ← ask;
  if negb ed.(isFocused) then mret tt else
  modify (set_pinchState not_sure) ;;
  if scrollsEditingShape ed then mret tt else
  tell PreventDefault ;;
  tell StopEventPropagation ;;
  let delta := normalizeWheel e in
  if (delta.(x) === #0) && (delta.(y) === #0) then mret tt else
  tell (Dispatch (WheelInfo {|
    wheel_delta := delta;
    wheel_point := mkVec e.(DOM.clientX) e.(DOM.clientY);
    wheel_keys := eventKeys e |})).

End handlers.

(** ** What each handler does, branch by branch *)

Section handler_facts.
Context {N : Type} `{Number N, Host N}.
Implicit Types (s : State N) (ed : Editor N) (e : DOM.PointerEvent N).
Local Open Scope num_scope.

(** The state after a [pointerdown] that makes two pointers active. *)
Definition pinchStarted ed (p1 p2 : DOM.PointerEvent N) s : State N := {|
  activePointers := s.(activePointers);
  pinchState := not_sure;
  initDistanceBetweenFingers := getPointerDistance p1 p2;
  initZoom := ed.(getZoomLevel);
  currDistanceBetweenFingers := s.(currDistanceBetweenFingers);
  initPointBetweenFingers := getPointerCenter p1 p2;
  prevPointBetweenFingers := getPointerCenter p1 p2;
  animationFrames := s.(animationFrames);
|}.

Lemma onPointerDown_two ed e s p1 p2 :
  JSMap.values (JSMap.set e.(DOM.pointerId) e s.(activePointers)) = [p1; p2] →
  onPointerDown e ed s
    = (tt,
       pinchStarted ed p1 p2 (set_activePointers (JSMap.set e.(DOM.pointerId) e) s),
       [Dispatch (pinchInfo pinch_start
          (mkVecModel (getPointerCenter p1 p2).(vec_x) (getPointerCenter p1 p2).(vec_y)
                      (Some ed.(getZoomLevel)))
          (mkVecModel #0 #0 None) e)]).
Proof.
  intros Hv. unfold onPointerDown. hook_run.
  rewrite decide_True by eauto using JSMap.size_values_two. by rewrite Hv.
Qed.

Lemma onPointerDown_other ed e s :
  JSMap.size (JSMap.set e.(DOM.pointerId) e s.(activePointers)) ≠ 2 →
  onPointerDown e ed s = (tt, set_activePointers (JSMap.set e.(DOM.pointerId) e) s, []).
Proof.
  intros Hn. unfold onPointerDown. hook_run. by rewrite decide_False.
Qed.

(** The zoom the hook reports for the current distance of the fingers:
    [initZoom * (curr / init) ** zoomSpeed]. *)
Definition zoomOf ed s : N :=
  s.(initZoom)
  * (s.(currDistanceBetweenFingers) / s.(initDistanceBetweenFingers)) ** ed.(zoomSpeed).

(** The state after a [pointermove] of one of two active pointers, before
    and after the classifier has run. *)
Definition pinchMeasured (p1 p2 : DOM.PointerEvent N) s : State N :=
  set_prevPointBetweenFingers (getPointerCenter p1 p2)
    (set_currDistanceBetweenFingers (getPointerDistance p1 p2) s).

Definition pinchMoved (p1 p2 : DOM.PointerEvent N) s : State N :=
  let s1 := pinchMeasured p1 p2 s in
  set_pinchState (nextPinchState s1.(pinchState) (touchDistance s1) (originDistance s1)) s1.

(** The [pinch] info of a [pointermove], with the zoom [zm]. *)
Definition pinchUpdate e (p1 p2 : DOM.PointerEvent N) s (zm : N) : Effect N :=
  let center := getPointerCenter p1 p2 in
  Dispatch (pinchInfo pinch
    (mkVecModel center.(vec_x) center.(vec_y) (Some zm))
    (mkVecModel (center.(vec_x) - s.(prevPointBetweenFingers).(vec_x))
                (center.(vec_y) - s.(prevPointBetweenFingers).(vec_y)) None) e).

Lemma vec_eta (v : Vec N) : mkVec v.(vec_x) v.(vec_y) = v.
Proof. by destruct v. Qed.

Lemma onPointerMove_untracked ed e s :
  JSMap.has e.(DOM.pointerId) s.(activePointers) = false →
  onPointerMove e ed s = (tt, s, []).
Proof. intros Hh. unfold onPointerMove. hook_run. by rewrite Hh. Qed.

Lemma onPointerMove_other ed e s :
  JSMap.has e.(DOM.pointerId) s.(activePointers) = true →
  JSMap.size (JSMap.set e.(DOM.pointerId) e s.(activePointers)) ≠ 2 →
  onPointerMove e ed s = (tt, set_activePointers (JSMap.set e.(DOM.pointerId) e) s, []).
Proof.
  intros Hh Hn. unfold onPointerMove. hook_run. rewrite Hh; hook_run.
  by rewrite decide_False.
Qed.

Lemma onPointerMove_two ed e s p1 p2 :
  JSMap.has e.(DOM.pointerId) s.(activePointers) = true →
  JSMap.values (JSMap.set e.(DOM.pointerId) e s.(activePointers)) = [p1; p2] →
  let s' := pinchMoved p1 p2 (set_activePointers (JSMap.set e.(DOM.pointerId) e) s) in
  onPointerMove e ed s
    = (tt, s',
       match s'.(pinchState) with
       | zooming => [pinchUpdate e p1 p2 s (zoomOf ed s')]
       | panning => [pinchUpdate e p1 p2 s s'.(initZoom)]
       | not_sure => []
       end).
Proof.
  intros Hh Hv s'. unfold onPointerMove. hook_run. rewrite Hh; hook_run.
  rewrite decide_True by eauto using JSMap.size_values_two. rewrite Hv; hook_run.
  rewrite (run_eta updatePinchState), exec_updatePinchState, outputs_updatePinchState.
  rewrite !vec_eta. subst s'. unfold pinchMoved, pinchMeasured. cbv zeta.
  match goal with |- context [nextPinchState ?a ?b ?c] => by destruct (nextPinchState a b c) end.
Qed.

(** The callback [onPointerUp] requests. *)
Definition pinchEndFrame ed e s : FrameCallback N :=
  {| frame_event := e; frame_finalZoom := zoomOf ed s |}.

Lemma onPointerUp_two ed e s :
  JSMap.size s.(activePointers) = 2 →
  onPointerUp e ed s
    = (tt,
       set_activePointers (JSMap.delete e.(DOM.pointerId))
         (set_animationFrames (λ q, q ++ [pinchEndFrame ed e s])
            (set_pinchState not_sure s)),
       []).
Proof. intros Hn. unfold onPointerUp, requestAnimationFrame. hook_run. by rewrite decide_True. Qed.

Lemma onPointerUp_other ed e s :
  JSMap.size s.(activePointers) ≠ 2 →
  onPointerUp e ed s = (tt, set_activePointers (JSMap.delete e.(DOM.pointerId)) s, []).
Proof. intros Hn. unfold onPointerUp. hook_run. by rewrite decide_False. Qed.

(** The [pinch_end] info a callback dispatches when it runs in state [s]. *)
Definition pinchEnd (cb : FrameCallback N) s : Effect N :=
  let prev := s.(prevPointBetweenFingers) in
  Dispatch (pinchInfo pinch_end
    (mkVecModel prev.(vec_x) prev.(vec_y) (Some cb.(frame_finalZoom)))
    (mkVecModel prev.(vec_x) prev.(vec_y) None) cb.(frame_event)).

Lemma pinchEndCallback_run cb ed s : pinchEndCallback cb ed s = (tt, s, [pinchEnd cb s]).
Proof. done. Qed.

Lemma iter_pinchEndCallback cbs ed s :
  exec (rsw_iter pinchEndCallback cbs) ed s = s
  ∧ outputs (rsw_iter pinchEndCallback cbs) ed s = (λ cb, pinchEnd cb s) <$> cbs.
Proof.
  induction cbs as [|cb cbs [IHe IHo]]; [done|]. autorewrite with rsw.
  change (exec (pinchEndCallback cb) ed s) with s. by rewrite IHe, IHo.
Qed.

Lemma onAnimationFrame_run ed s :
  onAnimationFrame ed s
    = (tt, set_animationFrames (λ _, []) s, (λ cb, pinchEnd cb s) <$> s.(animationFrames)).
Proof.
  rewrite run_eta. unfold onAnimationFrame. autorewrite with rsw.
  destruct (iter_pinchEndCallback s.(animationFrames) ed
              (set_animationFrames (λ _, []) s)) as [He Ho].
  f_equal; [f_equal|]; [by destruct (result _ _ _)|apply He|apply Ho].
Qed.

(** The [wheel] info of a wheel event. *)
Definition wheelInfo (w : DOM.WheelEvent N) : Effect N :=
  Dispatch (WheelInfo {|
    wheel_delta := normalizeWheel w;
    wheel_point := mkVec w.(DOM.clientX) w.(DOM.clientY);
    wheel_keys := eventKeys w |}).

(** The normalized delta is zero on both axes. *)
Definition zeroDelta (w : DOM.WheelEvent N) : bool :=
  ((normalizeWheel w).(x) === #0) && ((normalizeWheel w).(y) === #0).

Lemma onWheel_unfocused ed w s : ed.(isFocused) = false → onWheel w ed s = (tt, s, []).
Proof. intros Hf. unfold onWheel. hook_run. by rewrite Hf. Qed.

Lemma onWheel_scrolls ed w s :
  ed.(isFocused) = true → scrollsEditingShape ed = true →
  onWheel w ed s = (tt, set_pinchState not_sure s, []).
Proof. intros Hf Hs. unfold onWheel. hook_run. rewrite Hf; hook_run. by rewrite Hs. Qed.

Lemma onWheel_handled ed w s :
  ed.(isFocused) = true → scrollsEditingShape ed = false →
  onWheel w ed s
    = (tt, set_pinchState not_sure s,
       PreventDefault :: StopEventPropagation
         :: if zeroDelta w then [] else [wheelInfo w]).
Proof.
  intros Hf Hs. unfold onWheel, zeroDelta. hook_run. rewrite Hf; hook_run.
  rewrite Hs; hook_run. by case_scrutinee.
Qed.

(** ** The outcomes of a handler, as one disjunction *)

Lemma onPointerDown_cases ed e s :
  let s1 := set_activePointers (JSMap.set e.(DOM.pointerId) e) s in
  (JSMap.size s1.(activePointers) ≠ 2 ∧ onPointerDown e ed s = (tt, s1, []))
  ∨ (∃ p1 p2, JSMap.values s1.(activePointers) = [p1; p2]
      ∧ exec (onPointerDown e) ed s = pinchStarted ed p1 p2 s1
      ∧ ∃ i, outputs (onPointerDown e) ed s = [Dispatch (PinchInfo i)]
             ∧ i.(pinch_name) = pinch_start).
Proof.
  intros s1. destruct (decide (JSMap.size s1.(activePointers) = 2)) as [Hn|Hn].
  - right. destruct (JSMap.values_size_two _ Hn) as (p1 & p2 & Hv).
    exists p1, p2. unfold exec, outputs. rewrite (onPointerDown_two _ _ _ _ _ Hv).
    eauto.
  - left. auto using onPointerDown_other.
Qed.

Lemma onPointerMove_cases ed e s :
  let s1 := set_activePointers (JSMap.set e.(DOM.pointerId) e) s in
  (JSMap.has e.(DOM.pointerId) s.(activePointers) = false
     ∧ onPointerMove e ed s = (tt, s, []))
  ∨ (JSMap.has e.(DOM.pointerId) s.(activePointers) = true
     ∧ JSMap.size s1.(activePointers) ≠ 2 ∧ onPointerMove e ed s = (tt, s1, []))
  ∨ (JSMap.has e.(DOM.pointerId) s.(activePointers) = true
     ∧ ∃ p1 p2, JSMap.values s1.(activePointers) = [p1; p2]
       ∧ exec (onPointerMove e) ed s = pinchMoved p1 p2 s1
       ∧ outputs (onPointerMove e) ed s
           = match (pinchMoved p1 p2 s1).(pinchState) with
             | zooming => [pinchUpdate e p1 p2 s (zoomOf ed (pinchMoved p1 p2 s1))]
             | panning => [pinchUpdate e p1 p2 s (pinchMoved p1 p2 s1).(initZoom)]
             | not_sure => []
             end).
Proof.
  intros s1. destruct (JSMap.has _ _) eqn:Hh; [right|left; auto using onPointerMove_untracked].
  destruct (decide (JSMap.size s1.(activePointers) = 2)) as [Hn|Hn].
  - right. split; [done|]. destruct (JSMap.values_size_two _ Hn) as (p1 & p2 & Hv).
    exists p1, p2. unfold exec, outputs. by rewrite (onPointerMove_two _ _ _ _ _ Hh Hv).
  - left. auto using onPointerMove_other.
Qed.

End handler_facts.

(** ** The handlers: what they promise *)

Section handler_theorems.
Context {N : Type} `{Number N, Host N}.
Implicit Types (s : State N) (ed : Editor N) (e : DOM.PointerEvent N)
  (w : DOM.WheelEvent N).
Local Open Scope num_scope.

(** C16. A [pointerdown] after which exactly two pointers [p1], [p2] are
    active starts a pinch: the state is ['not sure'], both centre points are
    the midpoint of the pointers, the initial distance is their distance and
    the initial zoom the editor's; the current distance is left as it was;
    and exactly one event is dispatched, [pinch_start] at the midpoint with
    the editor's zoom and a zero delta. *)
Theorem onPointerDown_starts_pinch ed e s p1 p2 :
  JSMap.values (JSMap.set e.(DOM.pointerId) e s.(activePointers)) = [p1; p2] →
  let s' := exec (onPointerDown e) ed s in
  let c := getPointerCenter p1 p2 in
  s'.(pinchState) = not_sure
  ∧ s'.(initPointBetweenFingers) = c
  ∧ s'.(prevPointBetweenFingers) = c
  ∧ s'.(initDistanceBetweenFingers) = getPointerDistance p1 p2
  ∧ s'.(initZoom) = ed.(getZoomLevel)
  ∧ s'.(currDistanceBetweenFingers) = s.(currDistanceBetweenFingers)
  ∧ outputs (onPointerDown e) ed s
      = [Dispatch (pinchInfo pinch_start
           (mkVecModel c.(vec_x) c.(vec_y) (Some ed.(getZoomLevel)))
           (mkVecModel #0 #0 None) e)].
Proof. intros Hv. unfold exec, outputs. by rewrite (onPointerDown_two _ _ _ _ _ Hv). Qed.

(** A [pointerdown] after which the number of active pointers is not
    two only records the pointer: no other variable changes and nothing is
    dispatched. *)
Theorem onPointerDown_only_tracks ed e s :
  JSMap.size (JSMap.set e.(DOM.pointerId) e s.(activePointers)) ≠ 2 →
  exec (onPointerDown e) ed s = set_activePointers (JSMap.set e.(DOM.pointerId) e) s
  ∧ outputs (onPointerDown e) ed s = [].
Proof. intros Hn. unfold exec, outputs. by rewrite onPointerDown_other. Qed.

(** A [pointermove] of a pointer that is not tracked changes nothing
    and dispatches nothing. *)
Theorem onPointerMove_ignores_untracked ed e s :
  JSMap.has e.(DOM.pointerId) s.(activePointers) = false →
  onPointerMove e ed s = (tt, s, []).
Proof. apply onPointerMove_untracked. Qed.

(** C15. A [pointermove] of one of exactly two active pointers [p1], [p2]
    records their distance and midpoint, runs the classifier on the change
    of distance since the pinch started and the drift of the midpoint, and
    dispatches by the resulting state: when zooming one [pinch] with the
    zoom [initZoom * (distance / initDistance) ** zoomSpeed], when panning
    one [pinch] with the initial zoom, when ['not sure'] nothing.  The delta
    of the event is the move of the midpoint since the previous event. *)
Theorem onPointerMove_reports ed e s p1 p2 :
  JSMap.has e.(DOM.pointerId) s.(activePointers) = true →
  JSMap.values (JSMap.set e.(DOM.pointerId) e s.(activePointers)) = [p1; p2] →
  let s' := exec (onPointerMove e) ed s in
  let d := getPointerDistance p1 p2 in
  let c := getPointerCenter p1 p2 in
  s'.(currDistanceBetweenFingers) = d
  ∧ s'.(prevPointBetweenFingers) = c
  ∧ s'.(pinchState)
      = nextPinchState s.(pinchState) (nabs (d - s.(initDistanceBetweenFingers)))
          (Vec_Dist s.(initPointBetweenFingers) c)
  ∧ outputs (onPointerMove e) ed s
      = match s'.(pinchState) with
        | zooming =>
            [pinchUpdate e p1 p2 s
               (s.(initZoom) * (d / s.(initDistanceBetweenFingers)) ** ed.(zoomSpeed))]
        | panning => [pinchUpdate e p1 p2 s s.(initZoom)]
        | not_sure => []
        end.
Proof.
  intros Hh Hv. unfold exec, outputs. by rewrite (onPointerMove_two _ _ _ _ _ Hh Hv).
Qed.

(** C17. A [pointerup] (or [pointercancel]) while exactly two pointers are
    active ends the pinch: it dispatches nothing itself, resets the state to
    ['not sure'], stops tracking the pointer and requests one callback; at
    the next animation frame that callback dispatches [pinch_end], after
    the callbacks requested earlier, with the zoom computed at the release
    and the last midpoint as both its point and its delta, and the queue is
    empty afterwards. *)
Theorem onPointerUp_ends_pinch ed ed' e s :
  JSMap.size s.(activePointers) = 2 →
  let s' := exec (onPointerUp e) ed s in
  outputs (onPointerUp e) ed s = []
  ∧ s'.(pinchState) = not_sure
  ∧ s'.(activePointers) = JSMap.delete e.(DOM.pointerId) s.(activePointers)
  ∧ s'.(animationFrames) = s.(animationFrames) ++ [pinchEndFrame ed e s]
  ∧ outputs onAnimationFrame ed' s'
      = ((λ cb, pinchEnd cb s) <$> s.(animationFrames))
        ++ [Dispatch (pinchInfo pinch_end
              (mkVecModel s.(prevPointBetweenFingers).(vec_x)
                          s.(prevPointBetweenFingers).(vec_y) (Some (zoomOf ed s)))
              (mkVecModel s.(prevPointBetweenFingers).(vec_x)
                          s.(prevPointBetweenFingers).(vec_y) None) e)]
  ∧ (exec onAnimationFrame ed' s').(animationFrames) = [].
Proof.
  intros Hn. unfold exec, outputs. rewrite onPointerUp_two by done.
  rewrite onAnimationFrame_run. simpl. by rewrite fmap_app.
Qed.

(** A [pointerup] while the number of active pointers is not two only
    stops tracking the pointer: nothing is dispatched or requested, and for
    a pointer that is not tracked nothing changes at all. *)
Theorem onPointerUp_only_untracks ed e s :
  JSMap.size s.(activePointers) ≠ 2 →
  onPointerUp e ed s = (tt, set_activePointers (JSMap.delete e.(DOM.pointerId)) s, [])
  ∧ (JSMap.has e.(DOM.pointerId) s.(activePointers) = false →
     exec (onPointerUp e) ed s = s).
Proof.
  intros Hn. unfold exec. rewrite onPointerUp_other by done. split; [done|].
  intros Hh. unfold set_activePointers; state_simpl.
  rewrite JSMap.delete_absent by done. by destruct s.
Qed.

(** C18. [onWheel] on every path: without the focus it does nothing; with
    it, it resets the pinch state to ['not sure'], and then either leaves
    the event to the browser (the pointer is over the scrollable shape being
    edited), or prevents the default and stops the propagation, and
    dispatches one [wheel] event unless the normalized delta is zero on both
    axes. *)
Theorem onWheel_spec ed w s :
  exec (onWheel w) ed s = (if ed.(isFocused) then set_pinchState not_sure s else s)
  ∧ outputs (onWheel w) ed s
      = if negb ed.(isFocused) || scrollsEditingShape ed then []
        else PreventDefault :: StopEventPropagation
               :: if zeroDelta w then [] else [wheelInfo w].
Proof.
  unfold exec, outputs. destruct ed.(isFocused) eqn:Hf; [|by rewrite onWheel_unfocused].
  destruct (scrollsEditingShape ed) eqn:Hs;
    [by rewrite onWheel_scrolls|by rewrite onWheel_handled].
Qed.

(** A [pointerup] of a pointer that is NOT tracked, while two other
    pointers are active, still ends the pinch: the state is reset to
    ['not sure'] and a [pinch_end] callback is requested, although both
    pointers stay tracked.  [onPointerUp] tests the number of active
    pointers before it looks at the pointer that was released. *)
Theorem onPointerUp_untracked_ends_pinch ed e s :
  JSMap.has e.(DOM.pointerId) s.(activePointers) = false →
  JSMap.size s.(activePointers) = 2 →
  let s' := exec (onPointerUp e) ed s in
  s'.(activePointers) = s.(activePointers)
  ∧ JSMap.size s'.(activePointers) = 2
  ∧ s'.(pinchState) = not_sure
  ∧ s'.(animationFrames) = s.(animationFrames) ++ [pinchEndFrame ed e s].
Proof.
  intros Hh Hn. unfold exec. rewrite onPointerUp_two by done; simpl.
  by rewrite JSMap.delete_absent.
Qed.

(** A [pointerdown] of a pointer that is already one of two active
    pointers starts the pinch over: a second [pinch_start] is dispatched and
    the state is reset to ['not sure'], in the middle of the gesture.
    [onPointerDown] tests the number of active pointers after the [set],
    not whether the number changed. *)
Theorem onPointerDown_again_restarts_pinch ed e s :
  JSMap.has e.(DOM.pointerId) s.(activePointers) = true →
  JSMap.size s.(activePointers) = 2 →
  (exec (onPointerDown e) ed s).(pinchState) = not_sure
  ∧ ∃ info, outputs (onPointerDown e) ed s = [Dispatch (PinchInfo info)]
            ∧ info.(pinch_name) = pinch_start.
Proof.
  intros Hh Hn.
  destruct (onPointerDown_cases ed e s) as [[Hs _]|(p1 & p2 & _ & -> & Ho)]; [|done].
  simpl in Hs. by rewrite JSMap.size_set_old in Hs.
Qed.

End handler_theorems.

(** ** The theorems on concrete inputs *)

Local Open Scope float_scope.

(** One finger down at [(0, 0)]; then a second one at [(100, 0)]; then the
    second one moved to [(150, 0)]. *)
Definition oneDown : State float :=
  exec (onPointerDown (finger 1 0 0)) (editorAt 1 1) initialState.
Definition twoDown : State float :=
  exec (onPointerDown (finger 2 100 0)) (editorAt 1 1) oneDown.
Definition spread : State float :=
  exec (onPointerMove (finger 2 150 0)) (editorAt 1 1) twoDown.

Lemma onPointerDown_starts_pinch_witness :
  outputs (onPointerDown (finger 2 100 0)) (editorAt 1 1) oneDown
    = [Dispatch (pinchInfo pinch_start (mkVecModel 50 0 (Some 1))
                   (mkVecModel 0 0 None) (finger 2 100 0))].
Proof.
  conjunct (onPointerDown_starts_pinch (editorAt 1 1) (finger 2 100 0) oneDown
              (finger 1 0 0) (finger 2 100 0) eq_refl).
Defined.

Lemma onPointerDown_only_tracks_witness :
  outputs (onPointerDown (finger 3 7 7)) (editorAt 1 1) twoDown = [].
Proof.
  assert (Hn : JSMap.size (JSMap.set 3 (finger 3 7 7) twoDown.(activePointers)) ≠ 2%nat)
    by (by vm_compute).
  conjunct (onPointerDown_only_tracks (editorAt 1 1) (finger 3 7 7) twoDown Hn).
Defined.

Lemma onPointerMove_ignores_untracked_witness :
  onPointerMove (finger 9 5 5) (editorAt 1 1) twoDown = (tt, twoDown, []).
Proof. apply onPointerMove_ignores_untracked. reflexivity. Defined.

(** The fingers go from 100 to 150 pixels apart: the pinch is a zoom, and
    the zoom reported is [1 * (150 / 100) ** 1 = 1.5]. *)
Lemma onPointerMove_reports_witness :
  outputs (onPointerMove (finger 2 150 0)) (editorAt 1 1) twoDown
    = [Dispatch (pinchInfo pinch (mkVecModel 75 0 (Some 1.5))
                   (mkVecModel 25 0 None) (finger 2 150 0))].
Proof.
  conjunct (onPointerMove_reports (editorAt 1 1) (finger 2 150 0) twoDown
              (finger 1 0 0) (finger 2 150 0) eq_refl eq_refl).
Defined.

Lemma onPointerUp_ends_pinch_witness :
  outputs onAnimationFrame (editorAt 3 1)
      (exec (onPointerUp (finger 2 150 0)) (editorAt 2 1) spread)
    = [Dispatch (pinchInfo pinch_end (mkVecModel 75 0 (Some 1.5))
                   (mkVecModel 75 0 None) (finger 2 150 0))].
Proof.
  conjunct (onPointerUp_ends_pinch (editorAt 2 1) (editorAt 3 1) (finger 2 150 0)
              spread eq_refl).
Defined.

Lemma onPointerUp_only_untracks_witness :
  exec (onPointerUp (finger 9 5 5)) (editorAt 1 1) oneDown = oneDown.
Proof.
  assert (Hn : JSMap.size oneDown.(activePointers) ≠ 2%nat) by (by vm_compute).
  exact (proj2 (onPointerUp_only_untracks (editorAt 1 1) (finger 9 5 5) oneDown Hn)
           eq_refl).
Defined.

(** A pointer that was never down is released during the pinch: the pinch
    state, which was zooming, is reset, and both fingers are still tracked. *)
Lemma onPointerUp_untracked_ends_pinch_witness :
  spread.(pinchState) = zooming
  ∧ (exec (onPointerUp (finger 9 5 5)) (editorAt 1 1) spread).(pinchState) = not_sure
  ∧ JSMap.size (exec (onPointerUp (finger 9 5 5)) (editorAt 1 1) spread).(activePointers)
      = 2%nat.
Proof.
  pose proof (onPointerUp_untracked_ends_pinch (editorAt 1 1) (finger 9 5 5) spread
                eq_refl eq_refl) as Hw.
  split; [reflexivity|]. split; [conjunct Hw|conjunct Hw].
Defined.

Lemma onPointerDown_again_restarts_pinch_witness :
  spread.(pinchState) = zooming
  ∧ (exec (onPointerDown (finger 2 150 0)) (editorAt 1 1) spread).(pinchState) = not_sure.
Proof.
  split; [reflexivity|].
  exact (proj1 (onPointerDown_again_restarts_pinch (editorAt 1 1) (finger 2 150 0) spread
                  eq_refl eq_refl)).
Defined.
