(* ===== verification/System.v ===== *)
(** * System: the hook as a transition system

    The listeners the effect attaches, as one function from an input (a
    browser event, or the next animation frame) to the handler that runs;
    the runs of the hook over a sequence of inputs, each with the editor as
    it is when the input arrives; the states the hook can reach; the
    invariants of those states; and what is well-formed in every call
    the hook makes. *)

From S2P Require Import Prelude Number JSMap Events Samples Pinch Handlers.
From Stdlib Require Import Floats.
Import (hints) JSMap.JSMap.

(** What the hook reacts to: the five event types it listens to, and the
    animation frame that runs the callbacks it has requested. *)
Inductive Input (N : Type) :=
| pointerdown (e : DOM.PointerEvent N)
| pointermove (e : DOM.PointerEvent N)
| pointerup (e : DOM.PointerEvent N)
| pointercancel (e : DOM.PointerEvent N)
| wheel (w : DOM.WheelEvent N)
| animationFrame.
Arguments pointerdown {N}.
Arguments pointermove {N}.
Arguments pointerup {N}.
Arguments pointercancel {N}.
Arguments wheel {N}.
Arguments animationFrame {N}.

Section system.
Context {N : Type} `{Number N, Host N}.
Implicit Types (s : State N) (ed : Editor N) (i : Input N).

(** [container.addEventListener(type, handler)]: which handler runs. *)
Definition listener i : Hook N unit :=
  match i with
  | pointerdown e => onPointerDown e
  | pointermove e => onPointerMove e
  | pointerup e => onPointerUp e
  | pointercancel e => onPointerUp e
  | wheel w => onWheel w
  | animationFrame => onAnimationFrame
  end.

(** One input. *)
Definition next ed i s : State N := exec (listener i) ed s.
Definition emitted ed i s : list (Effect N) := outputs (listener i) ed s.

(** A sequence of inputs, each with the editor of its moment: the final
    state and everything the hook called, in order. *)
Fixpoint run (evs : list (Editor N * Input N)) s : State N :=
  match evs with
  | [] => s
  | (ed, i) :: evs' => run evs' (next ed i s)
  end.

Fixpoint trace (evs : list (Editor N * Input N)) s : list (Effect N) :=
  match evs with
  | [] => []
  | (ed, i) :: evs' => emitted ed i s ++ trace evs' (next ed i s)
  end.

(** The states the hook can be in: the initial one, and the state after
    any input in a reachable state, whatever the editor is then. *)
Inductive reachable : State N → Prop :=
| reachable_init : reachable initialState
| reachable_next ed i s : reachable s → reachable (next ed i s).

(** ** Invariants *)

(** Every entry of [activePointers] is filed under its own [pointerId]. *)
Definition keyed s : Prop :=
  Forall (λ kv, kv.2.(DOM.pointerId) = kv.1) s.(activePointers).

(** The invariant of the reachable states: no pointer is tracked twice,
    every pointer is filed under its id, and a decided pinch has at least
    two pointers down. *)
Record invariant s : Prop := {
  inv_wf : JSMap.wf s.(activePointers);
  inv_keyed : keyed s;
  inv_decided : s.(pinchState) ≠ not_sure → 2 ≤ JSMap.size s.(activePointers);
}.

End system.

(** [trace_run] unfolds a run over an explicit list of inputs into the
    runs of the handlers, which the lemmas of [Handlers] then rewrite one
    after the other; [trace_step] reads the state a rewrite has produced. *)
Ltac trace_run :=
  cbn [trace run app]; unfold next, emitted; cbn [listener]; unfold exec, outputs.
Ltac trace_step := cbn [fst snd]; unfold pinchStarted; state_simpl.

(** ** Runs *)

Section runs.
Context {N : Type} `{Number N, Host N}.
Implicit Types (s : State N) (ed : Editor N) (i : Input N)
  (e : DOM.PointerEvent N) (w : DOM.WheelEvent N)
  (evs : list (Editor N * Input N)).

Lemma run_app evs1 evs2 s : run (evs1 ++ evs2) s = run evs2 (run evs1 s).
Proof. revert s. induction evs1 as [|[??] ? IH]; intros; simpl; [done|apply IH]. Qed.

Lemma trace_app evs1 evs2 s :
  trace (evs1 ++ evs2) s = trace evs1 s ++ trace evs2 (run evs1 s).
Proof.
  revert s. induction evs1 as [|[??] ? IH]; intros; simpl; [done|].
  by rewrite IH, app_assoc.
Qed.

Lemma reachable_run evs s : reachable s → reachable (run evs s).
Proof.
  revert s. induction evs as [|[ed i] evs IH]; intros s Hs; simpl; [done|].
  apply IH. by constructor.
Qed.

(** The reachable states are the states of the runs from the initial one. *)
Lemma reachable_iff_run s : reachable s ↔ ∃ evs, s = run evs initialState.
Proof.
  split.
  - induction 1 as [|ed i s _ [evs ->]]; [by exists []|].
    exists (evs ++ [(ed, i)]). by rewrite run_app.
  - intros [evs ->]. apply reachable_run. constructor.
Qed.

(** ** The hook as a labelled transition relation

    One rule for each path through a listener: the input, the state
    before and after, and the calls made.  The listeners implement the
    relation ([next_step]) and nothing else ([step_next]); the facts about
    one input are proved by cases on the rule. *)

(** The pointer of a [pointerup] or [pointercancel]. *)
Definition released i : option (DOM.PointerEvent N) :=
  match i with
  | pointerup e | pointercancel e => Some e
  | _ => None
  end.

(** [activePointers.set(e.pointerId, e)] and [activePointers.delete(e.pointerId)]. *)
Definition tracked e s : State N := set_activePointers (JSMap.set e.(DOM.pointerId) e) s.
Definition untracked e s : State N := set_activePointers (JSMap.delete e.(DOM.pointerId)) s.

(** What a [pointermove] of one of the two fingers [p1], [p2] dispatches. *)
Definition pinchReport ed e (p1 p2 : DOM.PointerEvent N) s : list (Effect N) :=
  let s' := pinchMoved p1 p2 (tracked e s) in
  match s'.(pinchState) with
  | zooming => [pinchUpdate e p1 p2 s (zoomOf ed s')]
  | panning => [pinchUpdate e p1 p2 s s'.(initZoom)]
  | not_sure => []
  end.

(** The [pinch_start] of a pinch with the fingers [p1], [p2]. *)
Definition pinchStart ed e (p1 p2 : DOM.PointerEvent N) : Effect N :=
  let c := getPointerCenter p1 p2 in
  Dispatch (pinchInfo pinch_start (mkVecModel c.(vec_x) c.(vec_y) (Some ed.(getZoomLevel)))
              (mkVecModel #0 #0 None) e)%num.

Inductive step ed : Input N → State N → State N → list (Effect N) → Prop :=
| step_down_start e s p1 p2 :
    JSMap.values (tracked e s).(activePointers) = [p1; p2] →
    step ed (pointerdown e) s (pinchStarted ed p1 p2 (tracked e s)) [pinchStart ed e p1 p2]
| step_down_track e s :
    JSMap.size (tracked e s).(activePointers) ≠ 2 →
    step ed (pointerdown e) s (tracked e s) []
| step_move_untracked e s :
    JSMap.has e.(DOM.pointerId) s.(activePointers) = false →
    step ed (pointermove e) s s []
| step_move_track e s :
    JSMap.has e.(DOM.pointerId) s.(activePointers) = true →
    JSMap.size (tracked e s).(activePointers) ≠ 2 →
    step ed (pointermove e) s (tracked e s) []
| step_move_pinch e s p1 p2 :
    JSMap.has e.(DOM.pointerId) s.(activePointers) = true →
    JSMap.values (tracked e s).(activePointers) = [p1; p2] →
    step ed (pointermove e) s (pinchMoved p1 p2 (tracked e s)) (pinchReport ed e p1 p2 s)
| step_up_end i e s :
    released i = Some e →
    JSMap.size s.(activePointers) = 2 →
    step ed i s
      (untracked e (set_animationFrames (λ q, q ++ [pinchEndFrame ed e s])
                      (set_pinchState not_sure s))) []
| step_up_untrack i e s :
    released i = Some e →
    JSMap.size s.(activePointers) ≠ 2 →
    step ed i s (untracked e s) []
| step_wheel_unfocused w s :
    ed.(isFocused) = false →
    step ed (wheel w) s s []
| step_wheel_scrolls w s :
    ed.(isFocused) = true → scrollsEditingShape ed = true →
    step ed (wheel w) s (set_pinchState not_sure s) []
| step_wheel_handled w s :
    ed.(isFocused) = true → scrollsEditingShape ed = false →
    step ed (wheel w) s (set_pinchState not_sure s)
      (PreventDefault :: StopEventPropagation :: if zeroDelta w then [] else [wheelInfo w])
| step_frame s :
    step ed animationFrame s (set_animationFrames (λ _, []) s)
      ((λ cb, pinchEnd cb s) <$> s.(animationFrames)).

(** A listener computes the pair of a rule. *)
Lemma step_run ed i s s' ws : step ed i s s' ws → listener i ed s = (tt, s', ws).
Proof.
  destruct 1 as [e s p1 p2 Hv|e s Hn|e s Hh|e s Hh Hn|e s p1 p2 Hh Hv
                |i e s Hi Hn|i e s Hi Hn|w s Hf|w s Hf Hs|w s Hf Hs|s];
    try (destruct i; simplify_eq/=); cbn [listener].
  - by apply onPointerDown_two.
  - by apply onPointerDown_other.
  - by apply onPointerMove_untracked.
  - by apply onPointerMove_other.
  - by apply onPointerMove_two.
  - by apply onPointerUp_two.
  - by apply onPointerUp_two.
  - by apply onPointerUp_other.
  - by apply onPointerUp_other.
  - by apply onWheel_unfocused.
  - by apply onWheel_scrolls.
  - by apply onWheel_handled.
  - apply onAnimationFrame_run.
Qed.

(** Some rule applies to every input in every state. *)
Lemma step_total ed i s : ∃ s' ws, step ed i s s' ws.
Proof.
  destruct i as [e|e|e|e|w|].
  - destruct (decide (JSMap.size (tracked e s).(activePointers) = 2)) as [Hn|Hn];
      [destruct (JSMap.values_size_two _ Hn) as (p1 & p2 & Hv)|];
      eauto using step_down_start, step_down_track.
  - destruct (JSMap.has e.(DOM.pointerId) s.(activePointers)) eqn:Hh;
      [|eauto using step_move_untracked].
    destruct (decide (JSMap.size (tracked e s).(activePointers) = 2)) as [Hn|Hn];
      [destruct (JSMap.values_size_two _ Hn) as (p1 & p2 & Hv)|];
      eauto using step_move_pinch, step_move_track.
  - destruct (decide (JSMap.size s.(activePointers) = 2));
      eauto using step_up_end, step_up_untrack.
  - destruct (decide (JSMap.size s.(activePointers) = 2));
      eauto using step_up_end, step_up_untrack.
  - destruct ed.(isFocused) eqn:Hf; [|eauto using step_wheel_unfocused].
    destruct (scrollsEditingShape ed) eqn:Hs;
      eauto using step_wheel_scrolls, step_wheel_handled.
  - eauto using step_frame.
Qed.

Lemma step_next ed i s s' ws : step ed i s s' ws → s' = next ed i s ∧ ws = emitted ed i s.
Proof. intros Hr%step_run. unfold next, emitted, exec, outputs. by rewrite Hr. Qed.

Lemma next_step ed i s : step ed i s (next ed i s) (emitted ed i s).
Proof. destruct (step_total ed i s) as (s' & ws & Hst). by destruct (step_next _ _ _ _ _ Hst) as [<- <-]. Qed.

(** C29. The listeners implement the transition relation and nothing else:
    in every state and for every input exactly one outcome is possible by
    the rules, and it is the state and the list of calls the listener of
    that input computes. *)
Theorem listener_implements_step ed i s s' ws :
  step ed i s s' ws ↔ s' = next ed i s ∧ ws = emitted ed i s.
Proof. split; [apply step_next|]. intros [-> ->]. apply next_step. Qed.

(** ** The pointers that are tracked

    Which pointers are active depends on the pointer events alone: not on
    the editor, the pinch, or the wheel. *)
Definition track i (m : JSMap.t (DOM.PointerEvent N)) : JSMap.t (DOM.PointerEvent N) :=
  match i with
  | pointerdown e => JSMap.set e.(DOM.pointerId) e m
  | pointermove e =>
      if JSMap.has e.(DOM.pointerId) m then JSMap.set e.(DOM.pointerId) e m else m
  | pointerup e | pointercancel e => JSMap.delete e.(DOM.pointerId) m
  | wheel _ | animationFrame => m
  end.

Lemma step_activePointers ed i s s' ws :
  step ed i s s' ws → s'.(activePointers) = track i s.(activePointers).
Proof.
  destruct 1; try (destruct i; simplify_eq/=); simpl;
    repeat match goal with Hh : JSMap.has _ _ = _ |- _ => rewrite Hh; clear Hh end;
    done.
Qed.

Lemma activePointers_next ed i s :
  (next ed i s).(activePointers) = track i s.(activePointers).
Proof. eapply step_activePointers, next_step. Qed.

End runs.

(** ** The calls are well-formed *)

Section calls.
Context {N : Type} `{Number N, Host N}.
Implicit Types (s : State N) (ed : Editor N) (i : Input N)
  (evs : list (Editor N * Input N)).
Local Open Scope num_scope.

(** [ctrlKey] is set when [metaKey] is. *)
Definition keysConsistent (k : TLBaseEventInfo) : Prop :=
  k.(metaKey) = true → k.(ctrlKey) = true.

(** What the editor may rely on in a call of the hook: a pinch info has a
    zoom level in the [z] of its point and no [z] in its delta; a wheel
    info has a delta that is not zero on both axes; the modifier keys of
    either are consistent. *)
Definition wellFormed (c : Effect N) : Prop :=
  match c with
  | Dispatch (PinchInfo p) =>
      is_Some p.(pinch_point).(z) ∧ p.(pinch_delta).(z) = None
      ∧ keysConsistent p.(pinch_keys)
  | Dispatch (WheelInfo w) =>
      (w.(wheel_delta).(x) === #0) && (w.(wheel_delta).(y) === #0) = false
      ∧ keysConsistent w.(wheel_keys)
  | PreventDefault | StopEventPropagation => True
  end.

Lemma eventKeys_consistent (e : DOM.MouseEvent N) : keysConsistent (eventKeys e).
Proof. unfold keysConsistent; simpl. by intros ->. Qed.

Lemma pinchInfo_wellFormed n (px py zm dx dy : N) (e : DOM.MouseEvent N) :
  wellFormed (Dispatch (pinchInfo n (mkVecModel px py (Some zm)) (mkVecModel dx dy None) e)).
Proof. split_and!; [by eexists|done|apply eventKeys_consistent]. Qed.

Lemma step_wellFormed ed i s s' ws : step ed i s s' ws → Forall wellFormed ws.
Proof.
  destruct 1 as [| | | |e s p1 p2 _ _| | | | |w s _ _|s]; try apply Forall_nil_2.
  - apply Forall_singleton, pinchInfo_wellFormed.
  - unfold pinchReport. case_match; rewrite ?Forall_singleton;
      (apply Forall_nil_2 || apply pinchInfo_wellFormed).
  - do 2 (apply Forall_cons; split; [done|]). destruct (zeroDelta w) eqn:Hz; [done|].
    apply Forall_singleton. split; [done|apply eventKeys_consistent].
  - apply Forall_fmap, Forall_true. intros cb. apply pinchInfo_wellFormed.
Qed.

Lemma trace_wellFormed evs s : Forall wellFormed (trace evs s).
Proof.
  revert s. induction evs as [|[ed i] evs IH]; intros s; simpl; [done|].
  apply Forall_app. split; [apply (step_wellFormed _ _ _ _ _ (next_step ed i s))|apply IH].
Qed.

End calls.

(** ** The invariant holds in every reachable state *)

Section invariants.
Context {N : Type} `{Number N, Host N}.
Implicit Types (s : State N) (ed : Editor N) (i : Input N)
  (m : JSMap.t (DOM.PointerEvent N)).

Lemma track_wf i m : JSMap.wf m → JSMap.wf (track i m).
Proof. intros ?. destruct i; simpl; try case_scrutinee; eauto with jsmap. Qed.

Lemma track_keyed i m :
  Forall (λ kv, kv.2.(DOM.pointerId) = kv.1) m →
  Forall (λ kv, kv.2.(DOM.pointerId) = kv.1) (track i m).
Proof.
  intros ?. destruct i; simpl; try case_scrutinee; auto with jsmap.
Qed.

(** A decided pinch has two pointers down, after any rule. *)
Lemma step_decided ed i s s' ws :
  step ed i s s' ws →
  (s.(pinchState) ≠ not_sure → 2 ≤ JSMap.size s.(activePointers)) →
  s'.(pinchState) ≠ not_sure → 2 ≤ JSMap.size s'.(activePointers).
Proof.
  destruct 1 as [e s p1 p2 Hv|e s Hn|e s Hh|e s Hh Hn|e s p1 p2 Hh Hv
                |i e s Hi Hn|i e s Hi Hn|w s Hf|w s Hf Hs|w s Hf Hs|s];
    simpl; intros Hd Hp; try done; try specialize (Hd Hp); try done.
  - pose proof (JSMap.size_set_ge e.(DOM.pointerId) e s.(activePointers)). lia.
  - by rewrite JSMap.size_set_old.
  - apply JSMap.size_values_two in Hv. simpl in Hv. lia.
  - pose proof (JSMap.size_delete_ge e.(DOM.pointerId) s.(activePointers)). lia.
Qed.

Lemma invariant_init : invariant (initialState (N := N)).
Proof. split; [apply JSMap.wf_empty|by constructor|done]. Qed.

Lemma invariant_next ed i s : invariant s → invariant (next ed i s).
Proof.
  intros [Hwf Hk Hd]. split; unfold keyed; [rewrite activePointers_next..|].
  - by apply track_wf.
  - by apply track_keyed.
  - by apply (step_decided _ _ _ _ _ (next_step ed i s)).
Qed.

Lemma invariant_reachable s : reachable s → invariant s.
Proof. induction 1; auto using invariant_init, invariant_next. Qed.

(** The two distances the hook stores are measurements: a property of
    every distance of two pointers that holds of the stored distances
    holds of them after any input. *)
Lemma distances_next (P : N → Prop) ed i s :
  (∀ p1 p2, P (getPointerDistance p1 p2)) →
  P s.(initDistanceBetweenFingers) ∧ P s.(currDistanceBetweenFingers) →
  P (next ed i s).(initDistanceBetweenFingers)
  ∧ P (next ed i s).(currDistanceBetweenFingers).
Proof. intros HP [Hi Hc]. by destruct (next_step ed i s); simpl. Qed.

Lemma distances_reachable (P : N → Prop) s :
  (∀ p1 p2, P (getPointerDistance p1 p2)) →
  P (initialState (N := N)).(initDistanceBetweenFingers)
  ∧ P (initialState (N := N)).(currDistanceBetweenFingers) →
  reachable s →
  P s.(initDistanceBetweenFingers) ∧ P s.(currDistanceBetweenFingers).
Proof. intros HP Hinit. induction 1; auto using distances_next. Qed.

End invariants.

(** ** The theorems of the system *)

Section system_theorems.
Context {N : Type} `{Number N, Host N}.
Implicit Types (s : State N) (ed : Editor N) (i : Input N)
  (e : DOM.PointerEvent N) (evs : list (Editor N * Input N)).
Local Open Scope num_scope.

(** C20. In every state the hook can reach, no pointer is tracked twice,
    every tracked event is filed under its own pointer id, and the pinch
    state is zooming or panning only while at least two pointers are
    active. *)
Theorem reachable_invariant s : reachable s → invariant s.
Proof. apply invariant_reachable. Qed.

(** The pointers that are tracked after a run are determined by the
    pointer events of the run alone: [pointerdown] sets, [pointermove] sets
    a pointer that is tracked and ignores one that is not, [pointerup] and
    [pointercancel] delete; the editor, the wheel and the pinch state have
    no influence. *)
Theorem tracked_pointers evs s :
  (run evs s).(activePointers) = foldl (λ m ei, track ei.2 m) s.(activePointers) evs.
Proof.
  revert s. induction evs as [|[ed i] evs IH]; intros s; simpl; [done|].
  by rewrite IH, activePointers_next.
Qed.

(** C27. Every call the hook makes is well-formed, from any state, on any
    sequence of inputs and with any editor: a pinch info carries a zoom
    level in the [z] of its point and no [z] in its delta, a wheel info
    is never dispatched with a delta that is zero on both axes, and in
    both [ctrlKey] is set whenever [metaKey] is. *)
Theorem calls_well_formed evs s : Forall wellFormed (trace evs s).
Proof. apply trace_wellFormed. Qed.

End system_theorems.

(** ** The theorems on concrete gestures *)

Local Open Scope float_scope.

(** Two fingers 100 pixels apart, one of them moved 50 pixels away, and
    released; the editor is at zoom 1 with zoom speed 1. *)
Definition pinchOut : list (Editor float * Input float) :=
  [(editorAt 1 1, pointerdown (finger 1 0 0));
   (editorAt 1 1, pointerdown (finger 2 100 0));
   (editorAt 1 1, pointermove (finger 2 150 0));
   (editorAt 1 1, pointerup (finger 2 150 0));
   (editorAt 1 1, animationFrame)].

Lemma reachable_invariant_witness : invariant (run pinchOut initialState).
Proof. apply reachable_invariant, reachable_run, reachable_init. Defined.
