(* ===== verification/Gestures.v ===== *)
(** * Gestures: sequences of inputs

    What the hook does over a whole pinch.

    - [resets] names the three inputs that write ['not sure'] into
      [pinchState] (a pointerdown that makes two pointers, a pointerup
      while two are tracked, a handled wheel event); along a [steady]
      sequence, one without them, the classifier never moves down, and
      each of the three does reset it.
    - Two pointers going down, any moves and a release dispatch
      [pinch_start], [pinch] events and one [pinch_end]; a pinch-end that
      waits for the frame is dispatched by it, whatever arrives before.
    - A [tap] gives the state back; a wheel event in the middle of a pinch
      restarts its classification; a release that comes twice ends the
      pinch twice.
    - An event handler does not look at the callbacks that wait: with
      another queue ([requeue]) it takes the same step and appends the
      same callbacks ([step_requeue], [next_requeue]).
    - The runs in which the event that ends a pinch reports values that
      are not those of the pinch. *)

From S2P Require Import Prelude Number JSMap Events Samples Pinch Handlers System.
From Stdlib Require Import Floats.
Import (hints) JSMap.JSMap.

(** ** Pinch sessions: what a sequence of moves does *)

Section sessions.
Context {N : Type} `{Number N, Host N}.
Implicit Types (s : State N) (ed : Editor N) (i : Input N)
  (e : DOM.PointerEvent N) (evs : list (Editor N * Input N)).

(** The input is a [pointermove]. *)
Definition isMove i : Prop := match i with pointermove _ => True | _ => False end.

(** The call dispatches a pinch info with the name [n]. *)
Definition dispatchesPinch (n : TLPinchEventName) (w : Effect N) : Prop :=
  ∃ info, w = Dispatch (PinchInfo info) ∧ info.(pinch_name) = n.

(** One move: the same pointers stay tracked, nothing is requested, every
    call is a [pinch] event, and the state does not move down. *)
Lemma move_keys ed e s :
  JSMap.keys (next ed (pointermove e) s).(activePointers) = JSMap.keys s.(activePointers).
Proof.
  rewrite activePointers_next; simpl. destruct (JSMap.has _ _) eqn:Hh; [|done].
  by apply JSMap.keys_set_old.
Qed.

Lemma move_size ed e s :
  JSMap.size (next ed (pointermove e) s).(activePointers) = JSMap.size s.(activePointers).
Proof.
  pose proof (move_keys ed e s) as Hk. apply (f_equal length) in Hk.
  unfold JSMap.keys in Hk. by rewrite !length_fmap in Hk.
Qed.

Lemma move_frames ed e s :
  (next ed (pointermove e) s).(animationFrames) = s.(animationFrames).
Proof.
  unfold next; simpl. destruct (onPointerMove_cases ed e s)
    as [[_ Hr]|[(_ & _ & Hr)|(_ & p1 & p2 & _ & -> & _)]];
    [unfold exec; by rewrite Hr..|done].
Qed.

Lemma move_rank ed e s :
  rank s.(pinchState) ≤ rank (next ed (pointermove e) s).(pinchState).
Proof.
  unfold next; simpl. destruct (onPointerMove_cases ed e s)
    as [[_ Hr]|[(_ & _ & Hr)|(_ & p1 & p2 & _ & -> & _)]];
    [unfold exec; by rewrite Hr..|].
  apply nextPinchState_rank.
Qed.

Lemma move_emitted ed e s :
  Forall (dispatchesPinch pinch) (emitted ed (pointermove e) s)
  ∧ length (emitted ed (pointermove e) s) ≤ 1.
Proof.
  unfold emitted; simpl. destruct (onPointerMove_cases ed e s)
    as [[_ Hr]|[(_ & _ & Hr)|(_ & p1 & p2 & _ & _ & ->)]];
    [unfold outputs; rewrite Hr; simpl; auto with lia..|].
  destruct (pinchState _); simpl; split; try lia; repeat constructor;
    by eexists.
Qed.

(** Any number of moves. *)
Lemma moves_size evs s :
  Forall (λ ei, isMove ei.2) evs →
  JSMap.size (run evs s).(activePointers) = JSMap.size s.(activePointers).
Proof.
  intros Hm. revert s. induction Hm as [|[ed [|e| | | |]] evs [] _ IH]; intros s; simpl; [done|].
  by rewrite IH, move_size.
Qed.

Lemma moves_frames evs s :
  Forall (λ ei, isMove ei.2) evs → (run evs s).(animationFrames) = s.(animationFrames).
Proof.
  intros Hm. revert s. induction Hm as [|[ed [|e| | | |]] evs [] _ IH]; intros s; simpl; [done|].
  by rewrite IH, move_frames.
Qed.

Lemma moves_rank evs s :
  Forall (λ ei, isMove ei.2) evs → rank s.(pinchState) ≤ rank (run evs s).(pinchState).
Proof.
  intros Hm. revert s. induction Hm as [|[ed [|e| | | |]] evs [] _ IH]; intros s; simpl; [done|].
  etrans; [apply (move_rank ed e)|apply IH].
Qed.

Lemma moves_trace evs s :
  Forall (λ ei, isMove ei.2) evs → Forall (dispatchesPinch pinch) (trace evs s).
Proof.
  intros Hm. revert s. induction Hm as [|[ed [|e| | | |]] evs [] _ IH]; intros s; simpl; [done|].
  apply Forall_app. split; [apply move_emitted|apply IH].
Qed.

(** ** What can move the classifier down *)

(** The input resets the pinch state: it starts a pinch, it ends one, or
    it is a wheel event while the editor has the focus. *)
Definition resets ed i s : Prop :=
  match i with
  | pointerdown e => JSMap.size (tracked e s).(activePointers) = 2
  | pointerup _ | pointercancel _ => JSMap.size s.(activePointers) = 2
  | wheel _ => ed.(isFocused) = true
  | pointermove _ | animationFrame => False
  end.

(** No input of the sequence resets the pinch state when it arrives. *)
Fixpoint steady evs s : Prop :=
  match evs with
  | [] => True
  | (ed, i) :: evs' => ¬ resets ed i s ∧ steady evs' (next ed i s)
  end.

Lemma next_rank ed i s :
  ¬ resets ed i s → rank s.(pinchState) ≤ rank (next ed i s).(pinchState).
Proof.
  intros Hr. destruct (next_step ed i s) as [e s p1 p2 Hv| | | |e s p1 p2 _ _
                                            |i e s Hi Hn| | | |w s Hf Hs|];
    try done; simpl in *; try (by destruct Hr).
  - destruct Hr. apply (JSMap.size_values_two _ _ _ Hv).
  - apply nextPinchState_rank.
  - destruct Hr. by destruct i.
Qed.

Lemma resets_next ed i s : resets ed i s → (next ed i s).(pinchState) = not_sure.
Proof.
  intros Hr. destruct (next_step ed i s) as [| | | | |i e s Hi Hn|i e s Hi Hn|w s Hf| | |];
    simpl in *; try done; try congruence; by destruct i.
Qed.

Lemma steady_app evs1 evs2 s :
  steady (evs1 ++ evs2) s ↔ steady evs1 s ∧ steady evs2 (run evs1 s).
Proof.
  revert s. induction evs1 as [|[ed i] evs1 IH]; intros s; simpl; [tauto|].
  rewrite IH. tauto.
Qed.

Lemma steady_rank evs s :
  steady evs s → rank s.(pinchState) ≤ rank (run evs s).(pinchState).
Proof.
  revert s. induction evs as [|[ed i] evs IH]; intros s; simpl; [done|]. intros [Hr Hs].
  etrans; [by apply next_rank|by apply IH].
Qed.

Lemma moves_steady evs s : Forall (λ ei, isMove ei.2) evs → steady evs s.
Proof.
  intros Hm. revert s. induction Hm as [|[ed [|e| | | |]] evs [] _ IH]; intros s; simpl; auto.
Qed.

End sessions.

(** ** A whole gesture *)

Section gestures.
Context {N : Type} `{Number N, Host N}.
Implicit Types (s : State N) (ed : Editor N) (i : Input N)
  (e : DOM.PointerEvent N) (evs : list (Editor N * Input N)).

(** Two fingers go down, one after the other, with no pointer active
    before: one [pinch_start]. *)
Lemma two_down ed1 ed2 e1 e2 s :
  s.(activePointers) = [] →
  e1.(DOM.pointerId) ≠ e2.(DOM.pointerId) →
  let evs := [(ed1, pointerdown e1); (ed2, pointerdown e2)] in
  (∃ start, trace evs s = [start] ∧ dispatchesPinch pinch_start start)
  ∧ (run evs s).(activePointers) = [(e1.(DOM.pointerId), e1); (e2.(DOM.pointerId), e2)]
  ∧ (run evs s).(animationFrames) = s.(animationFrames)
  ∧ (run evs s).(pinchState) = not_sure.
Proof.
  intros Hm Hne evs. subst evs. trace_run.
  rewrite (onPointerDown_other ed1 e1 s) by (by rewrite Hm). trace_step.
  rewrite (onPointerDown_two ed2 e2 _ e1 e2)
    by (state_simpl; rewrite Hm; simpl; by rewrite decide_False by done).
  trace_step. rewrite Hm; simpl. rewrite decide_False by done.
  split_and!; try done. eexists; split; [done|]. by eexists.
Qed.

(** A release with two pointers active, then the animation frame: one
    [pinch_end], and the queue is empty again.  The pointer released need
    not be one of the two. *)
Lemma up_frame ed3 ed4 e3 s :
  JSMap.size s.(activePointers) = 2 →
  s.(animationFrames) = [] →
  let evs := [(ed3, pointerup e3); (ed4, animationFrame)] in
  trace evs s = [pinchEnd (pinchEndFrame ed3 e3 s) s]
  ∧ (run evs s).(animationFrames) = []
  ∧ (run evs s).(pinchState) = not_sure.
Proof.
  intros Hn Hq evs. subst evs. trace_run.
  rewrite onPointerUp_two by done. trace_step.
  rewrite onAnimationFrame_run. trace_step. by rewrite Hq.
Qed.

Lemma dispatchesPinch_pinchEnd cb s : dispatchesPinch pinch_end (pinchEnd cb s).
Proof. by eexists. Qed.

(** C3. A whole two-finger gesture, from no active pointer and no pending
    callback: two fingers go down, any number of pointer moves follow, a
    pointer is released and the animation frame fires.  Whatever the editor
    is at each event, the events dispatched are exactly one [pinch_start],
    then [pinch] events only (none when the classifier stays ['not sure']),
    then exactly one [pinch_end]; afterwards the pinch state is
    ['not sure'] and no callback is pending. *)
Theorem two_finger_gesture ed1 ed2 ed3 ed4 e1 e2 e3 moves s :
  s.(activePointers) = [] →
  s.(animationFrames) = [] →
  e1.(DOM.pointerId) ≠ e2.(DOM.pointerId) →
  Forall (λ ei, isMove ei.2) moves →
  let evs := [(ed1, pointerdown e1); (ed2, pointerdown e2)] ++ moves
             ++ [(ed3, pointerup e3); (ed4, animationFrame)] in
  (∃ start updates finish,
      trace evs s = [start] ++ updates ++ [finish]
      ∧ dispatchesPinch pinch_start start
      ∧ Forall (dispatchesPinch pinch) updates
      ∧ dispatchesPinch pinch_end finish)
  ∧ (run evs s).(pinchState) = not_sure
  ∧ (run evs s).(animationFrames) = [].
Proof.
  intros Hm Hq Hne Hmoves evs. subst evs.
  destruct (two_down ed1 ed2 e1 e2 s Hm Hne) as ((start & Ht & Hstart) & Ha & Hf & _).
  set (s2 := run [(ed1, pointerdown e1); (ed2, pointerdown e2)] s) in *.
  destruct (up_frame ed3 ed4 e3 (run moves s2)) as (Hend & Hq' & Hst).
  { by rewrite moves_size, Ha. }
  { by rewrite moves_frames, Hf. }
  rewrite !trace_app, !run_app. fold s2. rewrite Ht, Hend.
  split_and!; [|done..]. eexists _, _, _. split; [done|].
  auto using moves_trace, dispatchesPinch_pinchEnd.
Qed.

(** With no pointer tracked and no callback waiting, inputs other than a
    [pointerdown] or a [wheel] do nothing. *)
Definition idle s : Prop := s.(activePointers) = [] ∧ s.(animationFrames) = [].

Definition passive i : Prop :=
  match i with pointerdown _ | wheel _ => False | _ => True end.

Lemma idle_next ed i s : idle s → passive i → next ed i s = s ∧ emitted ed i s = [].
Proof.
  intros [Hm Hq] Hi. unfold next, emitted, exec, outputs.
  destruct i as [e|e|e|e|w|]; try done; cbn [listener].
  - by rewrite onPointerMove_untracked by (by rewrite Hm).
  - rewrite onPointerUp_other by (by rewrite Hm). cbn [fst snd].
    split; [|done]. unfold set_activePointers. rewrite Hm. by destruct s; simplify_eq/=.
  - rewrite onPointerUp_other by (by rewrite Hm). cbn [fst snd].
    split; [|done]. unfold set_activePointers. rewrite Hm. by destruct s; simplify_eq/=.
  - rewrite onAnimationFrame_run. cbn [fst snd]. rewrite Hq.
    split; [|done]. unfold set_animationFrames. by destruct s; simplify_eq/=.
Qed.

Lemma idle_trace evs s :
  s.(activePointers) = [] → s.(animationFrames) = [] →
  Forall (λ ei, passive ei.2) evs → trace evs s = [].
Proof.
  intros Hm Hq Hevs. revert s Hm Hq.
  induction Hevs as [|[ed i] evs Hi _ IH]; intros s Hm Hq; [done|].
  cbn [trace]. destruct (idle_next ed i s) as [-> ->]; [done..|]. by apply IH.
Qed.

(** ** The callbacks that wait for the frame *)

(** The input is the animation frame. *)
Definition isFrame i : Prop := match i with animationFrame => True | _ => False end.

#[export] Instance isFrame_dec i : Decision (isFrame i).
Proof. destruct i; apply _. Defined.

(** An input that is not the frame leaves the callbacks that wait where
    they are, and may add one after them. *)
Lemma frames_next ed i s :
  ¬ isFrame i → ∃ cbs, (next ed i s).(animationFrames) = s.(animationFrames) ++ cbs.
Proof.
  intros Hi. destruct (next_step ed i s); simpl;
    (by destruct Hi) || (by exists []; rewrite app_nil_r) || by eexists.
Qed.

Lemma frames_run evs s :
  Forall (λ ei, ¬ isFrame ei.2) evs →
  ∃ cbs, (run evs s).(animationFrames) = s.(animationFrames) ++ cbs.
Proof.
  intros Hevs. revert s. induction Hevs as [|[ed i] evs Hi _ IH]; intros s; simpl.
  - exists []. by rewrite app_nil_r.
  - destruct (IH (next ed i s)) as [cbs2 ->], (frames_next ed i s Hi) as [cbs1 ->].
    eexists. by rewrite <-app_assoc.
Qed.

(** The release of a pointer while two are tracked, and the frame. *)
Lemma release_next ed i e s :
  released i = Some e → JSMap.size s.(activePointers) = 2 →
  (next ed i s).(animationFrames) = s.(animationFrames) ++ [pinchEndFrame ed e s].
Proof. intros Hi Hn. by destruct (step_next _ _ _ _ _ (step_up_end ed i e s Hi Hn)) as [<- _]. Qed.

Lemma frame_emitted ed s :
  emitted ed animationFrame s = (λ cb, pinchEnd cb s) <$> s.(animationFrames)
  ∧ (next ed animationFrame s).(animationFrames) = [].
Proof. by destruct (step_next _ _ _ _ _ (step_frame ed s)) as [<- <-]. Qed.

(** The handlers never read the callbacks that wait: with another queue
    [q] in place of the one of [s] they do the same, and append the same
    callbacks. *)
Definition requeue (q : list (FrameCallback N)) s : State N :=
  set_animationFrames (λ _, q) s.

Lemma step_requeue ed i s s' ws q :
  step ed i s s' ws → ¬ isFrame i →
  ∃ cbs, s'.(animationFrames) = s.(animationFrames) ++ cbs
         ∧ step ed i (requeue q s) (requeue (q ++ cbs) s') ws.
Proof.
  destruct 1 as [e s p1 p2 Hv|e s Hn|e s Hh|e s Hh Hn|e s p1 p2 Hh Hv
                |i e s Hi Hn|i e s Hi Hn|w s Hf|w s Hf Hs|w s Hf Hs|s];
    intros Hq; try (by destruct Hq);
    try (exists []; rewrite !app_nil_r; split; [done|]).
  - exact (step_down_start ed e (requeue q s) p1 p2 Hv).
  - exact (step_down_track ed e (requeue q s) Hn).
  - exact (step_move_untracked ed e (requeue q s) Hh).
  - exact (step_move_track ed e (requeue q s) Hh Hn).
  - exact (step_move_pinch ed e (requeue q s) p1 p2 Hh Hv).
  - exists [pinchEndFrame ed e s]. split; [done|].
    exact (step_up_end ed i e (requeue q s) Hi Hn).
  - exact (step_up_untrack ed i e (requeue q s) Hi Hn).
  - exact (step_wheel_unfocused ed w (requeue q s) Hf).
  - exact (step_wheel_scrolls ed w (requeue q s) Hf Hs).
  - exact (step_wheel_handled ed w (requeue q s) Hf Hs).
Qed.

Lemma next_requeue ed i s q :
  ¬ isFrame i → s.(animationFrames) = [] →
  next ed i (requeue q s) = requeue (q ++ (next ed i s).(animationFrames)) (next ed i s)
  ∧ emitted ed i (requeue q s) = emitted ed i s.
Proof.
  intros Hi Hs. destruct (step_requeue ed i s _ _ q (next_step ed i s) Hi) as (cbs & Hq & Hst).
  rewrite Hs in Hq. simpl in Hq. rewrite Hq. by destruct (step_next _ _ _ _ _ Hst) as [<- <-].
Qed.

(** A finger lifts, and one goes down again before the frame. *)
Definition regrip ed1 ed2 ed3 e3 e4 : list (Editor N * Input N) :=
  [(ed1, pointerup e3); (ed2, pointerdown e4); (ed3, animationFrame)].

(** A tap: the pointer [e1] goes down, and the input [i] follows. *)
Definition tap ed1 ed2 e1 i : list (Editor N * Input N) :=
  [(ed1, pointerdown e1); (ed2, i)].

(** A pointer goes down and is released at once, with no pair made. *)
Lemma tap_next ed1 ed2 i e1 e2 s :
  released i = Some e2 → e2.(DOM.pointerId) = e1.(DOM.pointerId) →
  JSMap.has e1.(DOM.pointerId) s.(activePointers) = false →
  JSMap.size s.(activePointers) ≠ 1 →
  next ed2 i (next ed1 (pointerdown e1) s) = s
  ∧ emitted ed1 (pointerdown e1) s = []
  ∧ emitted ed2 i (next ed1 (pointerdown e1) s) = [].
Proof.
  intros Hi He Hh Hn.
  assert (JSMap.size (tracked e1 s).(activePointers) ≠ 2) as Hn'
    by (simpl; rewrite JSMap.size_set, Hh; lia).
  destruct (step_next _ _ _ _ _ (step_down_track ed1 e1 s Hn')) as [<- <-].
  destruct (step_next _ _ _ _ _ (step_up_untrack ed2 i e2 _ Hi Hn')) as [<- <-].
  split; [|done]. unfold untracked, tracked, set_activePointers; simpl.
  rewrite He, JSMap.delete_set_new by done. by destruct s.
Qed.

(** ** The wheel during a pinch, and a release that comes twice *)

Lemma wheel_next ed w s :
  ed.(isFocused) = true → next ed (wheel w) s = set_pinchState not_sure s.
Proof.
  intros Hf. destruct (scrollsEditingShape ed) eqn:Hs.
  - by destruct (step_next _ _ _ _ _ (step_wheel_scrolls ed w s Hf Hs)) as [<- _].
  - by destruct (step_next _ _ _ _ _ (step_wheel_handled ed w s Hf Hs)) as [<- _].
Qed.

Lemma untracked_absent e s :
  JSMap.has e.(DOM.pointerId) s.(activePointers) = false → untracked e s = s.
Proof.
  intros Hh. unfold untracked, set_activePointers. rewrite JSMap.delete_absent by done.
  by destruct s.
Qed.

Lemma released_next ed i e s :
  released i = Some e →
  (next ed i s).(activePointers) = JSMap.delete e.(DOM.pointerId) s.(activePointers).
Proof. intros Hi. rewrite activePointers_next. by destruct i; simplify_eq/=. Qed.

(** A move while the tracked pointers are not two after it dispatches
    nothing. *)
Lemma three_move ed e s :
  2 < JSMap.size s.(activePointers) → emitted ed (pointermove e) s = [].
Proof.
  intros Hn. destruct (JSMap.has e.(DOM.pointerId) s.(activePointers)) eqn:Hh.
  - eapply eq_sym, step_next, step_move_track; [done|].
    simpl. rewrite JSMap.size_set_old by done. lia.
  - by eapply eq_sym, step_next, step_move_untracked.
Qed.

End gestures.

(** ** The theorems on gestures *)

Section gesture_theorems.
Context {N : Type} `{Number N, Host N}.
Implicit Types (s : State N) (ed : Editor N) (i : Input N)
  (e : DOM.PointerEvent N) (evs : list (Editor N * Input N)).
Local Open Scope num_scope.

(** C13. Within a pinch the classifier never moves down.  Over any inputs
    that do not reset the pinch state when they arrive (the moves of the
    fingers, a third pointer that goes down or leaves, the animation
    frame, a wheel event without the focus), the pinch state only moves
    up in the order ['not sure' < panning < zooming]: at any two points of
    the sequence the later state is at least the earlier one, and once
    zooming the state is zooming at every later input.  The inputs that
    reset it, the start and the end of a pinch and a wheel event with
    the focus, make it ['not sure']. *)
Theorem pinch_state_never_demotes evs1 evs2 s :
  steady (evs1 ++ evs2) s →
  rank (run evs1 s).(pinchState) ≤ rank (run (evs1 ++ evs2) s).(pinchState)
  ∧ ((run evs1 s).(pinchState) = zooming → (run (evs1 ++ evs2) s).(pinchState) = zooming)
  ∧ ∀ ed i, resets ed i s → (next ed i s).(pinchState) = not_sure.
Proof.
  intros [_ H2]%steady_app. rewrite run_app.
  pose proof (steady_rank evs2 (run evs1 s) H2) as Hr. split_and!; [done| |by intros; apply resets_next].
  intros Hz. rewrite Hz in Hr. by destruct (pinchState (run evs2 _)); simpl in Hr; try lia.
Qed.

(** During a sequence of pointer moves the pinch state never moves down. *)
Lemma moves_never_demote evs1 evs2 s :
  Forall (λ ei, isMove ei.2) (evs1 ++ evs2) →
  rank (run evs1 s).(pinchState) ≤ rank (run (evs1 ++ evs2) s).(pinchState).
Proof. intros [_ H2]%Forall_app. rewrite run_app. by apply moves_rank. Qed.

(** C39. A pinch that ends before any pointer moved reports a zoom that
    does not come from this pinch: [pinch_end] carries
    [initZoom * (currDistance / initDistance) ** zoomSpeed] where
    [currDistanceBetweenFingers] is still what it was before the fingers
    went down, since [onPointerDown] does not assign it. *)
Theorem pinch_without_move_ends_at_stale_zoom ed1 ed2 ed3 ed4 e1 e2 e3 s :
  idle s →
  e1.(DOM.pointerId) ≠ e2.(DOM.pointerId) →
  let c := getPointerCenter e1 e2 in
  trace [(ed1, pointerdown e1); (ed2, pointerdown e2);
         (ed3, pointerup e3); (ed4, animationFrame)] s
    = [Dispatch (pinchInfo pinch_start
         (mkVecModel c.(vec_x) c.(vec_y) (Some ed2.(getZoomLevel)))
         (mkVecModel #0 #0 None) e2);
       Dispatch (pinchInfo pinch_end
         (mkVecModel c.(vec_x) c.(vec_y)
            (Some (ed2.(getZoomLevel)
                   * (s.(currDistanceBetweenFingers) / getPointerDistance e1 e2)
                     ** ed3.(zoomSpeed))))
         (mkVecModel c.(vec_x) c.(vec_y) None) e3)].
Proof.
  intros [Hm Hq] Hne c. subst c. trace_run.
  rewrite (onPointerDown_other ed1 e1 s) by (by rewrite Hm). trace_step.
  rewrite (onPointerDown_two ed2 e2 _ e1 e2)
    by (state_simpl; rewrite Hm; simpl; by rewrite decide_False by done).
  trace_step. rewrite onPointerUp_two
    by (state_simpl; rewrite Hm; simpl; by rewrite decide_False by done).
  trace_step. rewrite onAnimationFrame_run. trace_step. by rewrite Hq.
Qed.

(** C40. The deferred [pinch_end] reads the midpoint when it runs, not when
    the finger was lifted.  If a finger is lifted and a finger goes down
    again before the animation frame, the hook dispatches the [pinch_start]
    of the new pinch first, and then the [pinch_end] of the old one, at the
    midpoint of the NEW pair of fingers. *)
Theorem pinch_end_reports_next_midpoint ed1 ed2 ed3 e3 e4 p1 p2 s :
  s.(activePointers) = [(p1.(DOM.pointerId), p1); (p2.(DOM.pointerId), p2)] →
  s.(animationFrames) = [] →
  p1.(DOM.pointerId) ≠ p2.(DOM.pointerId) →
  e3.(DOM.pointerId) = p2.(DOM.pointerId) →
  e4.(DOM.pointerId) ≠ p1.(DOM.pointerId) →
  let c := getPointerCenter p1 e4 in
  trace (regrip ed1 ed2 ed3 e3 e4) s
    = [Dispatch (pinchInfo pinch_start
         (mkVecModel c.(vec_x) c.(vec_y) (Some ed2.(getZoomLevel)))
         (mkVecModel #0 #0 None) e4);
       Dispatch (pinchInfo pinch_end
         (mkVecModel c.(vec_x) c.(vec_y) (Some (zoomOf ed1 s)))
         (mkVecModel c.(vec_x) c.(vec_y) None) e3)].
Proof.
  intros Hm Hq Hne He3 He4 c. subst c. unfold regrip. trace_run.
  rewrite onPointerUp_two by (by rewrite Hm). trace_step.
  rewrite (onPointerDown_two ed2 e4 _ p1 e4).
  - trace_step. rewrite onAnimationFrame_run. trace_step. by rewrite Hq.
  - state_simpl. rewrite Hm, He3; simpl.
    rewrite (decide_False (P := p2.(DOM.pointerId) = p1.(DOM.pointerId))) by done.
    rewrite decide_True by done. simpl. by rewrite decide_False by done.
Qed.

(** C24. A pinch-end that is deferred is dispatched.  When a pointer is
    released while two are tracked, then whatever inputs arrive before the
    next animation frame and whatever the editor is, that frame dispatches
    the [pinch_end] of the release, with the zoom computed at the
    release and the keys of the released pointer, after the pinch-ends
    that were waiting before it; and no callback waits after the frame. *)
Theorem pinch_end_is_dispatched ed ed' i e evs s :
  released i = Some e → JSMap.size s.(activePointers) = 2 →
  Forall (λ ei, ¬ isFrame ei.2) evs →
  let s' := run evs (next ed i s) in
  (∃ earlier later,
      emitted ed' animationFrame s'
        = earlier ++ pinchEnd (pinchEndFrame ed e s) s' :: later
      ∧ length earlier = length s.(animationFrames))
  ∧ (next ed' animationFrame s').(animationFrames) = [].
Proof.
  intros Hi Hn Hevs s'. destruct (frame_emitted ed' s') as [-> ->]. split; [|done].
  destruct (frames_run evs (next ed i s) Hevs) as [cbs Hf]. fold s' in Hf.
  rewrite Hf, (release_next ed i e s Hi Hn), <-app_assoc, !fmap_app.
  eexists _, _. split; [done|]. by rewrite length_fmap.
Qed.

(** C33. Round trip of a tap.  A pointer that is not tracked goes down and
    is released (or cancelled) next, and it does not make a pair while it
    is down: the hook is in the state it was in before, the order of the
    [Map] included, and has called nothing. *)
Theorem tap_roundtrip ed1 ed2 i e1 e2 s :
  released i = Some e2 → e2.(DOM.pointerId) = e1.(DOM.pointerId) →
  JSMap.has e1.(DOM.pointerId) s.(activePointers) = false →
  JSMap.size s.(activePointers) ≠ 1 →
  run (tap ed1 ed2 e1 i) s = s ∧ trace (tap ed1 ed2 e1 i) s = [].
Proof.
  intros Hi He Hh Hn. simpl.
  destruct (tap_next ed1 ed2 i e1 e2 s Hi He Hh Hn) as (-> & -> & ->). done.
Qed.

(** C37. A wheel event makes the classifier start over in the middle of a
    pinch.  When the editor has the focus, the first move of a finger
    after the wheel is classified from ['not sure'], whatever the pinch
    state was: a pinch that was zooming is zooming again only if the
    fingers' distance still differs by more than 24 from the initial
    one, and is otherwise reported as a pan, with the initial zoom, or not
    at all. *)
Theorem wheel_restarts_classification ed1 ed2 w e p1 p2 s :
  resets ed1 (wheel w) s →
  JSMap.has e.(DOM.pointerId) s.(activePointers) = true →
  JSMap.values (tracked e s).(activePointers) = [p1; p2] →
  let s' := next ed2 (pointermove e) (next ed1 (wheel w) s) in
  s'.(pinchState) = nextPinchState not_sure (touchDistance s') (originDistance s')
  ∧ ((touchDistance s' >? #24) = false → s'.(pinchState) ≠ zooming).
Proof.
  intros Hf Hh Hv s'. subst s'. rewrite wheel_next by done.
  destruct (step_next _ _ _ _ _
              (step_move_pinch ed2 e (set_pinchState not_sure s) p1 p2 Hh Hv)) as [<- _].
  split; [done|]. intros Ht. simpl.
  change (touchDistance (pinchMeasured p1 p2 _)) with
    (touchDistance (pinchMoved p1 p2 (tracked e (set_pinchState not_sure s)))).
  rewrite Ht. by case_match.
Qed.

(** C38. A release that comes twice.  When a pointer has been released or
    cancelled, a second release of the same pointer changes nothing and
    calls nothing, unless exactly two pointers are tracked after the
    first: then the second release ends their pinch. *)
Theorem release_twice ed1 ed2 i1 i2 e1 e2 s :
  JSMap.wf s.(activePointers) →
  released i1 = Some e1 → released i2 = Some e2 →
  e2.(DOM.pointerId) = e1.(DOM.pointerId) →
  let s1 := next ed1 i1 s in
  (¬ resets ed2 i2 s1 → next ed2 i2 s1 = s1 ∧ emitted ed2 i2 s1 = [])
  ∧ (resets ed2 i2 s1 →
     (next ed2 i2 s1).(animationFrames)
       = s1.(animationFrames) ++ [pinchEndFrame ed2 e2 s1]).
Proof.
  intros Hwf Hi1 Hi2 He s1.
  assert (resets ed2 i2 s1 ↔ JSMap.size s1.(activePointers) = 2) as -> by (by destruct i2).
  split; intros Hn; [|by apply release_next].
  destruct (step_next _ _ _ _ _ (step_up_untrack ed2 i2 e2 s1 Hi2 Hn)) as [<- <-].
  split; [|done]. apply untracked_absent. subst s1.
  rewrite (released_next ed1 i1 e1) by done. rewrite He, JSMap.has_delete by done.
  by rewrite bool_decide_eq_true_2.
Qed.

(** C34. A third finger.  While three pointers are tracked no move
    dispatches anything; when one of the three is released or cancelled, no
    [pinch_end] is requested and the variables of the pinch stay as they
    are; and the next move of a pointer that remains is reported as a
    [pinch] of the two that remain, measured against the midpoint and the
    initial distance of the pair before, without a [pinch_start]. *)
Theorem third_pointer_hands_over ed ed' i e e' s :
  released i = Some e →
  JSMap.size s.(activePointers) = 3 →
  JSMap.has e.(DOM.pointerId) s.(activePointers) = true →
  JSMap.has e'.(DOM.pointerId) (untracked e s).(activePointers) = true →
  (∀ ed0 i0, isMove i0 → emitted ed0 i0 s = [])
  ∧ emitted ed i s = [] ∧ next ed i s = untracked e s
  ∧ ∃ p1 p2, JSMap.values (tracked e' (untracked e s)).(activePointers) = [p1; p2]
      ∧ emitted ed' (pointermove e') (next ed i s) = pinchReport ed' e' p1 p2 (untracked e s)
      ∧ next ed' (pointermove e') (next ed i s) = pinchMoved p1 p2 (tracked e' (untracked e s)).
Proof.
  intros Hi Hn He He'. split; [intros ed0 [] ?; try done; apply three_move; lia|].
  destruct (step_next _ _ _ _ _ (step_up_untrack ed i e s Hi ltac:(lia))) as [<- <-].
  split_and!; [done..|].
  destruct (JSMap.values_size_two (tracked e' (untracked e s)).(activePointers))
    as (p1 & p2 & Hv); [simpl; by rewrite JSMap.size_set_old, JSMap.size_delete, He, Hn|].
  exists p1, p2. by destruct (step_next _ _ _ _ _ (step_move_pinch ed' e' _ p1 p2 He' Hv)).
Qed.

End gesture_theorems.

(** ** The theorems on concrete gestures *)

Local Open Scope float_scope.

Lemma two_finger_gesture_witness :
  ∃ start updates finish,
    trace pinchOut initialState = [start] ++ updates ++ [finish]
    ∧ dispatchesPinch pinch_start start
    ∧ Forall (dispatchesPinch pinch) updates
    ∧ dispatchesPinch pinch_end finish.
Proof.
  refine (proj1 (two_finger_gesture (editorAt 1 1) (editorAt 1 1) (editorAt 1 1)
            (editorAt 1 1) (finger 1 0 0) (finger 2 100 0) (finger 2 150 0)
            [(editorAt 1 1, pointermove (finger 2 150 0))] initialState
            eq_refl eq_refl _ _)); [done|by repeat constructor].
Defined.

(** Zooming after the first move of [pinchOut], and still zooming after a
    third finger has gone down, the frame has come, and a second move has
    brought the fingers back to 110 pixels apart. *)
Lemma pinch_state_never_demotes_witness :
  (run [(editorAt 1 1, pointermove (finger 2 150 0));
        (editorAt 1 1, pointerdown (finger 3 0 50));
        (editorAt 1 1, animationFrame);
        (editorAt 1 1, pointermove (finger 2 110 0))] twoDown).(pinchState) = zooming.
Proof.
  refine (proj1 (proj2 (pinch_state_never_demotes
            [(editorAt 1 1, pointermove (finger 2 150 0))]
            [(editorAt 1 1, pointerdown (finger 3 0 50));
             (editorAt 1 1, animationFrame);
             (editorAt 1 1, pointermove (finger 2 110 0))] twoDown _)) eq_refl).
  by vm_compute; split_and!; try (intros [=]); try (intros []).
Defined.

(** Fingers down 100 pixels apart at zoom 2 and lifted at once: the
    [pinch_end] reports the zoom 0. *)
Lemma pinch_without_move_ends_at_stale_zoom_witness :
  trace [(editorAt 2 1, pointerdown (finger 1 0 0));
         (editorAt 2 1, pointerdown (finger 2 100 0));
         (editorAt 2 1, pointerup (finger 2 100 0));
         (editorAt 2 1, animationFrame)] initialState
    = [Dispatch (pinchInfo pinch_start (mkVecModel 50 0 (Some 2))
                   (mkVecModel 0 0 None) (finger 2 100 0));
       Dispatch (pinchInfo pinch_end (mkVecModel 50 0 (Some 0))
                   (mkVecModel 50 0 None) (finger 2 100 0))].
Proof.
  refine (pinch_without_move_ends_at_stale_zoom (editorAt 2 1) (editorAt 2 1)
            (editorAt 2 1) (editorAt 2 1) (finger 1 0 0) (finger 2 100 0)
            (finger 2 100 0) initialState (conj eq_refl eq_refl) _).
  done.
Defined.

(** After [pinchOut]'s move, finger 2 is lifted and a finger 3 goes down at
    [(0, 200)] before the frame: the old pinch ends at [(0, 100)], the
    midpoint of fingers 1 and 3, not at [(75, 0)] where it was. *)
Lemma pinch_end_reports_next_midpoint_witness :
  spread.(prevPointBetweenFingers) = mkVec 75 0
  ∧ trace [(editorAt 1 1, pointerup (finger 2 150 0));
           (editorAt 1 1, pointerdown (finger 3 0 200));
           (editorAt 1 1, animationFrame)] spread
      = [Dispatch (pinchInfo pinch_start (mkVecModel 0 100 (Some 1))
                     (mkVecModel 0 0 None) (finger 3 0 200));
         Dispatch (pinchInfo pinch_end (mkVecModel 0 100 (Some 1.5))
                     (mkVecModel 0 100 None) (finger 2 150 0))].
Proof.
  split; [reflexivity|].
  refine (pinch_end_reports_next_midpoint (editorAt 1 1) (editorAt 1 1) (editorAt 1 1)
            (finger 2 150 0) (finger 3 0 200) (finger 1 0 0) (finger 2 150 0) spread
            eq_refl eq_refl _ eq_refl _); done.
Defined.

(** The pinch of [spread] ends, a third finger goes down and the wheel
    turns before the frame: the frame dispatches the [pinch_end] with the
    zoom 1.5 of the release. *)
Lemma pinch_end_is_dispatched_witness :
  let s' := run [(editorAt 1 1, pointerdown (finger 3 0 200));
                 (editorAt 1 1, wheel (wheelAt 5 5 0 3))]
              (next (editorAt 1 1) (pointerup (finger 2 150 0)) spread) in
  ∃ earlier later,
    emitted (editorAt 1 1) animationFrame s'
      = earlier ++ pinchEnd (pinchEndFrame (editorAt 1 1) (finger 2 150 0) spread) s' :: later
    ∧ length earlier = length spread.(animationFrames).
Proof.
  refine (proj1 (pinch_end_is_dispatched (editorAt 1 1) (editorAt 1 1)
            (pointerup (finger 2 150 0)) (finger 2 150 0)
            [(editorAt 1 1, pointerdown (finger 3 0 200));
             (editorAt 1 1, wheel (wheelAt 5 5 0 3))] spread eq_refl eq_refl _)).
  repeat constructor; by intros [].
Defined.

(** A tap of one finger on the idle canvas, and a tap of a third finger
    during the pinch of [spread]. *)
Lemma tap_roundtrip_witness :
  run [(editorAt 1 1, pointerdown (finger 1 0 0));
       (editorAt 1 1, pointerup (finger 1 5 5))] initialState = initialState
  ∧ run [(editorAt 1 1, pointerdown (finger 3 0 200));
         (editorAt 1 1, pointercancel (finger 3 0 200))] spread = spread.
Proof.
  split.
  - refine (proj1 (tap_roundtrip (editorAt 1 1) (editorAt 1 1) (pointerup (finger 1 5 5))
              (finger 1 0 0) (finger 1 5 5) initialState eq_refl eq_refl eq_refl _)).
    by vm_compute.
  - refine (proj1 (tap_roundtrip (editorAt 1 1) (editorAt 1 1)
              (pointercancel (finger 3 0 200)) (finger 3 0 200) (finger 3 0 200) spread
              eq_refl eq_refl eq_refl _)).
    by vm_compute.
Defined.

(** The zoom of [spread] (the fingers 150 apart, 100 at the start), the
    wheel, and the finger back at 110: the pinch is ['not sure'] again. *)
Lemma wheel_restarts_classification_witness :
  spread.(pinchState) = zooming
  ∧ (next (editorAt 1 1) (pointermove (finger 2 110 0))
       (next (editorAt 1 1) (wheel (wheelAt 5 5 0 3)) spread)).(pinchState) = not_sure.
Proof.
  split; [reflexivity|].
  etrans; [exact (proj1 (wheel_restarts_classification (editorAt 1 1) (editorAt 1 1)
                           (wheelAt 5 5 0 3) (finger 2 110 0) (finger 1 0 0) (finger 2 110 0)
                           spread eq_refl eq_refl eq_refl))|].
  by vm_compute.
Defined.

(** Finger 2 of [spread] is released and then cancelled. *)
Lemma release_twice_witness :
  let s1 := next (editorAt 1 1) (pointerup (finger 2 150 0)) spread in
  next (editorAt 1 1) (pointercancel (finger 2 150 0)) s1 = s1.
Proof.
  refine (proj1 (proj1 (release_twice (editorAt 1 1) (editorAt 1 1)
            (pointerup (finger 2 150 0)) (pointercancel (finger 2 150 0))
            (finger 2 150 0) (finger 2 150 0) spread _ eq_refl eq_refl eq_refl) _)).
  - by apply (bool_decide_unpack _); vm_compute.
  - by vm_compute.
Defined.

(** A third finger goes down on [spread], finger 1 is lifted, and finger 3
    moves by 10 pixels: the [pinch] reports a delta of 100 pixels, the
    distance between the midpoints of the old and of the new pair, and the
    zoom falls from 1.5 to 0.51, the distance of the new pair over the
    initial distance of the old one. *)
Definition threeDown : State float :=
  next (editorAt 1 1) (pointerdown (finger 3 200 0)) spread.

Lemma third_pointer_hands_over_witness :
  emitted (editorAt 1 1) (pointermove (finger 3 200 10))
    (next (editorAt 1 1) (pointerup (finger 1 0 0)) threeDown)
  = [Dispatch (pinchInfo pinch (mkVecModel 175 5 (Some 0x1.0511de5a8265fp-1)) (mkVecModel 100 5 None)
                 (finger 3 200 10))].
Proof.
  destruct (third_pointer_hands_over (editorAt 1 1) (editorAt 1 1)
              (pointerup (finger 1 0 0)) (finger 1 0 0) (finger 3 200 10) threeDown
              eq_refl eq_refl eq_refl eq_refl) as (_ & _ & _ & p1 & p2 & Hv & -> & _).
  vm_compute in Hv. injection Hv as <- <-. by vm_compute.
Defined.
