(* ===== verification/Spec.v ===== *)
(** * Spec: the gesture engine as its specification describes it

    The specification of the hook (its sections 3 and 4) describes a state
    machine that is not the code's: a set of contacts in which the
    insertion order is irrelevant, a pinch session that is created when
    the set reaches two contacts and lives until it drops below two, and
    pinch-end emissions that are complete values when they are deferred.  This file is that machine:

    - [Spec.State]: the contact set (a finite map), the session if there
      is one, and the deferred emissions;
    - [Spec.contactStart], [Spec.contactMove], [Spec.contactEnd]: the
      three entry points of the contact tracker with the session start,
      update and end they trigger;
    - [Spec.classify]: the classification step with its thresholds;
    - [Spec.wheelEvent]: the wheel normalizer with its exemption check;
    - [Spec.frame]: the animation frame that releases what was deferred.

    Where the specification leaves a choice, the machine makes the one
    noted at the definition.  Nothing here is taken from the code;
    [Refines] relates the two. *)

From S2P Require Import Prelude Number Events.
From stdpp Require Import gmap strings.

Module Spec.

(** The mode of a pinch session. *)
Inductive Mode := undecided | zooming | panning.

#[export] Instance Mode_eq_dec : EqDecision Mode.
Proof. solve_decision. Defined.

(** A pinch session.  [currentDistance] is the latest distance of the two
    contacts; none has been measured when the session starts. *)
Record Session (N : Type) := {
  mode : Mode;
  initDistance : N;
  initZoom : N;
  currentDistance : option N;
  initCentroid : Vec N;
  prevCentroid : Vec N;
}.
Arguments mode {N}.
Arguments initDistance {N}.
Arguments initZoom {N}.
Arguments currentDistance {N}.
Arguments initCentroid {N}.
Arguments prevCentroid {N}.

(** A contact is the last event of its pointer: identity, position and
    modifier flags. *)
Record State (N : Type) := {
  contacts : gmap Z (DOM.PointerEvent N);
  session : option (Session N);
  deferred : list (Effect N);
}.
Arguments contacts {N}.
Arguments session {N}.
Arguments deferred {N}.

Section machine.
Context {N : Type} `{Number N, Host N}.
Implicit Types (t : State N) (ed : Editor N) (e p : DOM.PointerEvent N)
  (w : DOM.WheelEvent N) (sess : Session N).
Local Open Scope num_scope.

Definition init : State N := {| contacts := ∅; session := None; deferred := [] |}.

(** ** Contact tracker *)

(** The two-contact view: the two contacts when there are exactly two, in
    the order of the finite map (the specification leaves the order to the
    implementation). *)
Definition activePair (cs : gmap Z (DOM.PointerEvent N)) :
    option (DOM.PointerEvent N * DOM.PointerEvent N) :=
  match (map_to_list cs).*2 with
  | [p1; p2] => Some (p1, p2)
  | _ => None
  end.

(** ** Geometry *)

Definition centroid p1 p2 : Vec N :=
  mkVec ((p1.(DOM.clientX) + p2.(DOM.clientX)) / #2)
        ((p1.(DOM.clientY) + p2.(DOM.clientY)) / #2).

Definition euclidean (ax ay bx by_ : N) : N :=
  nsqrt ((ax - bx) * (ax - bx) + (ay - by_) * (ay - by_)).

Definition distance p1 p2 : N :=
  euclidean p1.(DOM.clientX) p1.(DOM.clientY) p2.(DOM.clientX) p2.(DOM.clientY).

Definition drift (A B : Vec N) : N :=
  euclidean A.(vec_x) A.(vec_y) B.(vec_x) B.(vec_y).

(** ** Pinch classifier *)

(** The classification step on the two signals. *)
Definition classify (m : Mode) (touchSpread originDrift : N) : Mode :=
  match m with
  | zooming => zooming
  | undecided =>
      if touchSpread >? #24 then zooming
      else if originDrift >? #16 then panning
      else undecided
  | panning => if touchSpread >? #64 then zooming else panning
  end.

(** [initZoom * scale ^ zoomSpeedExponent] for the distance [d]. *)
Definition zoom ed sess (d : N) : N :=
  sess.(initZoom) * (d / sess.(initDistance)) ** ed.(zoomSpeed).

(** A canonical pinch event at the point [c] with the zoom level [zm]. *)
Definition pinchEvent (name : TLPinchEventName) (c : Vec N) (zm : N)
    (delta : VecModel N) e : Effect N :=
  Dispatch (PinchInfo {|
    pinch_name := name;
    pinch_point := mkVecModel c.(vec_x) c.(vec_y) (Some zm);
    pinch_delta := delta;
    pinch_keys := eventKeys e |}).

(** Session start: the session of the pair [p1], [p2]. *)
Definition startSession ed p1 p2 : Session N := {|
  mode := undecided;
  initDistance := distance p1 p2;
  initZoom := ed.(getZoomLevel);
  currentDistance := None;
  initCentroid := centroid p1 p2;
  prevCentroid := centroid p1 p2;
|}.

(** [onContactStart]: the contact is inserted or overwritten; a session
    starts when this takes the set from fewer than two contacts to two.
    A third contact is tracked and leaves the session as it is (the
    specification allows more than two contacts and uses two). *)
Definition contactStart ed e t : State N * list (Effect N) :=
  let cs := <[e.(DOM.pointerId) := e]> t.(contacts) in
  match activePair cs with
  | Some (p1, p2) =>
      if decide (size t.(contacts) < 2) then
        ({| contacts := cs; session := Some (startSession ed p1 p2);
            deferred := t.(deferred) |},
         [pinchEvent pinch_start (centroid p1 p2) ed.(getZoomLevel)
            (mkVecModel #0 #0 None) e])
      else ({| contacts := cs; session := t.(session); deferred := t.(deferred) |}, [])
  | None => ({| contacts := cs; session := t.(session); deferred := t.(deferred) |}, [])
  end.

(** Session update with the pair at [p1], [p2]: the session after the
    classification step. *)
Definition updateSession sess p1 p2 : Session N :=
  let c := centroid p1 p2 in
  let d := distance p1 p2 in {|
  mode := classify sess.(mode) (nabs (d - sess.(initDistance)))
            (drift sess.(initCentroid) c);
  initDistance := sess.(initDistance);
  initZoom := sess.(initZoom);
  currentDistance := Some d;
  initCentroid := sess.(initCentroid);
  prevCentroid := c;
|}.

(** What a session update emits: the event of the resulting mode, with
    the delta of the centroid since the previous update. *)
Definition updateEvents ed e sess p1 p2 : list (Effect N) :=
  let c := centroid p1 p2 in
  let delta := mkVecModel (c.(vec_x) - sess.(prevCentroid).(vec_x))
                          (c.(vec_y) - sess.(prevCentroid).(vec_y)) None in
  let sess' := updateSession sess p1 p2 in
  match sess'.(mode) with
  | zooming => [pinchEvent pinch c (zoom ed sess' (distance p1 p2)) delta e]
  | panning => [pinchEvent pinch c sess'.(initZoom) delta e]
  | undecided => []
  end.

(** [onContactMove]: ignored for a contact that is not tracked; otherwise
    the contact is overwritten and, while exactly two contacts are active, the
    session is updated. *)
Definition contactMove ed e t : State N * list (Effect N) :=
  if decide (is_Some (t.(contacts) !! e.(DOM.pointerId))) then
    let cs := <[e.(DOM.pointerId) := e]> t.(contacts) in
    match t.(session), activePair cs with
    | Some sess, Some (p1, p2) =>
        ({| contacts := cs; session := Some (updateSession sess p1 p2);
            deferred := t.(deferred) |},
         updateEvents ed e sess p1 p2)
    | _, _ => ({| contacts := cs; session := t.(session); deferred := t.(deferred) |}, [])
    end
  else (t, []).

(** The pinch-end of a session: the terminal zoom from the last known
    distance (the initial one when none was measured), and the last
    centroid as point and as delta. *)
Definition endEvent ed e sess : Effect N :=
  let c := sess.(prevCentroid) in
  pinchEvent pinch_end c
    (zoom ed sess (default sess.(initDistance) sess.(currentDistance)))
    (mkVecModel c.(vec_x) c.(vec_y) None) e.

(** [onContactEnd]: ignored for a contact that is not tracked; otherwise
    the contact is removed, and when this takes the set below two contacts
    the session ends, its pinch-end being deferred to the next frame.
    When one of three contacts leaves, the session goes on with the two
    that remain. *)
Definition contactEnd ed e t : State N * list (Effect N) :=
  if decide (is_Some (t.(contacts) !! e.(DOM.pointerId))) then
    let cs := delete e.(DOM.pointerId) t.(contacts) in
    match t.(session) with
    | Some sess =>
        if decide (size t.(contacts) = 2) then
          ({| contacts := cs; session := None;
              deferred := t.(deferred) ++ [endEvent ed e sess] |}, [])
        else ({| contacts := cs; session := t.(session); deferred := t.(deferred) |}, [])
    | None => ({| contacts := cs; session := None; deferred := t.(deferred) |}, [])
    end
  else (t, []).

(** The next animation frame: what was deferred is emitted, in order. *)
Definition frame t : State N * list (Effect N) :=
  ({| contacts := t.(contacts); session := t.(session); deferred := [] |}, t.(deferred)).

(** ** Wheel normalizer *)

(** The scroll exemption: a shape is being edited, it scrolls on its own,
    and its page bounds contain the current input point. *)
Definition exempt ed : bool :=
  match ed.(getEditingShapeId) with
  | Some id =>
      match ed.(getShape) id, ed.(getShapePageBounds) id with
      | Some shape, Some bounds =>
          ed.(canScroll) shape && containsPoint bounds ed.(currentPagePoint)
      | _, _ => false
      end
  | None => false
  end.

(** The interruption of a pinch: its mode is undecided again. *)
Definition interrupt t : State N := {|
  contacts := t.(contacts);
  session := (λ sess, {| mode := undecided;
                         initDistance := sess.(initDistance);
                         initZoom := sess.(initZoom);
                         currentDistance := sess.(currentDistance);
                         initCentroid := sess.(initCentroid);
                         prevCentroid := sess.(prevCentroid) |}) <$> t.(session);
  deferred := t.(deferred);
|}.

(** The canonical wheel event of [w]. *)
Definition wheelEvents w : list (Effect N) :=
  let delta := normalizeWheel w in
  if (delta.(x) === #0) && (delta.(y) === #0) then []
  else [Dispatch (WheelInfo {| wheel_delta := delta;
                               wheel_point := mkVec w.(DOM.clientX) w.(DOM.clientY);
                               wheel_keys := eventKeys w |})].

(** A wheel event: not processed without the focus; otherwise it
    interrupts the pinch and, unless it is exempted, the browser's
    handling is suppressed and the canonical event emitted. *)
Definition wheelEvent ed w t : State N * list (Effect N) :=
  if ed.(isFocused) then
    if exempt ed then (interrupt t, [])
    else (interrupt t, PreventDefault :: StopEventPropagation :: wheelEvents w)
  else (t, []).

End machine.

End Spec.
