(* ===== verification/Lifecycle.v ===== *)
(** * Lifecycle: the effect of the hook, its listeners and its cleanup

    [useDomCanvasEvents] is one [useEffect]: when the container exists, the
    effect styles it, creates the variables of [State], attaches the five
    listeners, and returns the cleanup that detaches them.  React runs the
    cleanup and the effect again when the editor or the container changes,
    and the cleanup alone when the component unmounts.

    A [World] is the container, the variables of the effect that is live,
    and the variables of the effects that were cleaned up while callbacks of
    theirs were still waiting for an animation frame: such a callback keeps
    its closure alive and still runs. *)

From S2P Require Import Prelude Number JSMap Events Samples Pinch Handlers System Gestures.
From stdpp Require Import strings.
From Stdlib Require Import Floats.

(** The event types the hook listens to. *)
Inductive EventType :=
| pointerdown_type | pointermove_type | pointerup_type | pointercancel_type | wheel_type.

#[export] Instance EventType_eq_dec : EqDecision EventType.
Proof. solve_decision. Defined.

(** The container element, as far as the hook touches it: two style
    properties and the event types a listener of the hook is attached for. *)
Record Container := {
  touchAction : string;
  webkitUserSelect : string;
  listeners : list EventType;
}.

Definition set_touchAction (v : string) (c : Container) : Container :=
  {| touchAction := v; webkitUserSelect := c.(webkitUserSelect); listeners := c.(listeners) |}.
Definition set_webkitUserSelect (v : string) (c : Container) : Container :=
  {| touchAction := c.(touchAction); webkitUserSelect := v; listeners := c.(listeners) |}.

(** [container.addEventListener(type, handler, { passive: false })]; a
    listener that is already attached is not attached twice. *)
Definition addEventListener (t : EventType) (c : Container) : Container :=
  {| touchAction := c.(touchAction); webkitUserSelect := c.(webkitUserSelect);
     listeners := if decide (t ∈ c.(listeners)) then c.(listeners)
                  else c.(listeners) ++ [t] |}.

(** [container.removeEventListener(type, handler)] *)
Definition removeEventListener (t : EventType) (c : Container) : Container :=
  {| touchAction := c.(touchAction); webkitUserSelect := c.(webkitUserSelect);
     listeners := filter (λ t', t' ≠ t) c.(listeners) |}.

Record World (N : Type) := {
  container : option Container;   (* the [container] of the last render *)
  live : option (State N);        (* the variables of the effect in place *)
  disposed : list (State N);      (* cleaned up, oldest first *)
}.
Arguments container {N}.
Arguments live {N}.
Arguments disposed {N}.

Section lifecycle.
Context {N : Type} `{Number N, Host N}.
Implicit Types (w : World N) (c : Container) (s : State N) (ed : Editor N)
  (i : Input N).

(** Before the first effect. *)
Definition unmounted : World N := {| container := None; live := None; disposed := [] |}.

(** The body of the effect, run with the container of the render. *)
Definition effect (oc : option Container) w : World N :=
  match oc with
  | None => {| container := None; live := None; disposed := w.(disposed) |}
  | Some c =>
      let c := set_touchAction "none" c in
      let c := set_webkitUserSelect "none" c in
      let c := addEventListener pointerdown_type c in
      let c := addEventListener pointermove_type c in
      let c := addEventListener pointerup_type c in
      let c := addEventListener pointercancel_type c in
      let c := addEventListener wheel_type c in
      {| container := Some c; live := Some initialState; disposed := w.(disposed) |}
  end.

(** The function the effect returns; an effect that returned early (no
    container) returned none.  The variables stay reachable only through
    the callbacks that wait for an animation frame. *)
Definition cleanup w : World N :=
  match w.(container), w.(live) with
  | Some c, Some s =>
      let c := removeEventListener pointerdown_type c in
      let c := removeEventListener pointermove_type c in
      let c := removeEventListener pointerup_type c in
      let c := removeEventListener pointercancel_type c in
      let c := removeEventListener wheel_type c in
      {| container := Some c; live := None;
         disposed := w.(disposed) ++ if s.(animationFrames) is [] then [] else [s] |}
  | _, _ => w
  end.

(** A render with new dependencies: the cleanup of the effect in place,
    then the effect. *)
Definition rerender (oc : option Container) w : World N := effect oc (cleanup w).

(** The type of an event; the animation frame is no event of the
    container. *)
Definition typeOf i : option EventType :=
  match i with
  | pointerdown _ => Some pointerdown_type
  | pointermove _ => Some pointermove_type
  | pointerup _ => Some pointerup_type
  | pointercancel _ => Some pointercancel_type
  | wheel _ => Some wheel_type
  | animationFrame => None
  end.

(** The browser delivers an input: an event runs the listener attached for
    its type, if there is one; an animation frame runs every callback that
    is waiting, those of the oldest effect first. *)
Definition deliver ed i w : World N * list (Effect N) :=
  match typeOf i with
  | Some t =>
      match w.(container), w.(live) with
      | Some c, Some s =>
          if decide (t ∈ c.(listeners)) then
            ({| container := w.(container); live := Some (next ed i s);
                disposed := w.(disposed) |}, emitted ed i s)
          else (w, [])
      | _, _ => (w, [])
      end
  | None =>
      ({| container := w.(container);
          live := next ed animationFrame <$> w.(live);
          disposed := [] |},
       concat (emitted ed animationFrame <$> w.(disposed))
       ++ from_option (emitted ed animationFrame) [] w.(live))
  end.

(** A sequence of inputs. *)
Fixpoint deliverAll (evs : list (Editor N * Input N)) w : World N * list (Effect N) :=
  match evs with
  | [] => (w, [])
  | (ed, i) :: evs' =>
      let r := deliver ed i w in
      let r' := deliverAll evs' r.1 in
      (r'.1, r.2 ++ r'.2)
  end.

(** No callback waits for a frame, neither of the effect in place nor of
    an earlier one. *)
Definition settled w : Prop :=
  w.(disposed) = [] ∧ ∀ s, w.(live) = Some s → s.(animationFrames) = [].

(** The hook listens to every one of its event types. *)
Definition listening w : Prop :=
  ∃ c, w.(container) = Some c
       ∧ ∀ t, t ∈ c.(listeners).

End lifecycle.

(** ** What the effect and its cleanup do *)

Section lifecycle_facts.
Context {N : Type} `{Number N, Host N}.
Implicit Types (w : World N) (c : Container) (s : State N) (ed : Editor N)
  (i : Input N) (t : EventType).

Lemma elem_of_addEventListener t t' c :
  t' ∈ (addEventListener t c).(listeners) ↔ t' = t ∨ t' ∈ c.(listeners).
Proof.
  simpl. case_decide; rewrite ?elem_of_app, ?list_elem_of_singleton;
    intuition congruence.
Qed.

Lemma elem_of_removeEventListener t t' c :
  t' ∈ (removeEventListener t c).(listeners) ↔ t' ≠ t ∧ t' ∈ c.(listeners).
Proof. simpl. by rewrite list_elem_of_filter. Qed.

(** An event of the container reaches no handler when no effect is live. *)
Lemma deliver_not_live ed i w :
  w.(live) = None → typeOf i ≠ None → deliver ed i w = (w, []).
Proof.
  intros Hl Ht. unfold deliver. destruct (typeOf i); [|done].
  rewrite Hl. by destruct w.(container).
Qed.

(** With every listener attached, the browser runs the listener. *)
Lemma deliver_live ed i c s :
  (∀ t, t ∈ c.(listeners)) →
  deliver ed i {| container := Some c; live := Some s; disposed := [] |}
    = ({| container := Some c; live := Some (next ed i s); disposed := [] |},
       emitted ed i s).
Proof.
  intros Hc. unfold deliver. destruct (typeOf i) as [t|] eqn:Ht; simpl.
  - by rewrite decide_True.
  - by destruct i.
Qed.

Lemma deliverAll_live evs c s :
  (∀ t, t ∈ c.(listeners)) →
  deliverAll evs {| container := Some c; live := Some s; disposed := [] |}
    = ({| container := Some c; live := Some (run evs s); disposed := [] |},
       trace evs s).
Proof.
  intros Hc. revert s. induction evs as [|[ed i] evs IH]; intros s; [done|].
  cbn [deliverAll run trace]. rewrite deliver_live by done. cbn [fst snd].
  by rewrite IH.
Qed.

(** The effect, run with a container: the container has
    [touch-action: none] and [-webkit-user-select: none], a listener is
    attached for each of the five event types, and the variables are the
    initial ones, whatever an earlier effect left. *)
Theorem effect_prepares_container c w :
  ∃ c', (effect (Some c) w).(container) = Some c'
        ∧ c'.(touchAction) = "none"
        ∧ c'.(webkitUserSelect) = "none"
        ∧ (∀ t, t ∈ c'.(listeners))
        ∧ (effect (Some c) w).(live) = Some initialState.
Proof.
  eexists. split; [done|]. split_and!; [done..| |done].
  intros t. rewrite !elem_of_addEventListener. destruct t; auto 10.
Qed.

(** The effect run with a container, no older callback waiting: the
    world is the transition system of [System] from the initial state. *)
Lemma deliverAll_effect evs c w :
  w.(disposed) = [] →
  deliverAll evs (effect (Some c) w)
    = ({| container := (effect (Some c) w).(container);
          live := Some (run evs initialState);
          disposed := [] |},
       trace evs initialState).
Proof.
  intros Hd. unfold effect at 1. rewrite Hd. rewrite deliverAll_live; [done|].
  intros t. rewrite !elem_of_addEventListener. destruct t; auto 10.
Qed.

Lemma settled_unmounted : settled (N := N) unmounted.
Proof. by split. Qed.

Lemma cleanup_settled w : settled w → (cleanup w).(disposed) = [].
Proof.
  intros [Hd Hq]. unfold cleanup. destruct w.(container), w.(live) as [s|]; try done.
  simpl. by rewrite Hd, (Hq s).
Qed.

(** A render with a container in a settled world: the new effect is the
    transition system of [System] from the initial state. *)
Lemma deliverAll_rerender evs c w :
  settled w →
  deliverAll evs (rerender (Some c) w)
    = ({| container := (rerender (Some c) w).(container);
          live := Some (run evs initialState);
          disposed := [] |},
       trace evs initialState).
Proof. intros Hw. by apply deliverAll_effect, cleanup_settled. Qed.

(** While an effect is live with its listeners attached and no older
    callback is waiting, the world is the transition system of [System]: a
    sequence of inputs leads to the state [run] computes and produces the
    calls [trace] lists. *)
Theorem live_effect_runs evs c w :
  w.(disposed) = [] →
  deliverAll evs (effect (Some c) w)
    = ({| container := (effect (Some c) w).(container);
          live := Some (run evs initialState);
          disposed := [] |},
       trace evs initialState).
Proof. apply deliverAll_effect. Qed.

(** After the cleanup no listener of the hook is attached, no effect is
    live, and an event of the container changes nothing and calls nothing. *)
Theorem cleanup_detaches ed i w c s :
  w.(container) = Some c → w.(live) = Some s → typeOf i ≠ None →
  (∃ c', (cleanup w).(container) = Some c' ∧ c'.(listeners) = [])
  ∧ (cleanup w).(live) = None
  ∧ deliver ed i (cleanup w) = (cleanup w, []).
Proof.
  intros Hc Hl Ht. split_and!.
  - unfold cleanup. rewrite Hc, Hl. eexists; split; [done|].
    apply elem_of_nil_inv; intros t. rewrite !elem_of_removeEventListener.
    destruct t; intros (?&?&?&?&?&?); congruence.
  - unfold cleanup. by rewrite Hc, Hl.
  - apply deliver_not_live; [|done]. unfold cleanup. by rewrite Hc, Hl.
Qed.

(** The cleanup cancels nothing: a [pinch_end] that was requested
    before the cleanup is still dispatched at the next animation frame,
    after the listeners are gone. *)
Theorem cleanup_keeps_pending_pinch_end ed w c s :
  w.(container) = Some c → w.(live) = Some s → w.(disposed) = [] →
  (deliver ed animationFrame (cleanup w)).2
    = (λ cb, pinchEnd cb s) <$> s.(animationFrames).
Proof.
  intros Hc Hl Hd. unfold cleanup, deliver. rewrite Hc, Hl, Hd. simpl.
  destruct s.(animationFrames) eqn:Hq; [done|]. simpl.
  unfold emitted, outputs; simpl. rewrite onAnimationFrame_run; simpl.
  by rewrite Hq, !app_nil_r.
Qed.

(** A render with new dependencies in the middle of a pinch drops the
    pinch: the new effect starts from the initial variables with no pointer
    tracked, so the moves and the release of the fingers that are still
    down are ignored, and no [pinch_end] is ever dispatched for the pinch
    that was started. *)
Theorem rerender_drops_pinch evs c c' s w :
  w.(container) = Some c → w.(live) = Some s →
  w.(disposed) = [] → s.(animationFrames) = [] →
  Forall (λ ei, passive ei.2) evs →
  (deliverAll evs (rerender (Some c') w)).2 = [].
Proof.
  intros Hc Hl Hd Hq Hevs. rewrite deliverAll_rerender by (split; [done|congruence]).
  cbn [snd]. by apply idle_trace.
Qed.

End lifecycle_facts.

(** ** The theorems on a concrete canvas *)

Local Open Scope float_scope.

Definition canvas : Container :=
  {| touchAction := "auto"; webkitUserSelect := "auto"; listeners := [] |}.

(** The hook mounted on the canvas, in the middle of a pinch, and after
    the release that ends it, before the animation frame. *)
Definition pinching : World float :=
  (deliverAll [(editorAt 1 1, pointerdown (finger 1 0 0));
               (editorAt 1 1, pointerdown (finger 2 100 0));
               (editorAt 1 1, pointermove (finger 2 150 0))]
     (effect (Some canvas) unmounted)).1.

Definition lifted : World float :=
  (deliver (editorAt 1 1) (pointerup (finger 2 150 0)) pinching).1.

Lemma live_effect_runs_witness :
  (deliverAll pinchOut (effect (Some canvas) unmounted)).2 = trace pinchOut initialState.
Proof. exact (f_equal snd (live_effect_runs pinchOut canvas unmounted eq_refl)). Defined.

Lemma cleanup_detaches_witness :
  deliver (editorAt 1 1) (pointermove (finger 2 170 0)) (cleanup pinching)
    = (cleanup pinching, []).
Proof.
  refine (proj2 (proj2 (cleanup_detaches (editorAt 1 1) (pointermove (finger 2 170 0))
            pinching _ _ eq_refl eq_refl _))).
  done.
Defined.

(** The component unmounts between the release and the frame: the
    [pinch_end] is dispatched all the same. *)
Lemma cleanup_keeps_pending_pinch_end_witness :
  (deliver (editorAt 1 1) animationFrame (cleanup lifted)).2
    = [Dispatch (pinchInfo pinch_end (mkVecModel 75 0 (Some 1.5))
                   (mkVecModel 75 0 None) (finger 2 150 0))].
Proof.
  exact (cleanup_keeps_pending_pinch_end (editorAt 1 1) lifted _ _
           eq_refl eq_refl eq_refl).
Defined.

(** The editor changes in the middle of the pinch: the fingers move on and
    lift, and nothing is dispatched. *)
Lemma rerender_drops_pinch_witness :
  (deliverAll [(editorAt 1 1, pointermove (finger 2 170 0));
               (editorAt 1 1, pointerup (finger 2 170 0));
               (editorAt 1 1, animationFrame)]
     (rerender (Some canvas) pinching)).2 = [].
Proof.
  refine (rerender_drops_pinch _ _ canvas _ pinching eq_refl eq_refl eq_refl eq_refl _).
  by repeat constructor.
Defined.
