(* ===== verification/FloatLaws.v ===== *)
(** * FloatLaws: what binary64 arithmetic guarantees the hook

    JavaScript's numbers are not a field: addition is not associative and
    a difference can round.  The facts the hook relies on do hold, for
    every pair of numbers, infinities and NaN included:

    - [+] and [*] commute, and the square of a difference is the same in
      both orders (rounding is symmetric about zero): this is what makes
      the order of the two fingers unobservable ([Symmetry]);
    - a square root and an absolute value are never less than zero, so
      that the distances the hook stores are never negative.

    The proofs are about [SpecFloat], the specification the primitive
    operations are axiomatised to follow. *)

From S2P Require Import Prelude Number JSMap Events Samples Pinch Handlers System.
From Stdlib Require Import Floats.

(** ** The specification level *)

Section spec.
Variables prec emax : Z.
Implicit Types (x y a b : spec_float) (s : bool) (m : Z) (l : location).

Lemma SFadd_comm x y : SFadd prec emax x y = SFadd prec emax y x.
Proof.
  destruct x as [[]|[]| |[] mx ex], y as [[]|[]| |[] my ey]; try done;
    unfold SFadd; by rewrite Z.min_comm, Z.add_comm.
Qed.

Lemma SFmul_comm x y : SFmul prec emax x y = SFmul prec emax y x.
Proof.
  destruct x as [[]|[]| |[] mx ex], y as [[]|[]| |[] my ey]; try done;
    unfold SFmul; by rewrite Pos.mul_comm, Z.add_comm.
Qed.

(** Rounding does not look at the sign. *)
Lemma binary_round_aux_opp s m e l :
  binary_round_aux prec emax (negb s) m e l = SFopp (binary_round_aux prec emax s m e l).
Proof.
  unfold binary_round_aux. destruct (shr_fexp _ _ _ _ _) as [mrs e'].
  destruct (shr_fexp _ _ _ _ _) as [mrs' e'']. by repeat case_scrutinee.
Qed.

Lemma binary_round_opp s (p : positive) e :
  binary_round prec emax (negb s) p e = SFopp (binary_round prec emax s p e).
Proof. unfold binary_round. case_scrutinee. apply binary_round_aux_opp. Qed.

(** [b] is [a] with the other sign, or both are zeros. *)
Definition mirror a b : Prop :=
  b = SFopp a ∨ ∃ s s', a = S754_zero s ∧ b = S754_zero s'.

Lemma binary_normalize_mirror m e :
  mirror (binary_normalize prec emax m e false) (binary_normalize prec emax (- m) e false).
Proof.
  destruct m as [|p|p]; simpl; [right; eauto|left..].
  - apply (binary_round_opp false).
  - apply (binary_round_opp true).
Qed.

Lemma SFsub_mirror x y : mirror (SFsub prec emax x y) (SFsub prec emax y x).
Proof.
  destruct x as [[]|[]| |sx mx ex], y as [[]|[]| |sy my ey];
    try (by left); try (right; by eauto).
  1,2: left; simpl; by rewrite negb_involutive.
  unfold SFsub. rewrite (Z.min_comm ey ex).
  match goal with |- mirror (binary_normalize _ _ (?a - ?b) _ _) _ =>
    replace (b - a)%Z with (- (a - b))%Z by lia end.
  apply binary_normalize_mirror.
Qed.

(** A square does not see the sign. *)
Lemma SFmul_mirror a b : mirror a b → SFmul prec emax a a = SFmul prec emax b b.
Proof.
  intros [->|(s & s' & -> & ->)]; [|by destruct s, s'].
  by destruct a as [[]|[]| |[] m e].
Qed.

(** What rounds a magnitude has the sign it is given. *)
Definition nonneg a : Prop := SFltb a (S754_zero false) = false.

Lemma binary_round_aux_nonneg m e l : nonneg (binary_round_aux prec emax false m e l).
Proof.
  unfold binary_round_aux. destruct (shr_fexp _ _ _ _ _) as [mrs e'].
  destruct (shr_fexp _ _ _ _ _) as [mrs' e'']. by repeat case_scrutinee.
Qed.

Lemma SFsqrt_nonneg x : nonneg (SFsqrt prec emax x).
Proof.
  destruct x as [[]|[]| |[] m e]; try done. unfold SFsqrt.
  destruct (SFsqrt_core_binary _ _ _ _) as [[mz ez] lz]. apply binary_round_aux_nonneg.
Qed.

Lemma SFabs_nonneg x : nonneg (SFabs x).
Proof. by destruct x. Qed.

End spec.

(** ** JavaScript numbers *)

Local Open Scope num_scope.

Lemma float_add_comm (a b : float) : a + b = b + a.
Proof. apply Prim2SF_inj; simpl. rewrite !add_spec. apply SFadd_comm. Qed.

Lemma float_mul_comm (a b : float) : a * b = b * a.
Proof. apply Prim2SF_inj; simpl. rewrite !mul_spec. apply SFmul_comm. Qed.

Lemma float_sq_sub_sym (a b : float) : (a - b) * (a - b) = (b - a) * (b - a).
Proof.
  apply Prim2SF_inj; simpl. rewrite !mul_spec, !sub_spec.
  apply SFmul_mirror, SFsub_mirror.
Qed.

(** The number is not less than zero: it is zero, positive or NaN. *)
Definition notNegative (a : float) : Prop := (#0 >? a) = false.

Lemma sqrt_nonneg (a : float) : notNegative (nsqrt a).
Proof. unfold notNegative; simpl. rewrite ltb_spec, sqrt_spec. apply SFsqrt_nonneg. Qed.

Lemma abs_nonneg (a : float) : notNegative (nabs a).
Proof. unfold notNegative; simpl. rewrite ltb_spec, abs_spec. apply SFabs_nonneg. Qed.

(** ** The distances of the hook *)

Section distances.
Implicit Types (p : DOM.PointerEvent float) (s : State float).

Lemma getPointerDistance_nonneg p1 p2 : notNegative (getPointerDistance p1 p2).
Proof. apply sqrt_nonneg. Qed.

(** On JavaScript numbers the two measurements of the classifier are
    never less than zero, whatever the variables hold, NaN and the
    infinities included: a measurement is an absolute value or a square
    root. *)
Theorem measurements_nonneg s :
  notNegative (touchDistance s) ∧ notNegative (originDistance s).
Proof. split; [apply abs_nonneg|apply sqrt_nonneg]. Qed.

(** C35. On JavaScript numbers, in every state the hook can reach, neither
    the initial nor the current distance of the fingers is less than zero
    (either may be zero, infinite or NaN). *)
Theorem reachable_distances_nonneg s :
  reachable s →
  notNegative s.(initDistanceBetweenFingers)
  ∧ notNegative s.(currDistanceBetweenFingers).
Proof.
  apply (distances_reachable notNegative);
    [apply getPointerDistance_nonneg|by vm_compute].
Qed.

End distances.

Lemma reachable_distances_nonneg_witness :
  notNegative twoDown.(initDistanceBetweenFingers).
Proof.
  refine (proj1 (reachable_distances_nonneg twoDown _)).
  apply (reachable_next (editorAt 1 1) (pointerdown (finger 2 100 0))),
        (reachable_next (editorAt 1 1) (pointerdown (finger 1 0 0))), reachable_init.
Defined.
