(* ===== verification/Symmetry.v ===== *)
(** * Symmetry: which finger went down first does not matter

    The handlers read the two fingers of a pinch as
    [const [p1, p2] = Array.from(activePointers.values())], in the order in
    which the pointers were inserted into the [Map].  This file shows that
    the order has no effect on what the hook does.

    - [SymmetricNumber N] is what this needs of the numbers: [+] commutes, and
      the square of a difference does not depend on the order of its
      operands.  The handlers' theorems are proved against this class;
      JavaScript numbers satisfy it for every pair of values, by the facts
      of [FloatLaws].
    - [similar] relates two states of the hook whose variables are equal
      and whose maps hold the same pointers ([JSMap.similar]).
    - Every listener maps similar states to similar states and calls the
      same functions with the same arguments; so do runs. *)

From S2P Require Import Prelude Number JSMap Events Samples Pinch Handlers System FloatLaws.
From Stdlib Require Import Floats.
Import (hints) JSMap.JSMap.

Local Open Scope num_scope.

(** ** What the geometry needs of the numbers *)

Class SymmetricNumber (N : Type) `{Number N} : Prop := {
  nadd_comm (a b : N) : a + b = b + a;
  nsq_sub_sym (a b : N) : (a - b) * (a - b) = (b - a) * (b - a);
}.

#[export] Instance float_Symmetric : SymmetricNumber float :=
  {| nadd_comm := float_add_comm; nsq_sub_sym := float_sq_sub_sym |}.

(** ** States that differ in the order of the map only *)

Record similar {N : Type} (s1 s2 : State N) : Prop := {
  sim_activePointers : JSMap.similar s1.(activePointers) s2.(activePointers);
  sim_pinchState : s1.(pinchState) = s2.(pinchState);
  sim_initDistance : s1.(initDistanceBetweenFingers) = s2.(initDistanceBetweenFingers);
  sim_initZoom : s1.(initZoom) = s2.(initZoom);
  sim_currDistance : s1.(currDistanceBetweenFingers) = s2.(currDistanceBetweenFingers);
  sim_initPoint : s1.(initPointBetweenFingers) = s2.(initPointBetweenFingers);
  sim_prevPoint : s1.(prevPointBetweenFingers) = s2.(prevPointBetweenFingers);
  sim_animationFrames : s1.(animationFrames) = s2.(animationFrames);
}.

(** [similar_done H] closes a goal [agree] on two explicit pairs of a state
    and a list of calls, the states of the handlers being similar by [H]:
    it replaces the second state by the first with another map, after
    which the variables and the calls are syntactically equal. *)
Ltac similar_done H :=
  destruct H;
  repeat match goal with s : State _ |- _ => destruct s end;
  simpl in *; simplify_eq;
  split; [constructor; simpl; done|done].

Section geometry.
Context {N : Type} `{SymmetricNumber N}.
Implicit Types (p : DOM.PointerEvent N).

Lemma getPointerCenter_comm p1 p2 : getPointerCenter p1 p2 = getPointerCenter p2 p1.
Proof.
  unfold getPointerCenter.
  by rewrite (nadd_comm (DOM.clientX p1)), (nadd_comm (DOM.clientY p1)).
Qed.

Lemma getPointerDistance_sym p1 p2 : getPointerDistance p1 p2 = getPointerDistance p2 p1.
Proof.
  unfold getPointerDistance. cbv zeta.
  by rewrite (nsq_sub_sym (DOM.clientX p1)), (nsq_sub_sym (DOM.clientY p1)).
Qed.

End geometry.

(** ** The listeners respect similarity *)

Section listeners.
Context {N : Type} `{SymmetricNumber N, Host N}.
Implicit Types (s : State N) (ed : Editor N) (e : DOM.PointerEvent N) (i : Input N).

#[export] Instance similar_per : RelationClasses.PER (@similar N).
Proof.
  split.
  - intros s1 s2 []. by constructor.
  - intros s1 s2 s3 [] []. constructor; by etrans.
Qed.

Lemma similar_state_refl s : JSMap.wf s.(activePointers) → similar s s.
Proof. intros ?. by constructor. Qed.

(** What a handler does on two states is the same up to the order of the
    tracked pointers. *)
Definition agree (h : Hook N unit) ed s1 s2 : Prop :=
  similar (exec h ed s1) (exec h ed s2) ∧ outputs h ed s1 = outputs h ed s2.

Lemma pinchStarted_comm ed p1 p2 s : pinchStarted ed p2 p1 s = pinchStarted ed p1 p2 s.
Proof.
  unfold pinchStarted.
  by rewrite (getPointerCenter_comm p2 p1), (getPointerDistance_sym p2 p1).
Qed.

Lemma pinchMoved_comm p1 p2 s : pinchMoved p2 p1 s = pinchMoved p1 p2 s.
Proof.
  unfold pinchMoved, pinchMeasured.
  by rewrite (getPointerCenter_comm p2 p1), (getPointerDistance_sym p2 p1).
Qed.

Lemma pinchUpdate_comm e p1 p2 s zm : pinchUpdate e p2 p1 s zm = pinchUpdate e p1 p2 s zm.
Proof. unfold pinchUpdate. by rewrite (getPointerCenter_comm p2 p1). Qed.

Lemma onPointerDown_agree ed e s1 s2 : similar s1 s2 → agree (onPointerDown e) ed s1 s2.
Proof.
  intros Hs. unfold agree, exec, outputs.
  pose proof (JSMap.set_similar e.(DOM.pointerId) e _ _ (sim_activePointers _ _ Hs)) as Hm.
  destruct (decide (JSMap.size (JSMap.set e.(DOM.pointerId) e s1.(activePointers)) = 2))
    as [Hn|Hn].
  - destruct (JSMap.values_size_two _ Hn) as (p1 & p2 & Hv).
    rewrite (onPointerDown_two ed e s1 p1 p2 Hv).
    destruct (JSMap.similar_values_two _ _ p1 p2 Hm Hv) as [Hv'|Hv'];
      [rewrite (onPointerDown_two ed e s2 p1 p2 Hv')
      |rewrite (onPointerDown_two ed e s2 p2 p1 Hv'),
         (pinchStarted_comm ed p1 p2), (getPointerCenter_comm p2 p1)];
      similar_done Hs.
  - rewrite (onPointerDown_other ed e s1 Hn), (onPointerDown_other ed e s2);
      [similar_done Hs|by rewrite <-(JSMap.size_similar _ _ Hm)].
Qed.

Lemma onPointerMove_agree ed e s1 s2 : similar s1 s2 → agree (onPointerMove e) ed s1 s2.
Proof.
  intros Hs. unfold agree, exec, outputs.
  pose proof (sim_activePointers _ _ Hs) as Hm0.
  pose proof (JSMap.set_similar e.(DOM.pointerId) e _ _ Hm0) as Hm.
  pose proof (JSMap.has_similar e.(DOM.pointerId) _ _ Hm0) as Hh2.
  destruct (JSMap.has e.(DOM.pointerId) s1.(activePointers)) eqn:Hh1; symmetry in Hh2;
    [|rewrite (onPointerMove_untracked ed e s1 Hh1), (onPointerMove_untracked ed e s2 Hh2);
      similar_done Hs].
  destruct (decide (JSMap.size (JSMap.set e.(DOM.pointerId) e s1.(activePointers)) = 2))
    as [Hn|Hn].
  - destruct (JSMap.values_size_two _ Hn) as (p1 & p2 & Hv).
    rewrite (onPointerMove_two ed e s1 p1 p2 Hh1 Hv).
    destruct (JSMap.similar_values_two _ _ p1 p2 Hm Hv) as [Hv'|Hv'];
      [rewrite (onPointerMove_two ed e s2 p1 p2 Hh2 Hv')
      |rewrite (onPointerMove_two ed e s2 p2 p1 Hh2 Hv'),
         !(pinchMoved_comm p1 p2), !(pinchUpdate_comm e p1 p2)];
      similar_done Hs.
  - rewrite (onPointerMove_other ed e s1 Hh1 Hn), (onPointerMove_other ed e s2 Hh2);
      [similar_done Hs|by rewrite <-(JSMap.size_similar _ _ Hm)].
Qed.

Lemma onPointerUp_agree ed e s1 s2 : similar s1 s2 → agree (onPointerUp e) ed s1 s2.
Proof.
  intros Hs. unfold agree, exec, outputs.
  pose proof (sim_activePointers _ _ Hs) as Hm0.
  pose proof (JSMap.delete_similar e.(DOM.pointerId) _ _ Hm0) as Hm.
  pose proof (JSMap.size_similar _ _ Hm0) as Hn2.
  destruct (decide (JSMap.size s1.(activePointers) = 2)) as [Hn|Hn].
  - rewrite (onPointerUp_two ed e s1 Hn), (onPointerUp_two ed e s2) by congruence.
    similar_done Hs.
  - rewrite (onPointerUp_other ed e s1 Hn), (onPointerUp_other ed e s2) by congruence.
    similar_done Hs.
Qed.

Lemma onWheel_agree ed (w : DOM.WheelEvent N) s1 s2 :
  similar s1 s2 → agree (onWheel w) ed s1 s2.
Proof.
  intros Hs. unfold agree, exec, outputs.
  pose proof (sim_activePointers _ _ Hs) as Hm.
  destruct (isFocused ed) eqn:Hf; [|rewrite !onWheel_unfocused by done; similar_done Hs].
  destruct (scrollsEditingShape ed) eqn:Hsc;
    [rewrite !onWheel_scrolls by done|rewrite !onWheel_handled by done];
    similar_done Hs.
Qed.

Lemma onAnimationFrame_agree ed s1 s2 : similar s1 s2 → agree onAnimationFrame ed s1 s2.
Proof.
  intros Hs. unfold agree, exec, outputs. rewrite !onAnimationFrame_run.
  pose proof (sim_activePointers _ _ Hs) as Hm. similar_done Hs.
Qed.

Lemma listener_agree ed i s1 s2 : similar s1 s2 → agree (listener i) ed s1 s2.
Proof.
  destruct i; simpl;
    auto using onPointerDown_agree, onPointerMove_agree, onPointerUp_agree,
      onWheel_agree, onAnimationFrame_agree.
Qed.

#[export] Instance next_similar ed i : Proper (similar ==> similar) (next ed i).
Proof. intros s1 s2 Hs. apply (listener_agree ed i _ _ Hs). Qed.

#[export] Instance emitted_similar ed i : Proper (similar ==> eq) (emitted ed i).
Proof. intros s1 s2 Hs. apply (listener_agree ed i _ _ Hs). Qed.

#[export] Instance run_similar evs : Proper (similar ==> similar) (run evs).
Proof.
  induction evs as [|[ed i] evs IH]; intros s1 s2 Hs; simpl; [done|].
  by apply IH, next_similar.
Qed.

#[export] Instance trace_similar evs : Proper (similar ==> eq) (trace evs).
Proof.
  induction evs as [|[ed i] evs IH]; intros s1 s2 Hs; simpl; [done|].
  f_equal; [by apply emitted_similar|by apply IH, next_similar].
Qed.

(** C30. The order in which the pointers were inserted into
    [activePointers] is not observable: from two states with the same
    variables and the same tracked pointers, every sequence of inputs makes
    the hook call the same functions with the same arguments, and leaves
    states that again differ in the order of the map at most. *)
Theorem finger_order_is_not_observable evs s1 s2 :
  similar s1 s2 →
  trace evs s1 = trace evs s2 ∧ similar (run evs s1) (run evs s2).
Proof. intros Hs. split; [by apply trace_similar|by apply run_similar]. Qed.

End listeners.

(** The measurements of a pinch are symmetric in the two fingers: on
    [SymmetricNumber] numbers the midpoint and the distance are the same
    whichever pointer comes first. *)
Theorem pinch_geometry_symmetric {N : Type} `{SymmetricNumber N} (p1 p2 : DOM.PointerEvent N) :
  getPointerCenter p1 p2 = getPointerCenter p2 p1
  ∧ getPointerDistance p1 p2 = getPointerDistance p2 p1.
Proof. split; [apply getPointerCenter_comm|apply getPointerDistance_sym]. Qed.

(** The theorems on JavaScript numbers: the fingers of [twoDown] in the
    other order, through a move, a release and the frame after it. *)
Definition twoDownSwapped : State float := set_activePointers reverse twoDown.

Lemma twoDown_similar : similar twoDown twoDownSwapped.
Proof.
  constructor; try done. apply JSMap.similar_perm.
  - by apply (bool_decide_unpack _).
  - symmetry. apply reverse_Permutation.
Qed.

Lemma finger_order_is_not_observable_witness :
  let evs := [(editorAt 1 1, pointermove (finger 1 0 50));
              (editorAt 1 1, pointerup (finger 1 0 50));
              (editorAt 1 1, animationFrame)] in
  trace evs twoDown = trace evs twoDownSwapped.
Proof.
  intros evs. exact (proj1 (finger_order_is_not_observable evs _ _ twoDown_similar)).
Defined.

Lemma pinch_geometry_symmetric_witness :
  getPointerDistance (finger 1 0 0) (finger 2 3 4)
    = getPointerDistance (finger 2 3 4) (finger 1 0 0).
Proof. exact (proj2 (pinch_geometry_symmetric (finger 1 0 0) (finger 2 3 4))). Defined.
