(* ===== verification/Simulation.v ===== *)
(** * Simulation: the specification follows the hook, rule by rule

    What [Refines] is built from.

    - [specStep], [specRun], [specTrace]: the machine of [Spec] on the
      inputs of the hook.
    - The protocol, in two parts.  [regular] is about which pointers an
      event names: a [pointerdown] after which two pointers are tracked
      is of a pointer that was not tracked, a pointer that leaves a pair
      is one of the pair, and the shape that is edited has a name.
      [timely] is about when events come: no pinch-end is waiting when a
      pair is made, and a pair has moved before a pointer leaves it.
      [allowed] is both; [along P evs t] says that every input of [evs]
      satisfies [P] in the state the specification is in then.
    - [absWith] reads a state of the hook as a state of the
      specification: the [Map] as a finite map, the variables of the
      closure as the session while two pointers or more are tracked.
      What the specification has deferred is a separate argument, since
      the hook only decides at the frame what a callback dispatches;
      [abs] takes for it what the callbacks would dispatch now.
    - One lemma for each rule of [step]: on a regular input the
      operation of the specification, in the state that [absWith] reads
      off, computes the state that it reads off after the rule, and the
      calls of the rule.

    The specification's contact set has no order, the hook's [Map] has
    one: the two agree because the numbers are [SymmetricNumber]. *)

From S2P Require Import Prelude Number JSMap Events Samples Pinch Handlers System.
From S2P Require Import Gestures Spec FloatLaws Symmetry.
From stdpp Require Import gmap strings.
Import (hints) JSMap.JSMap.

(** ** The specification on the inputs of the hook *)

Section spec_runs.
Context {N : Type} `{Number N, Host N}.
Implicit Types (t : Spec.State N) (ed : Editor N) (i : Input N)
  (evs : list (Editor N * Input N)).

Definition specStep ed i t : Spec.State N * list (Effect N) :=
  match i with
  | pointerdown e => Spec.contactStart ed e t
  | pointermove e => Spec.contactMove ed e t
  | pointerup e | pointercancel e => Spec.contactEnd ed e t
  | wheel w => Spec.wheelEvent ed w t
  | animationFrame => Spec.frame t
  end.

Fixpoint specRun evs t : Spec.State N :=
  match evs with
  | [] => t
  | (ed, i) :: evs' => specRun evs' (specStep ed i t).1
  end.

Fixpoint specTrace evs t : list (Effect N) :=
  match evs with
  | [] => []
  | (ed, i) :: evs' => (specStep ed i t).2 ++ specTrace evs' (specStep ed i t).1
  end.

(** ** The protocol *)

(** The event names the pointers the specification expects. *)
Definition regular ed i t : Prop :=
  match i with
  | pointerdown e =>
      size (<[e.(DOM.pointerId) := e]> t.(Spec.contacts)) = 2 →
      ¬ is_Some (t.(Spec.contacts) !! e.(DOM.pointerId))
  | pointerup e | pointercancel e =>
      size t.(Spec.contacts) = 2 → is_Some (t.(Spec.contacts) !! e.(DOM.pointerId))
  | wheel w => ed.(getEditingShapeId) ≠ Some ""
  | pointermove _ | animationFrame => True
  end.

(** The event comes when the specification expects it. *)
Definition timely i t : Prop :=
  match i with
  | pointerdown e =>
      size (<[e.(DOM.pointerId) := e]> t.(Spec.contacts)) = 2 →
      length t.(Spec.deferred) = 0
  | pointerup e | pointercancel e =>
      size t.(Spec.contacts) = 2 → is_Some (t.(Spec.session) ≫= Spec.currentDistance)
  | wheel _ | pointermove _ | animationFrame => True
  end.

(** The inputs on which the specification and the hook agree. *)
Definition allowed ed i t : Prop := regular ed i t ∧ timely i t.

#[export] Instance regular_dec ed i t : Decision (regular ed i t).
Proof. destruct i; simpl; apply _. Defined.

#[export] Instance timely_dec i t : Decision (timely i t).
Proof. destruct i; simpl; apply _. Defined.

#[export] Instance allowed_dec ed i t : Decision (allowed ed i t).
Proof. apply _. Defined.

(** Every input satisfies [P] in the state of the specification when it
    arrives. *)
Fixpoint along (P : Editor N → Input N → Spec.State N → Prop) evs t : Prop :=
  match evs with
  | [] => True
  | (ed, i) :: evs' => P ed i t ∧ along P evs' (specStep ed i t).1
  end.

#[export] Instance along_dec P `{!∀ ed i t, Decision (P ed i t)} evs t :
  Decision (along P evs t).
Proof. revert t. induction evs as [|[ed i] evs IH]; intros t; simpl; apply _. Defined.

Lemma along_impl (P Q : Editor N → Input N → Spec.State N → Prop) evs t :
  (∀ ed i t, P ed i t → Q ed i t) → along P evs t → along Q evs t.
Proof.
  intros HPQ. revert t. induction evs as [|[ed i] evs IH]; intros t; simpl; [done|].
  intros [??]. auto.
Qed.

Lemma specRun_app evs1 evs2 t : specRun (evs1 ++ evs2) t = specRun evs2 (specRun evs1 t).
Proof. revert t. induction evs1 as [|[ed i] evs1 IH]; intros t; simpl; auto. Qed.

Lemma along_app (P : Editor N → Input N → Spec.State N → Prop) evs1 evs2 t :
  along P (evs1 ++ evs2) t ↔ along P evs1 t ∧ along P evs2 (specRun evs1 t).
Proof.
  revert t. induction evs1 as [|[ed i] evs1 IH]; intros t; simpl; [tauto|].
  rewrite IH. tauto.
Qed.

End spec_runs.

(** The protocol: every input is allowed when it arrives. *)
Definition protocol {N} `{Number N, Host N} (evs : list (Editor N * Input N))
    (t : Spec.State N) : Prop := along allowed evs t.
Arguments protocol {N _ _} _ _ /.

#[export] Instance protocol_dec {N} `{Number N, Host N} (evs : list (Editor N * Input N))
    (t : Spec.State N) : Decision (protocol evs t).
Proof. unfold protocol. apply _. Defined.

(** ** The abstraction *)

Section abstraction.
Context {N : Type} `{Number N, Host N}.
Implicit Types (s : State N) (t : Spec.State N) (cd : option N)
  (D : list (Effect N)) (m : JSMap.t (DOM.PointerEvent N)).

Definition modeOf (st : PinchState) : Spec.Mode :=
  match st with
  | not_sure => Spec.undecided
  | zooming => Spec.zooming
  | panning => Spec.panning
  end.

(** The session the variables stand for; [cd] is the distance that has
    been measured in this session, if any. *)
Definition sessionOf s cd : Spec.Session N := {|
  Spec.mode := modeOf s.(pinchState);
  Spec.initDistance := s.(initDistanceBetweenFingers);
  Spec.initZoom := s.(initZoom);
  Spec.currentDistance := cd;
  Spec.initCentroid := s.(initPointBetweenFingers);
  Spec.prevCentroid := s.(prevPointBetweenFingers);
|}.

(** The state of the specification with the contacts and the session
    of [s], and the deferred emissions [D]. *)
Definition absWith cd D s : Spec.State N := {|
  Spec.contacts := JSMap.to_gmap s.(activePointers);
  Spec.session :=
    if decide (2 ≤ JSMap.size s.(activePointers)) then Some (sessionOf s cd) else None;
  Spec.deferred := D;
|}.

(** What the callbacks that wait would dispatch if the frame came now. *)
Definition pending s : list (Effect N) := (λ cb, pinchEnd cb s) <$> s.(animationFrames).

Definition abs cd s : Spec.State N := absWith cd (pending s) s.

End abstraction.

(** ** The two machines on one input *)

(** The sizes of the [Map] after [set] and [delete], by cases. *)
Ltac map_size :=
  simpl in *; rewrite ?JSMap.size_set, ?JSMap.size_delete in *;
  repeat case_match; simplify_eq/=; (done || lia).

Section facts.
Context {N : Type} `{SymmetricNumber N, Host N}.
Implicit Types (s : State N) (t : Spec.State N) (cd : option N) (ed : Editor N)
  (e p : DOM.PointerEvent N) (m : JSMap.t (DOM.PointerEvent N)).

Lemma classify_modeOf st (a b : N) :
  Spec.classify (modeOf st) a b = modeOf (nextPinchState st a b).
Proof. destruct st; simpl; by repeat case_scrutinee. Qed.

(** The exemption of the specification is the hook's, for a shape with a
    name. *)
Lemma exempt_scrolls ed :
  ed.(getEditingShapeId) ≠ Some "" → Spec.exempt ed = scrollsEditingShape ed.
Proof.
  unfold Spec.exempt, scrollsEditingShape. destruct (getEditingShapeId ed) as [id|]; [|done].
  intros Hid. rewrite decide_False by (by intros ->).
  destruct (getShape ed id), (getShapePageBounds ed id); try done; by destruct (canScroll _ _).
Qed.

(** The pair of the specification is the hook's two fingers, in some
    order; the geometry does not see the order. *)
Lemma activePair_values m p1 p2 :
  JSMap.wf m → JSMap.values m = [p1; p2] →
  ∃ pa pb, Spec.activePair (JSMap.to_gmap m) = Some (pa, pb)
    ∧ Spec.centroid pa pb = getPointerCenter p1 p2
    ∧ Spec.distance pa pb = getPointerDistance p1 p2.
Proof.
  intros Hwf Hv. pose proof (JSMap.values_to_gmap m Hwf) as Hp. rewrite Hv in Hp.
  apply Permutation_length_2_inv in Hp as [Hp|Hp]; unfold Spec.activePair; rewrite Hp.
  - by exists p1, p2.
  - exists p2, p1. split_and!; [done|apply (getPointerCenter_comm p2 p1)|].
    apply (getPointerDistance_sym p2 p1).
Qed.

Lemma activePair_other m :
  JSMap.wf m → JSMap.size m ≠ 2 → Spec.activePair (JSMap.to_gmap m) = None.
Proof.
  intros Hwf Hn. unfold Spec.activePair.
  pose proof (JSMap.values_to_gmap m Hwf) as Hp%Permutation_length.
  rewrite JSMap.length_values in Hp.
  by destruct ((map_to_list _).*2) as [|? [|? [|]]]; simplify_eq/=.
Qed.

(** Membership, read through the abstraction. *)
Lemma is_Some_to_gmap k m : is_Some (JSMap.to_gmap m !! k) ↔ JSMap.has k m = true.
Proof. by rewrite JSMap.to_gmap_lookup, JSMap.get_has. Qed.

(** What a regular input says of the hook's [Map]. *)
Lemma regular_down ed e s cd D :
  JSMap.wf s.(activePointers) → regular ed (pointerdown e) (absWith cd D s) →
  JSMap.size (tracked e s).(activePointers) = 2 →
  JSMap.has e.(DOM.pointerId) s.(activePointers) = false.
Proof.
  intros Hwf Hr Hn; simpl in *.
  rewrite <-JSMap.to_gmap_set, JSMap.size_to_gmap, is_Some_to_gmap in Hr by auto with jsmap.
  specialize (Hr Hn). by destruct (JSMap.has _ _).
Qed.

Lemma regular_up ed i e s cd D :
  JSMap.wf s.(activePointers) → released i = Some e → regular ed i (absWith cd D s) →
  JSMap.size s.(activePointers) = 2 →
  JSMap.has e.(DOM.pointerId) s.(activePointers) = true.
Proof.
  intros Hwf Hi Hr Hn. destruct i; simplify_eq/=;
    rewrite JSMap.size_to_gmap, is_Some_to_gmap in Hr by done; auto.
Qed.

End facts.

(** ** One rule of the hook, one operation of the specification *)

Section rules.
Context {N : Type} `{SymmetricNumber N, Host N}.
Implicit Types (s : State N) (t : Spec.State N) (cd : option N) (ed : Editor N)
  (D : list (Effect N)) (e p : DOM.PointerEvent N).

Lemma down_start_sim ed e s p1 p2 cd D :
  JSMap.wf s.(activePointers) →
  JSMap.has e.(DOM.pointerId) s.(activePointers) = false →
  JSMap.values (tracked e s).(activePointers) = [p1; p2] →
  Spec.contactStart ed e (absWith cd D s)
    = (absWith None D (pinchStarted ed p1 p2 (tracked e s)), [pinchStart ed e p1 p2]).
Proof.
  intros Hwf Hnew Hv. pose proof (JSMap.size_values_two _ _ _ Hv) as Hn.
  simpl in Hv, Hn. rewrite JSMap.size_set, Hnew in Hn.
  unfold Spec.contactStart; simpl. rewrite <-JSMap.to_gmap_set, JSMap.size_to_gmap by done.
  destruct (activePair_values _ p1 p2 (JSMap.wf_set _ e _ Hwf) Hv) as (pa & pb & -> & Hc & Hd).
  rewrite decide_True by lia. unfold Spec.startSession, absWith; simpl.
  by rewrite Hc, Hd, decide_True by (rewrite JSMap.size_set, Hnew; lia).
Qed.

Lemma down_track_sim ed e s cd D :
  JSMap.wf s.(activePointers) →
  JSMap.size (tracked e s).(activePointers) ≠ 2 →
  Spec.contactStart ed e (absWith cd D s) = (absWith cd D (tracked e s), []).
Proof.
  intros Hwf Hn. simpl in Hn. unfold Spec.contactStart; simpl. rewrite <-JSMap.to_gmap_set.
  rewrite activePair_other by auto with jsmap. unfold absWith; simpl.
  repeat case_decide; (done || map_size).
Qed.

Lemma move_untracked_sim ed e s cd D :
  JSMap.has e.(DOM.pointerId) s.(activePointers) = false →
  Spec.contactMove ed e (absWith cd D s) = (absWith cd D s, []).
Proof.
  intros Hh. unfold Spec.contactMove; simpl.
  by rewrite decide_False by (rewrite is_Some_to_gmap; congruence).
Qed.

Lemma move_track_sim ed e s cd D :
  JSMap.wf s.(activePointers) →
  JSMap.has e.(DOM.pointerId) s.(activePointers) = true →
  JSMap.size (tracked e s).(activePointers) ≠ 2 →
  Spec.contactMove ed e (absWith cd D s) = (absWith cd D (tracked e s), []).
Proof.
  intros Hwf Hh Hn. simpl in Hn. unfold Spec.contactMove; simpl.
  rewrite decide_True by (by rewrite is_Some_to_gmap). rewrite <-JSMap.to_gmap_set.
  rewrite activePair_other by auto with jsmap. unfold absWith; simpl.
  rewrite JSMap.size_set, Hh. by case_decide.
Qed.

(** The update of a session is the update of the variables, whichever of
    the two fingers the specification takes first. *)
Lemma updateSession_sessionOf s cd e pa pb p1 p2 :
  Spec.centroid pa pb = getPointerCenter p1 p2 →
  Spec.distance pa pb = getPointerDistance p1 p2 →
  Spec.updateSession (sessionOf s cd) pa pb
    = sessionOf (pinchMoved p1 p2 (tracked e s)) (Some (getPointerDistance p1 p2)).
Proof.
  intros Hc Hd. unfold Spec.updateSession. rewrite Hc, Hd.
  unfold sessionOf; simpl. by rewrite classify_modeOf.
Qed.

Lemma updateEvents_pinchReport ed e s cd pa pb p1 p2 :
  Spec.centroid pa pb = getPointerCenter p1 p2 →
  Spec.distance pa pb = getPointerDistance p1 p2 →
  Spec.updateEvents ed e (sessionOf s cd) pa pb = pinchReport ed e p1 p2 s.
Proof.
  intros Hc Hd. unfold Spec.updateEvents.
  rewrite (updateSession_sessionOf s cd e pa pb p1 p2), Hc, Hd by done.
  unfold pinchReport; simpl. by destruct (nextPinchState (pinchState s) _ _).
Qed.

Lemma move_pinch_sim ed e s p1 p2 cd D :
  JSMap.wf s.(activePointers) →
  JSMap.has e.(DOM.pointerId) s.(activePointers) = true →
  JSMap.values (tracked e s).(activePointers) = [p1; p2] →
  Spec.contactMove ed e (absWith cd D s)
    = (absWith (Some (getPointerDistance p1 p2)) D (pinchMoved p1 p2 (tracked e s)),
       pinchReport ed e p1 p2 s).
Proof.
  intros Hwf Hh Hv. simpl in Hv.
  pose proof (JSMap.size_values_two _ _ _ Hv) as Hn. rewrite JSMap.size_set, Hh in Hn.
  unfold Spec.contactMove; simpl.
  rewrite !decide_True by (lia || by rewrite is_Some_to_gmap). rewrite <-JSMap.to_gmap_set.
  destruct (activePair_values _ p1 p2 (JSMap.wf_set _ e _ Hwf) Hv) as (pa & pb & -> & Hc & Hd).
  rewrite (updateSession_sessionOf s cd e pa pb p1 p2),
    (updateEvents_pinchReport ed e s cd pa pb p1 p2) by done.
  unfold absWith; simpl. by rewrite decide_True by (rewrite ?JSMap.size_set, ?Hh; lia).
Qed.

Lemma up_end_sim ed e s cd D :
  JSMap.wf s.(activePointers) →
  JSMap.has e.(DOM.pointerId) s.(activePointers) = true →
  JSMap.size s.(activePointers) = 2 →
  Spec.contactEnd ed e (absWith cd D s)
    = (absWith None (D ++ [Spec.endEvent ed e (sessionOf s cd)])
         (untracked e (set_animationFrames (λ q, q ++ [pinchEndFrame ed e s])
                         (set_pinchState not_sure s))), []).
Proof.
  intros Hwf Hh Hn. unfold Spec.contactEnd; simpl.
  rewrite !decide_True by (lia || by rewrite is_Some_to_gmap || by rewrite JSMap.size_to_gmap).
  unfold absWith; simpl. rewrite JSMap.to_gmap_delete by done.
  by rewrite decide_False by map_size.
Qed.

Lemma up_untrack_sim ed e s cd D :
  JSMap.wf s.(activePointers) →
  JSMap.size s.(activePointers) ≠ 2 →
  Spec.contactEnd ed e (absWith cd D s) = (absWith cd D (untracked e s), []).
Proof.
  intros Hwf Hn. unfold Spec.contactEnd, absWith; simpl.
  rewrite JSMap.to_gmap_delete, JSMap.size_to_gmap by done.
  case_decide as Hh; rewrite is_Some_to_gmap in Hh.
  - repeat case_decide; (done || map_size).
  - by rewrite JSMap.size_delete, delete_id
      by (by rewrite eq_None_not_Some, is_Some_to_gmap); destruct (JSMap.has _ _).
Qed.

Lemma interrupt_absWith cd D s :
  Spec.interrupt (absWith cd D s) = absWith cd D (set_pinchState not_sure s).
Proof. unfold Spec.interrupt, absWith; simpl. by case_decide. Qed.

Lemma wheel_sim ed (w : DOM.WheelEvent N) s cd D :
  ed.(getEditingShapeId) ≠ Some "" →
  Spec.wheelEvent ed w (absWith cd D s)
    = if ed.(isFocused) then
        (absWith cd D (set_pinchState not_sure s),
         if scrollsEditingShape ed then []
         else PreventDefault :: StopEventPropagation
                :: if zeroDelta w then [] else [wheelInfo w])
      else (absWith cd D s, []).
Proof.
  intros Hid. unfold Spec.wheelEvent. rewrite exempt_scrolls, interrupt_absWith by done.
  by destruct (isFocused ed), (scrollsEditingShape ed).
Qed.

Lemma frame_sim s cd D :
  Spec.frame (absWith cd D s) = (absWith cd [] (set_animationFrames (λ _, []) s), D).
Proof. done. Qed.

Lemma specStep_released ed i e t :
  released i = Some e → specStep ed i t = Spec.contactEnd ed e t.
Proof. by destruct i; intros; simplify_eq/=. Qed.

End rules.
