(* ===== verification/Refines.v ===== *)
(** * Refines: the hook against its specification

    The hook implements the machine of [Spec] on the inputs the
    specification has in mind, and this file says which those are and
    what remains true on others.

    - Along the protocol ([allowed]: the input is [regular] and
      [timely]) the hook and the specification make the same calls and
      reach states that correspond ([step_simulation], [run_simulation]).
      The invariant [good] is what the correspondence needs of the
      hook, and what the protocol gives: no callback waits while a pinch
      is on, at most one callback ever waits, and the current distance is
      the one measured in this session.  Any number of
      pointers may be down.
    - On inputs that are only [regular] the calls still agree up to what
      a [pinch_end] reports ([shape] erases its point, zoom and delta):
      the hook computes these at the frame and from variables the next
      pinch overwrites, the specification when the pinch ends
      ([step_simulation_shape], [run_simulation_shape]).
    - Each condition of the protocol is there because the hook differs
      from the specification without it: the runs of the last section
      break one condition each and end in different calls; those that
      break [regular] differ in more than a [pinch_end]. *)

From Stdlib Require Import Floats.
From stdpp Require Import gmap strings.
From S2P Require Import Prelude Number JSMap Events Samples Pinch Handlers System.
From S2P Require Import Gestures Spec Lifecycle FloatLaws Symmetry Simulation.
Import (hints) JSMap.JSMap.

(** ** Along the protocol: the same calls *)

Section exact.
Context {N : Type} `{SymmetricNumber N, Host N}.
Implicit Types (s : State N) (t : Spec.State N) (cd : option N) (ed : Editor N)
  (e p : DOM.PointerEvent N) (evs : list (Editor N * Input N)).

(** What holds of the hook's state along the protocol: no callback is
    waiting while a pinch is on, at most one is ever waiting, and the
    current distance is the one measured in this session. *)
Record good cd s : Prop := {
  good_wf : JSMap.wf s.(activePointers);
  good_frames : 2 ≤ JSMap.size s.(activePointers) → s.(animationFrames) = [];
  good_queue : length s.(animationFrames) ≤ 1;
  good_measured : ∀ d, cd = Some d → s.(currDistanceBetweenFingers) = d;
}.

Lemma good_init : good None initialState.
Proof. split; simpl; auto with jsmap; (done || lia). Qed.

Lemma allowed_down ed e s cd :
  good cd s → allowed ed (pointerdown e) (abs cd s) →
  JSMap.size (tracked e s).(activePointers) = 2 →
  JSMap.has e.(DOM.pointerId) s.(activePointers) = false ∧ s.(animationFrames) = [].
Proof.
  intros [Hwf _ _ _] [Hr Ht] Hn. split; [by eapply regular_down|]. simpl in Ht, Hn.
  rewrite <-JSMap.to_gmap_set, JSMap.size_to_gmap in Ht by auto with jsmap.
  apply Ht in Hn. unfold pending in Hn. rewrite length_fmap in Hn. by apply nil_length_inv.
Qed.

Lemma allowed_up ed i e s cd :
  good cd s → released i = Some e → allowed ed i (abs cd s) →
  JSMap.size s.(activePointers) = 2 →
  JSMap.has e.(DOM.pointerId) s.(activePointers) = true ∧ is_Some cd.
Proof.
  intros [Hwf _ _ _] Hi [Hr Ht] Hn. split; [by eapply regular_up|].
  destruct i; simplify_eq/=;
    rewrite JSMap.size_to_gmap, decide_True in Ht by (done || lia); by apply Ht.
Qed.

(** On an allowed input the specification makes the calls the hook makes,
    and the states correspond again. *)
Lemma step_simulation ed i s s' ws cd :
  step ed i s s' ws → good cd s → allowed ed i (abs cd s) →
  ∃ cd', specStep ed i (abs cd s) = (abs cd' s', ws) ∧ good cd' s'.
Proof.
  destruct 1 as [e s p1 p2 Hv|e s Hn|e s Hh|e s Hh Hn|e s p1 p2 Hh Hv
                |i e s Hi Hn|i e s Hi Hn|w s Hf|w s Hf Hs|w s Hf Hs|s];
    intros Hg Ha; pose proof Hg as [Hwf Hfr Hlen Hcd]; unfold abs;
    rewrite ?(specStep_released ed i e) by done; cbn [specStep].
  - destruct (allowed_down ed e s cd Hg Ha (JSMap.size_values_two _ _ _ Hv)) as [Hnew Hq].
    rewrite (down_start_sim ed e s p1 p2) by done. exists None.
    split; [by unfold pending; simpl; rewrite Hq|split; simpl; auto with jsmap; done].
  - rewrite down_track_sim by done. exists cd.
    split; [done|]. split; simpl; auto with jsmap. intros ?. apply Hfr. map_size.
  - rewrite move_untracked_sim by done. eauto.
  - rewrite move_track_sim by done. exists cd.
    split; [done|]. split; simpl; auto with jsmap. intros ?. apply Hfr. map_size.
  - pose proof (JSMap.size_values_two _ _ _ Hv) as Hn. simpl in Hn.
    rewrite JSMap.size_set, Hh in Hn. rewrite (move_pinch_sim ed e s p1 p2) by done.
    eexists. split; [by unfold pending; simpl; rewrite Hfr by lia|].
    split; simpl; auto with jsmap; [intros; apply Hfr; lia|by intros ? [= <-]].
  - destruct (allowed_up ed i e s cd Hg Hi Ha Hn) as [Hh [d ->]].
    rewrite up_end_sim by done. exists None. rewrite <-(Hcd d eq_refl).
    split; [by unfold pending; simpl; rewrite Hfr by lia|].
    split; simpl; rewrite ?Hfr by lia; auto with jsmap; map_size.
  - rewrite up_untrack_sim by done. exists cd.
    split; [done|]. split; simpl; auto with jsmap. intros ?. apply Hfr. map_size.
  - exists cd. by rewrite wheel_sim, Hf by apply Ha.
  - exists cd. by rewrite wheel_sim, Hf, Hs by apply Ha.
  - exists cd. by rewrite wheel_sim, Hf, Hs by apply Ha.
  - exists cd. rewrite frame_sim. split; [done|]. split; simpl; auto with lia.
Qed.

Lemma run_simulation evs s cd :
  good cd s → protocol evs (abs cd s) →
  trace evs s = specTrace evs (abs cd s)
  ∧ ∃ cd', specRun evs (abs cd s) = abs cd' (run evs s) ∧ good cd' (run evs s).
Proof.
  revert s cd. induction evs as [|[ed i] evs IH]; intros s cd Hg; simpl; [by eauto|].
  intros [Ha Hp].
  destruct (step_simulation ed i s _ _ cd (next_step ed i s) Hg Ha) as (cd' & He & Hg').
  rewrite He in *; simpl in *. by destruct (IH _ _ Hg' Hp) as [-> ?].
Qed.

End exact.

(** ** On regular inputs: the same calls, up to what a pinch-end reports *)

Section coarse.
Context {N : Type} `{SymmetricNumber N, Host N}.
Implicit Types (s : State N) (t : Spec.State N) (cd : option N) (ed : Editor N)
  (D : list (Effect N)) (q : list (FrameCallback N))
  (evs : list (Editor N * Input N)).
Local Open Scope num_scope.

(** A call without what a [pinch_end] reports: its point, its zoom and
    its delta. *)
Definition shape (c : Effect N) : Effect N :=
  match c with
  | Dispatch (PinchInfo p) =>
      match p.(pinch_name) with
      | pinch_end =>
          Dispatch (PinchInfo {| pinch_name := pinch_end;
                                 pinch_point := mkVecModel #0 #0 None;
                                 pinch_delta := mkVecModel #0 #0 None;
                                 pinch_keys := p.(pinch_keys) |})
      | _ => c
      end
  | _ => c
  end.

(** The shape of what a callback dispatches does not depend on when it
    runs. *)
Lemma shape_pinchEnd q s s' :
  shape <$> ((λ cb, pinchEnd cb s') <$> q) = shape <$> ((λ cb, pinchEnd cb s) <$> q).
Proof. by rewrite <-!list_fmap_compose. Qed.

(** What the correspondence needs of the hook on regular inputs: what the
    specification has deferred has the shape of what the callbacks would
    dispatch. *)
Record loose D s : Prop := {
  loose_wf : JSMap.wf s.(activePointers);
  loose_pending : shape <$> D = shape <$> pending s;
}.

Lemma loose_init : loose [] initialState.
Proof. split; [apply JSMap.wf_empty|done]. Qed.

(** The variables changed, the callbacks that wait did not. *)
Lemma loose_frames D s s' :
  loose D s → JSMap.wf s'.(activePointers) → s'.(animationFrames) = s.(animationFrames) →
  loose D s'.
Proof.
  intros [_ Hp] Hwf Hq. split; [done|]. unfold pending. rewrite Hq, Hp. apply shape_pinchEnd.
Qed.

Lemma step_simulation_shape ed i s s' ws cd D :
  step ed i s s' ws → loose D s → regular ed i (absWith cd D s) →
  ∃ cd' D' ws', specStep ed i (absWith cd D s) = (absWith cd' D' s', ws')
    ∧ shape <$> ws' = shape <$> ws ∧ loose D' s'.
Proof.
  destruct 1 as [e s p1 p2 Hv|e s Hn|e s Hh|e s Hh Hn|e s p1 p2 Hh Hv
                |i e s Hi Hn|i e s Hi Hn|w s Hf|w s Hf Hs|w s Hf Hs|s];
    intros Hl Hr; pose proof Hl as [Hwf Hp];
    rewrite ?(specStep_released ed i e) by done; cbn [specStep].
  - rewrite (down_start_sim ed e s p1 p2)
      by eauto using regular_down, JSMap.size_values_two.
    eexists _, _, _. split_and!; [done..|]. eapply loose_frames; simpl; eauto with jsmap.
  - rewrite down_track_sim by done.
    eexists _, _, _. split_and!; [done..|]. eapply loose_frames; simpl; eauto with jsmap.
  - rewrite move_untracked_sim by done. by eexists _, _, _.
  - rewrite move_track_sim by done.
    eexists _, _, _. split_and!; [done..|]. eapply loose_frames; simpl; eauto with jsmap.
  - rewrite (move_pinch_sim ed e s p1 p2) by done.
    eexists _, _, _. split_and!; [done..|]. eapply loose_frames; simpl; eauto with jsmap.
  - rewrite up_end_sim by eauto using regular_up.
    eexists _, _, _. split_and!; [done..|]. split; simpl; auto with jsmap.
    unfold pending; simpl. by rewrite !fmap_app, Hp.
  - rewrite up_untrack_sim by done.
    eexists _, _, _. split_and!; [done..|]. eapply loose_frames; simpl; eauto with jsmap.
  - rewrite wheel_sim, Hf by done. by eexists _, _, _.
  - rewrite wheel_sim, Hf, Hs by done. eexists _, _, _. split_and!; [done..|].
    by eapply loose_frames.
  - rewrite wheel_sim, Hf, Hs by done. eexists _, _, _. split_and!; [done..|].
    by eapply loose_frames.
  - rewrite frame_sim. eexists _, _, _. split_and!; [done..|]. by split.
Qed.

Lemma run_simulation_shape evs s cd D :
  loose D s → along regular evs (absWith cd D s) →
  shape <$> trace evs s = shape <$> specTrace evs (absWith cd D s).
Proof.
  revert s cd D. induction evs as [|[ed i] evs IH]; intros s cd D Hl; simpl; [done|].
  intros [Hr Hp].
  destruct (step_simulation_shape ed i s _ _ cd D (next_step ed i s) Hl Hr)
    as (cd' & D' & ws' & He & Hws & Hl').
  rewrite He in *; simpl in *. by rewrite !fmap_app, Hws, (IH _ _ _ Hl' Hp).
Qed.

End coarse.

(** ** The refinement *)

Section refinement.
Context {N : Type} `{SymmetricNumber N, Host N}.
Implicit Types (evs : list (Editor N * Input N)).

(** C4. Refinement of the specification.  On every sequence of inputs that
    follows the protocol, with any number of pointers down and whatever
    the editor is at each input, the hook makes exactly the calls the
    machine of the specification makes, in the same order, and the state
    it ends in reads as the state of that machine: the same contacts, a
    session exactly while two or more are down, and the pinch-ends that
    wait for the frame; no callback waits while a pinch is on, and the
    current distance is the one measured in the session. *)
Theorem hook_refines_spec evs :
  protocol evs Spec.init →
  trace evs initialState = specTrace evs Spec.init
  ∧ ∃ cd, specRun evs Spec.init = abs cd (run evs initialState)
          ∧ good cd (run evs initialState).
Proof. apply (run_simulation evs initialState None good_init). Qed.

(** C23. Refinement up to what a pinch-end reports.  On every sequence of
    inputs that is regular (a pointer that makes a pair was not tracked,
    a pointer that leaves a pair is one of the pair, the shape that is
    edited has a name), whenever the events come, the hook makes the
    calls of the machine of the specification, in the same order, except
    that a [pinch_end] may report another point, zoom and delta. *)
Theorem calls_agree_up_to_pinch_end evs :
  along regular evs Spec.init →
  shape <$> trace evs initialState = shape <$> specTrace evs Spec.init.
Proof. apply (run_simulation_shape evs initialState None [] loose_init). Qed.

(** The mounted hook refines the specification.  Whenever the effect
    runs with a container, at the first render or after the editor or the
    container changed, and no callback of the hook is waiting for a
    frame, what the browser delivers from then on reaches the new
    listeners, and on a sequence of inputs that follows the protocol the
    calls made are exactly those of the machine of the specification from
    its initial state, whose state the variables of the effect stand
    for. *)
Theorem mounted_hook_refines_spec evs c w :
  settled w → protocol evs Spec.init →
  let r := deliverAll evs (rerender (Some c) w) in
  r.2 = specTrace evs Spec.init
  ∧ ∃ cd s, r.1.(live) = Some s ∧ specRun evs Spec.init = abs cd s ∧ good cd s.
Proof.
  intros Hw Hp r. subst r. rewrite deliverAll_rerender by done.
  destruct (run_simulation evs initialState None good_init Hp) as (-> & cd & ? & ?).
  eauto 6.
Qed.

End refinement.

(** ** Runs on JavaScript numbers *)

(** A pinch during which a third finger comes down and the first one
    leaves: the pinch goes on with the second and the third. *)
Definition handover : list (Editor float * Input float) :=
  [(editorAt 1 1, pointerdown (finger 1 0 0));
   (editorAt 1 1, pointerdown (finger 2 100 0));
   (editorAt 1 1, pointermove (finger 2 150 0));
   (editorAt 1 1, pointerdown (finger 3 0 100));
   (editorAt 1 1, pointerup (finger 1 0 0));
   (editorAt 1 1, pointermove (finger 3 0 200));
   (editorAt 1 1, wheel (wheelAt 5 5 0 3));
   (editorAt 1 1, pointerup (finger 3 0 200));
   (editorAt 1 1, animationFrame)].

Lemma hook_refines_spec_witness :
  trace handover initialState = specTrace handover Spec.init.
Proof.
  apply (hook_refines_spec handover). by apply (bool_decide_unpack _); vm_compute.
Defined.

Lemma settled_pinching : settled pinching.
Proof. split; [by vm_compute|]. intros s Hs. vm_compute in Hs. by injection Hs as <-. Qed.

(** The first render on the canvas, and a render in the middle of the
    pinch of [pinching]. *)
Lemma mounted_hook_refines_spec_witness :
  (deliverAll handover (rerender (Some canvas) unmounted)).2 = specTrace handover Spec.init
  ∧ (deliverAll handover (rerender (Some canvas) pinching)).2 = specTrace handover Spec.init.
Proof.
  split.
  - apply (mounted_hook_refines_spec handover canvas unmounted settled_unmounted).
    by apply (bool_decide_unpack _); vm_compute.
  - apply (mounted_hook_refines_spec handover canvas pinching settled_pinching).
    by apply (bool_decide_unpack _); vm_compute.
Defined.

(** An editor that is editing a scrollable shape whose id is the empty
    string, the pointer being within its bounds. *)
Definition editorUnnamed : Editor float := {|
  getZoomLevel := 1%float;
  zoomSpeed := 1%float;
  isFocused := true;
  getEditingShapeId := Some EmptyString;
  getShape := λ id, Some {| shape_id := id; shape_type := "note" |};
  canScroll := λ _, true;
  getShapePageBounds := λ _,
    Some {| box_x := 0%float; box_y := 0%float; box_w := 100%float; box_h := 100%float |};
  currentPagePoint := mkVec 50%float 50%float;
|}.

(** The runs that break the protocol, one condition each. *)

(** A [pointerdown] of a pointer of the pair: the hook starts the pinch
    again, the specification goes on. *)
Definition downAgain : list (Editor float * Input float) :=
  [(editorAt 1 1, pointerdown (finger 1 0 0));
   (editorAt 1 1, pointerdown (finger 2 100 0));
   (editorAt 1 1, pointerdown (finger 2 100 0))].

(** A pair is made while a pinch-end waits for the frame: the hook
    reports it at the midpoint of the new pair. *)
Definition downBeforeFrame : list (Editor float * Input float) :=
  [(editorAt 1 1, pointerdown (finger 1 0 0));
   (editorAt 1 1, pointerdown (finger 2 100 0));
   (editorAt 1 1, pointermove (finger 2 150 0));
   (editorAt 1 1, pointerup (finger 2 150 0));
   (editorAt 1 1, pointerdown (finger 3 0 100));
   (editorAt 1 1, animationFrame)].

(** A [pointerup] of a pointer that is not of the pair: the hook ends the
    pinch. *)
Definition upOfStranger : list (Editor float * Input float) :=
  [(editorAt 1 1, pointerdown (finger 1 0 0));
   (editorAt 1 1, pointerdown (finger 2 100 0));
   (editorAt 1 1, pointermove (finger 2 150 0));
   (editorAt 1 1, pointerup (finger 9 0 0));
   (editorAt 1 1, animationFrame)].

(** A finger leaves before either has moved: the hook computes the final
    zoom from the distance of the pinch before. *)
Definition upBeforeMove : list (Editor float * Input float) :=
  [(editorAt 1 1, pointerdown (finger 1 0 0));
   (editorAt 1 1, pointerdown (finger 2 100 0));
   (editorAt 1 1, pointerup (finger 2 100 0));
   (editorAt 1 1, animationFrame)].

(** The shape that is edited has the empty string as its id: the hook
    takes it for no shape and handles the wheel. *)
Definition wheelUnnamed : list (Editor float * Input float) :=
  [(editorUnnamed, wheel (wheelAt 50 50 0 3))].

(** The two runs that come at the wrong time are regular. *)
Lemma calls_agree_up_to_pinch_end_witness :
  shape <$> trace downBeforeFrame initialState = shape <$> specTrace downBeforeFrame Spec.init
  ∧ shape <$> trace upBeforeMove initialState = shape <$> specTrace upBeforeMove Spec.init.
Proof.
  split.
  - apply (calls_agree_up_to_pinch_end downBeforeFrame).
    by apply (bool_decide_unpack _); vm_compute.
  - apply (calls_agree_up_to_pinch_end upBeforeMove).
    by apply (bool_decide_unpack _); vm_compute.
Defined.

