(* ===== verification/Sessions.v ===== *)
(** * Sessions: what the hook inherits from its specification

    Facts about the machine of [Spec], and what they give for the
    hook through the simulation of [Refines].

    - The contact tracker needs no protocol: on every sequence of inputs
      the pointers the hook tracks are the contacts of the specification
      ([tracker_refines_spec]).  What can differ off the protocol is the
      session, never the contact set.
    - Along the protocol the pinch events are bracketed: a [pinch_start],
      then [pinch] events, then the [pinch_end], and only then the next
      [pinch_start].  [bracket] is the automaton that reads the names;
      [tidy] is the invariant of the specification that makes it accept
      ([spec_run_bracket]); the hook makes the same calls, so its calls
      are accepted too ([sessions_are_bracketed]).
    - Off the protocol the session of the hook and that of the
      specification differ, but not for ever: when no pointer is down and
      the frame has run ([settles]) the variables read as the initial
      state of the specification, and the simulation starts over
      ([hook_recovers]). *)

From Stdlib Require Import Floats.
From stdpp Require Import gmap strings.
From S2P Require Import Prelude Number JSMap Events Samples Pinch Handlers System.
From S2P Require Import Gestures Spec FloatLaws Symmetry Simulation Refines.
Import (hints) JSMap.JSMap.

(** ** The contact tracker *)

Section tracker.
Context {N : Type} `{Number N, Host N}.
Implicit Types (s : State N) (t : Spec.State N) (ed : Editor N) (i : Input N)
  (cs : gmap Z (DOM.PointerEvent N)) (m : JSMap.t (DOM.PointerEvent N))
  (evs : list (Editor N * Input N)).

(** The contact set after an input, whatever the session is. *)
Definition contactsAfter i cs : gmap Z (DOM.PointerEvent N) :=
  match i with
  | pointerdown e => <[e.(DOM.pointerId) := e]> cs
  | pointermove e =>
      if decide (is_Some (cs !! e.(DOM.pointerId))) then <[e.(DOM.pointerId) := e]> cs
      else cs
  | pointerup e | pointercancel e => delete e.(DOM.pointerId) cs
  | wheel _ | animationFrame => cs
  end.

Lemma contactEnd_contacts ed e t :
  (Spec.contactEnd ed e t).1.(Spec.contacts) = delete e.(DOM.pointerId) t.(Spec.contacts).
Proof.
  unfold Spec.contactEnd. case_decide as Hk; [by repeat case_match|].
  simpl. by rewrite delete_id by (by apply eq_None_not_Some).
Qed.

Lemma specStep_contacts ed i t :
  (specStep ed i t).1.(Spec.contacts) = contactsAfter i t.(Spec.contacts).
Proof.
  destruct i; simpl; auto using contactEnd_contacts;
    unfold Spec.contactStart, Spec.contactMove, Spec.wheelEvent; by repeat case_match.
Qed.

Lemma to_gmap_track i m :
  JSMap.wf m → JSMap.to_gmap (track i m) = contactsAfter i (JSMap.to_gmap m).
Proof.
  intros Hwf. destruct i as [e|e|e|e|w|]; simpl;
    rewrite ?JSMap.to_gmap_delete by done; auto using JSMap.to_gmap_set.
  destruct (JSMap.has _ _) eqn:Hh.
  - rewrite decide_True by (by apply is_Some_to_gmap). apply JSMap.to_gmap_set.
  - by rewrite decide_False by (rewrite is_Some_to_gmap; congruence).
Qed.

Lemma run_contacts evs s t :
  JSMap.wf s.(activePointers) → JSMap.to_gmap s.(activePointers) = t.(Spec.contacts) →
  JSMap.to_gmap (run evs s).(activePointers) = (specRun evs t).(Spec.contacts).
Proof.
  revert s t. induction evs as [|[ed i] evs IH]; intros s t Hwf Hc; simpl; [done|].
  apply IH; rewrite activePointers_next; [by apply track_wf|].
  by rewrite specStep_contacts, to_gmap_track, Hc.
Qed.

Lemma specRun_contacts evs t :
  (specRun evs t).(Spec.contacts)
    = foldl (λ cs ei, contactsAfter ei.2 cs) t.(Spec.contacts) evs.
Proof.
  revert t. induction evs as [|[ed i] evs IH]; intros t; simpl; [done|].
  by rewrite IH, specStep_contacts.
Qed.

End tracker.

(** ** The names of the pinch events *)

(** The name of the pinch info a call dispatches, if it does. *)
Definition pinchName {N} (c : Effect N) : option TLPinchEventName :=
  match c with
  | Dispatch (PinchInfo p) => Some p.(pinch_name)
  | _ => None
  end.

Definition pinchNames {N} (ws : list (Effect N)) : list TLPinchEventName :=
  omap pinchName ws.

(** The automaton of a pinch: outside a pinch only a [pinch_start] may
    come, inside one a [pinch] or the [pinch_end].  [bracket q ns] is where
    the names [ns] lead from [q], if they are accepted. *)
Fixpoint bracket (inside : bool) (ns : list TLPinchEventName) : option bool :=
  match ns with
  | [] => Some inside
  | n :: ns' =>
      match n, inside with
      | pinch_start, false => bracket true ns'
      | pinch, true => bracket true ns'
      | pinch_end, true => bracket false ns'
      | _, _ => None
      end
  end.

Lemma bracket_app q ns1 ns2 :
  bracket q (ns1 ++ ns2) = bracket q ns1 ≫= λ q', bracket q' ns2.
Proof. revert q. induction ns1 as [|[] ns1 IH]; intros []; simpl; auto. Qed.

Lemma pinchNames_app {N} (ws1 ws2 : list (Effect N)) :
  pinchNames (ws1 ++ ws2) = pinchNames ws1 ++ pinchNames ws2.
Proof. apply omap_app. Qed.

(** ** The sessions of the specification *)

Section spec_sessions.
Context {N : Type} `{Number N, Host N}.
Implicit Types (t : Spec.State N) (ed : Editor N) (i : Input N)
  (e : DOM.PointerEvent N) (cs : gmap Z (DOM.PointerEvent N))
  (evs : list (Editor N * Input N)).

(** The specification is in a pinch: a session exists, or its pinch-end
    waits for the frame. *)
Definition inSession t : bool :=
  bool_decide (is_Some t.(Spec.session) ∨ t.(Spec.deferred) ≠ []).

(** The invariant of the specification along the protocol: a session has
    two contacts at least, nothing waits while it exists, and what waits
    is one [pinch_end]. *)
Record tidy t : Prop := {
  tidy_session : is_Some t.(Spec.session) → 2 ≤ size t.(Spec.contacts);
  tidy_deferred : is_Some t.(Spec.session) → t.(Spec.deferred) = [];
  tidy_ends : t.(Spec.deferred) = [] ∨ pinchNames t.(Spec.deferred) = [pinch_end];
}.

(** The outcome [r] of an operation in [t]: its state is tidy, and the
    names of its calls lead from where [t] is to where that state is. *)
Definition kept t (r : Spec.State N * list (Effect N)) : Prop :=
  tidy r.1 ∧ bracket (inSession t) (pinchNames r.2) = Some (inSession r.1).

Lemma tidy_init : tidy Spec.init.
Proof. split; simpl; [by intros []..|by left]. Qed.

Lemma activePair_size cs p1 p2 : Spec.activePair cs = Some (p1, p2) → size cs = 2.
Proof.
  unfold Spec.activePair. intros Hp.
  rewrite <-length_map_to_list, <-(length_fmap snd).
  by destruct ((map_to_list cs).*2) as [|? [|? [|]]].
Qed.

(** The contacts change, the session stays. *)
Lemma kept_contacts t cs :
  tidy t → (is_Some t.(Spec.session) → 2 ≤ size cs) →
  kept t ({| Spec.contacts := cs; Spec.session := t.(Spec.session);
             Spec.deferred := t.(Spec.deferred) |}, []).
Proof. intros [Hs Hd He] Hcs. by split; [split|]. Qed.

Lemma kept_same t : tidy t → kept t (t, []).
Proof. by split. Qed.

Lemma not_inSession t :
  t.(Spec.session) = None → t.(Spec.deferred) = [] → inSession t = false.
Proof.
  intros Hs Hd. apply bool_decide_eq_false_2. rewrite Hs, Hd. by intros [[]|].
Qed.

Lemma inSession_session t : is_Some t.(Spec.session) → inSession t = true.
Proof. intros. apply bool_decide_eq_true_2. by left. Qed.

Lemma contactStart_kept ed e t :
  tidy t → allowed ed (pointerdown e) t → kept t (Spec.contactStart ed e t).
Proof.
  intros Ht Ha. pose proof Ht as [Hs Hd He]. unfold Spec.contactStart.
  pose proof (map_size_insert (DOM.pointerId e) e t.(Spec.contacts)) as Hi.
  destruct (Spec.activePair _) as [[p1 p2]|] eqn:Hp; [case_decide as Hlt|];
    [|apply kept_contacts; [done|intros ?%Hs; case_match; simpl in *; lia]..].
  apply activePair_size in Hp. destruct Ha as [_ Ha]. pose proof (nil_length_inv _ (Ha Hp)) as Hq.
  assert (t.(Spec.session) = None) as Hn
    by (destruct t.(Spec.session) eqn:?; [|done]; specialize (Hs ltac:(done)); lia).
  split; [split; simpl; [by rewrite Hp|auto..]|].
  by rewrite not_inSession.
Qed.

Lemma contactMove_kept ed e t : tidy t → kept t (Spec.contactMove ed e t).
Proof.
  intros Ht. pose proof Ht as [Hs Hd He]. unfold Spec.contactMove.
  case_decide as Hk; [|by apply kept_same].
  assert (size (<[DOM.pointerId e:=e]> t.(Spec.contacts)) = size t.(Spec.contacts)) as Hi
    by (destruct Hk; by eapply map_size_insert_Some).
  destruct t.(Spec.session) as [sess|] eqn:Hsess;
    [destruct (Spec.activePair _) as [[p1 p2]|] eqn:Hp|];
    [|rewrite <-?Hsess; apply kept_contacts; [done|rewrite Hi; by rewrite ?Hsess in *]..].
  split; [split; simpl; [rewrite Hi|..]; auto|].
  rewrite inSession_session by (by rewrite Hsess). unfold Spec.updateEvents.
  by case_match.
Qed.

Lemma contactEnd_kept ed e t : tidy t → kept t (Spec.contactEnd ed e t).
Proof.
  intros Ht. pose proof Ht as [Hs Hd He]. unfold Spec.contactEnd.
  case_decide as Hk; [|by apply kept_same].
  assert (size (delete (DOM.pointerId e) t.(Spec.contacts)) = pred (size t.(Spec.contacts)))
    as Hi by (destruct Hk; by eapply map_size_delete_Some).
  destruct t.(Spec.session) as [sess|] eqn:Hsess; [case_decide as Hn|];
    [|rewrite <-?Hsess; apply kept_contacts;
      [done|rewrite Hi, Hsess; intros Hx; first [by destruct Hx|specialize (Hs Hx); lia]]..].
  unfold kept; simpl. rewrite inSession_session, Hd by (by rewrite ?Hsess).
  split; [split; simpl; [by intros []..|by right]|done].
Qed.

Lemma frame_kept t : tidy t → kept t (Spec.frame t).
Proof.
  intros [Hs Hd He]. split; [by split; simpl; auto|]. simpl.
  destruct He as [Hq|Hq]; rewrite Hq; [by unfold inSession; rewrite Hq|].
  assert (t.(Spec.session) = None) as Hn.
  { destruct t.(Spec.session) eqn:?; [|done]. rewrite Hd in Hq by done. done. }
  rewrite (not_inSession {| Spec.deferred := [] |}) by done.
  unfold inSession. by rewrite bool_decide_eq_true_2 by (right; by intros Hz; rewrite Hz in Hq).
Qed.

Lemma pinchNames_wheelEvents (w : DOM.WheelEvent N) : pinchNames (Spec.wheelEvents w) = [].
Proof. unfold Spec.wheelEvents. by case_match. Qed.

Lemma interrupt_kept t ws : tidy t → pinchNames ws = [] → kept t (Spec.interrupt t, ws).
Proof.
  intros [Hs Hd He] Hws. unfold kept; simpl. rewrite Hws. split.
  - split; simpl; [intros ?%fmap_is_Some; auto..|done].
  - simpl. f_equal. apply bool_decide_ext; simpl. by rewrite fmap_is_Some.
Qed.

Lemma wheelEvent_kept ed (w : DOM.WheelEvent N) t : tidy t → kept t (Spec.wheelEvent ed w t).
Proof.
  intros Ht. unfold Spec.wheelEvent.
  repeat case_match; [by apply interrupt_kept| |by apply kept_same].
  apply interrupt_kept; [done|apply pinchNames_wheelEvents].
Qed.

(** One input of the protocol. *)
Lemma specStep_kept ed i t : tidy t → allowed ed i t → kept t (specStep ed i t).
Proof.
  intros Ht Ha. destruct i; simpl;
    auto using contactStart_kept, contactMove_kept, contactEnd_kept, wheelEvent_kept,
      frame_kept.
Qed.

(** The calls of the specification along the protocol are bracketed. *)
Lemma spec_run_bracket evs t :
  tidy t → protocol evs t →
  bracket (inSession t) (pinchNames (specTrace evs t)) = Some (inSession (specRun evs t)).
Proof.
  revert t. induction evs as [|[ed i] evs IH]; intros t Ht; simpl; [done|].
  intros [Ha Hp]. destruct (specStep_kept ed i t Ht Ha) as [Ht' Hb].
  rewrite pinchNames_app, bracket_app, Hb. simpl. by apply IH.
Qed.

End spec_sessions.

(** ** The sessions of the hook *)

Section hook_sessions.
Context {N : Type} `{SymmetricNumber N, Host N}.
Implicit Types (s : State N) (evs : list (Editor N * Input N)).

(** The hook is in a pinch: two pointers or more are tracked, or a
    callback waits for the frame. *)
Definition inPinch s : bool :=
  bool_decide (2 ≤ JSMap.size s.(activePointers) ∨ s.(animationFrames) ≠ []).

Lemma inSession_abs cd s : inSession (abs cd s) = inPinch s.
Proof.
  apply bool_decide_ext; unfold pending; simpl.
  assert ((λ cb, pinchEnd cb s) <$> s.(animationFrames) ≠ [] ↔ s.(animationFrames) ≠ [])
    as -> by (by destruct s.(animationFrames)).
  case_decide; split; intros [?|?]; auto; by destruct select (is_Some _).
Qed.

(** C31. The contact tracker refines the specification's on every input
    sequence, protocol or not: after any run the pointers in
    [activePointers], read as a finite map, are the contacts of the
    machine of the specification after the same inputs; and these depend
    on the pointer events alone, not on the editor, the wheel or the
    pinch. *)
Theorem tracker_refines_spec evs :
  JSMap.to_gmap (run evs initialState).(activePointers)
    = (specRun evs Spec.init).(Spec.contacts)
  ∧ (specRun evs Spec.init).(Spec.contacts)
    = foldl (λ cs ei, contactsAfter ei.2 cs) ∅ evs.
Proof.
  split; [apply run_contacts; [apply JSMap.wf_empty|done]|apply specRun_contacts].
Qed.

(** C11. The pinch events are bracketed.  On every sequence of inputs that
    follows the protocol, with any number of gestures, pointers and wheel
    events in any order, the pinch infos the hook dispatches are a
    [pinch_start], then [pinch] events, then one [pinch_end], and only
    after it the next [pinch_start]; and the last pinch is still open
    exactly when two pointers or more are tracked or a callback waits
    for the frame. *)
Theorem sessions_are_bracketed evs :
  protocol evs Spec.init →
  bracket false (pinchNames (trace evs initialState))
    = Some (inPinch (run evs initialState)).
Proof.
  intros Hp.
  destruct (run_simulation evs initialState None good_init Hp) as (-> & cd & Hr & _).
  rewrite <-(inSession_abs cd), <-Hr. apply (spec_run_bracket evs Spec.init tidy_init Hp).
Qed.

(** ** Recovery

    After inputs off the protocol the variables of the hook and the state
    of the specification differ.  They agree again when every pointer has
    been released and the frame has run. *)

(** The inputs leave no contact and end with the animation frame. *)
Definition settles evs : Prop :=
  foldl (λ cs ei, contactsAfter ei.2 cs) ∅ evs = (∅ : gmap Z (DOM.PointerEvent N))
  ∧ last evs.*2 = Some animationFrame.

Lemma idle_abs s : idle s → abs None s = Spec.init ∧ good None s.
Proof.
  intros [Hm Hq]. unfold abs, absWith, pending. rewrite Hm, Hq. split; [done|].
  split; rewrite ?Hm, ?Hq; [apply JSMap.wf_empty|done|simpl; lia|done].
Qed.

Lemma settles_idle evs : settles evs → idle (run evs initialState).
Proof.
  intros [Hc Hl]. split.
  - pose proof (run_contacts evs initialState Spec.init JSMap.wf_empty eq_refl) as Hm.
    rewrite specRun_contacts in Hm. unfold settles in Hc. cbn [Spec.contacts Spec.init] in Hm.
    rewrite Hc in Hm. apply (f_equal base.size) in Hm.
    rewrite JSMap.size_to_gmap, map_size_empty in Hm
      by apply invariant_reachable, reachable_run, reachable_init.
    by apply nil_length_inv.
  - destruct evs as [|[ed i] evs _] using rev_ind; [done|].
    rewrite fmap_app in Hl. simpl in Hl. rewrite last_snoc in Hl. simplify_eq/=.
    rewrite run_app. apply frame_emitted.
Qed.

(** C12. The hook recovers.  After any sequence of inputs, on the protocol
    or off it, that leaves no pointer down and ends with the animation
    frame, the hook is where the specification starts: on every
    continuation that follows the protocol it makes exactly the calls of
    the machine of the specification from its initial state, and its
    variables read as the state of that machine. *)
Theorem hook_recovers evs0 evs :
  settles evs0 → protocol evs Spec.init →
  trace (evs0 ++ evs) initialState = trace evs0 initialState ++ specTrace evs Spec.init
  ∧ ∃ cd, specRun evs Spec.init = abs cd (run (evs0 ++ evs) initialState)
          ∧ good cd (run (evs0 ++ evs) initialState).
Proof.
  intros [Ha Hg]%settles_idle%idle_abs Hp. rewrite trace_app, run_app.
  rewrite <-Ha in Hp |- *. by destruct (run_simulation evs _ None Hg Hp) as [-> ?].
Qed.

End hook_sessions.

(** ** Runs on JavaScript numbers *)

(** Two pinches, one after the other, and the wheel in between. *)
Definition twoPinches : list (Editor float * Input float) :=
  pinchOut ++ [(editorAt 1 1, wheel (wheelAt 5 5 0 3))] ++ handover.

Lemma sessions_are_bracketed_witness :
  bracket false (pinchNames (trace twoPinches initialState)) = Some false.
Proof.
  etrans; [apply (sessions_are_bracketed twoPinches)|by vm_compute].
  by apply (bool_decide_unpack _); vm_compute.
Defined.

(** Off the protocol the calls need not be bracketed: a second
    [pointerdown] of a finger starts the pinch twice, and a release of a
    pointer that is not tracked ends it twice. *)
Example unbracketed :
  bracket false (pinchNames (trace downAgain initialState)) = None
  ∧ bracket false
      (pinchNames (trace (upOfStranger ++ [(editorAt 1 1, pointerup (finger 2 150 0));
                                           (editorAt 1 1, animationFrame)]) initialState))
    = None.
Proof. by vm_compute. Qed.

(** A pinch, a release of a pointer that is not tracked, a second
    [pointerdown] of a finger; then the fingers are lifted and the frame
    runs.  The calls of these inputs are not those of the specification;
    those of the two pinches that follow are. *)
Definition astray : list (Editor float * Input float) :=
  upOfStranger ++ downAgain
  ++ [(editorAt 1 1, pointerup (finger 1 0 0));
      (editorAt 1 1, pointerup (finger 2 150 0));
      (editorAt 1 1, animationFrame)].

Lemma hook_recovers_witness :
  trace astray initialState ≠ specTrace astray Spec.init
  ∧ trace (astray ++ twoPinches) initialState
    = trace astray initialState ++ specTrace twoPinches Spec.init.
Proof.
  split; [by apply (bool_decide_unpack _); vm_compute|].
  apply (hook_recovers astray twoPinches).
  - split; by vm_compute.
  - by apply (bool_decide_unpack _); vm_compute.
Defined.
