(* ===== verification/Natural.v ===== *)
(** * Natural: what fingers do follows the protocol

    The refinement of [Refines] holds along a protocol of the inputs.
    This file shows that the protocol is what fingers and a wheel do.

    - [Gesture]: a frame; a wheel event; a tap, one finger that goes down
      and lifts; a pinch, two fingers that go down, move, at least one of
      them, and lift, the frame coming after the first has lifted.
      [inputs] are the inputs of a gesture and [fine] says what is assumed
      of it: the fingers of a gesture are lifted before it ends, and the
      shape that is edited has a name.
    - In the machine of [Spec] every gesture leads from the initial state
      back to it, along the protocol ([gesture_protocol]): while the
      fingers of a pinch move the state is [paired], a move of one of them
      makes it [measured], and after the first has lifted it is [alone].
    - So every sequence of gestures follows the protocol, and on it the
      hook makes the calls of the specification
      ([natural_inputs_follow_protocol]). *)

From stdpp Require Import gmap strings.
From S2P Require Import Prelude Number JSMap Events Samples Pinch Handlers System.
From S2P Require Import Gestures Spec FloatLaws Symmetry Simulation Refines Sessions.
From Stdlib Require Import Floats.

(** What the user does between two moments in which no finger is down. *)
Inductive Gesture (N : Type) :=
| g_frame (ed : Editor N)
| g_wheel (ed : Editor N) (w : DOM.WheelEvent N)
| g_tap (ed : Editor N) (e : DOM.PointerEvent N) (rest : list (Editor N * Input N))
| g_pinch (ed1 ed2 : Editor N) (e1 e2 : DOM.PointerEvent N)
    (moves : list (Editor N * Input N))
    (ed3 : Editor N) (i : Input N) (ed4 : Editor N) (rest : list (Editor N * Input N)).
Arguments g_frame {N}.
Arguments g_wheel {N}.
Arguments g_tap {N}.
Arguments g_pinch {N}.

#[export] Instance isMove_dec {N} (i : Input N) : Decision (isMove i).
Proof. destruct i; simpl; apply _. Defined.

#[export] Instance passive_dec {N} (i : Input N) : Decision (passive i).
Proof. destruct i; simpl; apply _. Defined.

Section gestures.
Context {N : Type} `{Number N, Host N}.
Implicit Types (t : Spec.State N) (ed : Editor N) (e p : DOM.PointerEvent N) (i : Input N)
  (evs rest : list (Editor N * Input N)) (a b : Z) (cs : gmap Z (DOM.PointerEvent N))
  (g : Gesture N).

(** The event is of the finger [a] or of the finger [b]. *)
Definition fingerOf a b e : Prop := e.(DOM.pointerId) = a ∨ e.(DOM.pointerId) = b.

(** The input is a move of one of the two. *)
Definition pairMove a b i : Prop :=
  match i with pointermove e => fingerOf a b e | _ => False end.

(** The pointers the inputs lift or cancel. *)
Definition lifted evs : gset Z :=
  list_to_set (omap (λ ei, (λ e, e.(DOM.pointerId)) <$> released ei.2) evs).

(** Two fingers go down, the inputs [evs] follow, the input [i] lifts a
    finger, and the frame comes. *)
Definition pinchGesture ed1 ed2 ed3 ed4 e1 e2 i evs : list (Editor N * Input N) :=
  [(ed1, pointerdown e1); (ed2, pointerdown e2)] ++ evs ++ [(ed3, i); (ed4, animationFrame)].

Definition inputs g : list (Editor N * Input N) :=
  match g with
  | g_frame ed => [(ed, animationFrame)]
  | g_wheel ed w => [(ed, wheel w)]
  | g_tap ed e rest => (ed, pointerdown e) :: rest
  | g_pinch ed1 ed2 e1 e2 moves ed3 i ed4 rest =>
      pinchGesture ed1 ed2 ed3 ed4 e1 e2 i moves ++ rest
  end.

(** What is assumed of a gesture.  After the finger of a tap has gone
    down, and after the first finger of a pinch has lifted and the frame
    has come, pointers move and lift and frames pass, until every finger
    of the gesture is up.  The fingers of a pinch are two, only moves come
    while both are down, one of them at least is a move of the pair, and
    the first to lift is one of the pair. *)
Definition fine g : Prop :=
  match g with
  | g_frame _ => True
  | g_wheel ed _ => ed.(getEditingShapeId) ≠ Some ""
  | g_tap _ e rest =>
      Forall (λ ei, passive ei.2) rest ∧ e.(DOM.pointerId) ∈ lifted rest
  | g_pinch _ _ e1 e2 moves ed3 i _ rest =>
      e1.(DOM.pointerId) ≠ e2.(DOM.pointerId)
      ∧ Forall (λ ei, isMove ei.2) moves
      ∧ Exists (λ ei, pairMove e1.(DOM.pointerId) e2.(DOM.pointerId) ei.2) moves
      ∧ from_option (fingerOf e1.(DOM.pointerId) e2.(DOM.pointerId)) False (released i)
      ∧ Forall (λ ei, passive ei.2) rest
      ∧ {[e1.(DOM.pointerId); e2.(DOM.pointerId)]} ⊆ lifted ((ed3, i) :: rest)
  end.

#[export] Instance fingerOf_dec a b e : Decision (fingerOf a b e).
Proof. unfold fingerOf. apply _. Defined.

#[export] Instance pairMove_dec a b i : Decision (pairMove a b i).
Proof. destruct i; simpl; apply _. Defined.

#[export] Instance fine_dec g : Decision (fine g).
Proof. destruct g as [| | |? ? ? ? ? ? [] ? ?]; simpl; apply _. Defined.

(** ** The states of the specification during a gesture *)

(** The fingers [a] and [b] are the contacts, and their session is open. *)
Record paired a b t : Prop := {
  paired_contacts : dom t.(Spec.contacts) = {[a; b]};
  paired_session : is_Some t.(Spec.session);
}.

(** The session has measured the distance of its fingers. *)
Definition measured t : Prop := is_Some (t.(Spec.session) ≫= Spec.currentDistance).

(** One finger at most is down, outside a session, and nothing is
    deferred. *)
Record alone t : Prop := {
  alone_contacts : size t.(Spec.contacts) ≤ 1;
  alone_session : t.(Spec.session) = None;
  alone_deferred : t.(Spec.deferred) = [];
}.

End gestures.

Section spec_gestures.
Context {N : Type} `{Number N, Host N}.
Implicit Types (t : Spec.State N) (ed : Editor N) (e p : DOM.PointerEvent N) (i : Input N)
  (evs rest : list (Editor N * Input N)) (a b : Z) (cs : gmap Z (DOM.PointerEvent N))
  (g : Gesture N).

(** ** Sets of contacts *)

Lemma size_pair a b cs : a ≠ b → dom cs = {[a; b]} → size cs = 2.
Proof.
  intros Hab Hd. rewrite <-size_dom, Hd, size_union by set_solver.
  by rewrite !size_singleton.
Qed.

Lemma size_pair_less a b k cs : a ≠ b → k = a ∨ k = b → dom cs = {[a; b]} ∖ {[k]} → size cs ≤ 1.
Proof.
  intros Hab Hk Hd. rewrite <-size_dom, Hd.
  assert (({[a; b]} ∖ {[k]} : gset Z) = {[a]} ∨ ({[a; b]} ∖ {[k]} : gset Z) = {[b]}) as [->| ->]
    by (destruct Hk as [->| ->]; [right|left]; set_solver).
  all: by rewrite size_singleton.
Qed.

Lemma difference_all (X A B : gset Z) : X ⊆ A ∪ B → X ∖ A ∖ B = ∅.
Proof. set_solver. Qed.

Lemma activePair_two cs : size cs = 2 → is_Some (Spec.activePair cs).
Proof.
  unfold Spec.activePair. rewrite <-length_map_to_list, <-(length_fmap snd).
  by destruct ((map_to_list cs).*2) as [|? [|? [|]]].
Qed.

Lemma lifted_cons ed i evs :
  lifted ((ed, i) :: evs) = lifted [(ed, i)] ∪ lifted evs.
Proof. unfold lifted. simpl. destruct (released i); simpl; set_solver. Qed.

(** An input that is passive removes from the contacts the pointer it
    lifts, and no other. *)
Lemma dom_contactsAfter ed i cs :
  passive i → dom (contactsAfter i cs) = dom cs ∖ lifted [(ed, i)].
Proof.
  unfold lifted. destruct i as [e|e|e|e|w|]; simpl; try done; intros _.
  - case_decide as He; [|set_solver]. apply elem_of_dom in He.
    rewrite dom_insert_L. set_solver.
  - rewrite dom_delete_L. set_solver.
  - rewrite dom_delete_L. set_solver.
  - set_solver.
Qed.

(** ** One finger *)

Lemma alone_init : alone (N := N) Spec.init.
Proof. split; simpl; [rewrite map_size_empty; lia|done..]. Qed.

(** With no contact, one who is alone is in the initial state. *)
Lemma alone_empty t : alone t → dom t.(Spec.contacts) = ∅ → t = Spec.init.
Proof.
  destruct t as [cs ? ?]. intros [_ Hs Hd] Hc%dom_empty_inv_L. by simplify_eq/=.
Qed.

(** The first finger goes down. *)
Lemma contactStart_init ed e :
  Spec.contactStart ed e Spec.init
  = ({| Spec.contacts := {[e.(DOM.pointerId) := e]}; Spec.session := None;
        Spec.deferred := [] |}, []).
Proof.
  unfold Spec.contactStart, Spec.activePair; simpl.
  by rewrite insert_empty, map_to_list_singleton.
Qed.

Lemma alone_first e :
  alone {| Spec.contacts := {[e.(DOM.pointerId) := e]}; Spec.session := None;
           Spec.deferred := [] |}.
Proof. split; [|done..]. cbn [Spec.contacts]. by rewrite map_size_singleton. Qed.

Lemma allowed_init ed e : allowed ed (pointerdown e) Spec.init.
Proof.
  split; intros Hs; exfalso; revert Hs; cbn [Spec.contacts Spec.init];
    rewrite insert_empty, map_size_singleton; lia.
Qed.

(** A passive input is allowed when one finger at most is down, and leaves
    one at most. *)
Lemma passive_alone ed i t :
  alone t → passive i →
  allowed ed i t ∧ alone (specStep ed i t).1
  ∧ dom (specStep ed i t).1.(Spec.contacts) = dom t.(Spec.contacts) ∖ lifted [(ed, i)].
Proof.
  intros [Hc Hs Hd] Hi. rewrite specStep_contacts, (dom_contactsAfter ed) by done.
  split_and!; [by destruct i; split; simpl; try lia| |done].
  split.
  - etrans; [|exact Hc]. rewrite specStep_contacts, <-!size_dom, (dom_contactsAfter ed) by done.
    apply subseteq_size. set_solver.
  - destruct i; try done; simpl; unfold Spec.contactMove, Spec.contactEnd;
      rewrite ?Hs; by repeat case_match.
  - destruct i; try done; simpl; unfold Spec.contactMove, Spec.contactEnd;
      rewrite ?Hs; by repeat case_match.
Qed.

Lemma passives_alone rest t :
  alone t → Forall (λ ei, passive ei.2) rest →
  protocol rest t ∧ alone (specRun rest t)
  ∧ dom (specRun rest t).(Spec.contacts) = dom t.(Spec.contacts) ∖ lifted rest.
Proof.
  intros Ht Hr. revert t Ht. induction Hr as [|[ed i] rest Hi _ IH]; intros t Ht; simpl.
  { split_and!; [done..|]. unfold lifted. set_solver. }
  destruct (passive_alone ed i t Ht Hi) as (Ha & Ht' & Hd).
  destruct (IH _ Ht') as (Hp & Ht'' & Hd').
  split_and!; [done..|]. rewrite Hd', Hd, (lifted_cons ed i rest). set_solver.
Qed.

(** ** Two fingers *)

(** The two fingers go down: the protocol is followed, and they are the
    pair of a session. *)
Lemma down_paired ed1 ed2 e1 e2 :
  e1.(DOM.pointerId) ≠ e2.(DOM.pointerId) →
  let evs := [(ed1, pointerdown e1); (ed2, pointerdown e2)] in
  protocol evs Spec.init
  ∧ paired e1.(DOM.pointerId) e2.(DOM.pointerId) (specRun evs Spec.init)
  ∧ (specRun evs Spec.init).(Spec.deferred) = [].
Proof.
  intros Hne evs. subst evs. simpl. rewrite contactStart_init.
  unfold Spec.contactStart; simpl.
  assert (size (<[e2.(DOM.pointerId) := e2]> ({[e1.(DOM.pointerId) := e1]}
                  : gmap Z (DOM.PointerEvent N))) = 2) as Hn.
  { rewrite map_size_insert_None by (by rewrite lookup_singleton_ne).
    by rewrite map_size_singleton. }
  destruct (activePair_two _ Hn) as [[p1 p2] ->].
  rewrite decide_True by (rewrite map_size_singleton; lia). simpl.
  split_and!; [apply allowed_init| |done| |done].
  - split; intros _; cbn [Spec.contacts Spec.deferred]; [|done].
    rewrite lookup_singleton_ne by done. by intros [??].
  - split; simpl; [|done]. rewrite dom_insert_L, dom_singleton_L. set_solver.
Qed.

(** A move keeps the pair, and a move of one of the pair measures. *)
Lemma move_paired ed e a b t :
  a ≠ b → paired a b t →
  paired a b (Spec.contactMove ed e t).1
  ∧ (measured t ∨ fingerOf a b e → measured (Spec.contactMove ed e t).1).
Proof.
  intros Hab [Hd [sess Hs]]. unfold Spec.contactMove, measured. rewrite Hs.
  case_decide as He.
  - assert (dom (<[e.(DOM.pointerId) := e]> t.(Spec.contacts)) = {[a; b]}) as Hd'.
    { apply elem_of_dom in He. rewrite dom_insert_L. set_solver. }
    destruct (activePair_two _ (size_pair _ _ _ Hab Hd')) as [[p1 p2] ->]. by split.
  - split; [done|]. simpl. rewrite Hs. intros [?|He']; [done|]. destruct He.
    apply elem_of_dom. rewrite Hd. destruct He' as [->| ->]; set_solver.
Qed.

Lemma moves_paired evs a b t :
  a ≠ b → paired a b t → Forall (λ ei, isMove ei.2) evs →
  protocol evs t
  ∧ paired a b (specRun evs t)
  ∧ (specRun evs t).(Spec.deferred) = t.(Spec.deferred)
  ∧ (measured t ∨ Exists (λ ei, pairMove a b ei.2) evs → measured (specRun evs t)).
Proof.
  intros Hab Ht Hm. revert t Ht.
  induction Hm as [|[ed [|e| | | |]] evs [] _ IH]; intros t Ht; simpl.
  { split_and!; try done. by intros [?|?%Exists_nil]. }
  destruct (move_paired ed e a b t Hab Ht) as [Ht' Hme].
  destruct (IH _ Ht') as (Hp & Hpa & Hde & Hmea). split_and!; try done.
  - rewrite Hde. unfold Spec.contactMove. by repeat case_match.
  - intros [?|[?|?]%Exists_cons]; auto.
Qed.

(** The release of a finger of a pair that has measured is allowed; after
    it and the frame the other finger is alone. *)
Lemma release_paired ed ed' i a b t :
  a ≠ b → from_option (fingerOf a b) False (released i) →
  paired a b t → measured t → t.(Spec.deferred) = [] →
  let t' := specRun [(ed, i); (ed', animationFrame)] t in
  allowed ed i t ∧ alone t' ∧ dom t'.(Spec.contacts) = {[a; b]} ∖ lifted [(ed, i)].
Proof.
  intros Hab Hi [Hd [sess Hs]] Hm Hde. destruct (released i) as [e|] eqn:He; [|done].
  assert (is_Some (t.(Spec.contacts) !! e.(DOM.pointerId))) as Hin.
  { apply elem_of_dom. rewrite Hd. destruct Hi; set_solver. }
  assert (dom (specStep ed i t).1.(Spec.contacts) = {[a; b]} ∖ lifted [(ed, i)]) as Hd'.
  { rewrite specStep_contacts, (dom_contactsAfter ed), Hd; [done|by destruct i]. }
  simpl. split_and!; [by destruct i; simplify_eq/=; split; intros _| |done].
  split; simpl.
  - eapply (size_pair_less a b e.(DOM.pointerId)); [done|exact Hi|].
    rewrite Hd'. unfold lifted; simpl. rewrite He; simpl. set_solver.
  - destruct i; simplify_eq/=; unfold Spec.contactEnd;
      by rewrite decide_True, Hs, decide_True by eauto using size_pair.
  - done.
Qed.

(** ** Every gesture follows the protocol *)

(** A gesture follows the protocol from the initial state of the
    specification and leads back to it. *)
Lemma gesture_protocol g :
  fine g → protocol (inputs g) Spec.init ∧ specRun (inputs g) Spec.init = Spec.init.
Proof.
  destruct g as [ed|ed w|ed e rest|ed1 ed2 e1 e2 moves ed3 i ed4 rest]; cbn [inputs fine].
  - done.
  - intros Hid. split; [done|]. simpl. unfold Spec.wheelEvent. by repeat case_match.
  - intros [Hr He]. simpl. rewrite contactStart_init; simpl.
    destruct (passives_alone rest _ (alone_first e) Hr) as (Hp & Ha & Hd).
    split_and!; [apply allowed_init|done|]. apply alone_empty; [done|].
    rewrite Hd; simpl. rewrite dom_singleton_L. set_solver.
  - intros (Hne & Hm & Hex & Hi & Hr & Hl). unfold pinchGesture.
    destruct (down_paired ed1 ed2 e1 e2 Hne) as (Hp2 & Hpa & Hde).
    destruct (moves_paired moves _ _ _ Hne Hpa Hm) as (Hpm & Hpa' & Hde' & Hme).
    destruct (release_paired ed3 ed4 i _ _ _ Hne Hi Hpa' (Hme (or_intror Hex)))
      as (Hal & Ha & Hd); [by rewrite Hde'|].
    destruct (passives_alone rest _ Ha Hr) as (Hpr & Ha' & Hd').
    unfold protocol. rewrite !along_app, !specRun_app.
    split; [by split_and!|]. apply alone_empty; [done|].
    rewrite Hd', Hd. apply difference_all. by rewrite <-lifted_cons.
Qed.

Lemma gestures_protocol (gs : list (Gesture N)) :
  Forall fine gs →
  protocol (gs ≫= inputs) Spec.init ∧ specRun (gs ≫= inputs) Spec.init = Spec.init.
Proof.
  induction 1 as [|g gs Hg _ [IHp IHr]]; [done|].
  destruct (gesture_protocol g Hg) as [Hp Hr]. rewrite bind_cons.
  unfold protocol. by rewrite along_app, specRun_app, Hr.
Qed.

End spec_gestures.

Section natural.
Context {N : Type} `{SymmetricNumber N, Host N}.

(** C10. What fingers do follows the protocol, so the hook implements the
    specification on it.  The user makes any number of gestures, one after
    the other, on a hook that has just been mounted: frames pass, the
    wheel turns, a finger taps, two fingers pinch.  In a pinch two fingers
    go down, pointers move, among them one of the two at least once, one
    of the two lifts or is cancelled and the frame comes; then pointers
    move and lift until both fingers are up.  Whatever the positions, the
    other pointers and the answers of the editor (but for an editing shape
    whose name is empty), the inputs follow the protocol of [Simulation],
    the hook makes exactly the calls of the machine of the specification,
    and that machine is back in its initial state. *)
Theorem natural_inputs_follow_protocol (gs : list (Gesture N)) :
  Forall fine gs →
  protocol (gs ≫= inputs) Spec.init
  ∧ trace (gs ≫= inputs) initialState = specTrace (gs ≫= inputs) Spec.init
  ∧ specRun (gs ≫= inputs) Spec.init = Spec.init.
Proof.
  intros [Hp Hr]%gestures_protocol.
  by destruct (run_simulation _ initialState None good_init Hp) as [Ht _].
Qed.

End natural.

(** ** On JavaScript numbers *)

Local Open Scope float_scope.

(** A tap; the wheel; a pinch in which a pointer that is not down moves,
    the second finger moves out by 50 and is cancelled, and after the
    frame the first finger moves and lifts; a frame. *)
Definition afternoon : list (Gesture float) :=
  [g_tap (editorAt 1 1) (finger 1 0 0) [(editorAt 1 1, pointerup (finger 1 0 0))];
   g_wheel (editorAt 1 1) (wheelAt 5 5 0 3);
   g_pinch (editorAt 1 1) (editorAt 1 1) (finger 1 0 0) (finger 2 100 0)
     [(editorAt 1 1, pointermove (finger 7 10 10));
      (editorAt 1 1, pointermove (finger 2 150 0))]
     (editorAt 1 1) (pointercancel (finger 2 150 0)) (editorAt 1 1)
     [(editorAt 1 1, pointermove (finger 1 5 5));
      (editorAt 1 1, pointerup (finger 1 5 5))];
   g_frame (editorAt 1 1)].

Lemma natural_inputs_follow_protocol_witness :
  trace (afternoon ≫= inputs) initialState = specTrace (afternoon ≫= inputs) Spec.init.
Proof.
  refine (proj1 (proj2 (natural_inputs_follow_protocol afternoon _))).
  by apply (bool_decide_unpack _); vm_compute.
Defined.

Example afternoon_calls :
  pinchNames (trace (afternoon ≫= inputs) initialState) = [pinch_start; pinch; pinch_end]
  ∧ length (trace (afternoon ≫= inputs) initialState) = 6%nat.
Proof. by vm_compute. Qed.
