(* ===== verification/Worlds.v ===== *)
(** * Worlds: renders, unmounts and inputs in any order

    [Lifecycle] gives the effect, its cleanup and the delivery of one
    input.  Here they are the actions of a transition system over [World]:
    React renders with new dependencies or unmounts the component, the
    browser delivers an event or an animation frame, in any order.

    - [sound] is the invariant of the worlds that can be reached: an effect
      that is live has its five listeners attached and its variables are
      reachable in [System]; every closure that was cleaned up and is kept
      is kept by a callback that waits.
    - [waiting] lists the callbacks that wait for the frame, those of the
      older closures first, and [due] the events they will dispatch.  No
      action but the frame removes a callback, and the frame runs every
      one of them.
    - After an unmount nothing is called but what was waiting; after a
      render the callbacks of the old effect run at the first frame of the
      new one. *)

From S2P Require Import Prelude Number JSMap Events Samples Pinch Handlers System Gestures.
From S2P Require Import Lifecycle Sessions.
From stdpp Require Import strings.
From Stdlib Require Import Floats.

(** What happens to a component that uses the hook. *)
Inductive Action (N : Type) :=
| render (oc : option Container)   (* a render with a new editor or container *)
| unmount
| input (ed : Editor N) (i : Input N).
Arguments render {N}.
Arguments unmount {N}.
Arguments input {N}.

Section worlds.
Context {N : Type} `{Number N, Host N}.
Implicit Types (w : World N) (c : Container) (s : State N) (ed : Editor N)
  (i : Input N) (a : Action N) (acts : list (Action N)) (cb : FrameCallback N).

Definition act a w : World N * list (Effect N) :=
  match a with
  | render oc => (rerender oc w, [])
  | unmount => (cleanup w, [])
  | input ed i => deliver ed i w
  end.

Fixpoint actAll acts w : World N * list (Effect N) :=
  match acts with
  | [] => (w, [])
  | a :: acts' =>
      let r := act a w in
      let r' := actAll acts' r.1 in
      (r'.1, r.2 ++ r'.2)
  end.

(** Every action but the animation frame. *)
Definition quiet a : Prop :=
  match a with input _ animationFrame => False | _ => True end.

(** The closures that are alive, oldest first. *)
Definition closures w : list (State N) := w.(disposed) ++ option_list w.(live).

(** The callbacks that wait for the next animation frame, in the order in
    which it runs them. *)
Definition waiting w : list (FrameCallback N) := concat (animationFrames <$> closures w).

(** What the callbacks of a closure dispatch when they run now. *)
Definition ends s : list (Effect N) := (λ cb, pinchEnd cb s) <$> s.(animationFrames).

Definition due w : list (Effect N) := concat (ends <$> closures w).

(** [eff] is the [pinch_end] the callback [cb] dispatches: the event and
    the zoom are those of the callback, the point is read when it runs. *)
Definition dispatchedBy cb (eff : Effect N) : Prop := ∃ s, eff = pinchEnd cb s.

Record sound w : Prop := {
  sound_listening : is_Some w.(live) → listening w;
  sound_live s : w.(live) = Some s → reachable s;
  sound_disposed : Forall (λ s, reachable s ∧ s.(animationFrames) ≠ []) w.(disposed);
}.

End worlds.

(** ** The invariant *)

Section worlds_facts.
Context {N : Type} `{Number N, Host N}.
Implicit Types (w : World N) (c : Container) (s : State N) (ed : Editor N)
  (i : Input N) (a : Action N) (acts : list (Action N)) (cb : FrameCallback N).

Lemma sound_unmounted : sound (N := N) unmounted.
Proof. split; [by intros []|done|by constructor]. Qed.

Lemma cleanup_sound w : sound w → sound (cleanup w).
Proof.
  intros Hw. pose proof Hw as [Hc Hl Hd]. unfold cleanup.
  destruct w.(container), w.(live) as [s|]; try done.
  split; simpl; [by intros []|done|].
  apply Forall_app; split; [done|]. destruct s.(animationFrames) eqn:Hq; [done|].
  apply Forall_singleton. split; [by apply Hl|]. by rewrite Hq.
Qed.

Lemma effect_listening c w : listening (effect (Some c) w).
Proof.
  eexists; split; [done|]. intros t. rewrite !elem_of_addEventListener.
  destruct t; auto 10.
Qed.

Lemma effect_sound oc w : sound w → sound (effect oc w).
Proof.
  intros [_ _ Hd]. destruct oc as [c|]; (split; [| |done]).
  - intros _. apply effect_listening.
  - intros s [= <-]. constructor.
  - by intros [].
  - done.
Qed.

Lemma deliver_sound ed i w : sound w → sound (deliver ed i w).1.
Proof.
  intros Hw. pose proof Hw as [Hc Hl Hd]. unfold deliver.
  destruct (typeOf i).
  - destruct w.(container) eqn:Hwc, w.(live) as [s|] eqn:Hwl; try done.
    case_decide; [|done]. split; simpl; [|intros ? [= <-]; constructor; auto|done].
    intros _. destruct Hc as (c' & ? & ?); [done|]. exists c'. by simplify_eq.
  - split; simpl; [| |by constructor].
    + intros [s' Hs']%fmap_is_Some. by apply Hc.
    + intros s' (s & Hs & ->)%fmap_Some. constructor; auto.
Qed.

Lemma act_sound a w : sound w → sound (act a w).1.
Proof.
  destruct a; simpl; unfold rerender; auto using effect_sound, cleanup_sound, deliver_sound.
Qed.

Lemma actAll_sound acts w : sound w → sound (actAll acts w).1.
Proof.
  revert w. induction acts as [|a acts IH]; intros w Hw; [done|].
  by apply IH, act_sound.
Qed.

Lemma actAll_app acts1 acts2 w :
  actAll (acts1 ++ acts2) w
    = ((actAll acts2 (actAll acts1 w).1).1,
       (actAll acts1 w).2 ++ (actAll acts2 (actAll acts1 w).1).2).
Proof.
  revert w. induction acts1 as [|a acts1 IH]; intros w; simpl.
  - by destruct (actAll acts2 w).
  - by rewrite IH, <-app_assoc.
Qed.

(** ** The callbacks that wait *)

Lemma waiting_eq w :
  waiting w = concat (animationFrames <$> w.(disposed))
              ++ from_option animationFrames [] w.(live).
Proof.
  unfold waiting, closures. rewrite fmap_app, concat_app.
  destruct w.(live); simpl; by rewrite ?app_nil_r.
Qed.

Lemma cleanup_live w : sound w → (cleanup w).(live) = None.
Proof.
  intros [Hc _ _]. unfold cleanup. destruct w.(live) eqn:Hl.
  - destruct Hc as (c & -> & _); done.
  - by destruct w.(container).
Qed.

Lemma waiting_cleanup w : waiting (cleanup w) = waiting w.
Proof.
  unfold cleanup. destruct w.(container) eqn:Hc, w.(live) as [s|] eqn:Hl; try done.
  rewrite !waiting_eq, Hl. simpl.
  destruct s.(animationFrames) eqn:Hq; rewrite ?app_nil_r; [done|].
  by rewrite fmap_app, concat_app; simpl; rewrite Hq, !app_nil_r.
Qed.

Lemma waiting_effect oc w : w.(live) = None → waiting (effect oc w) = waiting w.
Proof. intros Hl. rewrite !waiting_eq, Hl. by destruct oc. Qed.

Lemma waiting_deliver ed i w :
  ¬ isFrame i → ∃ cbs, waiting (deliver ed i w).1 = waiting w ++ cbs.
Proof.
  intros Hi. unfold deliver. destruct (typeOf i) eqn:Ht; [|by destruct i].
  destruct w.(container), w.(live) as [s|] eqn:Hl;
    try (by exists []; rewrite app_nil_r).
  case_decide; [|by exists []; rewrite app_nil_r].
  destruct (frames_next ed i s Hi) as [cbs Hq]. exists cbs.
  rewrite !waiting_eq, Hl. simpl. by rewrite Hq, app_assoc.
Qed.

Lemma waiting_act a w : sound w → quiet a → ∃ cbs, waiting (act a w).1 = waiting w ++ cbs.
Proof.
  intros Hw Ha. destruct a as [oc| |ed i]; simpl.
  - exists []. unfold rerender.
    by rewrite waiting_effect, waiting_cleanup, app_nil_r by (by apply cleanup_live).
  - exists []. by rewrite waiting_cleanup, app_nil_r.
  - apply waiting_deliver. destruct i; simpl in *; tauto.
Qed.

Lemma waiting_actAll acts w :
  sound w → Forall quiet acts → ∃ cbs, waiting (actAll acts w).1 = waiting w ++ cbs.
Proof.
  intros Hw Hacts. revert w Hw.
  induction Hacts as [|a acts Ha _ IH]; intros w Hw; simpl.
  - exists []. by rewrite app_nil_r.
  - destruct (IH _ (act_sound a w Hw)) as [cbs2 ->], (waiting_act a w Hw Ha) as [cbs1 ->].
    eexists. by rewrite <-app_assoc.
Qed.

(** The frame runs every callback that waits, and none is left. *)
Lemma frame_due ed w :
  (deliver ed animationFrame w).2 = due w ∧ waiting (deliver ed animationFrame w).1 = [].
Proof.
  unfold deliver, due, closures. simpl. split.
  - rewrite fmap_app, concat_app. f_equal.
    + f_equal. apply list_fmap_ext; intros _ s _. apply frame_emitted.
    + destruct w.(live) as [s|]; simpl; [|done]. rewrite app_nil_r. apply frame_emitted.
  - rewrite waiting_eq. simpl. destruct w.(live) as [s|]; simpl; [|done].
    apply frame_emitted.
Qed.

Lemma due_waiting w : Forall2 dispatchedBy (waiting w) (due w).
Proof.
  unfold waiting, due. induction (closures w) as [|s l IH]; simpl; [constructor|].
  apply Forall2_app; [|done]. apply Forall2_fmap_r, Forall_Forall2_diag, Forall_forall.
  intros cb _. by exists s.
Qed.

(** ** A render while callbacks wait *)

Lemma deliverAll_app evs1 evs2 w :
  deliverAll (evs1 ++ evs2) w
    = ((deliverAll evs2 (deliverAll evs1 w).1).1,
       (deliverAll evs1 w).2 ++ (deliverAll evs2 (deliverAll evs1 w).1).2).
Proof.
  revert w. induction evs1 as [|[ed i] evs1 IH]; intros w; simpl.
  - by destruct (deliverAll evs2 w).
  - by rewrite IH, <-app_assoc.
Qed.

(** Until the frame comes, the closures that were cleaned up stay as they
    are and the live effect runs as in [System]. *)
Lemma deliver_event ed i c s d :
  (∀ t, t ∈ c.(listeners)) → ¬ isFrame i →
  deliver ed i {| container := Some c; live := Some s; disposed := d |}
    = ({| container := Some c; live := Some (next ed i s); disposed := d |},
       emitted ed i s).
Proof.
  intros Hc Hi. unfold deliver. destruct (typeOf i) eqn:Ht; [|by destruct i].
  simpl. by rewrite decide_True.
Qed.

Lemma deliverAll_quiet evs c s d :
  (∀ t, t ∈ c.(listeners)) → Forall (λ ei, ¬ isFrame ei.2) evs →
  deliverAll evs {| container := Some c; live := Some s; disposed := d |}
    = ({| container := Some c; live := Some (run evs s); disposed := d |}, trace evs s).
Proof.
  intros Hc Hevs. revert s. induction Hevs as [|[ed i] evs Hi _ IH]; intros s; [done|].
  cbn [deliverAll run trace]. rewrite deliver_event by done. cbn [fst snd].
  by rewrite IH.
Qed.

(** The frame runs the callbacks of the older closures, then those of
    the live effect, and drops the older closures. *)
Lemma deliverAll_frame ed evs c s d :
  (∀ t, t ∈ c.(listeners)) →
  deliverAll ((ed, animationFrame) :: evs)
    {| container := Some c; live := Some s; disposed := d |}
    = ({| container := Some c; live := Some (run ((ed, animationFrame) :: evs) s);
          disposed := [] |},
       concat (ends <$> d) ++ trace ((ed, animationFrame) :: evs) s).
Proof.
  intros Hc. cbn [deliverAll run trace]. unfold deliver; simpl.
  rewrite deliverAll_live by done. cbn [fst snd]. rewrite <-app_assoc.
  do 3 f_equal. apply list_fmap_ext; intros _ s' _. apply frame_emitted.
Qed.

Lemma due_cleanup w : sound w → concat (ends <$> (cleanup w).(disposed)) = due w.
Proof.
  intros [Hc _ _]. unfold cleanup, due, closures. rewrite fmap_app, concat_app.
  destruct w.(live) as [s|] eqn:Hl; simpl.
  - destruct Hc as (c & -> & _); [done|]. simpl. rewrite app_nil_r.
    unfold ends at 3. destruct s.(animationFrames) eqn:Hq; simpl; rewrite ?app_nil_r; [done|].
    rewrite fmap_app, concat_app. simpl. unfold ends at 2. by rewrite Hq, app_nil_r.
  - rewrite app_nil_r. by destruct w.(container).
Qed.

(** Without a live effect no event is listened to; the first frame runs
    the callbacks of the closures that are kept, and drops the closures. *)
Lemma deliverAll_dead evs w :
  w.(live) = None →
  (deliverAll evs w).1.(live) = None
  ∧ (deliverAll evs w).2
    = if decide (Exists (λ ei, isFrame ei.2) evs)
      then concat (ends <$> w.(disposed)) else [].
Proof.
  revert w. induction evs as [|[ed i] evs IH]; intros w Hl; [done|].
  cbn [deliverAll fst snd]. destruct (decide (isFrame i)) as [Hi|Hi].
  - destruct i; try done. rewrite decide_True by (by left).
    destruct (IH (deliver ed animationFrame w).1) as [-> ->]; [by simpl; rewrite Hl|].
    split; [done|]. unfold deliver; simpl. rewrite Hl; simpl.
    case_decide; rewrite !app_nil_r; f_equal; apply list_fmap_ext; intros; apply frame_emitted.
  - rewrite deliver_not_live by (done || by destruct i). cbn [fst snd app].
    destruct (IH w Hl) as [-> ->]. split; [done|].
    apply decide_ext. rewrite Exists_cons. simpl. tauto.
Qed.

Lemma cleanup_listeners w c s :
  w.(live) = Some s → (cleanup w).(container) = Some c → c.(listeners) = [].
Proof.
  unfold cleanup. intros ->. destruct w.(container) eqn:Hc; [|by rewrite Hc]. intros [= <-].
  apply elem_of_nil_inv; intros t. rewrite !elem_of_removeEventListener.
  destruct t; intros (?&?&?&?&?&?); congruence.
Qed.

Lemma rerender_world c w :
  ∃ c', (∀ t, t ∈ c'.(listeners))
        ∧ rerender (Some c) w
          = {| container := Some c'; live := Some initialState;
               disposed := (cleanup w).(disposed) |}.
Proof.
  destruct (effect_listening c (cleanup w)) as (c' & Hc' & Ht).
  exists c'. split; [done|]. unfold rerender in *. by injection Hc' as <-.
Qed.

(** Every world that renders, unmounts, events and frames lead to from
    the unmounted component is [sound]: an effect that is live has its five
    listeners attached, its variables are a reachable state of the hook and
    satisfy the invariant of [System], and a closure that was cleaned up is
    kept only while a callback of its waits for the frame. *)
Theorem world_invariant acts :
  let w := (actAll acts unmounted).1 in
  sound w ∧ ∀ s, w.(live) = Some s → listening w ∧ invariant s.
Proof.
  intros w. pose proof (actAll_sound acts unmounted sound_unmounted) as Hw.
  split; [done|]. intros s Hs. split; [by apply Hw|].
  by apply invariant_reachable, Hw.
Qed.

(** C25. No requested [pinch_end] is lost or cancelled: whatever renders,
    unmounts and events come before the next animation frame, the callbacks
    that wait are still waiting then, in their order and before the ones
    requested since; the frame dispatches exactly one [pinch_end] for each
    of them, in that order, with the event and the zoom of the callback;
    and after the frame none waits. *)
Theorem no_pinch_end_is_lost acts ed w :
  sound w → Forall quiet acts →
  let w' := (actAll acts w).1 in
  let r := deliver ed animationFrame w' in
  (∃ cbs, waiting w' = waiting w ++ cbs)
  ∧ r.2 = due w' ∧ Forall2 dispatchedBy (waiting w') r.2
  ∧ waiting r.1 = [].
Proof.
  intros Hw Hacts w' r. destruct (frame_due ed w') as [Hd Hq].
  split_and!; [by apply waiting_actAll|done| |done].
  subst r. rewrite Hd. apply due_waiting.
Qed.

(** After the unmount the hook is silent, but for the callbacks that
    wait: no listener is attached to the container, no effect is live, and
    whatever events and frames follow, the only calls are the [pinch_end]
    events that were waiting at the unmount, dispatched at the first
    animation frame; when none was waiting, nothing is ever called. *)
Theorem unmounted_hook_is_silent evs w :
  sound w →
  (∀ c, (cleanup w).(container) = Some c → is_Some w.(live) → c.(listeners) = [])
  ∧ (deliverAll evs (cleanup w)).1.(live) = None
  ∧ (deliverAll evs (cleanup w)).2
    = if decide (Exists (λ ei, isFrame ei.2) evs) then due w else [].
Proof.
  intros Hw. pose proof (cleanup_live w Hw) as Hl. split_and!.
  - intros c Hc [s Hs]. apply (cleanup_listeners w c s Hs Hc).
  - apply (deliverAll_dead evs _ Hl).
  - by rewrite (proj2 (deliverAll_dead evs _ Hl)), due_cleanup.
Qed.

(** A render while callbacks of the effect before it wait for the
    frame: the new effect runs from the initial variables as the transition
    system of [System], and at the first animation frame the [pinch_end]
    events of the old effect are dispatched before the frame of the new
    one runs, in the middle of whatever the new effect has dispatched. *)
Theorem stale_pinch_ends_join_the_frame pre ed post c w :
  sound w → Forall (λ ei, ¬ isFrame ei.2) pre →
  let w' := rerender (Some c) w in
  let evs := pre ++ (ed, animationFrame) :: post in
  (deliverAll pre w').2 = trace pre initialState
  ∧ (deliverAll evs w').2
    = trace pre initialState ++ due w
      ++ trace ((ed, animationFrame) :: post) (run pre initialState)
  ∧ (deliverAll evs w').1.(live) = Some (run evs initialState)
  ∧ (deliverAll evs w').1.(disposed) = [].
Proof.
  intros Hw Hpre w' evs. destruct (rerender_world c w) as (c' & Hc' & Hw').
  subst w' evs. rewrite Hw', deliverAll_app, !deliverAll_quiet by done. cbn [fst snd].
  rewrite deliverAll_frame, due_cleanup, run_app by done. by split_and!.
Qed.

End worlds_facts.

(** ** On a concrete canvas *)

Local Open Scope float_scope.

(** The fingers have been lifted and the [pinch_end] waits for the frame
    ([lifted]); the component unmounts, mounts again, and a new pinch
    starts and is released before the frame comes. *)
Definition remount : list (Action float) :=
  [unmount; render (Some canvas);
   input (editorAt 1 1) (pointerdown (finger 3 0 0));
   input (editorAt 1 1) (pointerdown (finger 4 10 0));
   input (editorAt 1 1) (pointerup (finger 4 10 0))].

(** [lifted] is a world the component reaches. *)
Definition liftedBy : list (Action float) :=
  [render (Some canvas);
   input (editorAt 1 1) (pointerdown (finger 1 0 0));
   input (editorAt 1 1) (pointerdown (finger 2 100 0));
   input (editorAt 1 1) (pointermove (finger 2 150 0));
   input (editorAt 1 1) (pointerup (finger 2 150 0))].

Lemma lifted_sound : sound lifted.
Proof.
  assert (lifted = (actAll liftedBy unmounted).1) as -> by (by vm_compute).
  apply actAll_sound, sound_unmounted.
Qed.

Lemma no_pinch_end_is_lost_witness :
  (deliver (editorAt 1 1) animationFrame (actAll remount lifted).1).2
    = due (actAll remount lifted).1.
Proof.
  refine (proj1 (proj2 (no_pinch_end_is_lost remount (editorAt 1 1) lifted lifted_sound _))).
  by repeat constructor.
Defined.

(** The frame after the remount dispatches the [pinch_end] of the pinch
    that ended before the unmount, then that of the new pinch (whose zoom
    is 0: it was released without a move). *)
Example remount_frame :
  pinchNames (actAll remount lifted).2 = [pinch_start]
  ∧ (λ p, (p.(pinch_name), p.(pinch_point)))
      <$> pinches pinch_end
            (deliver (editorAt 1 1) animationFrame (actAll remount lifted).1).2
    = [(pinch_end, mkVecModel 75 0 (Some 1.5)); (pinch_end, mkVecModel 5 0 (Some 0))].
Proof. by vm_compute. Qed.

(** The editor changes between the release and the frame, and two fingers
    go down again before the frame. *)
Definition pinchAgain : list (Editor float * Input float) :=
  [(editorAt 1 1, pointerdown (finger 3 0 0));
   (editorAt 1 1, pointerdown (finger 4 10 0))].

Definition moveOn : list (Editor float * Input float) :=
  [(editorAt 1 1, pointermove (finger 4 100 0))].

Lemma stale_pinch_ends_join_the_frame_witness :
  (deliverAll (pinchAgain ++ (editorAt 1 1, animationFrame) :: moveOn)
     (rerender (Some canvas) lifted)).2
    = trace pinchAgain initialState ++ due lifted
      ++ trace ((editorAt 1 1, animationFrame) :: moveOn) (run pinchAgain initialState).
Proof.
  refine (proj1 (proj2 (stale_pinch_ends_join_the_frame pinchAgain (editorAt 1 1)
            (moveOn) canvas lifted lifted_sound _))).
  by repeat (constructor; [intros []|]).
Defined.

(** The [pinch_end] of the old effect then arrives inside the pinch of the
    new one: the editor sees a start, an end, and an update after it. *)
Example stale_end_inside_pinch :
  let calls := (deliverAll (pinchAgain ++ (editorAt 1 1, animationFrame) :: moveOn)
                  (rerender (Some canvas) lifted)).2 in
  pinchNames calls = [pinch_start; pinch_end; pinch]
  ∧ bracket false (pinchNames calls) = None.
Proof. by vm_compute. Qed.

(** The component unmounts between the release and the frame; the finger
    that is left moves and lifts: the one call is the [pinch_end] that was
    waiting. *)
Lemma unmounted_hook_is_silent_witness :
  (deliverAll [(editorAt 1 1, pointermove (finger 1 0 50));
               (editorAt 1 1, pointerup (finger 1 0 50));
               (editorAt 1 1, animationFrame)] (cleanup lifted)).2
    = due lifted.
Proof.
  pose proof (proj2 (proj2 (unmounted_hook_is_silent
    [(editorAt 1 1, pointermove (finger 1 0 50)); (editorAt 1 1, pointerup (finger 1 0 50));
     (editorAt 1 1, animationFrame)] lifted lifted_sound))) as Hs.
  rewrite decide_True in Hs by (do 2 right; by left). exact Hs.
Defined.
