(* ===== verification/Component.v ===== *)
(** * Component: the hook against its specification over the life of the
    component

    [Refines] compares one effect with the machine of [Spec]; [Worlds]
    lets React render and unmount between the inputs.  Here the two are
    put together.

    - The specification over the life of the component ([specAct]) is
      its machine while the component is mounted; its teardown releases
      the contacts and cancels what is deferred, so every mount starts
      from [Spec.init], and nothing is called while unmounted.
    - [lifeProtocol]: the inputs follow the protocol of [Simulation] while
      mounted, and React tears the effect down only when no [pinch_end] is
      deferred.
    - Along it the component makes the calls of the specification
      ([component_refines_spec]); the relation [matches] between a world
      and the state of the specification is the simulation.  A teardown
      while a [pinch_end] waits is where they part: the hook dispatches
      it, the specification cancels it ([teardown_while_waiting]). *)

From Stdlib Require Import Floats.
From stdpp Require Import gmap strings.
From S2P Require Import Prelude Number JSMap Events Samples Pinch Handlers System.
From S2P Require Import Gestures Spec Lifecycle FloatLaws Symmetry Simulation Refines.
From S2P Require Import Sessions Worlds.

Section component.
Context {N : Type} `{SymmetricNumber N, Host N}.
Implicit Types (w : World N) (ot : option (Spec.State N)) (t : Spec.State N)
  (a : Action N) (acts : list (Action N)) (s : State N) (cd : option N).

(** The specification on one action.  A render with a container tears
    down and starts over; a render without one and an unmount tear down. *)
Definition specAct a ot : option (Spec.State N) * list (Effect N) :=
  match a with
  | render (Some _) => (Some Spec.init, [])
  | render None | unmount => (None, [])
  | input ed i =>
      match ot with
      | Some t => (Some (specStep ed i t).1, (specStep ed i t).2)
      | None => (None, [])
      end
  end.

Fixpoint specActAll acts ot : option (Spec.State N) * list (Effect N) :=
  match acts with
  | [] => (ot, [])
  | a :: acts' =>
      let r := specAct a ot in
      let r' := specActAll acts' r.1 in
      (r'.1, r.2 ++ r'.2)
  end.

(** What the specification assumes of one action: an input is allowed by
    the protocol; a teardown comes when nothing is deferred. *)
Definition permitted a ot : Prop :=
  match a, ot with
  | input ed i, Some t => allowed ed i t
  | (render _ | unmount), Some t => t.(Spec.deferred) = []
  | _, None => True
  end.

Fixpoint lifeProtocol acts ot : Prop :=
  match acts with
  | [] => True
  | a :: acts' => permitted a ot ∧ lifeProtocol acts' (specAct a ot).1
  end.

#[export] Instance permitted_dec `{EqDecision N} a ot : Decision (permitted a ot).
Proof. destruct a as [oc| |ed i], ot; simpl; apply _. Defined.

#[export] Instance lifeProtocol_dec `{EqDecision N} acts ot : Decision (lifeProtocol acts ot).
Proof. revert ot. induction acts; intros ot; simpl; apply _. Defined.

(** The world stands for the state of the specification: no closure of
    an earlier effect is kept, and the effect that is live, with its
    listeners attached, reads as the machine of the specification. *)
Definition matches w ot : Prop :=
  w.(disposed) = []
  ∧ match ot with
    | None => w.(live) = None
    | Some t => ∃ s cd, listening w ∧ w.(live) = Some s ∧ t = abs cd s ∧ good cd s
    end.

End component.

Section component_facts.
Context {N : Type} `{SymmetricNumber N, Host N}.
Implicit Types (w : World N) (ot : option (Spec.State N)) (t : Spec.State N)
  (a : Action N) (acts : list (Action N)) (s : State N) (cd : option N).

Lemma matches_unmounted : matches (N := N) unmounted None.
Proof. done. Qed.

(** A teardown that is permitted leaves no closure behind. *)
Lemma cleanup_matches w ot :
  matches w ot → permitted unmount ot →
  (cleanup w).(disposed) = [] ∧ (cleanup w).(live) = None.
Proof.
  intros [Hd Hm] Hp. unfold cleanup. destruct ot as [t|]; [|by rewrite Hm; destruct w.(container)].
  destruct Hm as (s & cd & (c & -> & _) & -> & -> & _). simpl in Hp.
  apply fmap_nil_inv in Hp. by rewrite Hd, Hp.
Qed.

Lemma effect_matches c w :
  w.(disposed) = [] → matches (effect (Some c) w) (Some Spec.init).
Proof.
  intros Hd. split; [done|]. exists initialState, None.
  split_and!; [apply effect_listening|done|done|apply good_init].
Qed.

Lemma deliver_matches_live ed i w t :
  matches w (Some t) → allowed ed i t →
  matches (deliver ed i w).1 (Some (specStep ed i t).1)
  ∧ (deliver ed i w).2 = (specStep ed i t).2.
Proof.
  intros [Hd (s & cd & (c & Hc & Hl) & Hs & -> & Hg)] Ha.
  destruct (step_simulation ed i s _ _ cd (next_step ed i s) Hg Ha) as (cd' & -> & Hg').
  destruct w as [oc ol d]; simplify_eq/=. rewrite deliver_live by done.
  split; [|done]. split; [done|]. exists (next ed i s), cd'.
  split_and!; try done. by exists c.
Qed.

Lemma deliver_matches_dead ed i w :
  matches w None → matches (deliver ed i w).1 None ∧ (deliver ed i w).2 = [].
Proof.
  intros [Hd Hl]. destruct (decide (isFrame i)) as [Hi|Hi].
  - destruct i; try done. unfold deliver; simpl. by rewrite Hd, Hl.
  - by rewrite deliver_not_live by (done || by destruct i).
Qed.

(** One action. *)
Lemma act_simulation a w ot :
  matches w ot → permitted a ot →
  matches (act a w).1 (specAct a ot).1 ∧ (act a w).2 = (specAct a ot).2.
Proof.
  intros Hm Hp. destruct a as [[c|]| |ed i]; simpl.
  - split; [|done]. apply effect_matches, (cleanup_matches w ot Hm).
    by destruct ot.
  - destruct (cleanup_matches w ot Hm) as [Hd Hl]; [by destruct ot|]. by split.
  - destruct (cleanup_matches w ot Hm) as [Hd Hl]; [by destruct ot|]. by split.
  - destruct ot as [t|]; [by apply deliver_matches_live|by apply deliver_matches_dead].
Qed.

Lemma actAll_simulation acts w ot :
  matches w ot → lifeProtocol acts ot →
  matches (actAll acts w).1 (specActAll acts ot).1
  ∧ (actAll acts w).2 = (specActAll acts ot).2.
Proof.
  revert w ot. induction acts as [|a acts IH]; intros w ot Hm; simpl; [done|].
  intros [Hp Hps]. destruct (act_simulation a w ot Hm Hp) as [Hm' ->].
  by destruct (IH _ _ Hm' Hps) as [? ->].
Qed.

(** The component refines its specification over its whole life.
    Through any renders, unmounts, events and animation frames, as long as
    the inputs follow the protocol while the hook is mounted and the
    effect is torn down only when no [pinch_end] is deferred, the
    component makes exactly the calls of the specification, whose
    teardown releases every contact and starts every mount from the
    initial state; and the world stands for the state of the
    specification all along. *)
Theorem component_refines_spec acts :
  lifeProtocol acts None →
  (actAll acts unmounted).2 = (specActAll acts None).2
  ∧ matches (actAll acts unmounted).1 (specActAll acts None).1.
Proof.
  intros Hp. by destruct (actAll_simulation acts unmounted None matches_unmounted Hp).
Qed.

End component_facts.

(** ** On JavaScript numbers *)

Local Open Scope float_scope.

(** The component mounts, a pinch zooms out and ends, the editor changes,
    and a pinch hands over to a third finger; then it unmounts with a
    finger still down, and the finger lifts. *)
Definition life : list (Action float) :=
  [render (Some canvas)] ++ (uncurry input <$> pinchOut)
  ++ [render (Some canvas)] ++ (uncurry input <$> handover)
  ++ [unmount; input (editorAt 1 1) (pointerup (finger 2 150 0))].

Lemma component_refines_spec_witness :
  (actAll life unmounted).2 = (specActAll life None).2.
Proof.
  apply (component_refines_spec life).
  by apply (bool_decide_unpack _); vm_compute.
Defined.

(** The component unmounts between the release and the frame: the
    protocol does not permit it, the hook dispatches the [pinch_end] at
    the frame and the specification has cancelled it. *)
Definition hasty : list (Action float) :=
  liftedBy ++ [unmount; input (editorAt 1 1) animationFrame].

Example teardown_while_waiting :
  ¬ lifeProtocol hasty None
  ∧ pinchNames (actAll hasty unmounted).2 = [pinch_start; pinch; pinch_end]
  ∧ pinchNames (specActAll hasty None).2 = [pinch_start; pinch].
Proof. split; [by apply (bool_decide_unpack _); vm_compute|by vm_compute]. Qed.
