(* ===== verification/Page.v ===== *)
(** * Page: the elements, the closures of the effects, and the timers

    [Lifecycle] knows a listener by the type of its event and lets an event
    reach the effect that is live.  The page is more than that: an element
    keeps the functions that were registered on it until they are removed,
    each function is the closure of the effect that created it, with the
    variables of that effect, and [requestAnimationFrame] is one queue for
    all of them.  This file models that, so that what [Lifecycle] takes
    for granted can be proved of the code:

    - [Listener]: an entry of the event listener list of an element, the
      type and the function; [listen] and [unlisten] are
      [addEventListener] and [removeEventListener] of the DOM.
    - [Page]: the elements by identity, the variables of every effect that
      has run ([heap], in the order in which they ran), the callbacks
      handed to [requestAnimationFrame] in the order of the requests, each
      with the effect whose closure it is ([timers]), and what the cleanup
      React holds has captured ([mounted]: the container and the effect).
    - [mount] is the body of the effect and [dismount] the function it
      returns; [dispatchEvent] runs the listeners of an element for an
      event, [runFrame] the callbacks that wait.
    - [DomDeps] is what a render hands to the hook, the editor and the
      container.  A call is paired with the editor it is made on: the
      one the effect that makes it was created with.
    - [neat] is the invariant of the pages that are reached: the
      listeners on every element are those of the effect in place, on its
      container, and nothing else ([page_invariant]).
    - [frameLoop] runs frames until no callback waits; on a page that is
      reached one frame is enough ([frame_loop_terminates]). *)

From S2P Require Import Prelude Number JSMap Events Samples Pinch Handlers System Gestures.
From S2P Require Import Lifecycle.
From stdpp Require Import gmap strings.
From Stdlib Require Import Floats.

(** The functions of the effect that are registered as listeners. *)
Inductive Handler := h_onPointerDown | h_onPointerMove | h_onPointerUp | h_onWheel.

#[export] Instance Handler_eq_dec : EqDecision Handler.
Proof. solve_decision. Defined.

(** An event listener: the type of the event and the callback, which is
    the function [l_handler] of the effect [l_effect].  (The hook registers
    every listener with the same options, and none for the capture
    phase.) *)
Record Listener := {
  l_type : EventType;
  l_handler : Handler;
  l_effect : nat;
}.

#[export] Instance Listener_eq_dec : EqDecision Listener.
Proof. solve_decision. Defined.

(** An element, as far as the hook touches it. *)
Record Element := {
  el_touchAction : string;
  el_webkitUserSelect : string;
  el_listeners : list Listener;
}.

(** An element nobody has touched. *)
Definition blank : Element :=
  {| el_touchAction := ""; el_webkitUserSelect := ""; el_listeners := [] |}.

Definition style_touchAction (v : string) (e : Element) : Element :=
  {| el_touchAction := v; el_webkitUserSelect := e.(el_webkitUserSelect);
     el_listeners := e.(el_listeners) |}.
Definition style_webkitUserSelect (v : string) (e : Element) : Element :=
  {| el_touchAction := e.(el_touchAction); el_webkitUserSelect := v;
     el_listeners := e.(el_listeners) |}.

(** [element.addEventListener(type, callback, options)]: the listener is
    appended unless the list has it already. *)
Definition listen (l : Listener) (e : Element) : Element :=
  {| el_touchAction := e.(el_touchAction); el_webkitUserSelect := e.(el_webkitUserSelect);
     el_listeners := if decide (l ∈ e.(el_listeners)) then e.(el_listeners)
                     else e.(el_listeners) ++ [l] |}.

(** [element.removeEventListener(type, callback)] *)
Definition unlisten (l : Listener) (e : Element) : Element :=
  {| el_touchAction := e.(el_touchAction); el_webkitUserSelect := e.(el_webkitUserSelect);
     el_listeners := filter (λ l', l' ≠ l) e.(el_listeners) |}.

(** Lines 9-12: what the hook is called with, the editor and the container
    of the render, each by its identity. *)
Record DomDeps := {
  dep_editor : nat;
  dep_container : option nat;
}.

Record Page (N : Type) := {
  elements : gmap nat Element;
  heap : list (State N);
  editors : list nat;
  timers : list (nat * FrameCallback N);
  mounted : option (nat * nat);
}.
Arguments elements {N}.
Arguments heap {N}.
Arguments editors {N}.
Arguments timers {N}.
Arguments mounted {N}.

(** What happens on the page. *)
Inductive PageAction (N : Type) :=
| p_render (deps : DomDeps)   (* a render with a new editor or container *)
| p_unmount
| p_event (el : nat) (ed : Editor N) (i : Input N)   (* an event on the element [el] *)
| p_frame (ed : Editor N).
Arguments p_render {N}.
Arguments p_unmount {N}.
Arguments p_event {N}.
Arguments p_frame {N}.

Section page.
Context {N : Type} `{Number N, Host N}.
Implicit Types (d : Page N) (s : State N) (ed : Editor N) (i : Input N)
  (e : Element) (l : Listener) (el id : nat) (h : Handler).

(** A page on which no effect has run. *)
Definition emptyPage : Page N :=
  {| elements := ∅; heap := []; editors := []; timers := []; mounted := None |}.

Definition elementAt el d : Element := default blank (d.(elements) !! el).

Definition set_element el e d : Page N :=
  {| elements := <[el := e]> d.(elements); heap := d.(heap); editors := d.(editors);
     timers := d.(timers); mounted := d.(mounted) |}.

Definition set_mounted (m : option (nat * nat)) d : Page N :=
  {| elements := d.(elements); heap := d.(heap); editors := d.(editors);
     timers := d.(timers); mounted := m |}.

(** ** The effect *)

(** Lines 24-25: the styles of the container. *)
Definition styled e : Element :=
  style_webkitUserSelect "none" (style_touchAction "none" e).

(** Lines 28-36: the variables of the effect are created; its functions
    close over them and over the editor of the render. *)
Definition allocate (editor : nat) d : Page N :=
  {| elements := d.(elements); heap := d.(heap) ++ [initialState];
     editors := d.(editors) ++ [editor]; timers := d.(timers); mounted := d.(mounted) |}.

(** The editor the functions of the effect [id] call. *)
Definition editorOf id d : nat := default 0 (d.(editors) !! id).

(** Lines 233-237: the functions of the effect [id] are registered. *)
Definition attach id e : Element :=
  let e := listen {| l_type := pointerdown_type; l_handler := h_onPointerDown; l_effect := id |} e in
  let e := listen {| l_type := pointermove_type; l_handler := h_onPointerMove; l_effect := id |} e in
  let e := listen {| l_type := pointerup_type; l_handler := h_onPointerUp; l_effect := id |} e in
  let e := listen {| l_type := pointercancel_type; l_handler := h_onPointerUp; l_effect := id |} e in
  listen {| l_type := wheel_type; l_handler := h_onWheel; l_effect := id |} e.

(** Lines 240-244: the function the effect returns removes them. *)
Definition detach id e : Element :=
  let e := unlisten {| l_type := pointerdown_type; l_handler := h_onPointerDown; l_effect := id |} e in
  let e := unlisten {| l_type := pointermove_type; l_handler := h_onPointerMove; l_effect := id |} e in
  let e := unlisten {| l_type := pointerup_type; l_handler := h_onPointerUp; l_effect := id |} e in
  let e := unlisten {| l_type := pointercancel_type; l_handler := h_onPointerUp; l_effect := id |} e in
  unlisten {| l_type := wheel_type; l_handler := h_onWheel; l_effect := id |} e.

(** The body of the effect, run with the container of the render: without
    a container it returns at once, and returns no cleanup. *)
Definition mount (deps : DomDeps) d : Page N :=
  match deps.(dep_container) with
  | None => set_mounted None d
  | Some el =>
      let id := length d.(heap) in
      set_mounted (Some (el, id))
        (set_element el (attach id (styled (elementAt el d)))
           (allocate deps.(dep_editor) d))
  end.

(** React calls the cleanup it holds, if it holds one. *)
Definition dismount d : Page N :=
  match d.(mounted) with
  | Some (el, id) => set_mounted None (set_element el (detach id (elementAt el d)) d)
  | None => d
  end.

(** ** Events and frames *)

(** The function [h], called with the event of the input [i]. *)
Definition call h i : Hook N unit :=
  match h, i with
  | h_onPointerDown, (pointerdown ev | pointermove ev | pointerup ev | pointercancel ev) =>
      onPointerDown ev
  | h_onPointerMove, (pointerdown ev | pointermove ev | pointerup ev | pointercancel ev) =>
      onPointerMove ev
  | h_onPointerUp, (pointerdown ev | pointermove ev | pointerup ev | pointercancel ev) =>
      onPointerUp ev
  | h_onWheel, wheel w => onWheel w
  | _, _ => mret tt
  end.

(** A function of the effect [id] runs on the variables of that effect;
    the callbacks it hands to [requestAnimationFrame] join the queue of
    the page, and its calls go to the editor of the effect: a call is
    paired with that editor. *)
Definition invoke id (f : Hook N unit) ed d : Page N * list (nat * Effect N) :=
  match d.(heap) !! id with
  | None => (d, [])
  | Some s =>
      ({| elements := d.(elements);
          heap := <[id := set_animationFrames (λ _, []) (exec f ed s)]> d.(heap);
          editors := d.(editors);
          timers := d.(timers) ++ (pair id <$> (exec f ed s).(animationFrames));
          mounted := d.(mounted) |},
       pair (editorOf id d) <$> outputs f ed s)
  end.

(** One thing after another, the calls in order. *)
Definition andThen {O} (f : Page N → Page N * list O) (r : Page N * list O) :
    Page N * list O :=
  ((f r.1).1, r.2 ++ (f r.1).2).

(** The browser dispatches an event on the element [el]: the listeners
    for its type that are registered when the dispatch starts run, in the
    order in which they were registered. *)
Definition dispatchEvent el ed i d : Page N * list (nat * Effect N) :=
  match typeOf i with
  | None => (d, [])
  | Some t =>
      foldl (λ r l, andThen (invoke l.(l_effect) (call l.(l_handler) i) ed) r) (d, [])
        (filter (λ l, l.(l_type) = t) (elementAt el d).(el_listeners))
  end.

(** An animation frame: the callbacks that wait run in the order of the
    requests; one that is requested meanwhile waits for the next frame. *)
Definition runFrame ed d : Page N * list (nat * Effect N) :=
  foldl (λ r c, andThen (invoke c.1 (pinchEndCallback c.2) ed) r)
    ({| elements := d.(elements); heap := d.(heap); editors := d.(editors); timers := [];
        mounted := d.(mounted) |}, [])
    d.(timers).

Definition pageAct (a : PageAction N) d : Page N * list (nat * Effect N) :=
  match a with
  | p_render deps => (mount deps (dismount d), [])
  | p_unmount => (dismount d, [])
  | p_event el ed i => dispatchEvent el ed i d
  | p_frame ed => runFrame ed d
  end.

(** An input of the hook, as it happens on the page when the container
    is the element [el]: an event on it, or a frame of the page. *)
Definition on el (x : Editor N * Input N) : PageAction N :=
  match x.2 with
  | animationFrame => p_frame x.1
  | i => p_event el x.1 i
  end.

Fixpoint pageAll (acts : list (PageAction N)) d : Page N * list (nat * Effect N) :=
  match acts with
  | [] => (d, [])
  | a :: acts' =>
      let r := pageAct a d in
      let r' := pageAll acts' r.1 in
      (r'.1, r.2 ++ r'.2)
  end.

(** The browser keeps running frames while callbacks wait; [fuel] bounds
    the number of frames. *)
Fixpoint frameLoop (fuel : nat) ed d : option (Page N * list (nat * Effect N)) :=
  match fuel with
  | 0 => if d.(timers) is [] then Some (d, []) else None
  | S fuel' =>
      if d.(timers) is [] then Some (d, [])
      else (λ r, (r.1, (runFrame ed d).2 ++ r.2)) <$> frameLoop fuel' ed (runFrame ed d).1
  end.

(** ** The invariant of the page *)

(** The listeners of the effect [id], in the order in which it registers
    them. *)
Definition handlers id : list Listener :=
  [{| l_type := pointerdown_type; l_handler := h_onPointerDown; l_effect := id |};
   {| l_type := pointermove_type; l_handler := h_onPointerMove; l_effect := id |};
   {| l_type := pointerup_type; l_handler := h_onPointerUp; l_effect := id |};
   {| l_type := pointercancel_type; l_handler := h_onPointerUp; l_effect := id |};
   {| l_type := wheel_type; l_handler := h_onWheel; l_effect := id |}].

(** What is registered on the element [el] when the page is in order: the
    five functions of the effect in place on its container, and nothing
    anywhere else. *)
Definition registered el d : list Listener :=
  match d.(mounted) with
  | Some (el', id) => if decide (el = el') then handlers id else []
  | None => []
  end.

Record neat d : Prop := {
  neat_listeners el : (elementAt el d).(el_listeners) = registered el d;
  neat_styles el id : d.(mounted) = Some (el, id) →
    (elementAt el d).(el_touchAction) = "none"
    ∧ (elementAt el d).(el_webkitUserSelect) = "none";
  neat_mounted el id : d.(mounted) = Some (el, id) → S id = length d.(heap);
  neat_heap : Forall (λ s, s.(animationFrames) = []) d.(heap);
  neat_timers : Forall (λ c, c.1 < length d.(heap)) d.(timers);
}.

End page.

(** ** The effect and its cleanup keep the page in order *)

Section page_facts.
Context {N : Type} `{Number N, Host N}.
Implicit Types (d : Page N) (s : State N) (ed : Editor N) (i : Input N)
  (e : Element) (l : Listener) (el id : nat) (h : Handler).

(** A listener that is not registered yet comes last. *)
Lemma listen_snoc l ls ls' e :
  e.(el_listeners) = ls' ++ ls → l ∉ ls' ++ ls →
  (listen l e).(el_listeners) = ls' ++ (ls ++ [l]).
Proof.
  intros He Hl. unfold listen; simpl. rewrite He, decide_False by done. by rewrite app_assoc.
Qed.

(** The [n]-th listener of the effect is registered after the [n] before
    it, when the element has none of that effect. *)
Local Ltac listen_next id n He :=
  apply (listen_snoc _ (take n (handlers id)));
    [|rewrite not_elem_of_app; split; [by intros ?%He|];
      simpl; rewrite ?not_elem_of_cons; split_and?; (done || apply not_elem_of_nil)].

(** The effect registers its five functions after the listeners the
    element has. *)
Lemma attach_fresh id e :
  (∀ l, l ∈ e.(el_listeners) → l.(l_effect) ≠ id) →
  (attach id (styled e)).(el_listeners) = e.(el_listeners) ++ handlers id.
Proof.
  intros He. unfold attach.
  listen_next id 4%nat He. listen_next id 3%nat He. listen_next id 2%nat He.
  listen_next id 1%nat He. listen_next id 0%nat He. simpl. by rewrite app_nil_r.
Qed.

Lemma attach_listeners id e :
  e.(el_listeners) = [] → (attach id (styled e)).(el_listeners) = handlers id.
Proof. intros He. rewrite attach_fresh; rewrite He; [done|]. by intros l ?%elem_of_nil. Qed.

(** The cleanup removes the five functions of its effect, and nothing
    else. *)
Lemma detach_filter id e :
  (detach id e).(el_listeners) = filter (λ l, l ∉ handlers id) e.(el_listeners).
Proof.
  unfold detach, unlisten; simpl. rewrite !list_filter_filter. apply list_filter_iff.
  intros l. unfold handlers. rewrite !not_elem_of_cons. pose proof (not_elem_of_nil l). tauto.
Qed.

Lemma detach_listeners id e :
  e.(el_listeners) = handlers id ∨ e.(el_listeners) = [] → (detach id e).(el_listeners) = [].
Proof.
  intros He. rewrite detach_filter. apply elem_of_nil_inv; intros l.
  rewrite list_elem_of_filter. intros [Hl Hin].
  destruct He as [He|He]; rewrite He in Hin; [by apply Hl|by apply elem_of_nil in Hin].
Qed.

Lemma elementAt_set_element el el' e d :
  elementAt el' (set_element el e d) = if decide (el' = el) then e else elementAt el' d.
Proof.
  unfold elementAt, set_element; simpl. case_decide as Hel.
  - subst. by rewrite lookup_insert_eq.
  - by rewrite lookup_insert_ne.
Qed.

Lemma elementAt_set_mounted el m d : elementAt el (set_mounted m d) = elementAt el d.
Proof. done. Qed.

Lemma elementAt_allocate el (k : nat) d : elementAt el (allocate k d) = elementAt el d.
Proof. done. Qed.

Lemma neat_emptyPage : neat (N := N) emptyPage.
Proof. split; try done; by constructor. Qed.

Lemma dismount_mounted d : (dismount d).(mounted) = None.
Proof. unfold dismount. by destruct d.(mounted) as [[el id]|] eqn:Hm. Qed.

Lemma dismount_neat d : neat d → neat (dismount d).
Proof.
  intros Hd. pose proof Hd as [Hl Hs Hm Hh Ht]. unfold dismount.
  destruct d.(mounted) as [[el id]|] eqn:Hmd; [|done].
  split; try done. intros el'. unfold registered; simpl.
  rewrite elementAt_set_mounted, elementAt_set_element. pose proof (Hl el') as Hl'.
  unfold registered in Hl'. rewrite Hmd in Hl'.
  case_decide; subst; [apply detach_listeners; by left|done].
Qed.

(** The cleanup leaves the styles of the container as the effect set
    them. *)
Lemma dismount_styles el d :
  (elementAt el (dismount d)).(el_touchAction) = (elementAt el d).(el_touchAction)
  ∧ (elementAt el (dismount d)).(el_webkitUserSelect) = (elementAt el d).(el_webkitUserSelect).
Proof.
  unfold dismount. destruct d.(mounted) as [[el' id]|]; [|done].
  rewrite elementAt_set_mounted, elementAt_set_element. by case_decide; subst.
Qed.

Lemma mount_neat deps d : neat d → d.(mounted) = None → neat (mount deps d).
Proof.
  intros [Hl Hs Hm Hh Ht] Hmd. unfold mount. destruct deps.(dep_container) as [el|]; simpl.
  - assert (∀ el', (elementAt el' d).(el_listeners) = []) as Hnone.
    { intros el'. rewrite Hl. unfold registered. by rewrite Hmd. }
    split; simpl.
    + intros el'. unfold registered; simpl.
      rewrite elementAt_set_mounted, elementAt_set_element, elementAt_allocate.
      case_decide; [by apply attach_listeners|apply Hnone].
    + intros el' id [= <- <-].
      by rewrite elementAt_set_mounted, elementAt_set_element, decide_True.
    + intros el' id [= <- <-]. rewrite length_app. simpl. lia.
    + apply Forall_app. split; [done|by apply Forall_singleton].
    + eapply Forall_impl; [done|]. intros c Hc. rewrite length_app. simpl in *. lia.
  - split; try done. intros el'. rewrite <-Hmd at 2. apply Hl.
Qed.

Lemma invoke_mounted id (f : Hook N unit) ed d : (invoke id f ed d).1.(mounted) = d.(mounted).
Proof. unfold invoke. by destruct (d.(heap) !! id). Qed.

Lemma invoke_neat id (f : Hook N unit) ed d : neat d → neat (invoke id f ed d).1.
Proof.
  intros Hd. pose proof Hd as [Hl Hs Hm Hh Ht]. unfold invoke.
  destruct (d.(heap) !! id) as [s|] eqn:Hid; [|done].
  apply lookup_lt_Some in Hid. split; simpl; try done.
  - by rewrite length_insert.
  - by apply Forall_insert.
  - rewrite length_insert. apply Forall_app. split; [done|].
    by apply Forall_fmap, Forall_true.
Qed.

(** ** One listener for an event, at most *)

(** Among the five listeners of an effect, the one for the type of the
    input is the function [listener] names. *)
Lemma handler_of_type id i t :
  typeOf i = Some t →
  ∃ h, filter (λ l, l.(l_type) = t) (handlers id)
       = [{| l_type := t; l_handler := h; l_effect := id |}]
       ∧ call h i = listener i.
Proof. destruct i; intros [= <-]; by eexists. Qed.

Lemma dispatchEvent_container el id ed i d :
  neat d → d.(mounted) = Some (el, id) → ¬ isFrame i →
  dispatchEvent el ed i d = invoke id (listener i) ed d.
Proof.
  intros [Hl _ _ _ _] Hm Hi. unfold dispatchEvent.
  destruct (typeOf i) as [t|] eqn:Ht; [|by destruct i].
  rewrite Hl. unfold registered. rewrite Hm, decide_True by done.
  destruct (handler_of_type id i t Ht) as (h & -> & Hc). simpl. unfold andThen; simpl.
  rewrite Hc. by destruct (invoke id (listener i) ed d).
Qed.

Lemma dispatchEvent_elsewhere el ed i d :
  neat d → registered el d = [] → dispatchEvent el ed i d = (d, []).
Proof.
  intros [Hl _ _ _ _] Hr. unfold dispatchEvent. rewrite Hl, Hr. by destruct (typeOf i).
Qed.

(** ** The frame *)

(** What the callbacks [q] dispatch: each reads the variables of its
    effect. *)
Definition pinchEnds d (q : list (nat * FrameCallback N)) : list (nat * Effect N) :=
  q ≫= λ c, from_option (λ s, [(editorOf c.1 d, pinchEnd c.2 s)]) [] (d.(heap) !! c.1).

Lemma requeue_nil s : s.(animationFrames) = [] → set_animationFrames (λ _, []) s = s.
Proof. destruct s; simpl. by intros ->. Qed.

(** A callback changes no variable and requests no callback. *)
Lemma invoke_callback id cb ed d :
  Forall (λ s, s.(animationFrames) = []) d.(heap) →
  invoke id (pinchEndCallback cb) ed d = (d, pinchEnds d [(id, cb)]).
Proof.
  intros Hh. unfold invoke, pinchEnds; simpl. destruct (d.(heap) !! id) as [s|] eqn:Hid; [|done].
  pose proof (Forall_lookup_1 _ _ _ _ Hh Hid) as Hs. simpl in Hs.
  unfold exec, outputs. rewrite pinchEndCallback_run. simpl.
  rewrite requeue_nil, list_insert_id, Hs, !app_nil_r by done. by destruct d.
Qed.

Lemma callbacks_run ed q d acc :
  Forall (λ s, s.(animationFrames) = []) d.(heap) →
  foldl (λ r c, andThen (invoke c.1 (pinchEndCallback c.2) ed) r) (d, acc) q
    = (d, acc ++ pinchEnds d q).
Proof.
  intros Hh. revert acc. induction q as [|[id cb] q IH]; intros acc; simpl.
  - by rewrite app_nil_r.
  - unfold andThen at 2. simpl. rewrite invoke_callback by done. simpl.
    rewrite IH. unfold pinchEnds; simpl. by rewrite !app_nil_r, <-app_assoc.
Qed.

Lemma runFrame_eq ed d :
  Forall (λ s, s.(animationFrames) = []) d.(heap) →
  runFrame ed d
    = ({| elements := d.(elements); heap := d.(heap); editors := d.(editors); timers := [];
          mounted := d.(mounted) |},
       pinchEnds d d.(timers)).
Proof. intros Hh. unfold runFrame. by rewrite callbacks_run. Qed.

(** ** Every action keeps the page in order *)

Lemma dispatchEvent_neat el ed i d : neat d → neat (dispatchEvent el ed i d).1.
Proof.
  intros Hd. destruct (decide (isFrame i)) as [Hi|Hi]; [by destruct i|].
  destruct d.(mounted) as [[el' id]|] eqn:Hm.
  - destruct (decide (el = el')) as [->|Hne].
    + rewrite (dispatchEvent_container el' id) by done. by apply invoke_neat.
    + rewrite dispatchEvent_elsewhere; [done..|].
      unfold registered. by rewrite Hm, decide_False.
  - rewrite dispatchEvent_elsewhere; [done..|]. unfold registered. by rewrite Hm.
Qed.

Lemma pageAct_neat (a : PageAction N) d : neat d → neat (pageAct a d).1.
Proof.
  intros Hd. destruct a as [deps| |el ed i|ed]; simpl.
  - apply mount_neat; [by apply dismount_neat|apply dismount_mounted].
  - by apply dismount_neat.
  - by apply dispatchEvent_neat.
  - rewrite runFrame_eq by apply Hd. by destruct Hd.
Qed.

Lemma pageAll_app (acts1 acts2 : list (PageAction N)) d :
  pageAll (acts1 ++ acts2) d
  = ((pageAll acts2 (pageAll acts1 d).1).1, (pageAll acts1 d).2 ++ (pageAll acts2 (pageAll acts1 d).1).2).
Proof.
  revert d. induction acts1 as [|a acts1 IH]; intros d; simpl; [by destruct (pageAll acts2 d)|].
  rewrite IH. simpl. by rewrite app_assoc.
Qed.

Lemma pageAll_neat (acts : list (PageAction N)) d : neat d → neat (pageAll acts d).1.
Proof.
  revert d. induction acts as [|a acts IH]; intros d Hd; [done|].
  by apply IH, pageAct_neat.
Qed.

(** C21. The invariant of the page.  Through any renders, unmounts, events
    on any element and animation frames, the listeners registered on an
    element are the five functions of the effect in place when the element
    is its container, in the order of the source, and none otherwise: the
    cleanup removes exactly what the effect has registered, so that no
    function of an earlier effect is ever called and every event runs one
    function at most; the container of the effect in place has the two
    styles; and every callback that waits belongs to an effect that has
    run. *)
Theorem page_invariant (acts : list (PageAction N)) :
  let d := (pageAll acts emptyPage).1 in
  neat d
  ∧ ∀ el t, length (filter (λ l, l.(l_type) = t) (elementAt el d).(el_listeners)) ≤ 1.
Proof.
  intros d. assert (neat d) as Hd by apply pageAll_neat, neat_emptyPage.
  split; [done|]. intros el t. rewrite (neat_listeners d Hd). unfold registered.
  destruct d.(mounted) as [[el' id]|]; [|simpl; lia].
  case_decide; [|simpl; lia]. by destruct t; vm_compute; lia.
Qed.

(** C26. The frames come to an end.  The callbacks of the hook change no
    variable and hand no callback to [requestAnimationFrame]: on a page
    the hook has been running on, the loop of the frames stops after one
    frame at most, whatever waits, and that frame runs every callback
    that waits, each on the variables of its effect. *)
Theorem frame_loop_terminates (acts : list (PageAction N)) ed fuel :
  let d := (pageAll acts emptyPage).1 in
  ∃ d', frameLoop (S fuel) ed d = Some (d', pinchEnds d d.(timers))
        ∧ d'.(timers) = [] ∧ d'.(heap) = d.(heap) ∧ d'.(mounted) = d.(mounted).
Proof.
  intros d. assert (neat d) as Hd by apply pageAll_neat, neat_emptyPage.
  simpl. destruct d.(timers) as [|c q] eqn:Hq.
  - by exists d.
  - rewrite runFrame_eq, Hq by apply Hd. simpl. eexists.
    split; [destruct fuel; simpl; by rewrite app_nil_r|done].
Qed.

End page_facts.
