(* ===== verification/PageWorld.v ===== *)
(** * PageWorld: the page refines the world of [Lifecycle]

    [Worlds] and [Component] reason over a [World]: one effect is live,
    its listeners are known by their type, and the closures that were
    cleaned up run their callbacks before the live one.  On the page of
    [Page] these are facts to prove: that no function of an earlier effect
    is left on any element, and that the queue of the timers holds the
    callbacks of the earlier effects before those of the effect in place.

    - [stands d w]: the world [w] is what the page [d] looks like to the
      hook.  The queue of the page is cut into the callbacks of the
      closures that were cleaned up, one block for each, and those of the
      effect in place.
    - [toWorld]: what an action of the page is in the world: a render, an
      unmount and a frame are themselves; an event is an input when it is
      dispatched on the container of the effect in place, and nothing
      happens otherwise.
    - [page_refines_world]: the calls are the same, one by one.  With
      [Component] this gives the refinement of the specification by the
      page ([page_refines_spec]). *)

From Stdlib Require Import Floats.
From stdpp Require Import gmap strings.
From S2P Require Import Prelude Number JSMap Events Samples Pinch Handlers System.
From S2P Require Import Gestures Spec Lifecycle FloatLaws Symmetry Simulation Refines.
From S2P Require Import Sessions Worlds Component Page.

Section relation.
Context {N : Type} `{Number N, Host N}.
Implicit Types (d : Page N) (w : World N) (s : State N) (ed : Editor N) (i : Input N)
  (el id : nat) (q : list (FrameCallback N)) (b : nat * list (FrameCallback N)).

(** The callbacks [b.2], as they wait in the queue of the page for the
    effect [b.1]. *)
Definition tagged b : list (nat * FrameCallback N) := pair b.1 <$> b.2.

(** The closure [s] of the world is the effect [b.1] of the page with the
    callbacks [b.2] waiting. *)
Definition kept d b s : Prop :=
  b.2 ≠ [] ∧ ∃ s0, d.(heap) !! b.1 = Some s0 ∧ s = requeue b.2 s0.

Definition stands d w : Prop :=
  ∃ bs q,
    Forall2 (kept d) bs w.(disposed)
    ∧ d.(timers) = (bs ≫= tagged) ++ from_option (λ m, tagged (m.2, q)) [] d.(mounted)
    ∧ match d.(mounted) with
      | Some (el, id) =>
          Forall (λ b, b.1 ≠ id) bs ∧ listening w
          ∧ ∃ s0, d.(heap) !! id = Some s0 ∧ w.(live) = Some (requeue q s0)
      | None => w.(live) = None
      end.

(** The container of a render, for the world: what it holds does not
    matter there. *)
Definition containerOf (e : Element) : Container :=
  {| touchAction := e.(el_touchAction); webkitUserSelect := e.(el_webkitUserSelect);
     listeners := [] |}.

(** The event is dispatched on the container of the effect in place. *)
Definition onContainer el d : bool :=
  if d.(mounted) is Some (el', _) then bool_decide (el = el') else false.

Definition toWorld d (a : PageAction N) : list (Action N) :=
  match a with
  | p_render deps => [render ((λ el, containerOf (elementAt el d)) <$> deps.(dep_container))]
  | p_unmount => [unmount]
  | p_event el ed i =>
      if onContainer el d && bool_decide (¬ isFrame i) then [input ed i] else []
  | p_frame ed => [input ed animationFrame]
  end.

Fixpoint toWorlds d (acts : list (PageAction N)) : list (Action N) :=
  match acts with
  | [] => []
  | a :: acts' => toWorld d a ++ toWorlds (pageAct a d).1 acts'
  end.

End relation.

(** ** One action of the page, and the world *)

Section simulation.
Context {N : Type} `{Number N, Host N}.
Implicit Types (d : Page N) (w : World N) (s : State N) (ed : Editor N) (i : Input N)
  (el id : nat) (q : list (FrameCallback N)) (b : nat * list (FrameCallback N))
  (bs : list (nat * list (FrameCallback N))).

Lemma stands_emptyPage : stands (N := N) emptyPage unmounted.
Proof. exists [], []. by split_and!. Qed.

(** What is kept depends on the variables of the effects alone, and stays
    kept while they are not assigned. *)
Lemma kept_heap d d' bs l :
  (∀ b s0, b ∈ bs → d.(heap) !! b.1 = Some s0 → d'.(heap) !! b.1 = Some s0) →
  Forall2 (kept d) bs l → Forall2 (kept d') bs l.
Proof.
  intros Hh Hk. induction Hk as [|b s bs l [Hq (s0 & Hs0 & ->)] _ IH]; constructor.
  - split; [done|]. exists s0. split; [|done]. apply Hh; [by left|done].
  - apply IH. intros b' s' ?. apply Hh. by right.
Qed.

Lemma kept_lt d bs l : Forall2 (kept d) bs l → Forall (λ b, b.1 < length d.(heap)) bs.
Proof.
  induction 1 as [|b s bs l [_ (s0 & Hs0%lookup_lt_Some & _)] _ IH]; by constructor.
Qed.

Lemma tagged_app id q q' : tagged (id, q ++ q') = tagged (id, q) ++ tagged (id, q').
Proof. unfold tagged; simpl. by rewrite fmap_app. Qed.

Lemma dismount_stands d w : stands d w → stands (dismount d) (cleanup w).
Proof.
  intros (bs & q & Hk & Ht & Hm). unfold dismount, cleanup.
  destruct d.(mounted) as [[el id]|] eqn:Hmd.
  - destruct Hm as (Hne & (c & -> & _) & s0 & Hs0 & ->). simpl in *.
    exists (bs ++ if q is [] then [] else [(id, q)]), [].
    split_and!; simpl; [|rewrite Ht; destruct q|done].
    + apply Forall2_app; [done|]. destruct q; [done|]. by repeat econstructor.
    + by rewrite !app_nil_r.
    + by rewrite bind_app, bind_singleton, app_nil_r.
  - rewrite Hm. exists bs, q. rewrite Hmd. by destruct w.(container).
Qed.

Lemma mount_stands (f : nat → Container) deps d w :
  stands d w → d.(mounted) = None →
  stands (mount deps d) (effect (f <$> deps.(dep_container)) w).
Proof.
  intros (bs & q & Hk & Ht & Hm) Hmd. rewrite Hmd in Ht, Hm. simpl in Ht.
  unfold mount. destruct deps.(dep_container) as [el|]; simpl; exists bs, [];
    split_and!; simpl; try done; try split_and!.
  - eapply kept_heap; [|done]. intros b s0 _ Hs0. by apply lookup_app_l_Some.
  - eapply Forall_impl; [by eapply kept_lt|]. simpl. lia.
  - apply (effect_listening _ w).
  - exists initialState. by rewrite list_lookup_middle.
Qed.

Lemma untagged (id : nat) (ws : list (Effect N)) : (pair id <$> ws).*2 = ws.
Proof. rewrite <-list_fmap_compose. apply list_fmap_id. Qed.

(** An event on the container: the function of the effect in place runs,
    as the listener of the world does. *)
Lemma event_stands el id ed i d w :
  Forall (λ s, s.(animationFrames) = []) d.(heap) → stands d w → d.(mounted) = Some (el, id) → ¬ isFrame i →
  stands (invoke id (listener i) ed d).1 (deliver ed i w).1
  ∧ (invoke id (listener i) ed d).2.*2 = (deliver ed i w).2.
Proof.
  intros Hd (bs & q & Hk & Ht & Hm) Hmd Hi. rewrite Hmd in Ht, Hm.
  destruct Hm as (Hne & (c & Hc & Hl) & s0 & Hs0 & Hw). unfold invoke. rewrite Hs0.
  destruct w as [oc ol dis]; simplify_eq/=. rewrite deliver_event by done.
  pose proof (Forall_lookup_1 _ _ _ _ Hd Hs0) as Hq0. simpl in Hq0.
  destruct (next_requeue ed i s0 q Hi Hq0) as [-> ->].
  split; [|apply untagged]. exists bs, (q ++ (next ed i s0).(animationFrames)).
  simpl. rewrite Hmd. simpl. split_and!.
  - eapply kept_heap; [|done]. simpl. intros b s1 Hb Hs1.
    rewrite list_lookup_insert_ne; [done|]. intros ->.
    by apply (proj1 (Forall_forall _ _) Hne b).
  - by rewrite Ht, tagged_app, app_assoc.
  - done.
  - by exists c.
  - eexists. split; [apply list_lookup_insert_eq; by eapply lookup_lt_Some|done].
Qed.

Lemma pinchEnds_app d (q1 q2 : list (nat * FrameCallback N)) :
  pinchEnds d (q1 ++ q2) = pinchEnds d q1 ++ pinchEnds d q2.
Proof. apply bind_app. Qed.

Lemma pinchEnds_tagged ed d b s0 :
  d.(heap) !! b.1 = Some s0 →
  (pinchEnds d (tagged b)).*2 = emitted ed animationFrame (requeue b.2 s0).
Proof.
  intros Hs0. rewrite (proj1 (frame_emitted ed _)). destruct b as [id q]; simpl in *.
  unfold pinchEnds, tagged; simpl. induction q as [|cb q IH]; [done|].
  simpl. rewrite Hs0. simpl. by f_equal.
Qed.

Lemma pinchEnds_kept ed d bs l :
  Forall2 (kept d) bs l →
  (pinchEnds d (bs ≫= tagged)).*2 = concat (emitted ed animationFrame <$> l).
Proof.
  induction 1 as [|b s bs l [_ (s0 & Hs0 & ->)] _ IH]; [done|].
  rewrite bind_cons, pinchEnds_app, fmap_app, IH. simpl. f_equal.
  by apply pinchEnds_tagged.
Qed.

(** A frame: the queue of the page runs in the order in which the world
    runs its closures. *)
Lemma frame_stands ed d w :
  Forall (λ s, s.(animationFrames) = []) d.(heap) → stands d w →
  stands (runFrame ed d).1 (deliver ed animationFrame w).1
  ∧ (runFrame ed d).2.*2 = (deliver ed animationFrame w).2.
Proof.
  intros Hd (bs & q & Hk & Ht & Hm). rewrite runFrame_eq by done. unfold deliver; simpl.
  rewrite Ht, pinchEnds_app, fmap_app, (pinchEnds_kept ed d bs _ Hk). split.
  - exists [], []. split_and!; simpl; [constructor|by destruct d.(mounted)|].
    destruct d.(mounted) as [[el id]|]; [|by rewrite Hm].
    destruct Hm as (_ & (c & Hc & Hl) & s0 & Hs0 & ->). split_and!; [done|by exists c|].
    exists s0. split; [done|]. simpl. f_equal.
    by destruct (step_next _ _ _ _ _ (step_frame ed (requeue q s0))) as [<- _].
  - f_equal. destruct d.(mounted) as [[el id]|]; simpl; [|by rewrite Hm].
    destruct Hm as (_ & _ & s0 & Hs0 & ->). simpl.
    by apply (pinchEnds_tagged ed d (id, q)).
Qed.

Lemma onContainer_true el d :
  onContainer el d = true → ∃ id, d.(mounted) = Some (el, id).
Proof.
  unfold onContainer. destruct d.(mounted) as [[el' id]|]; [|done].
  intros ->%bool_decide_eq_true. by exists id.
Qed.

Lemma onContainer_false el d : onContainer el d = false → registered el d = [].
Proof.
  unfold onContainer, registered. destruct d.(mounted) as [[el' id]|]; [|done].
  intros ?%bool_decide_eq_false. by rewrite decide_False.
Qed.

Lemma pageAct_simulation (a : PageAction N) d w :
  neat d → stands d w →
  stands (pageAct a d).1 (actAll (toWorld d a) w).1
  ∧ (pageAct a d).2.*2 = (actAll (toWorld d a) w).2.
Proof.
  intros Hd Hw. destruct a as [deps| |el ed i|ed]; simpl; rewrite ?app_nil_r.
  - split; [|done]. apply mount_stands; [by apply dismount_stands|apply dismount_mounted].
  - split; [|done]. by apply dismount_stands.
  - destruct (onContainer el d) eqn:Hel; simpl.
    + destruct (onContainer_true el d Hel) as [id Hm]. case_bool_decide as Hi; simpl.
      * rewrite (dispatchEvent_container el id), app_nil_r by done.
        apply (event_stands el); by try apply Hd.
      * unfold dispatchEvent. by destruct i; try (by destruct Hi).
    + by rewrite dispatchEvent_elsewhere by (done || by apply onContainer_false).
  - apply frame_stands; by try apply Hd.
Qed.

Lemma pageAll_simulation (acts : list (PageAction N)) d w :
  neat d → stands d w →
  stands (pageAll acts d).1 (actAll (toWorlds d acts) w).1
  ∧ (pageAll acts d).2.*2 = (actAll (toWorlds d acts) w).2.
Proof.
  revert d w. induction acts as [|a acts IH]; intros d w Hd Hw; [done|].
  cbn [pageAll toWorlds fst snd]. rewrite actAll_app. cbn [fst snd].
  destruct (pageAct_simulation a d w Hd Hw) as [Hw' <-].
  destruct (IH _ _ (pageAct_neat a d Hd) Hw') as [? <-]. by rewrite fmap_app.
Qed.

(** C8. The page refines the world.  Whatever renders, unmounts, events on
    any element and animation frames happen on the page, the functions the
    hook has registered make, call by call, the calls of the world of
    [Lifecycle], in which an event on the container reaches the effect in
    place and nothing else reaches anything; and the world stands for the
    page all along: its closures are the effects whose callbacks wait,
    and the queue of the timers holds them in the order of the world. *)
Theorem page_refines_world (acts : list (PageAction N)) :
  (pageAll acts emptyPage).2.*2 = (actAll (toWorlds emptyPage acts) unmounted).2
  ∧ stands (pageAll acts emptyPage).1 (actAll (toWorlds emptyPage acts) unmounted).1.
Proof.
  by destruct (pageAll_simulation acts emptyPage unmounted neat_emptyPage stands_emptyPage).
Qed.

End simulation.

(** ** The page and the specification *)

Section specification.
Context {N : Type} `{SymmetricNumber N, Host N}.

(** C5. The page refines the specification.  When the events that reach
    the container follow the protocol while the hook is mounted, and the
    effect is torn down only when no [pinch_end] is deferred, the calls
    made on the page, by the functions registered on its elements, on the
    variables of their effects and through the queue of the timers, are
    exactly the calls of the specification. *)
Theorem page_refines_spec (acts : list (PageAction N)) :
  lifeProtocol (toWorlds emptyPage acts) None →
  (pageAll acts emptyPage).2.*2 = (specActAll (toWorlds emptyPage acts) None).2.
Proof.
  intros Hp.
  destruct (pageAll_simulation acts emptyPage unmounted neat_emptyPage stands_emptyPage)
    as [_ ->].
  by destruct (actAll_simulation _ unmounted None matches_unmounted Hp) as [_ ->].
Qed.

End specification.

(** ** On JavaScript numbers *)

Local Open Scope float_scope.

(** The pinch calls among the calls of the page, each with the editor it
    is made on. *)
Definition pinchCalls (ws : list (nat * Effect float)) : list (nat * TLPinchEventName) :=
  ws ≫= λ c, pair c.1 <$> pinchNames [c.2].

(** The hook of editor 1 mounts on element 7.  A pinch on it zooms out and
    ends; a finger lands on another element.  The container becomes
    element 8 and the editor editor 2; a pinch there hands over to a third
    finger, while a finger lands on the old container.  Then the component
    unmounts and a frame passes. *)
Definition visit : list (PageAction float) :=
  [p_render {| dep_editor := 1; dep_container := Some 7%nat |}]
  ++ (on 7 <$> pinchOut)
  ++ [p_event 9 (editorAt 1 1) (pointerdown (finger 5 0 0));
      p_render {| dep_editor := 2; dep_container := Some 8%nat |}]
  ++ (on 8 <$> handover)
  ++ [p_event 7 (editorAt 1 1) (pointerdown (finger 6 0 0));
      p_unmount;
      p_frame (editorAt 1 1)].

Lemma page_refines_spec_witness :
  (pageAll visit emptyPage).2.*2 = (specActAll (toWorlds emptyPage visit) None).2.
Proof.
  apply (page_refines_spec visit).
  by apply (bool_decide_unpack _); vm_compute.
Defined.

(** The calls of the visit go to the editor of the render that was in
    place: those of the first pinch to editor 1, those of the second to
    editor 2; and the elements end without a listener. *)
Example visit_editors :
  pinchCalls (pageAll visit emptyPage).2
    = [(1, pinch_start); (1, pinch); (1, pinch_end);
       (2, pinch_start); (2, pinch); (2, pinch); (2, pinch_end)]%nat
  ∧ (elementAt 7 (pageAll visit emptyPage).1).(el_listeners) = []
  ∧ (elementAt 8 (pageAll visit emptyPage).1).(el_listeners) = [].
Proof. by vm_compute. Qed.

(** The styles outlive the hook: after the visit both elements that were
    its container still have [touch-action: none]. *)
Example styles_outlive_the_hook :
  (pageAll visit emptyPage).1.(mounted) = None
  ∧ (elementAt 7 (pageAll visit emptyPage).1).(el_touchAction) = "none"
  ∧ (elementAt 8 (pageAll visit emptyPage).1).(el_webkitUserSelect) = "none"
  ∧ (elementAt 9 (pageAll visit emptyPage).1).(el_touchAction) = EmptyString.
Proof. by vm_compute. Qed.

(** A pinch is released, and before the frame the hook is rendered with
    another editor.  The [pinch_end] of the frame reads the variables of
    the effect that is gone and is dispatched to editor 1, which the hook
    was given up; editor 2 sees nothing of it. *)
Definition swapped : list (PageAction float) :=
  [p_render {| dep_editor := 1; dep_container := Some 7%nat |};
   p_event 7 (editorAt 1 1) (pointerdown (finger 1 0 0));
   p_event 7 (editorAt 1 1) (pointerdown (finger 2 100 0));
   p_event 7 (editorAt 1 1) (pointermove (finger 2 150 0));
   p_event 7 (editorAt 1 1) (pointerup (finger 2 150 0));
   p_render {| dep_editor := 2; dep_container := Some 7%nat |};
   p_frame (editorAt 1 1)].

Example stale_end_reaches_the_old_editor :
  pinchCalls (pageAll swapped emptyPage).2
    = [(1, pinch_start); (1, pinch); (1, pinch_end)]%nat
  ∧ (pageAll swapped emptyPage).1.(mounted) = Some (7, 1)%nat
  ∧ editorOf 1 (pageAll swapped emptyPage).1 = 2%nat
  ∧ (elementAt 7 (pageAll swapped emptyPage).1).(el_listeners) = handlers 1.
Proof. by vm_compute. Qed.
