(* ===== verification/Journey.v ===== *)
(** * Journey: the hook on the page, from the first render to the unmount

    [PageWorld] relates the page to the specification through the world
    of [Lifecycle], for any order of renders, events and frames, along a
    protocol.  This file puts the whole together for what a user does,
    with nothing assumed of the order but that.

    - A [Stay] is the time the hook spends on one container with one
      editor: the render that puts it there, and the gestures of the user
      on the container ([Natural]).  A [journey] is a sequence of stays,
      each ended by the render of the next, and the unmount.
    - During a stay the page runs the transition system of [System]
      ([inPlace], [on_inPlace], [stay_runs]): the variables of the effect
      in place and its callbacks in the queue of the page are the state of
      the hook, and every call goes to the editor of the stay.
    - Between two stays nothing waits ([resting]).
    - [journey_refines_spec]: the calls of a journey are, stay by stay,
      the calls of the machine of the specification from its initial
      state, each made on the editor of its stay; at the end nothing of
      the hook is left on the page but the styles. *)

From Stdlib Require Import Floats.
From stdpp Require Import gmap strings.
From S2P Require Import Prelude Number JSMap Events Samples Pinch Handlers System.
From S2P Require Import Gestures Spec Lifecycle FloatLaws Symmetry Simulation Refines.
From S2P Require Import Sessions Natural Page.

(** The hook on the container [stay_container] with the editor
    [stay_editor], and what the user does there. *)
Record Stay (N : Type) := {
  stay_editor : nat;
  stay_container : nat;
  stay_gestures : list (Gesture N);
}.
Arguments stay_editor {N}.
Arguments stay_container {N}.
Arguments stay_gestures {N}.

Section stays.
Context {N : Type} `{Number N, Host N}.
Implicit Types (d : Page N) (s : State N) (ed : Editor N) (i : Input N) (el id k : nat)
  (st : Stay N) (sts : list (Stay N)) (evs : list (Editor N * Input N)).

Definition stayInputs st : list (Editor N * Input N) := st.(stay_gestures) ≫= inputs.

(** The render that starts the stay, and the inputs of the user on the
    container. *)
Definition stayActs st : list (PageAction N) :=
  p_render {| dep_editor := st.(stay_editor); dep_container := Some st.(stay_container) |}
  :: (on st.(stay_container) <$> stayInputs st).

Definition journey sts : list (PageAction N) := (sts ≫= stayActs) ++ [p_unmount].

(** The effect [id] is in place on the element [el], its functions call
    the editor [k], and the state of the hook is [s]: the variables of the
    effect are those of [s], and the callbacks of [s] are the queue of the
    page. *)
Record inPlace el id k s d : Prop := {
  inPlace_neat : neat d;
  inPlace_mounted : d.(mounted) = Some (el, id);
  inPlace_editor : editorOf id d = k;
  inPlace_editors : length d.(editors) = length d.(heap);
  inPlace_variables : d.(heap) !! id = Some (requeue [] s);
  inPlace_timers : d.(timers) = pair id <$> s.(animationFrames);
}.

(** No effect is in place or none of its callbacks waits, and no other
    callback waits. *)
Record resting d : Prop := {
  resting_neat : neat d;
  resting_timers : d.(timers) = [];
  resting_editors : length d.(editors) = length d.(heap);
}.

End stays.

Section stay_facts.
Context {N : Type} `{Number N, Host N}.
Implicit Types (d : Page N) (s : State N) (ed : Editor N) (i : Input N) (el id k : nat)
  (st : Stay N) (sts : list (Stay N)) (evs : list (Editor N * Input N)).

Lemma resting_emptyPage : resting (N := N) emptyPage.
Proof. split; [apply neat_emptyPage|done..]. Qed.

Lemma requeue_frames s : requeue s.(animationFrames) (requeue [] s) = s.
Proof. by destruct s. Qed.

(** The cleanup leaves a page that rests at rest. *)
Lemma dismount_resting d : resting d → resting (dismount d).
Proof.
  intros [Hd Ht He]. split; [by apply dismount_neat|..];
    unfold dismount; by destruct d.(mounted) as [[??]|].
Qed.

(** The effect puts itself in place, with the initial variables. *)
Lemma mount_inPlace k el d :
  resting d → d.(mounted) = None →
  inPlace el (length d.(heap)) k initialState
    (mount {| dep_editor := k; dep_container := Some el |} d).
Proof.
  intros [Hd Ht He] Hm. split; [by apply mount_neat|unfold mount, editorOf; simpl..].
  - done.
  - by rewrite <-He, list_lookup_middle.
  - rewrite !length_app. simpl. lia.
  - by rewrite list_lookup_middle.
  - done.
Qed.

(** When no callback of the effect in place waits, the page rests. *)
Lemma inPlace_resting el id k s d :
  inPlace el id k s d → s.(animationFrames) = [] → resting d.
Proof. intros [Hd _ _ He _ Ht] Hq. split; [done| |done]. by rewrite Ht, Hq. Qed.

(** The frame dispatches what the callbacks of the effect in place
    dispatch in [System]. *)
Lemma pinchEnds_inPlace id s d (q : list (FrameCallback N)) :
  d.(heap) !! id = Some (requeue [] s) →
  pinchEnds d (pair id <$> q) = pair (editorOf id d) <$> ((λ cb, pinchEnd cb s) <$> q).
Proof.
  intros Hs. unfold pinchEnds. induction q as [|cb q IH]; [done|].
  rewrite fmap_cons, bind_cons, IH. simpl. by rewrite Hs.
Qed.

(** One input of the user on the container is one step of the hook. *)
Lemma on_inPlace el id k ed i s d :
  inPlace el id k s d →
  inPlace el id k (next ed i s) (pageAct (on el (ed, i)) d).1
  ∧ (pageAct (on el (ed, i)) d).2 = pair k <$> emitted ed i s.
Proof.
  intros [Hd Hm Hk He Hs Ht]. pose proof (pageAct_neat (on el (ed, i)) d Hd) as Hd'.
  destruct (decide (isFrame i)) as [Hi|Hi].
  - destruct i; try done. cbn [on snd fst pageAct] in *. rewrite runFrame_eq in * by apply Hd.
    destruct (step_next _ _ _ _ _ (step_frame ed s)) as [<- <-]. simpl.
    split; [by split|]. by rewrite Ht, (pinchEnds_inPlace id s), Hk.
  - assert (pageAct (on el (ed, i)) d = invoke id (listener i) ed d) as Hon.
    { destruct i; try (by destruct Hi); by apply dispatchEvent_container. }
    rewrite Hon in *. clear Hon. unfold invoke in *. rewrite Hs in *.
    destruct (next_requeue ed i (requeue [] s) s.(animationFrames) Hi eq_refl) as [Hn Hw].
    rewrite requeue_frames in Hn, Hw. fold (next ed i (requeue [] s)) in *.
    fold (emitted ed i (requeue [] s)) in *. rewrite Hw, Hk. split; [|done].
    split; simpl; try done.
    + by rewrite length_insert.
    + rewrite list_lookup_insert_eq by (by eapply lookup_lt_Some). by rewrite Hn.
    + rewrite Ht, Hn. simpl. by rewrite fmap_app.
Qed.

(** The inputs of a stay are a run of the hook. *)
Lemma stay_runs el id k evs s d :
  inPlace el id k s d →
  inPlace el id k (run evs s) (pageAll (on el <$> evs) d).1
  ∧ (pageAll (on el <$> evs) d).2 = pair k <$> trace evs s.
Proof.
  revert s d. induction evs as [|[ed i] evs IH]; intros s d Hd; [done|].
  cbn [fmap list_fmap pageAll run trace fst snd].
  destruct (on_inPlace el id k ed i s d Hd) as [Hd' ->].
  destruct (IH _ _ Hd') as [? ->]. by rewrite fmap_app.
Qed.

End stay_facts.

(** ** The journey and the specification *)

Section journeys.
Context {N : Type} `{SymmetricNumber N, Host N}.
Implicit Types (d : Page N) (st : Stay N) (sts : list (Stay N)).

(** What the specification calls over the stays: for each the calls of
    its machine from the initial state, on the editor of the stay. *)
Definition expected sts : list (nat * Effect N) :=
  sts ≫= λ st, pair st.(stay_editor) <$> specTrace (stayInputs st) Spec.init.

(** A stay of gestures, from a page that rests to a page that rests. *)
Lemma stay_refines st d :
  resting d → Forall fine st.(stay_gestures) →
  resting (pageAll (stayActs st) d).1
  ∧ (pageAll (stayActs st) d).2
    = pair st.(stay_editor) <$> specTrace (stayInputs st) Spec.init.
Proof.
  intros Hd [Hp Hr]%gestures_protocol. fold (stayInputs st) in Hp, Hr.
  unfold stayActs. cbn [pageAll pageAct fst snd app].
  destruct (stay_runs _ _ _ (stayInputs st) _ _
              (mount_inPlace st.(stay_editor) st.(stay_container) _
                 (dismount_resting d Hd) (dismount_mounted d))) as [Hin ->].
  destruct (run_simulation _ initialState None good_init Hp) as (-> & cd & Habs & _).
  split; [|done]. apply (inPlace_resting _ _ _ _ _ Hin).
  change (abs None initialState) with (Spec.init (N := N)) in Habs. rewrite Hr in Habs.
  apply (f_equal Spec.deferred) in Habs. simpl in Habs. symmetry in Habs.
  by apply fmap_nil_inv in Habs.
Qed.

Lemma stays_refine sts d :
  resting d → Forall (λ st, Forall fine st.(stay_gestures)) sts →
  resting (pageAll (sts ≫= stayActs) d).1
  ∧ (pageAll (sts ≫= stayActs) d).2 = expected sts.
Proof.
  intros Hd Hs. revert d Hd. induction Hs as [|st sts Hst _ IH]; intros d Hd; [done|].
  unfold expected. rewrite !bind_cons, pageAll_app. cbn [fst snd].
  destruct (stay_refines st d Hd Hst) as [Hd' ->]. by destruct (IH _ Hd') as [? ->].
Qed.

(** C1. The journey of the hook on the page.  The component is rendered
    on a container with an editor; the user makes gestures on the
    container (frames pass, the wheel turns, a finger taps, two fingers
    pinch); the component is rendered again, with another editor or
    another container, whenever the fingers are up and the frame has
    come; in the end it unmounts.  Whatever the gestures are, the calls
    made on the page are, stay by stay and call by call, the calls of the
    machine of the specification from its initial state, each made on the
    editor of the stay in which the gesture happens; and when the journey
    ends the hook is not mounted, no callback waits, and no element has a
    listener. *)
Theorem journey_refines_spec sts :
  Forall (λ st, Forall fine st.(stay_gestures)) sts →
  let r := pageAll (journey sts) emptyPage in
  r.2 = expected sts
  ∧ r.1.(mounted) = None ∧ r.1.(timers) = []
  ∧ ∀ el, (elementAt el r.1).(el_listeners) = [].
Proof.
  intros Hs r. subst r. unfold journey. rewrite pageAll_app. cbn [fst snd pageAll pageAct].
  destruct (stays_refine sts emptyPage resting_emptyPage Hs) as [[Hd Ht _] ->].
  rewrite app_nil_r. pose proof (dismount_neat _ Hd) as [Hl _ _ _ _].
  assert ((dismount (pageAll (sts ≫= stayActs) emptyPage).1).(timers) = []) as Ht'.
  { unfold dismount. by destruct (mounted _) as [[??]|]. }
  split_and!; [done|apply dismount_mounted|done|].
  intros el. rewrite Hl. unfold registered. by rewrite dismount_mounted.
Qed.

End journeys.

(** ** On JavaScript numbers *)

Local Open Scope float_scope.

(** The hook of editor 1 stays on element 7 for a tap and a pinch, then
    the hook of editor 2 on element 8 for the wheel and a pinch. *)
Definition twoStays : list (Stay float) :=
  [{| stay_editor := 1; stay_container := 7; stay_gestures := afternoon |};
   {| stay_editor := 2; stay_container := 8;
      stay_gestures :=
        [g_wheel (editorAt 1 1) (wheelAt 5 5 0 3);
         g_pinch (editorAt 1 1) (editorAt 1 1) (finger 3 0 0) (finger 4 0 100)
           [(editorAt 1 1, pointermove (finger 4 0 180))]
           (editorAt 1 1) (pointerup (finger 3 0 0)) (editorAt 1 1)
           [(editorAt 1 1, pointerup (finger 4 0 180))]] |}].

Lemma journey_refines_spec_witness :
  (pageAll (journey twoStays) emptyPage).2 = expected twoStays.
Proof.
  refine (proj1 (journey_refines_spec twoStays _)).
  by apply (bool_decide_unpack _); vm_compute.
Defined.

Example twoStays_calls :
  ((λ c, (c.1, pinchNames [c.2])) <$> (pageAll (journey twoStays) emptyPage).2)
  = [(1, []); (1, []); (1, []); (1, [pinch_start]); (1, [pinch]); (1, [pinch_end]);
     (2, []); (2, []); (2, []); (2, [pinch_start]); (2, [pinch]); (2, [pinch_end])]%nat.
Proof. by vm_compute. Qed.
