(* ===== verification/Site.v ===== *)
(** * Site: several editors on one page, and events that bubble

    [Page] is the page of one component.  An application may render
    several editors, each with its own container, side by side or one
    inside another; every one of them calls the hook, and the browser
    dispatches an event on the element under the pointer and then on its
    ancestors, until a listener stops it.  The hooks share the page: the
    elements, with the listeners in the order in which they were
    registered, and the queue of [requestAnimationFrame].

    - [Site]: the page, and for every component the cleanup React holds
      for it ([hooks]).  A component is known by the identity of its
      editor.
    - [unmountAt] and [mountAt] run [Page.dismount] and [Page.mount] for
      one component; a render is the one after the other.
    - [dispatchAt] runs the listeners of one element, each with the editor
      of its effect; [dispatchPath] follows the event from its target up
      through the ancestors, and stops after the element on which a
      listener has called [stopEventPropagation] ([stopped]).
    - [frames] runs the callbacks that wait.
    - [orderly] is the invariant: the listeners on an element are the
      functions of the effects in place on it, five for each, in the order
      in which the effects ran ([site_invariant]).
    - [prevented]: a listener has called [preventDefault], so the
      default action of the event does not happen.
    - [reach] is how far an event gets: a pointer event reaches every
      ancestor, a wheel event stops at the first element with an editor
      that handles it ([wheel_stops_at_the_handling_editor]). *)

From Stdlib Require Import Floats.
From stdpp Require Import gmap strings.
From S2P Require Import Prelude Number JSMap Events Samples Pinch Handlers System Gestures.
From S2P Require Import Lifecycle Page.

Record Site (N : Type) := {
  page : Page N;
  hooks : gmap nat (nat * nat);   (* component ↦ container and effect of its cleanup *)
}.
Arguments page {N}.
Arguments hooks {N}.

(** What happens on the site.  An event comes with its path, the target
    first and then its ancestors; every editor answers for itself. *)
Inductive SiteAction (N : Type) :=
| s_render (k : nat) (container : option nat)   (* the component of editor [k] renders *)
| s_unmount (k : nat)
| s_event (path : list nat) (eds : nat → Editor N) (i : Input N)
| s_frame (eds : nat → Editor N).
Arguments s_render {N}.
Arguments s_unmount {N}.
Arguments s_event {N}.
Arguments s_frame {N}.

Section site.
Context {N : Type} `{Number N, Host N}.
Implicit Types (site : Site N) (d : Page N) (s : State N) (i : Input N)
  (eds : nat → Editor N) (el id k : nat) (path : list nat) (ws : list (nat * Effect N)).

Definition emptySite : Site N := {| page := emptyPage; hooks := ∅ |}.

Definition with_page d site : Site N := {| page := d; hooks := site.(hooks) |}.

(** ** The components *)

(** The page as the component [k] has it: React holds its cleanup. *)
Definition focus k site : Page N := set_mounted (site.(hooks) !! k) site.(page).

(** React keeps what the effect of the component [k] has returned. *)
Definition store k d site : Site N :=
  {| page := set_mounted None d;
     hooks := partial_alter (λ _, d.(mounted)) k site.(hooks) |}.

(** The component [k] unmounts, or its dependencies change: React calls
    the cleanup it holds for it. *)
Definition unmountAt k site : Site N := store k (dismount (focus k site)) site.

(** The effect of the component [k] runs, with its editor and the
    container of the render. *)
Definition mountAt k (container : option nat) site : Site N :=
  store k (mount {| dep_editor := k; dep_container := container |} (focus k site)) site.

(** ** Events *)

(** The listeners of the element [el] for the event run, in the order in
    which they were registered, each with the editor of its effect. *)
Definition dispatchAt el eds i d : Page N * list (nat * Effect N) :=
  match typeOf i with
  | None => (d, [])
  | Some t =>
      foldl (λ r l, andThen (λ d', invoke l.(l_effect) (call l.(l_handler) i)
                                     (eds (editorOf l.(l_effect) d')) d') r) (d, [])
        (filter (λ l, l.(l_type) = t) (elementAt el d).(el_listeners))
  end.

(** A listener has called [stopEventPropagation]. *)
Definition stopped ws : bool :=
  existsb (λ c, if c.2 is StopEventPropagation then true else false) ws.

(** A listener has called [preventDefault].  The hook registers every
    listener with [passive: false], so the browser takes the call: the
    default action of the event, scrolling for a wheel event, does not
    happen. *)
Definition prevented ws : bool :=
  existsb (λ c, if c.2 is PreventDefault then true else false) ws.

(** The event bubbles: after the listeners of an element have run it goes
    on to the next element of the path, unless one of them has stopped
    it. *)
Fixpoint dispatchPath path eds i d : Page N * list (nat * Effect N) :=
  match path with
  | [] => (d, [])
  | el :: path' =>
      let r := dispatchAt el eds i d in
      if stopped r.2 then r
      else let r' := dispatchPath path' eds i r.1 in (r'.1, r.2 ++ r'.2)
  end.

(** The elements of the path on which the listeners run. *)
Fixpoint reach path eds i d : list nat :=
  match path with
  | [] => []
  | el :: path' =>
      let r := dispatchAt el eds i d in
      el :: if stopped r.2 then [] else reach path' eds i r.1
  end.

(** An animation frame: the callbacks that wait run in the order of the
    requests. *)
Definition frames eds d : Page N * list (nat * Effect N) :=
  foldl (λ r c, andThen (λ d', invoke c.1 (pinchEndCallback c.2) (eds (editorOf c.1 d')) d') r)
    ({| elements := d.(elements); heap := d.(heap); editors := d.(editors); timers := [];
        mounted := d.(mounted) |}, [])
    d.(timers).

Definition siteAct (a : SiteAction N) site : Site N * list (nat * Effect N) :=
  match a with
  | s_render k container => (mountAt k container (unmountAt k site), [])
  | s_unmount k => (unmountAt k site, [])
  | s_event path eds i =>
      let r := dispatchPath path eds i site.(page) in (with_page r.1 site, r.2)
  | s_frame eds => let r := frames eds site.(page) in (with_page r.1 site, r.2)
  end.

Fixpoint siteAll (acts : list (SiteAction N)) site : Site N * list (nat * Effect N) :=
  match acts with
  | [] => (site, [])
  | a :: acts' =>
      let r := siteAct a site in
      let r' := siteAll acts' r.1 in
      (r'.1, r.2 ++ r'.2)
  end.

(** ** The invariant of the site *)

(** The effect [id] is in place on the element [el]: the component of
    its editor holds its cleanup. *)
Definition liveAt site el id : Prop :=
  site.(hooks) !! editorOf id site.(page) = Some (el, id).

#[export] Instance liveAt_dec site el id : Decision (liveAt site el id).
Proof. unfold liveAt. apply _. Defined.

(** The effects in place on the element [el], in the order in which they
    ran. *)
Definition liveOn el site : list nat :=
  filter (liveAt site el) (seq 0 (length site.(page).(heap))).

Record orderly site : Prop := {
  orderly_listeners el :
    (elementAt el site.(page)).(el_listeners) = liveOn el site ≫= handlers;
  orderly_hooks k el id :
    site.(hooks) !! k = Some (el, id) → site.(page).(editors) !! id = Some k;
  orderly_styles k el id :
    site.(hooks) !! k = Some (el, id) →
    (elementAt el site.(page)).(el_touchAction) = "none"
    ∧ (elementAt el site.(page)).(el_webkitUserSelect) = "none";
  orderly_editors : length site.(page).(editors) = length site.(page).(heap);
  orderly_heap : Forall (λ s, s.(animationFrames) = []) site.(page).(heap);
  orderly_timers : Forall (λ c, c.1 < length site.(page).(heap)) site.(page).(timers);
  orderly_mounted : site.(page).(mounted) = None;
}.

(** The editor [ed] handles the event of the input: a wheel event, when
    it has the focus and the event does not scroll the shape that is
    edited. *)
Definition handles (ed : Editor N) i : bool :=
  match i with
  | wheel _ => ed.(isFocused) && negb (scrollsEditingShape ed)
  | _ => false
  end.

(** The editors of the effects in place on the element [el]. *)
Definition editorsOn el site : list nat := (λ id, editorOf id site.(page)) <$> liveOn el site.

(** An editor in place on the element [el] handles the event. *)
Definition handledOn el eds i site : bool :=
  existsb (λ k, handles (eds k) i) (editorsOn el site).

(** The path up to the first element that satisfies [p], that element
    included. *)
Fixpoint upTo (p : nat → bool) path : list nat :=
  match path with
  | [] => []
  | el :: path' => el :: if p el then [] else upTo p path'
  end.

End site.

(** ** Lists of listeners *)

Section lists.
Context {A : Type}.
Implicit Types (l : list A).

Lemma filter_ext_elem (P Q : A → Prop) `{!∀ x, Decision (P x), !∀ x, Decision (Q x)} l :
  (∀ x, x ∈ l → P x ↔ Q x) → filter P l = filter Q l.
Proof.
  induction l as [|a l IH]; intros HPQ; [done|].
  rewrite !filter_cons, IH by (intros x ?; apply HPQ; by right).
  apply decide_ext, HPQ. by left.
Qed.

Lemma filter_all (P : A → Prop) `{!∀ x, Decision (P x)} l : Forall P l → filter P l = l.
Proof. induction 1; [done|]. rewrite filter_cons_True by done. by f_equal. Qed.

Lemma filter_none (P : A → Prop) `{!∀ x, Decision (P x)} l :
  Forall (λ x, ¬ P x) l → filter P l = [].
Proof. induction 1; [done|]. by rewrite filter_cons_False. Qed.

End lists.

Lemma elem_of_handlers l id : l ∈ handlers id → l.(l_effect) = id.
Proof. unfold handlers. rewrite !elem_of_cons, elem_of_nil. by intros [->|[->|[->|[->|[->|[]]]]]]. Qed.

Lemma elem_of_bind_handlers l ids : l ∈ ids ≫= handlers → l.(l_effect) ∈ ids.
Proof. intros (id & Hl%elem_of_handlers & Hid)%list_elem_of_bind. by subst. Qed.

(** Removing the functions of the effect [id] from the functions of the
    effects [ids] leaves those of the others. *)
Lemma filter_handlers id ids :
  filter (λ l, l ∉ handlers id) (ids ≫= handlers) = filter (λ id', id' ≠ id) ids ≫= handlers.
Proof.
  induction ids as [|id' ids IH]; [done|].
  rewrite bind_cons, filter_app, IH, filter_cons. destruct (decide (id' ≠ id)) as [Hid|Hid].
  - rewrite bind_cons. f_equal. apply filter_all, Forall_forall.
    intros l Hl%elem_of_handlers Hl'%elem_of_handlers. congruence.
  - apply dec_stable in Hid as ->. rewrite filter_none; [done|].
    apply Forall_forall. intros l Hl Hn. by apply Hn.
Qed.

(** One function of every effect is registered for the event of an
    input: the one [listener] names. *)
Lemma filter_type_handlers {N : Type} `{Number N, Host N} (i : Input N) t ids :
  typeOf i = Some t →
  ∃ h, call h i = listener i
       ∧ filter (λ l, l.(l_type) = t) (ids ≫= handlers)
         = (λ id, {| l_type := t; l_handler := h; l_effect := id |}) <$> ids.
Proof.
  destruct i; intros [= <-];
    [exists h_onPointerDown|exists h_onPointerMove|exists h_onPointerUp|exists h_onPointerUp
    |exists h_onWheel];
    (split; [done|]); (induction ids as [|id ids IH]; [done|]);
    by rewrite bind_cons, filter_app, IH.
Qed.

(** ** Running functions one after another *)

Section each.
Context {N : Type} `{Number N, Host N}.
Implicit Types (site : Site N) (d : Page N) (s : State N) (i : Input N)
  (eds : nat → Editor N) (el id k : nat) (path : list nat) (ws : list (nat * Effect N)).

(** The functions [F x], for the [x] of a list, one after another. *)
Fixpoint each {X} (F : X → Page N → Page N * list (nat * Effect N)) (l : list X) d :
    Page N * list (nat * Effect N) :=
  match l with
  | [] => (d, [])
  | x :: l' => let r := F x d in let r' := each F l' r.1 in (r'.1, r.2 ++ r'.2)
  end.

Lemma foldl_each {X} (F : X → Page N → Page N * list (nat * Effect N)) l d acc :
  foldl (λ r x, andThen (F x) r) (d, acc) l = ((each F l d).1, acc ++ (each F l d).2).
Proof.
  revert d acc. induction l as [|x l IH]; intros d acc; simpl; [by rewrite app_nil_r|].
  unfold andThen at 2. simpl. by rewrite IH, app_assoc.
Qed.

Lemma each_app {X} (F : X → Page N → Page N * list (nat * Effect N)) l1 l2 d :
  each F (l1 ++ l2) d
  = ((each F l2 (each F l1 d).1).1, (each F l1 d).2 ++ (each F l2 (each F l1 d).1).2).
Proof.
  revert d. induction l1 as [|x l1 IH]; intros d; simpl; [by destruct (each F l2 d)|].
  rewrite IH. simpl. by rewrite app_assoc.
Qed.

(** What the functions of the hook leave as it is: the elements, the
    editors of the effects and their number. *)
Definition steady d d' : Prop :=
  d'.(elements) = d.(elements) ∧ d'.(editors) = d.(editors) ∧ d'.(mounted) = d.(mounted)
  ∧ length d'.(heap) = length d.(heap).

(** No callback waits in the variables of an effect, and every callback
    of the queue is of an effect that has run. *)
Definition settled d : Prop :=
  Forall (λ s, s.(animationFrames) = []) d.(heap)
  ∧ Forall (λ c, c.1 < length d.(heap)) d.(timers).

Lemma steady_refl d : steady d d.
Proof. done. Qed.

Lemma steady_trans d1 d2 d3 : steady d1 d2 → steady d2 d3 → steady d1 d3.
Proof. unfold steady. intros (?&?&?&?) (?&?&?&?). split_and!; congruence. Qed.

Lemma editorOf_steady id d d' : steady d d' → editorOf id d' = editorOf id d.
Proof. intros (_ & He & _). unfold editorOf. by rewrite He. Qed.

Lemma invoke_settled id (f : Hook N unit) ed d :
  settled d → settled (invoke id f ed d).1 ∧ steady d (invoke id f ed d).1.
Proof.
  intros [Hh Ht]. unfold invoke. destruct (d.(heap) !! id) as [s|] eqn:Hid; [|done].
  apply lookup_lt_Some in Hid. split; [split|]; simpl.
  - by apply Forall_insert.
  - rewrite length_insert. apply Forall_app. split; [done|]. by apply Forall_fmap, Forall_true.
  - split_and!; try done. apply length_insert.
Qed.

Lemma each_settled {X} (F : X → Page N → Page N * list (nat * Effect N)) l d :
  (∀ x d, settled d → settled (F x d).1 ∧ steady d (F x d).1) →
  settled d → settled (each F l d).1 ∧ steady d (each F l d).1.
Proof.
  intros HF. revert d. induction l as [|x l IH]; intros d Hd; simpl; [done|].
  destruct (HF x d Hd) as [Hd' Hs]. destruct (IH _ Hd') as [? ?].
  split; [done|]. by eapply steady_trans.
Qed.

(** The effects [ids] hear the input, one after another. *)
Definition hear ids eds i d : Page N * list (nat * Effect N) :=
  each (λ id d', invoke id (listener i) (eds (editorOf id d')) d') ids d.

Lemma hear_cons id ids eds i d :
  hear (id :: ids) eds i d
  = ((hear ids eds i (invoke id (listener i) (eds (editorOf id d)) d).1).1,
     (invoke id (listener i) (eds (editorOf id d)) d).2
       ++ (hear ids eds i (invoke id (listener i) (eds (editorOf id d)) d).1).2).
Proof. done. Qed.

Lemma hear_app ids1 ids2 eds i d :
  hear (ids1 ++ ids2) eds i d
  = ((hear ids2 eds i (hear ids1 eds i d).1).1,
     (hear ids1 eds i d).2 ++ (hear ids2 eds i (hear ids1 eds i d).1).2).
Proof. apply each_app. Qed.

Lemma hear_settled ids eds i d :
  settled d → settled (hear ids eds i d).1 ∧ steady d (hear ids eds i d).1.
Proof. apply each_settled. intros id d'. apply invoke_settled. Qed.

(** The callbacks change no variable and request no callback. *)
Lemma each_callbacks eds (q : list (nat * FrameCallback N)) d :
  Forall (λ s, s.(animationFrames) = []) d.(heap) →
  each (λ c d', invoke c.1 (pinchEndCallback c.2) (eds (editorOf c.1 d')) d') q d
  = (d, pinchEnds d q).
Proof.
  intros Hh. induction q as [|[id cb] q IH]; [done|].
  simpl. rewrite invoke_callback by done. simpl. rewrite IH. unfold pinchEnds. simpl.
  by rewrite !app_nil_r.
Qed.

Lemma frames_eq eds d :
  Forall (λ s, s.(animationFrames) = []) d.(heap) →
  frames eds d
  = ({| elements := d.(elements); heap := d.(heap); editors := d.(editors); timers := [];
        mounted := d.(mounted) |},
     pinchEnds d d.(timers)).
Proof. intros Hh. unfold frames. by rewrite foldl_each, each_callbacks. Qed.

Lemma frames_settled eds d :
  settled d → settled (frames eds d).1 ∧ steady d (frames eds d).1.
Proof.
  intros [Hh Ht]. unfold frames. rewrite foldl_each. simpl.
  destruct (each_settled (λ c d', invoke c.1 (pinchEndCallback c.2) (eds (editorOf c.1 d')) d')
              d.(timers) {| elements := d.(elements); heap := d.(heap); editors := d.(editors);
                            timers := []; mounted := d.(mounted) |}) as [? ?]; try done.
  intros c d'. apply invoke_settled.
Qed.

End each.

(** ** The effect and its cleanup keep the site in order *)

Section orderly_facts.
Context {N : Type} `{Number N, Host N}.
Implicit Types (site : Site N) (d : Page N) (s : State N) (i : Input N)
  (eds : nat → Editor N) (el id k : nat) (path : list nat) (ws : list (nat * Effect N)).

Lemma orderly_emptySite : orderly (N := N) emptySite.
Proof. split; try done; by constructor. Qed.

(** The cleanup a component holds is of an effect of its editor. *)
Lemma hooks_editorOf site k el id :
  orderly site → site.(hooks) !! k = Some (el, id) →
  editorOf id site.(page) = k ∧ id < length site.(page).(heap).
Proof.
  intros Hs Hk. pose proof (orderly_hooks site Hs _ _ _ Hk) as He. unfold editorOf.
  rewrite He. split; [done|]. rewrite <-(orderly_editors site Hs). by eapply lookup_lt_Some.
Qed.

Lemma elem_of_liveOn site el id :
  orderly site → id ∈ liveOn el site ↔ liveAt site el id.
Proof.
  intros Hs. unfold liveOn. rewrite list_elem_of_filter, elem_of_seq. split; [by intros [? _]|].
  intros Hl. split; [done|]. destruct (hooks_editorOf site _ _ _ Hs Hl). lia.
Qed.

Lemma NoDup_liveOn site el : NoDup (liveOn el site).
Proof. apply NoDup_filter, NoDup_seq. Qed.

(** The functions of the hook leave in place the effects that are. *)
Lemma liveOn_steady site d el : steady site.(page) d → liveOn el (with_page d site) = liveOn el site.
Proof.
  intros (Hel & Hed & Hmd & Hlen). unfold liveOn. simpl. rewrite Hlen.
  apply list_filter_iff. intros id. unfold liveAt, editorOf. simpl. by rewrite Hed.
Qed.

Lemma editorsOn_steady site d el :
  steady site.(page) d → editorsOn el (with_page d site) = editorsOn el site.
Proof.
  intros Hd. unfold editorsOn. rewrite liveOn_steady by done.
  apply list_fmap_ext. intros _ id _. by apply editorOf_steady.
Qed.

(** The functions of the hook leave the site in order. *)
Lemma orderly_steady site d :
  orderly site → steady site.(page) d → settled d → orderly (with_page d site).
Proof.
  intros [Hl Hk Hst He Hh Ht Hm] Hd [Hh' Ht']. pose proof Hd as (Hel & Hed & Hmd & Hlen).
  assert (∀ el, elementAt el d = elementAt el site.(page)) as Hat.
  { intros el. unfold elementAt. by rewrite Hel. }
  pose proof (λ el, liveOn_steady site d el Hd) as Hon.
  split; cbn [page hooks with_page]; try congruence.
  - intros k el id. rewrite Hed. apply Hk.
  - intros k el id. rewrite Hat. apply Hst.
Qed.

(** Without the cleanup of the component [k], the effects in place are
    the others. *)
Lemma liveOn_removed site site' k elk idk el :
  orderly site → site.(hooks) !! k = Some (elk, idk) →
  site'.(hooks) = partial_alter (λ _, None) k site.(hooks) →
  site'.(page).(editors) = site.(page).(editors) →
  length site'.(page).(heap) = length site.(page).(heap) →
  liveOn el site' = filter (λ id, id ≠ idk) (liveOn el site).
Proof.
  intros Hs Hk Hh He Hlen. unfold liveOn. rewrite list_filter_filter, Hlen.
  apply list_filter_iff. intros id. unfold liveAt, editorOf. rewrite Hh, He.
  fold (editorOf id site.(page)).
  destruct (decide (editorOf id site.(page) = k)) as [->|Hne].
  - rewrite lookup_partial_alter_eq, Hk. naive_solver.
  - rewrite lookup_partial_alter_ne by done. split; [|by intros [_ ?]].
    intros Hl. split; [|done]. intros ->.
    by destruct (hooks_editorOf site _ _ _ Hs Hk).
Qed.

(** An effect in place on another element is another effect. *)
Lemma liveOn_elsewhere site k elk idk el :
  orderly site → site.(hooks) !! k = Some (elk, idk) → el ≠ elk →
  filter (λ id, id ≠ idk) (liveOn el site) = liveOn el site.
Proof.
  intros Hs Hk Hel. apply filter_all, Forall_forall. intros id Hid%elem_of_liveOn; [|done].
  intros ->. unfold liveAt in Hid. destruct (hooks_editorOf site _ _ _ Hs Hk) as [Hed _].
  rewrite Hed, Hk in Hid. congruence.
Qed.

Lemma unmountAt_hooks k site : (unmountAt k site).(hooks) !! k = None.
Proof.
  unfold unmountAt, store. simpl. by rewrite lookup_partial_alter_eq, dismount_mounted.
Qed.

Lemma unmountAt_orderly k site : orderly site → orderly (unmountAt k site).
Proof.
  intros Hs. pose proof Hs as [Hl Hh Hst He Hq Ht Hm].
  unfold unmountAt, store, focus, dismount. simpl.
  destruct (site.(hooks) !! k) as [[elk idk]|] eqn:Hk; simpl.
  - split; simpl; try done.
    + intros el. rewrite (liveOn_removed site _ k elk idk) by done.
      rewrite !elementAt_set_mounted, elementAt_set_element. case_decide as Hel.
      * subst. by rewrite detach_filter, ?elementAt_set_mounted, Hl, filter_handlers.
      * by rewrite ?elementAt_set_mounted, Hl, (liveOn_elsewhere site k elk idk).
    + intros k' el id Hk'. apply (Hh k' el).
      destruct (decide (k' = k)) as [->|Hne]; [by rewrite lookup_partial_alter_eq in Hk'|].
      by rewrite lookup_partial_alter_ne in Hk'.
    + intros k' el id Hk'. rewrite !elementAt_set_mounted, elementAt_set_element.
      assert (site.(hooks) !! k' = Some (el, id)) as Hold.
      { destruct (decide (k' = k)) as [->|Hne]; [by rewrite lookup_partial_alter_eq in Hk'|].
        by rewrite lookup_partial_alter_ne in Hk'. }
      case_decide; subst; apply (Hst _ _ _ Hold).
  - rewrite <-Hk, partial_alter_self. by destruct site as [[] ?]; simplify_eq/=.
Qed.

(** With the cleanup of a new effect on the element [el'], that effect
    is the last in place there. *)
Lemma liveOn_added site site' k el' el :
  orderly site → site.(hooks) !! k = None →
  site'.(hooks) = <[k := (el', length site.(page).(heap))]> site.(hooks) →
  site'.(page).(editors) = site.(page).(editors) ++ [k] →
  length site'.(page).(heap) = S (length site.(page).(heap)) →
  liveOn el site' = liveOn el site ++ if decide (el = el') then [length site.(page).(heap)] else [].
Proof.
  intros Hs Hk Hh He Hlen. unfold liveOn. rewrite Hlen, seq_S, filter_app. simpl. f_equal.
  - apply filter_ext_elem. intros id Hid%elem_of_seq. unfold liveAt, editorOf. rewrite Hh, He.
    rewrite lookup_app_l by (rewrite (orderly_editors site Hs); lia).
    fold (editorOf id site.(page)).
    destruct (decide (editorOf id site.(page) = k)) as [->|Hne].
    + rewrite lookup_insert_eq, Hk. split; [|done]. intros [= _ ?]. lia.
    + by rewrite lookup_insert_ne.
  - rewrite filter_cons, filter_nil. apply decide_ext. unfold liveAt, editorOf. rewrite Hh, He.
    rewrite <-(orderly_editors site Hs), list_lookup_middle by done. simpl.
    rewrite lookup_insert_eq, (orderly_editors site Hs). naive_solver.
Qed.

Lemma mountAt_orderly k (container : option nat) site :
  orderly site → site.(hooks) !! k = None → orderly (mountAt k container site).
Proof.
  intros Hs Hk. pose proof Hs as [Hl Hh Hst He Hq Ht Hm].
  unfold mountAt, store, focus, mount. rewrite Hk.
  destruct container as [el'|]; simpl.
  - assert (∀ k' el id, <[k := (el', length site.(page).(heap))]> site.(hooks) !! k' = Some (el, id) →
      (k' = k ∧ el = el' ∧ id = length site.(page).(heap))
      ∨ (k' ≠ k ∧ site.(hooks) !! k' = Some (el, id))) as Hcases.
    { intros k' el id. destruct (decide (k' = k)) as [->|Hne].
      - rewrite lookup_insert_eq. naive_solver.
      - rewrite lookup_insert_ne by done. naive_solver. }
    split; simpl.
    + intros el. rewrite (liveOn_added site _ k el') by (done || (simpl; by rewrite length_app, Nat.add_1_r)).
      rewrite ?elementAt_set_mounted, elementAt_set_element, elementAt_allocate, bind_app.
      case_decide as Hel; [|by rewrite ?elementAt_set_mounted, Hl, app_nil_r].
      subst. rewrite attach_fresh, ?elementAt_set_mounted, Hl; [by rewrite bind_singleton|].
      intros l. rewrite ?elementAt_set_mounted, Hl.
      intros Hid%elem_of_bind_handlers%elem_of_liveOn; [|done].
      destruct (hooks_editorOf site _ _ _ Hs Hid). lia.
    + intros k' el id [(-> & -> & ->)|[_ Hold]]%Hcases.
      * by rewrite <-He, list_lookup_middle.
      * by apply lookup_app_l_Some, (Hh _ el).
    + intros k' el id Hk'. rewrite ?elementAt_set_mounted, elementAt_set_element.
      case_decide as Hel; [done|]. rewrite ?elementAt_set_mounted.
      destruct (Hcases _ _ _ Hk') as [(_ & ? & _)|[_ Hold]]; [done|by apply (Hst k' el id)].
    + rewrite !length_app. simpl. lia.
    + apply Forall_app. split; [done|by apply Forall_singleton].
    + eapply Forall_impl; [done|]. intros c Hc. rewrite length_app. simpl in *. lia.
    + done.
  - rewrite <-Hk, partial_alter_self. by destruct site as [[] ?]; simplify_eq/=.
Qed.

(** ** Every action keeps the site in order *)

Lemma dispatchAt_hear el eds i site :
  orderly site → ¬ isFrame i →
  dispatchAt el eds i site.(page) = hear (liveOn el site) eds i site.(page).
Proof.
  intros Hs Hi. unfold dispatchAt, hear. destruct (typeOf i) as [t|] eqn:Ht; [|by destruct i].
  rewrite (orderly_listeners site Hs). destruct (filter_type_handlers i t (liveOn el site) Ht)
    as (h & Hc & ->).
  rewrite foldl_fmap, foldl_each. simpl. rewrite Hc. by destruct (each _ _ _).
Qed.

Lemma dispatchAt_settled el eds i d :
  settled d → settled (dispatchAt el eds i d).1 ∧ steady d (dispatchAt el eds i d).1.
Proof.
  intros Hd. unfold dispatchAt. destruct (typeOf i) as [t|]; [|done].
  rewrite foldl_each. simpl. apply each_settled; [|done]. intros l d'. apply invoke_settled.
Qed.

Lemma dispatchPath_settled path eds i d :
  settled d → settled (dispatchPath path eds i d).1 ∧ steady d (dispatchPath path eds i d).1.
Proof.
  revert d. induction path as [|el path IH]; intros d Hd; simpl; [done|].
  destruct (dispatchAt_settled el eds i d Hd) as [Hd' Hs]. case_match; [done|]. simpl.
  destruct (IH _ Hd') as [? ?]. split; [done|]. by eapply steady_trans.
Qed.

(** The frame is no event: nothing is registered for it. *)
Lemma dispatchPath_frame path eds d : dispatchPath path eds animationFrame d = (d, []).
Proof. induction path as [|el path IH]; [done|]. simpl. by rewrite IH. Qed.

Lemma orderly_settled site : orderly site → settled site.(page).
Proof. by intros [_ _ _ _ ? ? _]. Qed.

Lemma siteAct_orderly (a : SiteAction N) site : orderly site → orderly (siteAct a site).1.
Proof.
  intros Hs. pose proof (orderly_settled site Hs) as Hd.
  destruct a as [k container|k|path eds i|eds]; simpl.
  - apply mountAt_orderly; [by apply unmountAt_orderly|apply unmountAt_hooks].
  - by apply unmountAt_orderly.
  - by apply orderly_steady; [|apply dispatchPath_settled..].
  - by apply orderly_steady; [|apply frames_settled..].
Qed.

Lemma siteAll_orderly (acts : list (SiteAction N)) site :
  orderly site → orderly (siteAll acts site).1.
Proof.
  revert site. induction acts as [|a acts IH]; intros site Hs; [done|].
  by apply IH, siteAct_orderly.
Qed.

Lemma filter_type_length (t : EventType) ids :
  length (filter (λ l, l.(l_type) = t) (ids ≫= handlers)) = length ids.
Proof.
  induction ids as [|id ids IH]; [done|].
  rewrite bind_cons, filter_app, length_app, IH. by destruct t.
Qed.

(** C22. The invariant of the site.  However many editors render, move to
    another container and unmount, whatever events bubble through the
    page and whatever frames pass, the listeners on every element are the
    functions of the effects in place on it, five for each in the order
    of the source, effect after effect in the order in which they ran:
    the cleanup of one hook removes its own functions and leaves those of
    the others; every event type has one function for every effect in
    place on the element; a container has the two styles; and no callback
    waits outside the queue of the page. *)
Theorem site_invariant (acts : list (SiteAction N)) :
  let site := (siteAll acts emptySite).1 in
  orderly site
  ∧ ∀ el t, length (filter (λ l, l.(l_type) = t) (elementAt el site.(page)).(el_listeners))
            = length (liveOn el site).
Proof.
  intros site. assert (orderly site) as Hs by apply siteAll_orderly, orderly_emptySite.
  split; [done|]. intros el t. by rewrite (orderly_listeners site Hs), filter_type_length.
Qed.

End orderly_facts.

(** ** How far an event gets *)

Section propagation.
Context {N : Type} `{Number N, Host N}.
Implicit Types (site : Site N) (d : Page N) (s : State N) (i : Input N)
  (eds : nat → Editor N) (el id k : nat) (path : list nat) (ws : list (nat * Effect N)).

Lemma stopped_app ws1 ws2 : stopped (ws1 ++ ws2) = stopped ws1 || stopped ws2.
Proof. apply existsb_app. Qed.

Lemma prevented_app ws1 ws2 : prevented (ws1 ++ ws2) = prevented ws1 || prevented ws2.
Proof. apply existsb_app. Qed.

(** The wheel listener of an editor that handles the event prevents its
    default action and stops it, and no other function of the hook does
    the one or the other. *)
Lemma handles_emitted k (ed : Editor N) i s :
  prevented (pair k <$> emitted ed i s) = handles ed i
  ∧ stopped (pair k <$> emitted ed i s) = handles ed i.
Proof.
  destruct (step_total ed i s) as (s' & ws & Hst).
  destruct (step_next _ _ _ _ _ Hst) as [_ <-].
  destruct Hst as [e s p1 p2 Hv|e s Hn|e s Hh|e s Hh Hn|e s p1 p2 Hh Hv
                  |i e s Hi Hn|i e s Hi Hn|w s Hf|w s Hf Hs|w s Hf Hs|s]; simpl;
    rewrite ?Hf, ?Hs; try done.
  - unfold pinchReport. by case_match.
  - by destruct i.
  - by destruct i.
  - induction s.(animationFrames) as [|cb q IH]; [done|]. by simpl.
Qed.

Lemma stopped_emitted k (ed : Editor N) i s :
  stopped (pair k <$> emitted ed i s) = handles ed i.
Proof. apply handles_emitted. Qed.

(** What prevents the default action stops the event, and the other way
    round. *)
Lemma prevented_hear ids eds i d : prevented (hear ids eds i d).2 = stopped (hear ids eds i d).2.
Proof.
  revert d. induction ids as [|id ids IH]; intros d; [done|].
  rewrite hear_cons. cbn [snd]. rewrite prevented_app, stopped_app, IH. f_equal.
  unfold invoke. destruct (d.(heap) !! id) as [s|]; [|done]. simpl.
  destruct (handles_emitted (editorOf id d) (eds (editorOf id d)) i s) as [Hp Hq].
  exact (eq_trans Hp (eq_sym Hq)).
Qed.

Lemma stopped_hear ids eds i d :
  settled d → Forall (λ id, id < length d.(heap)) ids →
  stopped (hear ids eds i d).2
  = existsb (λ k, handles (eds k) i) ((λ id, editorOf id d) <$> ids).
Proof.
  revert d. induction ids as [|id ids IH]; intros d Hd Hids; [done|].
  apply Forall_cons in Hids as [Hid Hids]. rewrite hear_cons. cbn [snd fmap list_fmap existsb].
  destruct (invoke_settled id (listener i) (eds (editorOf id d)) d Hd) as [Hd' Hst].
  rewrite stopped_app, IH; [|done|by rewrite (proj2 (proj2 (proj2 Hst)))].
  f_equal.
  - destruct (lookup_lt_is_Some_2 _ _ Hid) as [s Hs]. unfold invoke. rewrite Hs. simpl.
    apply stopped_emitted.
  - f_equal. apply list_fmap_ext. intros _ id' _. by apply editorOf_steady.
Qed.

Lemma stopped_dispatchAt el eds i site :
  orderly site → stopped (dispatchAt el eds i site.(page)).2 = handledOn el eds i site.
Proof.
  intros Hs. unfold handledOn, editorsOn. destruct (decide (isFrame i)) as [Hi|Hi].
  - destruct i; try done. simpl. symmetry. apply not_true_is_false.
    by intros (k & _ & ?)%existsb_exists.
  - rewrite dispatchAt_hear, stopped_hear; [done|by apply orderly_settled| |done..].
    apply Forall_forall. intros id Hid%elem_of_liveOn; [|done].
    by destruct (hooks_editorOf site _ _ _ Hs Hid).
Qed.

Lemma prevented_dispatchAt el eds i site :
  orderly site → prevented (dispatchAt el eds i site.(page)).2 = handledOn el eds i site.
Proof.
  intros Hs. rewrite <-stopped_dispatchAt by done. destruct (decide (isFrame i)) as [Hi|Hi].
  - by destruct i.
  - rewrite dispatchAt_hear by done. apply prevented_hear.
Qed.

Lemma existsb_ext {A} (p q : A → bool) (l : list A) :
  (∀ x, p x = q x) → existsb p l = existsb q l.
Proof. intros Hpq. induction l as [|x l IH]; [done|]. simpl. by rewrite Hpq, IH. Qed.

Lemma upTo_ext (p q : nat → bool) path : (∀ el, p el = q el) → upTo p path = upTo q path.
Proof. intros Hpq. induction path as [|el path IH]; [done|]. simpl. by rewrite Hpq, IH. Qed.

Lemma reach_upTo path eds i site :
  orderly site → reach path eds i site.(page) = upTo (λ el, handledOn el eds i site) path.
Proof.
  revert site. induction path as [|el path IH]; intros site Hs; [done|].
  simpl. rewrite stopped_dispatchAt by done. f_equal. case_match; [done|].
  destruct (dispatchAt_settled el eds i site.(page) (orderly_settled site Hs)) as [Hd' Hst].
  etrans; [by apply (IH (with_page (dispatchAt el eds i site.(page)).1 site)), orderly_steady|].
  apply upTo_ext. intros el'. unfold handledOn. by rewrite editorsOn_steady.
Qed.

(** The listeners of the elements the event reaches run, element after
    element. *)
Lemma dispatchPath_reach path eds i d :
  dispatchPath path eds i d = each (λ el, dispatchAt el eds i) (reach path eds i d) d.
Proof.
  revert d. induction path as [|el path IH]; intros d; [done|].
  simpl. case_match; simpl; [|by rewrite IH].
  rewrite app_nil_r. by destruct (dispatchAt el eds i d).
Qed.

Lemma upTo_nowhere path : upTo (λ _, false) path = path.
Proof. induction path as [|el path IH]; [done|]. simpl. by rewrite IH. Qed.

Lemma handledOn_pointer el eds i site :
  (if i is wheel _ then False else True) → handledOn el eds i site = false.
Proof.
  intros Hi. apply not_true_is_false. intros (k & _ & Hk)%existsb_exists. by destruct i.
Qed.

(** The default action of the event is prevented when an editor on the
    path handles it, and only then. *)
Lemma prevented_dispatchPath path eds i site :
  orderly site →
  prevented (dispatchPath path eds i site.(page)).2
  = existsb (λ el, handledOn el eds i site) path.
Proof.
  revert site. induction path as [|el path IH]; intros site Hs; [done|].
  cbn [dispatchPath existsb]. rewrite stopped_dispatchAt by done.
  pose proof (prevented_dispatchAt el eds i site Hs) as Hp.
  destruct (handledOn el eds i site); [done|]. cbn [snd orb]. rewrite prevented_app, Hp.
  destruct (dispatchAt_settled el eds i site.(page) (orderly_settled site Hs)) as [Hd' Hst].
  etrans; [by apply (IH (with_page (dispatchAt el eds i site.(page)).1 site)), orderly_steady|].
  apply existsb_ext. intros el'. unfold handledOn. by rewrite editorsOn_steady.
Qed.

(** C19. How far an event gets.  On a site the hooks have been running
    on, an event runs the listeners of the elements of its path, from
    the target up, as far as the first element on which an editor in
    place handles it: a wheel event, for an editor that has the focus
    and does not leave the event to the shape that is edited.  The
    listeners of that element all run; those of the ancestors do not.
    A pointer event is never stopped: every hook on the path hears it.
    The default action of the event is prevented when an editor on the
    path handles it, and only then: the page scrolls under a wheel event
    that no editor handles. *)
Theorem wheel_stops_at_the_handling_editor (acts : list (SiteAction N)) path eds i :
  let site := (siteAll acts emptySite).1 in
  dispatchPath path eds i site.(page)
  = each (λ el, dispatchAt el eds i) (upTo (λ el, handledOn el eds i site) path) site.(page)
  ∧ prevented (dispatchPath path eds i site.(page)).2
    = existsb (λ el, handledOn el eds i site) path
  ∧ (if i is wheel _ then True else upTo (λ el, handledOn el eds i site) path = path).
Proof.
  intros site. assert (orderly site) as Hs by apply siteAll_orderly, orderly_emptySite.
  split; [by rewrite dispatchPath_reach, reach_upTo|]. split; [by apply prevented_dispatchPath|].
  destruct i; try done; rewrite <-(upTo_nowhere path) at 2; apply upTo_ext; intros el;
    by apply handledOn_pointer.
Qed.

End propagation.
