(* ===== verification/SiteWorld.v ===== *)
(** * SiteWorld: every editor of a site has a world of its own

    On the site of [Site] the hooks of several editors share the elements
    and the queue of the timers.  This file proves that the sharing does
    not show: the calls made on one editor are those of the world of
    [Lifecycle] for that editor alone, whatever the others do.

    - [own k m d]: the page as the component of the editor [k] has it,
      the callbacks of its effects in the queue and its cleanup.
    - [callsOf k]: the calls made on the editor [k].
    - [viewOf k]: what an action of the site is for the component [k]: its
      own renders and unmounts, the events that reach its container
      before a listener stops them, and the frames.
    - [site_projects_to_world]: the calls of every editor are those of
      its world, call by call; with [Component] they are the calls of the
      specification ([every_editor_refines_spec]). *)

From Stdlib Require Import Floats.
From stdpp Require Import gmap strings.
From S2P Require Import Prelude Number JSMap Events Samples Pinch Handlers System.
From S2P Require Import Gestures Spec Lifecycle FloatLaws Symmetry Simulation Refines.
From S2P Require Import Sessions Worlds Component Page PageWorld Site.

Section projection.
Context {N : Type} `{Number N, Host N}.
Implicit Types (site : Site N) (d : Page N) (w : World N) (s : State N) (i : Input N)
  (eds : nat → Editor N) (el id k : nat) (path : list nat) (ws : list (nat * Effect N))
  (m : option (nat * nat)).

(** The page as the component of the editor [k] has it: the callbacks of
    its effects, and the cleanup [m] React holds for it. *)
Definition own k m d : Page N :=
  {| elements := d.(elements); heap := d.(heap); editors := d.(editors);
     timers := filter (λ c, editorOf c.1 d = k) d.(timers);
     mounted := m |}.

Definition ownOf k site : Page N := own k (site.(hooks) !! k) site.(page).

(** The calls made on the editor [k]. *)
Definition callsOf k ws : list (Effect N) := (filter (λ c, c.1 = k) ws).*2.

(** The container of the component [k]. *)
Definition containerAt k site : option nat := fst <$> site.(hooks) !! k.

(** The event reaches the container of the component [k]. *)
Definition heardAt k site eds i el : list (Action N) :=
  if decide (containerAt k site = Some el) then [input (eds k) i] else [].

Definition viewOf k site (a : SiteAction N) : list (Action N) :=
  match a with
  | s_render k' container =>
      if decide (k' = k)
      then [render ((λ el, containerOf (elementAt el site.(page))) <$> container)]
      else []
  | s_unmount k' => if decide (k' = k) then [unmount] else []
  | s_event path eds i =>
      if decide (isFrame i) then []
      else reach path eds i site.(page) ≫= heardAt k site eds i
  | s_frame eds => [input (eds k) animationFrame]
  end.

Fixpoint views k site (acts : list (SiteAction N)) : list (Action N) :=
  match acts with
  | [] => []
  | a :: acts' => viewOf k site a ++ views k (siteAct a site).1 acts'
  end.

End projection.

(** ** What the others do does not show *)

Section apart.
Context {N : Type} `{Number N, Host N}.
Implicit Types (site : Site N) (d : Page N) (w : World N) (s : State N) (i : Input N)
  (eds : nat → Editor N) (el id k : nat) (path : list nat) (ws : list (nat * Effect N))
  (m : option (nat * nat)).

Lemma callsOf_app k ws1 ws2 : callsOf k (ws1 ++ ws2) = callsOf k ws1 ++ callsOf k ws2.
Proof. unfold callsOf. by rewrite filter_app, fmap_app. Qed.

Lemma callsOf_own k (ws : list (Effect N)) : callsOf k (pair k <$> ws) = ws.
Proof.
  unfold callsOf. rewrite filter_all; [apply untagged|].
  by apply Forall_fmap, Forall_true.
Qed.

Lemma callsOf_other k k' (ws : list (Effect N)) : k' ≠ k → callsOf k (pair k' <$> ws) = [].
Proof.
  intros Hk. unfold callsOf. rewrite filter_none; [done|].
  by apply Forall_fmap, Forall_true.
Qed.

(** A world stands for a page as long as the variables of the effects it
    knows and the queue are what they were. *)
Lemma kept_apart d d' bs (l : list (State N)) :
  (∀ b cb, b ∈ bs → cb ∈ b.2 → d'.(heap) !! b.1 = d.(heap) !! b.1) →
  Forall2 (kept d) bs l → Forall2 (kept d') bs l.
Proof.
  intros Hh Hk. induction Hk as [|b s bs l [Hq (s0 & Hs0 & ->)] _ IH]; constructor.
  - split; [done|]. exists s0. split; [|done]. destruct b as [id [|cb q]]; [done|].
    rewrite <-Hs0. apply (Hh (id, cb :: q) cb); by left.
  - apply IH. intros b' cb ?. apply Hh. by right.
Qed.

Lemma stands_apart d d' w :
  stands d w → d'.(timers) = d.(timers) → d'.(mounted) = d.(mounted) →
  (∀ id cb, (id, cb) ∈ d.(timers) → d'.(heap) !! id = d.(heap) !! id) →
  (∀ el id, d.(mounted) = Some (el, id) → d'.(heap) !! id = d.(heap) !! id) →
  stands d' w.
Proof.
  intros (bs & q & Hk & Ht & Hm) Ht' Hm' Hq Hl. exists bs, q. rewrite Ht', Hm'.
  split_and!; [|done|].
  - apply (kept_apart d); [|done]. intros b cb Hb Hcb. apply (Hq _ cb). rewrite Ht.
    apply elem_of_app. left. apply list_elem_of_bind. exists b. split; [|done].
    by apply (list_elem_of_fmap_2 (pair b.1)).
  - destruct d.(mounted) as [[el id]|]; [|done].
    destruct Hm as (Hne & Hlis & s0 & Hs0 & Hw). split_and!; try done.
    exists s0. by rewrite (Hl el id).
Qed.

Lemma elem_of_own_timers k m d id cb :
  (id, cb) ∈ (own k m d).(timers) → editorOf id d = k ∧ (id, cb) ∈ d.(timers).
Proof. unfold own. simpl. by rewrite list_elem_of_filter. Qed.

(** A function of another editor. *)
Lemma invoke_foreign k m id (f : Hook N unit) ed d w :
  (∀ el idk, m = Some (el, idk) → editorOf idk d = k) → editorOf id d ≠ k →
  stands (own k m d) w →
  stands (own k m (invoke id f ed d).1) w ∧ callsOf k (invoke id f ed d).2 = [].
Proof.
  intros Hm Hid Hw. unfold invoke. destruct (d.(heap) !! id) as [s|] eqn:Hs; [|done].
  split; [|by apply callsOf_other]. apply (stands_apart _ _ _ Hw); simpl.
  - unfold editorOf; simpl. rewrite filter_app, (filter_none _ (_ <$> _)), app_nil_r; [done|].
    by apply Forall_fmap, Forall_true.
  - done.
  - intros id' cb [Hk _]%list_elem_of_filter. apply list_lookup_insert_ne. simpl in Hk. congruence.
  - intros el idk Hk%Hm. apply list_lookup_insert_ne. congruence.
Qed.

(** A listener of the editor [k]. *)
Lemma invoke_own k el id ed i d w :
  settled d → editorOf id d = k → ¬ isFrame i →
  stands (own k (Some (el, id)) d) w →
  stands (own k (Some (el, id)) (invoke id (listener i) ed d).1) (deliver ed i w).1
  ∧ callsOf k (invoke id (listener i) ed d).2 = (deliver ed i w).2.
Proof.
  intros [Hh _] Hk Hi Hw.
  destruct (event_stands el id ed i (own k (Some (el, id)) d) w Hh Hw eq_refl Hi) as [Hw' <-].
  unfold invoke in *. simpl in *. destruct (d.(heap) !! id) as [s|]; simpl in *.
  - rewrite untagged. fold (editorOf id d). rewrite Hk, callsOf_own. split; [|done].
    unfold own, editorOf in *. simpl in *. rewrite filter_app, (filter_all _ (_ <$> _)); [done|].
    by apply Forall_fmap, Forall_true.
  - done.
Qed.

Lemma hear_foreign k m ids eds i d w :
  settled d → (∀ el idk, m = Some (el, idk) → editorOf idk d = k) →
  Forall (λ id, editorOf id d ≠ k) ids →
  stands (own k m d) w →
  stands (own k m (hear ids eds i d).1) w ∧ callsOf k (hear ids eds i d).2 = [].
Proof.
  revert d. induction ids as [|id ids IH]; intros d Hd Hm Hids Hw; [done|].
  apply Forall_cons in Hids as [Hid Hids]. rewrite hear_cons. cbn [fst snd].
  destruct (invoke_settled id (listener i) (eds (editorOf id d)) d Hd) as [Hd' Hst].
  destruct (invoke_foreign k m id (listener i) (eds (editorOf id d)) d w Hm Hid Hw) as [Hw' Hc].
  rewrite callsOf_app, Hc. apply IH; [done| | |done].
  - intros el idk ?. rewrite (editorOf_steady _ _ _ Hst). by eapply Hm.
  - eapply Forall_impl; [done|]. intros id'. simpl. by rewrite (editorOf_steady _ _ _ Hst).
Qed.

(** The cleanup a component holds is of an effect of its editor. *)
Lemma hooks_own site k :
  orderly site → ∀ el idk, site.(hooks) !! k = Some (el, idk) → editorOf idk site.(page) = k.
Proof. intros Hs el idk Hk. by destruct (hooks_editorOf site _ _ _ Hs Hk). Qed.

(** The effects of other editors before and after the one of the editor
    [k]: the world hears the event once. *)
Lemma hear_one k el idk ids1 ids2 eds i d w :
  settled d → editorOf idk d = k → ¬ isFrame i →
  Forall (λ id, editorOf id d ≠ k) (ids1 ++ ids2) →
  stands (own k (Some (el, idk)) d) w →
  stands (own k (Some (el, idk)) (hear (ids1 ++ idk :: ids2) eds i d).1) (deliver (eds k) i w).1
  ∧ callsOf k (hear (ids1 ++ idk :: ids2) eds i d).2 = (deliver (eds k) i w).2.
Proof.
  intros Hd Hk Hi [Hl1 Hl2]%Forall_app Hw. rewrite hear_app, hear_cons. cbn [fst snd].
  destruct (hear_settled ids1 eds i _ Hd) as [Hd1 Hst1].
  destruct (hear_foreign k (Some (el, idk)) ids1 eds i d w) as [Hw1 Hc1]; try done.
  { by intros ?? [= <- <-]. }
  rewrite <-(editorOf_steady _ _ _ Hst1) in Hk. rewrite Hk.
  destruct (invoke_own k el idk (eds k) i _ w Hd1 Hk Hi Hw1) as [Hw2 Hc2].
  destruct (invoke_settled idk (listener i) (eds k) _ Hd1) as [Hd2 Hst2].
  destruct (hear_foreign k (Some (el, idk)) ids2 eds i _ (deliver (eds k) i w).1 Hd2)
    as [Hw3 Hc3]; try done.
  - intros ?? [= <- <-]. by rewrite (editorOf_steady _ _ _ Hst2).
  - eapply Forall_impl; [done|]. intros id. simpl.
    by rewrite (editorOf_steady _ _ _ Hst2), (editorOf_steady _ _ _ Hst1).
  - by rewrite !callsOf_app, Hc1, Hc2, Hc3, app_nil_r.
Qed.

(** Of the effects in place on an element, one at most is of the editor
    [k]: the one whose cleanup the component holds. *)
Lemma liveOn_own site k el id :
  orderly site → id ∈ liveOn el site → editorOf id site.(page) = k →
  site.(hooks) !! k = Some (el, id).
Proof. by intros Hs Hid%elem_of_liveOn <-. Qed.

Lemma liveOn_split site k el idk :
  orderly site → site.(hooks) !! k = Some (el, idk) →
  ∃ ids1 ids2, liveOn el site = ids1 ++ idk :: ids2
               ∧ Forall (λ id, editorOf id site.(page) ≠ k) (ids1 ++ ids2).
Proof.
  intros Hs Hk. assert (idk ∈ liveOn el site) as Hin.
  { apply elem_of_liveOn; [done|]. unfold liveAt. by rewrite (hooks_own site k Hs el idk). }
  destruct (list_elem_of_split _ _ Hin) as (l1 & l2 & Hl). exists l1, l2. split; [done|].
  pose proof (NoDup_liveOn site el) as Hnd. rewrite Hl in Hnd.
  apply NoDup_app in Hnd as (_ & Hl1 & [Hl2 _]%NoDup_cons).
  apply Forall_forall. intros id Hid Hed.
  assert (site.(hooks) !! k = Some (el, id)) as Hown.
  { apply liveOn_own; [done| |done]. rewrite Hl. set_solver. }
  rewrite Hk in Hown. simplify_eq. apply elem_of_app in Hid as [Hid|Hid]; [|done].
  apply (Hl1 _ Hid). by left.
Qed.

(** An event on one element: the component [k] hears it when the element
    is its container. *)
Lemma dispatchAt_projects k el eds i site w :
  orderly site → ¬ isFrame i → stands (ownOf k site) w →
  stands (ownOf k (with_page (dispatchAt el eds i site.(page)).1 site))
    (actAll (heardAt k site eds i el) w).1
  ∧ callsOf k (dispatchAt el eds i site.(page)).2 = (actAll (heardAt k site eds i el) w).2.
Proof.
  intros Hs Hi Hw. pose proof (orderly_settled site Hs) as Hd.
  rewrite dispatchAt_hear by done. unfold ownOf, heardAt, containerAt in *. simpl.
  destruct (decide (fst <$> site.(hooks) !! k = Some el)) as [Hel|Hel].
  - destruct (site.(hooks) !! k) as [[el' idk]|] eqn:Hk; simplify_eq/=.
    destruct (liveOn_split site k el idk Hs Hk) as (ids1 & ids2 & -> & Hids).
    rewrite app_nil_r. apply hear_one; try done. by apply (hooks_own site k Hs el).
  - apply hear_foreign; try done; [by apply hooks_own|].
    apply Forall_forall. intros id Hid Hed. apply Hel.
    by rewrite (liveOn_own site k el id).
Qed.

(** An event on its path. *)
Lemma dispatchPath_projects k path eds i site w :
  orderly site → ¬ isFrame i → stands (ownOf k site) w →
  stands (ownOf k (with_page (dispatchPath path eds i site.(page)).1 site))
    (actAll (reach path eds i site.(page) ≫= heardAt k site eds i) w).1
  ∧ callsOf k (dispatchPath path eds i site.(page)).2
    = (actAll (reach path eds i site.(page) ≫= heardAt k site eds i) w).2.
Proof.
  intros Hs Hi. revert site w Hs. induction path as [|el path IH]; intros site w Hs Hw.
  { split; [|done]. by destruct site. }
  cbn [dispatchPath reach]. rewrite bind_cons, actAll_app.
  destruct (dispatchAt_projects k el eds i site w Hs Hi Hw) as [Hw' Hc].
  destruct (dispatchAt_settled el eds i site.(page) (orderly_settled site Hs)) as [Hd' Hst].
  case_match; simpl.
  - rewrite app_nil_r. by split.
  - rewrite callsOf_app, Hc.
    destruct (IH (with_page (dispatchAt el eds i site.(page)).1 site) _
                (orderly_steady _ _ Hs Hst Hd') Hw') as [Hw'' Hc'].
    split; [done|]. f_equal. apply Hc'.
Qed.

(** ** Renders and unmounts *)

Lemma dismount_same d :
  (dismount d).(heap) = d.(heap) ∧ (dismount d).(timers) = d.(timers)
  ∧ (dismount d).(editors) = d.(editors).
Proof. unfold dismount. by destruct d.(mounted) as [[el id]|]. Qed.

(** The callbacks of the queue are of effects that have run: another
    effect does not change whose they are. *)
Lemma own_timers site k (q : list nat) :
  orderly site →
  filter (λ c, default 0 ((site.(page).(editors) ++ q) !! c.1) = k) site.(page).(timers)
  = filter (λ c, editorOf c.1 site.(page) = k) site.(page).(timers).
Proof.
  intros Hs. apply filter_ext_elem. intros c Hc. unfold editorOf. rewrite lookup_app_l; [done|].
  rewrite (orderly_editors site Hs).
  by apply (proj1 (Forall_forall _ _) (orderly_timers site Hs)).
Qed.

Lemma unmountAt_own k site w :
  stands (ownOf k site) w → stands (ownOf k (unmountAt k site)) (cleanup w).
Proof.
  intros Hw%dismount_stands. apply (stands_apart _ _ _ Hw).
  - unfold ownOf, unmountAt, store, focus, dismount, own, editorOf. simpl.
    by destruct (site.(hooks) !! k) as [[el id]|].
  - unfold ownOf at 1. cbn [own mounted]. by rewrite unmountAt_hooks, dismount_mounted.
  - intros id cb _. unfold ownOf, unmountAt, store, focus, dismount, own. simpl.
    by destruct (site.(hooks) !! k) as [[el id']|].
  - intros el id. by rewrite dismount_mounted.
Qed.

Lemma unmountAt_other k k' site w :
  k' ≠ k → stands (ownOf k site) w → stands (ownOf k (unmountAt k' site)) w.
Proof.
  intros Hk Hw. apply (stands_apart _ _ _ Hw);
    unfold ownOf, unmountAt, store, focus, dismount, own, editorOf; simpl.
  - by destruct (site.(hooks) !! k') as [[el id]|].
  - by apply lookup_partial_alter_ne.
  - intros id cb _. by destruct (site.(hooks) !! k') as [[el id']|].
  - intros el id _. by destruct (site.(hooks) !! k') as [[el' id']|].
Qed.

Lemma mountAt_own (f : nat → Container) k (container : option nat) site w :
  orderly site → site.(hooks) !! k = None → stands (ownOf k site) w →
  stands (ownOf k (mountAt k container site)) (effect (f <$> container) w).
Proof.
  intros Hs Hk Hw.
  apply (mount_stands f {| dep_editor := k; dep_container := container |}) in Hw;
    [|unfold ownOf; simpl; by rewrite Hk].
  apply (stands_apart _ _ _ Hw);
    unfold ownOf, mountAt, store, focus, mount, own, editorOf; destruct container as [el|]; simpl;
    rewrite ?lookup_partial_alter_eq, ?own_timers; done.
Qed.

Lemma mountAt_other k k' (container : option nat) site w :
  orderly site → k' ≠ k → stands (ownOf k site) w →
  stands (ownOf k (mountAt k' container site)) w.
Proof.
  intros Hs Hk Hw. apply (stands_apart _ _ _ Hw);
    unfold ownOf, mountAt, store, focus, mount, own, editorOf; destruct container as [el|]; simpl;
    rewrite ?own_timers; try done; try by apply lookup_partial_alter_ne.
  - intros id cb [_ Hc]%list_elem_of_filter. apply lookup_app_l.
    by apply (proj1 (Forall_forall _ _) (orderly_timers site Hs) (id, cb)).
  - intros el' id Hid. apply lookup_app_l. by destruct (hooks_editorOf site _ _ _ Hs Hid).
Qed.

(** ** Frames *)

Lemma callsOf_pinchEnds k m d (q : list (nat * FrameCallback N)) :
  callsOf k (pinchEnds d q)
  = (pinchEnds (own k m d) (filter (λ c, editorOf c.1 d = k) q)).*2.
Proof.
  unfold pinchEnds. induction q as [|c q IH]; [done|].
  rewrite bind_cons, callsOf_app, IH, filter_cons.
  destruct (decide (editorOf c.1 d = k)) as [Hc|Hc].
  - rewrite bind_cons, fmap_app. f_equal. simpl. destruct (d.(heap) !! c.1); [|done].
    simpl. unfold callsOf. by rewrite filter_cons_True.
  - destruct (d.(heap) !! c.1); [|done]. simpl. unfold callsOf. by rewrite filter_cons_False.
Qed.

Lemma frames_projects k eds site w :
  orderly site → stands (ownOf k site) w →
  stands (ownOf k (with_page (frames eds site.(page)).1 site))
    (deliver (eds k) animationFrame w).1
  ∧ callsOf k (frames eds site.(page)).2 = (deliver (eds k) animationFrame w).2.
Proof.
  intros Hs Hw. pose proof (orderly_heap site Hs) as Hh. rewrite frames_eq by done.
  destruct (frame_stands (eds k) (ownOf k site) w Hh Hw) as [Hw' <-].
  rewrite runFrame_eq in * by done. split; [done|]. apply callsOf_pinchEnds.
Qed.

(** ** Every action of the site, for one component *)

Lemma siteAct_projects k (a : SiteAction N) site w :
  orderly site → stands (ownOf k site) w →
  stands (ownOf k (siteAct a site).1) (actAll (viewOf k site a) w).1
  ∧ callsOf k (siteAct a site).2 = (actAll (viewOf k site a) w).2.
Proof.
  intros Hs Hw. destruct a as [k' container|k'|path eds i|eds]; simpl.
  - split; [|by case_decide]. case_decide as Hk; subst; simpl.
    + apply mountAt_own; [by apply unmountAt_orderly|apply unmountAt_hooks|].
      by apply unmountAt_own.
    + apply mountAt_other; [by apply unmountAt_orderly|done|by apply unmountAt_other].
  - split; [|by case_decide]. case_decide as Hk; subst; simpl;
      [by apply unmountAt_own|by apply unmountAt_other].
  - case_decide as Hi; [|by apply dispatchPath_projects].
    destruct i; try done. rewrite dispatchPath_frame. by destruct site.
  - rewrite app_nil_r. by apply frames_projects.
Qed.

Lemma siteAll_projects k (acts : list (SiteAction N)) site w :
  orderly site → stands (ownOf k site) w →
  stands (ownOf k (siteAll acts site).1) (actAll (views k site acts) w).1
  ∧ callsOf k (siteAll acts site).2 = (actAll (views k site acts) w).2.
Proof.
  revert site w. induction acts as [|a acts IH]; intros site w Hs Hw; [done|].
  cbn [siteAll views fst snd]. rewrite actAll_app, callsOf_app. cbn [fst snd].
  destruct (siteAct_projects k a site w Hs Hw) as [Hw' ->].
  by destruct (IH _ _ (siteAct_orderly a site Hs) Hw') as [? ->].
Qed.

Lemma stands_emptySite k : stands (ownOf k (emptySite (N := N))) unmounted.
Proof. exists [], []. by split_and!. Qed.

(** C9. Every editor has a world of its own.  On a page with any number of
    editors, whose hooks register their functions on shared elements and
    hand their callbacks to one queue, the calls made on an editor are,
    call by call, those of the world of [Lifecycle] for its component
    alone: its renders and unmounts, the events that reach its container
    before a listener stops them, and the frames.  What the hooks of the
    other editors do, on the same element or on another, does not show
    in them. *)
Theorem site_projects_to_world k (acts : list (SiteAction N)) :
  callsOf k (siteAll acts emptySite).2 = (actAll (views k emptySite acts) unmounted).2
  ∧ stands (ownOf k (siteAll acts emptySite).1) (actAll (views k emptySite acts) unmounted).1.
Proof.
  by destruct (siteAll_projects k acts emptySite unmounted orderly_emptySite (stands_emptySite k)).
Qed.

End apart.

(** ** Every editor and the specification *)

Section specification.
Context {N : Type} `{SymmetricNumber N, Host N}.

(** C6. Every editor of a site refines the specification.  When the
    events that reach the container of an editor follow the protocol
    while its hook is mounted, and its effect is torn down only when no
    [pinch_end] is deferred, the calls made on that editor are exactly
    the calls of the specification, whatever the hooks of the other
    editors of the page do meanwhile. *)
Theorem every_editor_refines_spec k (acts : list (SiteAction N)) :
  lifeProtocol (views k emptySite acts) None →
  callsOf k (siteAll acts emptySite).2 = (specActAll (views k emptySite acts) None).2.
Proof.
  intros Hp.
  destruct (siteAll_projects k acts emptySite unmounted orderly_emptySite (stands_emptySite k))
    as [_ ->].
  by destruct (actAll_simulation _ unmounted None matches_unmounted Hp) as [_ ->].
Qed.

End specification.

(** ** On JavaScript numbers *)

Local Open Scope float_scope.

(** The editor [k] has the focus, the others do not. *)
Definition focusOn (k : nat) : nat → Editor float :=
  λ k', if decide (k' = k) then editorAt 1 1 else editorBlurred.

(** An input of the user on the element whose path is [path]. *)
Definition onPath path eds (i : Input float) : SiteAction float :=
  match i with
  | animationFrame => s_frame eds
  | i => s_event path eds i
  end.

(** The calls in short: the editor, and the name of the pinch event or
    [None] for a wheel event. *)
Definition summary (ws : list (nat * Effect float)) : list (nat * option TLPinchEventName) :=
  ws ≫= λ c, match c.2 with
             | Dispatch (PinchInfo p) => [(c.1, Some p.(pinch_name))]
             | Dispatch (WheelInfo _) => [(c.1, None)]
             | _ => []
             end.

(** Two fingers land, spread and lift. *)
Definition spread : list (Input float) :=
  [pointerdown (finger 1 0 0); pointerdown (finger 2 100 0); pointermove (finger 2 150 0);
   pointerup (finger 2 150 0); pointerup (finger 1 0 0); animationFrame].

(** Editor 1 has the element 1 as its container and editor 2 the element
    2, beside it: the user pinches on the one, turns the wheel over the
    other, and pinches there. *)
Definition sideBySide : list (SiteAction float) :=
  [s_render 1 (Some 1%nat); s_render 2 (Some 2%nat)]
  ++ (onPath [1%nat] (focusOn 1) <$> spread)
  ++ [s_event [2%nat] (focusOn 2) (wheel (wheelAt 0 0 0 10))]
  ++ (onPath [2%nat] (focusOn 2) <$> spread)
  ++ [s_unmount 1; s_unmount 2].

(** Editor 2 is rendered inside editor 1: its container, the element 2,
    is a descendant of the element 1.  The user pinches on the inner
    editor, turns the wheel over it while it has the focus and while the
    outer one has it, and the inner editor unmounts. *)
Definition nested : list (SiteAction float) :=
  [s_render 1 (Some 1%nat); s_render 2 (Some 2%nat)]
  ++ (onPath [2; 1]%nat (focusOn 2) <$> spread)
  ++ [s_event [2; 1]%nat (focusOn 2) (wheel (wheelAt 0 0 0 10));
      s_event [2; 1]%nat (focusOn 1) (wheel (wheelAt 0 0 0 10));
      s_unmount 2;
      s_event [2; 1]%nat (focusOn 1) (wheel (wheelAt 0 0 0 10));
      s_unmount 1].

Lemma every_editor_refines_spec_witness :
  callsOf 1 (siteAll nested emptySite).2 = (specActAll (views 1 emptySite nested) None).2.
Proof.
  apply (every_editor_refines_spec 1 nested).
  by apply (bool_decide_unpack _); vm_compute.
Defined.

(** Side by side, each editor has the calls of what happens on its own
    container. *)
Example sideBySide_calls :
  summary (siteAll sideBySide emptySite).2
  = [(1, Some pinch_start); (1, Some pinch); (1, Some pinch_end);
     (2, None); (2, Some pinch_start); (2, Some pinch); (2, Some pinch_end)]%nat.
Proof. by vm_compute. Qed.

(** Nested, the pinch on the inner editor is a pinch of the outer editor
    too: both zoom.  The wheel event is dispatched once: on the inner
    editor when it has the focus, on the outer one when that has it or
    the inner one is gone. *)
Example nested_calls :
  summary (siteAll nested emptySite).2
  = [(2, Some pinch_start); (1, Some pinch_start); (2, Some pinch); (1, Some pinch);
     (2, Some pinch_end); (1, Some pinch_end); (2, None); (1, None); (1, None)]%nat.
Proof. by vm_compute. Qed.

(** The page scrolls under the wheel when no editor on the path has the
    focus, and does not when one has. *)
Example wheel_scrolls_the_page :
  let site := (siteAll (take 2 nested) emptySite).1 in
  prevented (dispatchPath [2; 1]%nat (focusOn 3) (wheel (wheelAt 0 0 0 10)) site.(page)).2 = false
  ∧ prevented (dispatchPath [2; 1]%nat (focusOn 1) (wheel (wheelAt 0 0 0 10)) site.(page)).2 = true.
Proof. by vm_compute. Qed.

(** Three editors on one container: when the second unmounts the element
    keeps the functions of the first and of the third, in that order. *)
Example shared_container :
  let site := (siteAll [s_render 1 (Some 1%nat); s_render 2 (Some 1%nat);
                        s_render 3 (Some 1%nat); s_unmount 2] (emptySite (N := float))).1 in
  (elementAt 1 site.(page)).(el_listeners) = handlers 0 ++ handlers 2
  ∧ liveOn 1 site = [0; 2]%nat.
Proof. by vm_compute. Qed.
