(* ===== verification/Crowd.v ===== *)
(** * Crowd: what fingers do on a page with several editors

    [SiteWorld] gives every editor of a site a world of its own, and
    [Component] the specification along a protocol.  [Natural] proves
    that what fingers do follows the protocol.  Here the three meet: when
    what reaches the container of an editor is, between its renders, what
    fingers do, its hook makes the calls of the specification, whatever
    happens on the rest of the page, with nothing assumed of a protocol.

    - [stayLife]: a render on a container and the gestures of the user
      that reach it; [lifeOf]: the life of a component, stay after stay
      and the unmount.
    - [natural_life]: such a life follows the protocol of [Component],
      every stay from the initial state of the specification.
    - [editor_in_a_crowd]: the calls of the editor are those of the
      specification, stay by stay. *)

From Stdlib Require Import Floats.
From stdpp Require Import gmap strings.
From S2P Require Import Prelude Number JSMap Events Samples Pinch Handlers System.
From S2P Require Import Gestures Spec Lifecycle FloatLaws Symmetry Simulation Refines.
From S2P Require Import Sessions Natural Worlds Component Page PageWorld Site SiteWorld.

Section life.
Context {N : Type} `{SymmetricNumber N, Host N}.
Implicit Types (ot : option (Spec.State N)) (t : Spec.State N) (acts : list (Action N))
  (evs : list (Editor N * Input N)) (gs : list (Gesture N))
  (st : Container * list (Gesture N)) (stays : list (Container * list (Gesture N))).

(** An input of the user, as it reaches the hook. *)
Definition asInput (x : Editor N * Input N) : Action N := input x.1 x.2.

(** A stay of the hook on a container: the render that puts it there,
    and the gestures of the user that reach it. *)
Definition stayLife st : list (Action N) := render (Some st.1) :: (asInput <$> (st.2 ≫= inputs)).

(** The life of a component: its stays, and the unmount. *)
Definition lifeOf stays : list (Action N) := (stays ≫= stayLife) ++ [unmount].

(** What the specification calls over the stays: for each the calls of
    its machine from the initial state. *)
Definition awaited stays : list (Effect N) :=
  stays ≫= λ st, specTrace (st.2 ≫= inputs) Spec.init.

(** Nothing is deferred. *)
Definition settledSpec ot : Prop :=
  match ot with Some t => t.(Spec.deferred) = [] | None => True end.

Lemma specActAll_app acts1 acts2 ot :
  specActAll (acts1 ++ acts2) ot
  = ((specActAll acts2 (specActAll acts1 ot).1).1,
     (specActAll acts1 ot).2 ++ (specActAll acts2 (specActAll acts1 ot).1).2).
Proof.
  revert ot. induction acts1 as [|a acts1 IH]; intros ot; simpl.
  - by destruct (specActAll acts2 ot).
  - by rewrite IH, <-app_assoc.
Qed.

Lemma lifeProtocol_app acts1 acts2 ot :
  lifeProtocol (acts1 ++ acts2) ot
  ↔ lifeProtocol acts1 ot ∧ lifeProtocol acts2 (specActAll acts1 ot).1.
Proof.
  revert ot. induction acts1 as [|a acts1 IH]; intros ot; simpl; [tauto|].
  rewrite IH. tauto.
Qed.

(** While the component is mounted the protocol of its life is the
    protocol of the inputs, and the specification is its machine. *)
Lemma inputs_life evs t :
  (lifeProtocol (asInput <$> evs) (Some t) ↔ protocol evs t)
  ∧ specActAll (asInput <$> evs) (Some t) = (Some (specRun evs t), specTrace evs t).
Proof.
  revert t. induction evs as [|[ed i] evs IH]; intros t; simpl; [done|].
  change (list_fmap _ _ asInput evs) with (asInput <$> evs).
  destruct (IH (specStep ed i t).1) as [IHp ->]. by rewrite IHp.
Qed.

(** A stay of gestures, from a moment in which nothing is deferred to the
    initial state of the specification. *)
Lemma stay_life st ot :
  Forall fine st.2 → settledSpec ot →
  lifeProtocol (stayLife st) ot
  ∧ specActAll (stayLife st) ot = (Some Spec.init, specTrace (st.2 ≫= inputs) Spec.init).
Proof.
  intros [Hp Hr]%gestures_protocol Hot. unfold stayLife. simpl.
  destruct (inputs_life (st.2 ≫= inputs) Spec.init) as [Hl ->]. rewrite Hr. simpl.
  split; [|done]. split; [by destruct ot|by apply Hl].
Qed.

Lemma stays_life stays ot :
  Forall (λ st, Forall fine st.2) stays → settledSpec ot →
  lifeProtocol (stays ≫= stayLife) ot
  ∧ settledSpec (specActAll (stays ≫= stayLife) ot).1
  ∧ (specActAll (stays ≫= stayLife) ot).2 = awaited stays.
Proof.
  intros Hs. revert ot. induction Hs as [|st stays Hst _ IH]; intros ot Hot; [done|].
  unfold awaited. rewrite !bind_cons, lifeProtocol_app, specActAll_app.
  destruct (stay_life st ot Hst Hot) as [Hp ->]. cbn [fst snd].
  destruct (IH (Some Spec.init) eq_refl) as (? & ? & ->). by split_and!.
Qed.

(** The life of a component whose user makes gestures follows the
    protocol, and the specification calls what it calls stay by stay. *)
Lemma natural_life stays :
  Forall (λ st, Forall fine st.2) stays →
  lifeProtocol (lifeOf stays) None ∧ (specActAll (lifeOf stays) None).2 = awaited stays.
Proof.
  intros Hs. destruct (stays_life stays None Hs I) as (Hp & Hq & Hc).
  unfold lifeOf. rewrite lifeProtocol_app, specActAll_app, Hc. cbn [fst snd].
  split; [|by rewrite app_nil_r]. split; [done|].
  by destruct (specActAll (stays ≫= stayLife) None).1.
Qed.

(** C2. An editor in a crowd.  On a page with any number of editors,
    whatever renders, unmounts, events and frames happen, if what
    reaches one editor is a life of stays, each the render of its hook on
    a container and then gestures of the user (frames, wheel events, taps
    of one finger, pinches of two with whatever other fingers move), and
    in the end its unmount, then the calls made on that editor are
    exactly those of the specification, for each stay from its initial
    state.  Nothing is assumed of a protocol, nor of what reaches the
    other editors. *)
Theorem editor_in_a_crowd k (acts : list (SiteAction N)) stays :
  views k emptySite acts = lifeOf stays →
  Forall (λ st, Forall fine st.2) stays →
  callsOf k (siteAll acts emptySite).2 = awaited stays.
Proof.
  intros Hv [Hp Hc]%natural_life. rewrite <-Hc, <-Hv.
  destruct (siteAll_projects k acts emptySite unmounted orderly_emptySite (stands_emptySite k))
    as [_ ->].
  rewrite <-Hv in Hp. by destruct (actAll_simulation _ unmounted None matches_unmounted Hp) as [_ ->].
Qed.

End life.

(** ** On JavaScript numbers *)

Local Open Scope float_scope.

(** Editor 2 is rendered inside editor 1, and editor 3 beside them, on the
    element 3.  The user makes the gestures of [afternoon] on editor 3;
    in the middle of them a finger lands on editor 2, and afterwards two
    fingers spread there. *)
Definition crowd : list (SiteAction float) :=
  [s_render 1 (Some 1%nat); s_render 2 (Some 2%nat); s_render 3 (Some 3%nat)]
  ++ (onPath [3%nat] (focusOn 3) <$> take 4 (afternoon ≫= inputs).*2)
  ++ [s_event [2; 1]%nat (focusOn 3) (pointerdown (finger 9 0 0))]
  ++ (onPath [3%nat] (focusOn 3) <$> drop 4 (afternoon ≫= inputs).*2)
  ++ [s_event [2; 1]%nat (focusOn 3) (pointerup (finger 9 0 0))]
  ++ (onPath [2; 1]%nat (focusOn 2) <$> spread)
  ++ [s_unmount 3].

(** What reaches editor 3: its gestures, and the frame of the others. *)
Definition crowdStays : list (Container * list (Gesture float)) :=
  [(containerOf blank, afternoon ++ [g_frame editorBlurred])].

Lemma editor_in_a_crowd_witness :
  callsOf 3 (siteAll crowd emptySite).2 = awaited crowdStays.
Proof.
  apply (editor_in_a_crowd 3 crowd crowdStays).
  - by vm_compute.
  - by apply (bool_decide_unpack _); vm_compute.
Defined.

(** The pinch of editor 3 is its own; the fingers on editor 2 pinch on
    editor 2 and on editor 1 around it. *)
Example crowd_calls :
  summary (siteAll crowd emptySite).2
  = [(3, None); (3, Some pinch_start); (3, Some pinch); (3, Some pinch_end);
     (2, Some pinch_start); (1, Some pinch_start); (2, Some pinch); (1, Some pinch);
     (2, Some pinch_end); (1, Some pinch_end)]%nat.
Proof. by vm_compute. Qed.
