(* ===== verification/Apart.v ===== *)
(** * Apart: among the others every hook is as if alone

    [SiteWorld] gives every editor of a site its world.  More is true
    when no wheel event meets two containers on its way up: the calls
    made on an editor are those of the page of [Page] on which its
    component is alone, with the renders and unmounts of that component,
    the events on the elements of their paths, and the frames.  So what
    [PageWorld] and [Journey] prove of one hook on its page holds of each
    hook of such a site, with editors side by side or one inside another.

    - [only k], [alone k]: what the actions of the site are on the page
      of the component [k] alone.
    - [apart]: a wheel event has one container at most on its path.
    - [beside]: the invariant that relates the site to the page of one
      component; [containerAfter] is how the container of a component
      changes.
    - [hook_as_if_alone]: the calls agree.  [nested_wheel_is_not_alone]
      shows that the condition is needed. *)

From Stdlib Require Import Floats.
From stdpp Require Import gmap strings.
From S2P Require Import Prelude Number JSMap Events Samples Pinch Handlers System.
From S2P Require Import Gestures Spec Lifecycle FloatLaws Symmetry Simulation Refines.
From S2P Require Import Sessions Natural Worlds Component Page PageWorld Journey Site SiteWorld.

Section apart.
Context {N : Type} `{Number N, Host N}.
Implicit Types (site : Site N) (d : Page N) (w : World N) (i : Input N)
  (eds : nat → Editor N) (el id k : nat) (path : list nat) (cs : gset nat)
  (a : SiteAction N) (acts : list (SiteAction N)).

(** What an action of the site is on the page of the component [k]
    alone: its renders and unmounts, an event on every element of its
    path, and the frames. *)
Definition only k a : list (PageAction N) :=
  match a with
  | s_render k' container =>
      if decide (k' = k) then [p_render {| dep_editor := k; dep_container := container |}]
      else []
  | s_unmount k' => if decide (k' = k) then [p_unmount] else []
  | s_event path eds i => (λ el, p_event el (eds k) i) <$> path
  | s_frame eds => [p_frame (eds k)]
  end.

Definition alone k acts : list (PageAction N) := acts ≫= only k.

(** The container of a render. *)
Definition rendersOn a : list nat :=
  match a with
  | s_render _ (Some el) => [el]
  | _ => []
  end.

(** The elements that are the container of a component at some time. *)
Definition containersOf acts : gset nat := list_to_set (acts ≫= rendersOn).

(** A wheel event has one container at most on its path: an editor that
    handles it stops it there. *)
Definition apartAt cs a : Prop :=
  match a with
  | s_event path _ (wheel _) => length (filter (.∈ cs) path) ≤ 1
  | _ => True
  end.

#[export] Instance apartAt_dec cs a : Decision (apartAt cs a).
Proof. destruct a as [| |path eds []|]; simpl; apply _. Defined.

Definition apart acts : Prop := Forall (apartAt (containersOf acts)) acts.

#[export] Instance apart_dec acts : Decision (apart acts).
Proof. unfold apart. apply _. Defined.

(** The site and the page of the component [k] alone. *)
Record beside k cs site d : Prop := {
  beside_orderly : orderly site;
  beside_neat : neat d;
  beside_container : containerAt k site = fst <$> d.(mounted);
  beside_hooks k' el : containerAt k' site = Some el → el ∈ cs;
}.

(** The container of the component [k] after an action, from the one
    before it. *)
Definition containerAfter k a (container : option nat) : option nat :=
  match a with
  | s_render k' container' => if decide (k' = k) then container' else container
  | s_unmount k' => if decide (k' = k) then None else container
  | _ => container
  end.

End apart.

(** ** The page of one component *)

Section alone_facts.
Context {N : Type} `{Number N, Host N}.
Implicit Types (site : Site N) (d : Page N) (w : World N) (i : Input N)
  (eds : nat → Editor N) (el id k : nat) (path : list nat) (cs : gset nat)
  (a : SiteAction N) (acts : list (SiteAction N)).

(** The effect sets the styles of its container: what they were does
    not show in the world. *)
Lemma act_render_containerOf (f g : nat → Element) (container : option nat) w :
  act (render ((λ el, containerOf (f el)) <$> container)) w
  = act (render ((λ el, containerOf (g el)) <$> container)) w.
Proof. by destruct container. Qed.

Lemma mount_container (deps : DomDeps) d :
  fst <$> (mount deps d).(mounted) = deps.(dep_container).
Proof. unfold mount. by destruct deps.(dep_container). Qed.

Lemma toWorlds_app (acts1 acts2 : list (PageAction N)) d :
  toWorlds d (acts1 ++ acts2) = toWorlds d acts1 ++ toWorlds (pageAll acts1 d).1 acts2.
Proof.
  revert d. induction acts1 as [|a acts1 IH]; intros d; [done|].
  simpl. by rewrite IH, app_assoc.
Qed.

Lemma dispatchEvent_mounted el ed i d :
  neat d → (dispatchEvent el ed i d).1.(mounted) = d.(mounted).
Proof.
  intros Hd. destruct (decide (isFrame i)) as [Hi|Hi]; [by destruct i|].
  destruct (onContainer el d) eqn:Hel.
  - destruct (onContainer_true el d Hel) as [id Hm].
    rewrite (dispatchEvent_container el id) by done. apply invoke_mounted.
  - by rewrite dispatchEvent_elsewhere by (done || by apply onContainer_false).
Qed.

(** The events on the elements of a path, on the page of one component:
    the one on its container counts. *)
Lemma path_alone (ed : Editor N) i path d :
  neat d →
  toWorlds d ((λ el, p_event el ed i) <$> path)
  = path ≫= (λ el, if onContainer el d && bool_decide (¬ isFrame i) then [input ed i] else [])
  ∧ neat (pageAll ((λ el, p_event el ed i) <$> path) d).1
  ∧ (pageAll ((λ el, p_event el ed i) <$> path) d).1.(mounted) = d.(mounted).
Proof.
  revert d. induction path as [|el path IH]; intros d Hd; [done|].
  rewrite fmap_cons, bind_cons. cbn [toWorlds pageAll toWorld pageAct fst].
  pose proof (dispatchEvent_mounted el ed i d Hd) as Hm.
  destruct (IH _ (dispatchEvent_neat el ed i d Hd)) as (-> & Hn & ->).
  split_and!; [|done..]. f_equal. unfold onContainer. by rewrite Hm.
Qed.

End alone_facts.

(** ** The site, seen from one component *)

Section beside_facts.
Context {N : Type} `{Number N, Host N}.
Implicit Types (site : Site N) (d : Page N) (w : World N) (i : Input N)
  (eds : nat → Editor N) (el id k : nat) (path : list nat) (cs : gset nat)
  (a : SiteAction N) (acts : list (SiteAction N)).

Lemma bind_none {A B} (f : A → list B) (l : list A) :
  Forall (λ x, f x = []) l → l ≫= f = [].
Proof. induction 1 as [|x l Hx _ IH]; [done|]. by rewrite bind_cons, Hx, IH. Qed.

Lemma beside_empty k cs : beside (N := N) k cs emptySite emptyPage.
Proof. split; [apply orderly_emptySite|apply neat_emptyPage|done|done]. Qed.

(** An element on which an editor handles the event is a container. *)
Lemma handledOn_container k cs site d el eds i :
  beside k cs site d → handledOn el eds i site = true → el ∈ cs.
Proof.
  intros Hb (k' & Hk' & _)%existsb_exists. unfold editorsOn in Hk'.
  apply list_elem_of_In, list_elem_of_fmap in Hk' as (id & _ & Hid).
  apply elem_of_liveOn in Hid; [|apply Hb]. apply (beside_hooks k cs site d Hb (editorOf id site.(page))).
  unfold containerAt. by rewrite Hid.
Qed.

Lemma heardAt_container k cs site d el eds i :
  beside k cs site d → heardAt k site eds i el ≠ [] → el ∈ cs.
Proof.
  intros Hb. unfold heardAt. case_decide as Hel; [|done]. intros _.
  by apply (beside_hooks k cs site d Hb k).
Qed.

(** A path without containers is heard by no component. *)
Lemma heardAt_others k cs site d eds i path :
  beside k cs site d → filter (.∈ cs) path = [] → path ≫= heardAt k site eds i = [].
Proof.
  intros Hb Hp. apply bind_none, Forall_forall. intros el Hel.
  destruct (heardAt k site eds i el) eqn:Hh; [done|].
  assert (el ∈ filter (.∈ cs) path) as Hin; [|by rewrite Hp in Hin; apply elem_of_nil in Hin].
  apply list_elem_of_filter. split; [|done]. eapply heardAt_container; [done|]. by rewrite Hh.
Qed.

(** Where the event is stopped does not matter to the components, when
    the path has one container at most. *)
Lemma bind_upTo_one k cs site d eds i path :
  beside k cs site d → length (filter (.∈ cs) path) ≤ 1 →
  upTo (λ el, handledOn el eds i site) path ≫= heardAt k site eds i
  = path ≫= heardAt k site eds i.
Proof.
  intros Hb. induction path as [|el path IH]; [done|]. intros Hp.
  cbn [upTo]. rewrite !bind_cons. f_equal. destruct (handledOn el eds i site) eqn:Hh.
  - symmetry. apply (heardAt_others k cs site d); [done|].
    rewrite filter_cons_True in Hp by by apply (handledOn_container k cs site d el eds i).
    apply nil_length_inv. simpl in Hp. lia.
  - apply IH. rewrite filter_cons in Hp. case_decide; simpl in Hp; lia.
Qed.

Lemma bind_upTo k cs site d eds i path :
  beside k cs site d → apartAt cs (s_event path eds i) →
  upTo (λ el, handledOn el eds i site) path ≫= heardAt k site eds i
  = path ≫= heardAt k site eds i.
Proof.
  intros Hb Ha. destruct i; try by apply (bind_upTo_one k cs site d).
  all: rewrite (upTo_ext _ (λ _, false)), upTo_nowhere; [done|].
  all: intros el; by apply handledOn_pointer.
Qed.

Lemma onContainer_containerAt k cs site d el :
  beside k cs site d → onContainer el d = bool_decide (containerAt k site = Some el).
Proof.
  intros Hb. rewrite (beside_container k cs site d Hb). unfold onContainer.
  destruct d.(mounted) as [[el' id]|]; simpl; [|done].
  apply bool_decide_ext. naive_solver.
Qed.

(** An event, for the component [k]: on the site and on its page. *)
Lemma event_beside k cs site d path eds i :
  beside k cs site d → apartAt cs (s_event path eds i) →
  viewOf k site (s_event path eds i) = toWorlds d (only k (s_event path eds i)).
Proof.
  intros Hb Ha. pose proof Hb as [Hs Hd Hc Hh].
  destruct (path_alone (eds k) i path d Hd) as (Hv & _).
  cbn [viewOf only]. rewrite Hv, reach_upTo by done. case_decide as Hi.
  - symmetry. apply bind_none, Forall_forall. intros el _.
    by rewrite bool_decide_false, andb_false_r by tauto.
  - rewrite (bind_upTo k cs site d) by done. apply list_bind_ext; [|done].
    intros el. rewrite (onContainer_containerAt k cs site d) by done.
    rewrite (bool_decide_true (¬ _)), andb_true_r by done. unfold heardAt.
    by case_decide; [rewrite bool_decide_true|rewrite bool_decide_false].
Qed.

(** An action, for the component [k]: the world is the same after it. *)
Lemma view_beside k cs site d a w :
  beside k cs site d → apartAt cs a →
  actAll (viewOf k site a) w = actAll (toWorlds d (only k a)) w.
Proof.
  intros Hb Ha. destruct a as [k' container|k'|path eds i|eds].
  - cbn [viewOf only]. case_decide; [|done]. cbn [toWorlds toWorld actAll dep_container].
    by rewrite app_nil_r, (act_render_containerOf _ (λ el, elementAt el d)).
  - cbn [viewOf only]. by case_decide.
  - by rewrite (event_beside k cs site d).
  - done.
Qed.

Lemma containerAt_act k a site :
  containerAt k (siteAct a site).1 = containerAfter k a (containerAt k site).
Proof.
  unfold containerAt. destruct a as [k' container|k'|path eds i|eds]; [| |done..];
    cbn [siteAct containerAfter fst mountAt unmountAt store hooks];
    (case_decide as Hk; [subst k'|by rewrite !lookup_partial_alter_ne by done]);
    rewrite !lookup_partial_alter_eq.
  - apply mount_container.
  - by rewrite dismount_mounted.
Qed.

Lemma only_mounted k a d :
  neat d →
  fst <$> (pageAll (only k a) d).1.(mounted) = containerAfter k a (fst <$> d.(mounted)).
Proof.
  intros Hd. destruct a as [k' container|k'|path eds i|eds]; cbn [only containerAfter].
  - case_decide; [|done]. apply mount_container.
  - case_decide; [|done]. cbn [pageAll pageAct fst]. by rewrite dismount_mounted.
  - by destruct (path_alone (eds k) i path d Hd) as (_ & _ & ->).
  - cbn [pageAll pageAct fst]. by rewrite runFrame_eq by apply Hd.
Qed.

(** The invariant holds after an action, when the container of its
    render is one of the containers. *)
Lemma beside_act k cs site d a :
  beside k cs site d → Forall (.∈ cs) (rendersOn a) →
  beside k cs (siteAct a site).1 (pageAll (only k a) d).1.
Proof.
  intros [Hs Hd Hc Hh] Hr. split.
  - by apply siteAct_orderly.
  - by apply pageAll_neat.
  - by rewrite containerAt_act, only_mounted, Hc.
  - intros k' el. rewrite containerAt_act.
    destruct a as [k'' [el'|]|k''| |]; cbn [containerAfter]; try case_decide; try done;
      try apply Hh.
    intros [= <-]. by apply (Forall_singleton (.∈ cs)) in Hr.
Qed.

Lemma views_beside k cs site d acts w :
  beside k cs site d → Forall (apartAt cs) acts → Forall (.∈ cs) (acts ≫= rendersOn) →
  actAll (views k site acts) w = actAll (toWorlds d (alone k acts)) w.
Proof.
  revert site d w. induction acts as [|a acts IH]; intros site d w Hb Ha Hr; [done|].
  apply Forall_cons in Ha as [Ha Has]. rewrite bind_cons in Hr. apply Forall_app in Hr as [Hr Hrs].
  unfold alone. rewrite bind_cons. cbn [views]. rewrite toWorlds_app, !actAll_app.
  rewrite (view_beside k cs site d a w) by done.
  by rewrite (IH _ (pageAll (only k a) d).1) by (done || by apply beside_act).
Qed.

(** C7. Among the others every hook is as if alone.  When no wheel event
    meets two containers on its way up, the calls made on the editor of a
    component of the site are the calls made on the page on which that
    component is alone, with its renders and unmounts, the events on the
    elements of their paths and the frames: what the hooks of the other
    components do, around it, inside it or beside it, does not show. *)
Theorem hook_as_if_alone k acts :
  apart acts →
  callsOf k (siteAll acts emptySite).2 = (pageAll (alone k acts) emptyPage).2.*2.
Proof.
  intros Ha.
  destruct (siteAll_projects k acts emptySite unmounted orderly_emptySite (stands_emptySite k))
    as [_ ->].
  destruct (pageAll_simulation (alone k acts) emptyPage unmounted neat_emptyPage stands_emptyPage)
    as [_ ->].
  f_equal. apply (views_beside k (containersOf acts)); [apply beside_empty|done|].
  apply Forall_forall. intros el. unfold containersOf. by rewrite elem_of_list_to_set.
Qed.

End beside_facts.

(** ** On JavaScript numbers *)

Local Open Scope float_scope.

(** Editors 1 and 2 side by side in the element 0, and editor 3 inside
    editor 2.  The user pinches on editor 3, and so on editor 2, turns
    the wheel over editor 1, and pinches there. *)
Definition besides : list (SiteAction float) :=
  [s_render 1 (Some 1%nat); s_render 2 (Some 2%nat); s_render 3 (Some 3%nat)]
  ++ (onPath [3; 2; 0]%nat (focusOn 3) <$> spread)
  ++ [s_event [1; 0]%nat (focusOn 1) (wheel (wheelAt 0 0 0 10))]
  ++ (onPath [1; 0]%nat (focusOn 1) <$> spread)
  ++ [s_unmount 3; s_unmount 1; s_unmount 2].

Lemma hook_as_if_alone_witness :
  callsOf 2 (siteAll besides emptySite).2 = (pageAll (alone 2 besides) emptyPage).2.*2.
Proof. apply (hook_as_if_alone 2 besides). by apply (bool_decide_unpack _); vm_compute. Defined.

Example besides_calls :
  summary (siteAll besides emptySite).2
  = [(3, Some pinch_start); (2, Some pinch_start); (3, Some pinch); (2, Some pinch);
     (3, Some pinch_end); (2, Some pinch_end);
     (1, None); (1, Some pinch_start); (1, Some pinch); (1, Some pinch_end)]%nat.
Proof. by vm_compute. Qed.

(** The condition is needed.  Editor 2 is inside editor 1 and both have
    the focus: the inner editor handles the wheel event and stops it, so
    the outer editor, which alone on its page would handle it, is not
    called. *)
Definition bothFocused : list (SiteAction float) :=
  [s_render 1 (Some 1%nat); s_render 2 (Some 2%nat);
   s_event [2; 1]%nat (λ _, editorAt 1 1) (wheel (wheelAt 0 0 0 10))].

Example nested_wheel_is_not_alone :
  ¬ apart bothFocused
  ∧ callsOf 1 (siteAll bothFocused emptySite).2 = []
  ∧ length (pageAll (alone 1 bothFocused) emptyPage).2 = 3%nat.
Proof. split; [|by vm_compute]. by apply (bool_decide_unpack _); vm_compute. Qed.
