(* ===== verification/FloatRuns.v ===== *)
(** * FloatRuns: the hook on JavaScript numbers

    What is particular to binary64: where exactly the thresholds of the
    classifier fall, and what the hook reports when a distance is zero, so
    that the quotient of the distances is infinite or not a number.  Every
    run here is evaluated on [float] by the kernel. *)

From S2P Require Import Prelude Number JSMap Events Samples Pinch Handlers System Gestures.
From Stdlib Require Import Floats.

Local Open Scope float_scope.

(** ** NaN *)

(** The specification of a NaN: its comparisons are all false. *)
Lemma SFltb_nan_l x : SFltb S754_nan x = false.
Proof. done. Qed.

Lemma SFltb_nan_r x : SFltb x S754_nan = false.
Proof. by destruct x. Qed.

Lemma SFeqb_refl_false x : SFeqb x x = false → x = S754_nan.
Proof.
  destruct x as [[]|[]| |[] m e]; try done; unfold SFeqb; simpl;
    rewrite Z.compare_refl, Pos.compare_cont_refl; done.
Qed.

(** There is one NaN. *)
Lemma is_nan_eq (f : float) : PrimFloat.is_nan f = true → f = PrimFloat.nan.
Proof.
  unfold PrimFloat.is_nan. rewrite negb_true_iff, FloatAxioms.eqb_spec.
  intros Hf%SFeqb_refl_false. by rewrite <-(SF2Prim_Prim2SF f), Hf.
Qed.

Lemma gt_nan_l (f : float) : (PrimFloat.nan >? f)%num = false.
Proof. simpl. rewrite ltb_spec. apply SFltb_nan_r. Qed.

Lemma gt_nan_r (f : float) : (f >? PrimFloat.nan)%num = false.
Proof. simpl. rewrite ltb_spec. apply SFltb_nan_l. Qed.

(** On JavaScript numbers, a change of the fingers' distance that is
    not a number never starts a zoom, and a drift of the centre that is not
    a number never starts a pan: the classifier treats NaN as no movement. *)
Theorem nan_is_no_movement (st : PinchState) (t o : float) :
  (PrimFloat.is_nan t = true → nextPinchState st t o = nextPinchState st 0 o)
  ∧ (PrimFloat.is_nan o = true → nextPinchState st t o = nextPinchState st t 0).
Proof.
  split; intros ->%is_nan_eq; destruct st; simpl; by rewrite ?gt_nan_l.
Qed.

(** ** The thresholds *)

(** Finger 2 of [twoDown] (fingers at [(0, 0)] and [(100, 0)]) moves to
    [(px, py)]. *)
Definition moveTo (px py : float) : list (Editor float * Input float) :=
  [(editorAt 1 1, pointermove (finger 2 px py))].

(** The thresholds are strict.  With the fingers 100 pixels apart at
    the start: a distance of 124 leaves the pinch ['not sure'] and 124.5
    makes it a zoom; a drift of the centre of exactly 16 leaves it ['not
    sure'] and 16.5 makes it a pan; once panning, a change of distance of 64
    keeps the pan and 65 makes it a zoom; and bringing the fingers back to
    where they started keeps the pan. *)
Example threshold_boundaries :
  (run (moveTo 124 0) twoDown).(pinchState) = not_sure
  ∧ (run (moveTo 124.5 0) twoDown).(pinchState) = zooming
  ∧ (run (moveTo 100 32) twoDown).(pinchState) = not_sure
  ∧ originDistance (run (moveTo 100 32) twoDown) = 16
  ∧ (run (moveTo 100 33) twoDown).(pinchState) = panning
  ∧ (run (moveTo 100 33 ++ moveTo 164 0) twoDown).(pinchState) = panning
  ∧ (run (moveTo 100 33 ++ moveTo 165 0) twoDown).(pinchState) = zooming
  ∧ (run (moveTo 100 33 ++ moveTo 100 0) twoDown).(pinchState) = panning.
Proof. by vm_compute. Qed.

(** The zoom of the spec's example: from zoom 1 with the fingers 100
    pixels apart, a distance of 150 at zoom speed 1 gives
    [1 * (150 / 100) ** 1 = 1.5]; at zoom speed 2 it gives 2.25, and the
    pan that precedes a zoom keeps reporting the initial zoom. *)
Example zoom_computation :
  dispatched (trace (moveTo 150 0) twoDown)
    = [pinchInfo pinch (mkVecModel 75 0 (Some 1.5)) (mkVecModel 25 0 None)
         (finger 2 150 0)]
  ∧ dispatched (trace [(editorAt 1 2, pointermove (finger 2 150 0))] twoDown)
    = [pinchInfo pinch (mkVecModel 75 0 (Some 2.25)) (mkVecModel 25 0 None)
         (finger 2 150 0)]
  ∧ dispatched (trace (moveTo 100 33) twoDown)
    = [pinchInfo pinch (mkVecModel 50 16.5 (Some 1)) (mkVecModel 0 16.5 None)
         (finger 2 100 33)].
Proof. by vm_compute. Qed.

(** ** Fingers that start at the same point *)

Definition coincident : list (Editor float * Input float) :=
  [(editorAt 1 1, pointerdown (finger 1 10 10));
   (editorAt 1 1, pointerdown (finger 2 10 10))].

(** Two pointers that go down at the same point start a pinch with the
    initial distance 0, and the hook divides by it: released at once, the
    pinch ends with the zoom [1 * (0 / 0) ** 1], which is NaN; spread by 30
    pixels, it reports the zoom [1 * (30 / 0) ** 1], which is infinite. *)
Example coincident_fingers :
  pinches pinch_end
    (trace (coincident ++ [(editorAt 1 1, pointerup (finger 2 10 10));
                           (editorAt 1 1, animationFrame)]) initialState)
    = [{| pinch_name := pinch_end;
          pinch_point := mkVecModel 10 10 (Some PrimFloat.nan);
          pinch_delta := mkVecModel 10 10 None;
          pinch_keys := eventKeys (mouseAt 10 10) |}]
  ∧ pinches pinch
      (trace (coincident ++ [(editorAt 1 1, pointermove (finger 2 40 10))]) initialState)
    = [{| pinch_name := pinch;
          pinch_point := mkVecModel 25 10 (Some PrimFloat.infinity);
          pinch_delta := mkVecModel 15 0 None;
          pinch_keys := eventKeys (mouseAt 40 10) |}].
Proof. by vm_compute. Qed.

(** ** A third finger *)

Definition threeFingers : list (Editor float * Input float) :=
  [(editorAt 1 1, pointerdown (finger 1 0 0));
   (editorAt 1 1, pointerdown (finger 2 100 0));
   (editorAt 1 1, pointerdown (finger 3 200 0));
   (editorAt 1 1, pointerup (finger 1 0 0));
   (editorAt 1 1, animationFrame);
   (editorAt 1 1, pointermove (finger 3 200 10))].

(** With three pointers down, lifting the first one ends no pinch: no
    [pinch_end] is requested, the two pointers that remain are read as the
    fingers of the pinch that was started by the first two, and the next
    move reports a pan of 100 pixels, the distance between the old and the
    new pair's midpoints, without a [pinch_start] for the new pair. *)
Example third_finger_continues_pinch :
  let evs := threeFingers in
  dispatched (trace evs initialState)
    = [pinchInfo pinch_start (mkVecModel 50 0 (Some 1)) (mkVecModel 0 0 None)
         (finger 2 100 0);
       pinchInfo pinch (mkVecModel 150 5 (Some 1)) (mkVecModel 100 5 None)
         (finger 3 200 10)]
  ∧ JSMap.keys (run evs initialState).(activePointers) = [2%Z; 3%Z]
  ∧ (run evs initialState).(pinchState) = panning.
Proof. by vm_compute. Qed.

(** ** The wheel *)

Definition scrollUp : Input float := wheel (wheelAt 5 6 0 (-3)).

(** Wheel events on concrete inputs: over the canvas, one [wheel]
    event after [preventDefault] and [stopEventPropagation]; over the
    scrollable shape being edited, nothing, and outside its bounds the
    event again; with a zero delta, no event; without the focus, nothing at
    all.  The pinch state is reset whenever the editor has the focus, also
    when the event is left to the browser. *)
Example wheel_runs :
  trace [(editorAt 1 1, scrollUp)] spread
    = [PreventDefault; StopEventPropagation;
       Dispatch (WheelInfo {| wheel_delta := mkVecModel (-0) 3 None;
                              wheel_point := mkVec 5 6;
                              wheel_keys := eventKeys (mouseAt 5 6) |})]
  ∧ trace [(editorEditing 50 50, scrollUp)] spread = []
  ∧ trace [(editorEditing 150 50, scrollUp)] spread
    = [PreventDefault; StopEventPropagation;
       Dispatch (WheelInfo {| wheel_delta := mkVecModel (-0) 3 None;
                              wheel_point := mkVec 5 6;
                              wheel_keys := eventKeys (mouseAt 5 6) |})]
  ∧ trace [(editorAt 1 1, wheel (wheelAt 5 6 0 0))] spread
    = [PreventDefault; StopEventPropagation]
  ∧ trace [(editorBlurred, scrollUp)] spread = []
  ∧ (run [(editorEditing 50 50, scrollUp)] spread).(pinchState)
    = not_sure
  ∧ (run [(editorBlurred, scrollUp)] spread).(pinchState) = zooming.
Proof. by vm_compute. Qed.
