(* ===== verification/Ideal.v ===== *)
(** * Ideal: the pinch classifier in exact arithmetic

    What the thresholds of the classifier mean geometrically.  The hook is
    instantiated at the real numbers, where a distance is the Euclidean
    one and no operation rounds, and the measurements of [updatePinchState]
    are bounded by how far the fingers have travelled since the pinch
    started:

    - the change of the fingers' distance is at most the sum of the two
      fingers' travels, and the drift of their midpoint at most half of it;
    - so a pinch stays ['not sure'] while the fingers have travelled 24
      pixels or less in total, a zoom needs more than 24 and a pan more
      than 32;
    - the zoom reported is [initZoom] at the initial distance and grows
      with the distance of the fingers.

    The reals have no infinity and no NaN: [x / 0] and [0 ** e] for a
    negative [e] are numbers here, so the theorems on the zoom assume a
    positive initial distance.  The classifier's theorems need no such
    assumption. *)

From S2P Require Import Prelude Number JSMap Events Pinch Handlers System Symmetry.
From Stdlib Require Import Reals Lra.

(** ** The real numbers as the numbers of the hook *)

#[export] Instance Rlt_decision (x y : R) : Decision (x < y)%R := Rlt_dec x y.
#[export] Instance R_eq_dec : EqDecision R := Req_dec_T.

(** [b ** e] for a base that is not negative: the distances and their
    quotient never are. *)
Definition R_pow (b e : R) : R :=
  if decide (e = 0%R) then 1%R
  else if decide (0 < b)%R then Rpower b e
  else 0%R.

#[export] Instance R_Number : Number R := {|
  n_of_Z := IZR;
  nadd := Rplus;
  nsub := Rminus;
  nmul := Rmult;
  ndiv := Rdiv;
  npow := R_pow;
  nsqrt := sqrt;
  nabs := Rabs;
  ngtb := λ x y, bool_decide (y < x)%R;
  neqb := λ x y, bool_decide (x = y);
|}.

#[export] Instance R_Symmetric : SymmetricNumber R.
Proof. split; intros a b; simpl; ring. Qed.

(** The pointer [id] at [(px, py)], no modifier key held. *)
Definition pointerAt (id : Z) (px py : R) : DOM.PointerEvent R := {|
  DOM.pointerId := id;
  DOM.pointer_mouse := {|
    DOM.clientX := px; DOM.clientY := py;
    DOM.shiftKey := false; DOM.altKey := false;
    DOM.ctrlKey := false; DOM.metaKey := false |};
|}.

(** How far the pointer has travelled from [p] to [q]. *)
Definition travel (p q : DOM.PointerEvent R) : R :=
  dist_euc p.(DOM.clientX) p.(DOM.clientY) q.(DOM.clientX) q.(DOM.clientY).

(** ** Distances *)

Section distances.
Implicit Types (p q : DOM.PointerEvent R) (s : State R) (A B : Vec R).
Local Open Scope R_scope.

Lemma getPointerDistance_dist_euc p1 p2 :
  getPointerDistance p1 p2
    = dist_euc p1.(DOM.clientX) p1.(DOM.clientY) p2.(DOM.clientX) p2.(DOM.clientY).
Proof. done. Qed.

Lemma Vec_Dist_dist_euc A B :
  Vec_Dist A B = dist_euc A.(vec_x) A.(vec_y) B.(vec_x) B.(vec_y).
Proof. done. Qed.

Lemma dist_euc_nonneg x0 y0 x1 y1 : 0 <= dist_euc x0 y0 x1 y1.
Proof. apply sqrt_pos. Qed.

(** Halving both coordinates halves the distance. *)
Lemma dist_euc_half x0 y0 x1 y1 :
  dist_euc (x0 / 2) (y0 / 2) (x1 / 2) (y1 / 2) = dist_euc x0 y0 x1 y1 / 2.
Proof.
  unfold dist_euc.
  replace ((x0 / 2 - x1 / 2)² + (y0 / 2 - y1 / 2)²)
    with (((x0 - x1)² + (y0 - y1)²) * (/ 2)²) by (unfold Rsqr; field).
  rewrite sqrt_mult_alt by (apply Rplus_le_le_0_compat; apply Rle_0_sqr).
  rewrite sqrt_Rsqr by lra. done.
Qed.

(** The distance of two sums is at most the sum of the distances. *)
Lemma dist_euc_add a1 b1 a2 b2 c1 d1 c2 d2 :
  dist_euc (a1 + a2) (b1 + b2) (c1 + c2) (d1 + d2)
    <= dist_euc a1 b1 c1 d1 + dist_euc a2 b2 c2 d2.
Proof.
  etrans; [apply (triangle _ _ _ _ (c1 + a2) (d1 + b2))|].
  apply Req_le. unfold dist_euc. f_equal; f_equal; unfold Rsqr; ring.
Qed.

(** The distance of two fingers changes by at most their travels. *)
Lemma distance_change p1 p2 q1 q2 :
  Rabs (getPointerDistance q1 q2 - getPointerDistance p1 p2)
    <= travel p1 q1 + travel p2 q2.
Proof.
  rewrite !getPointerDistance_dist_euc. unfold travel.
  destruct p1 as [i1 [x1 y1]], p2 as [i2 [x2 y2]], q1 as [j1 [u1 v1]], q2 as [j2 [u2 v2]];
    simpl.
  pose proof (triangle u1 v1 u2 v2 x1 y1). pose proof (triangle x1 y1 u2 v2 x2 y2).
  pose proof (triangle x1 y1 x2 y2 u1 v1). pose proof (triangle u1 v1 x2 y2 u2 v2).
  rewrite (distance_symm u1 v1 x1 y1), (distance_symm u2 v2 x2 y2) in *.
  apply Rabs_le. lra.
Qed.

(** The midpoint of two fingers drifts by at most half their travels. *)
Lemma midpoint_drift p1 p2 q1 q2 :
  Vec_Dist (getPointerCenter p1 p2) (getPointerCenter q1 q2)
    <= (travel p1 q1 + travel p2 q2) / 2.
Proof.
  rewrite Vec_Dist_dist_euc. unfold getPointerCenter, travel; simpl.
  rewrite dist_euc_half. pose proof (dist_euc_add
    (DOM.clientX p1) (DOM.clientY p1) (DOM.clientX p2) (DOM.clientY p2)
    (DOM.clientX q1) (DOM.clientY q1) (DOM.clientX q2) (DOM.clientY q2)).
  lra.
Qed.

(** A pinch that started with the fingers at [p1] and [p2]. *)
Definition startedAt p1 p2 s : Prop :=
  s.(pinchState) = not_sure
  ∧ s.(initDistanceBetweenFingers) = getPointerDistance p1 p2
  ∧ s.(initPointBetweenFingers) = getPointerCenter p1 p2.

(** The measurements of the classifier when the fingers are at [q1], [q2]. *)
Lemma touchDistance_pinchMeasured q1 q2 s :
  touchDistance (pinchMeasured q1 q2 s)
    = Rabs (getPointerDistance q1 q2 - s.(initDistanceBetweenFingers)).
Proof. done. Qed.

Lemma originDistance_pinchMeasured q1 q2 s :
  originDistance (pinchMeasured q1 q2 s)
    = Vec_Dist s.(initPointBetweenFingers) (getPointerCenter q1 q2).
Proof. done. Qed.

Lemma measurements_travel p1 p2 q1 q2 s :
  startedAt p1 p2 s →
  touchDistance (pinchMeasured q1 q2 s) <= travel p1 q1 + travel p2 q2
  ∧ originDistance (pinchMeasured q1 q2 s) <= (travel p1 q1 + travel p2 q2) / 2.
Proof.
  intros (_ & Hd & Hc).
  rewrite touchDistance_pinchMeasured, originDistance_pinchMeasured, Hd, Hc.
  split; [apply distance_change|apply midpoint_drift].
Qed.

(** The comparisons of the classifier. *)
Lemma gt_true (x : R) (z : Z) : (x >? #z)%num = true ↔ IZR z < x.
Proof. simpl. apply bool_decide_eq_true. Qed.

Lemma gt_false (x : R) (z : Z) : (x >? #z)%num = false ↔ x <= IZR z.
Proof. simpl. rewrite bool_decide_eq_false. lra. Qed.

Lemma pinchState_pinchMoved q1 q2 s :
  (pinchMoved q1 q2 s).(pinchState)
    = nextPinchState s.(pinchState) (touchDistance (pinchMeasured q1 q2 s))
        (originDistance (pinchMeasured q1 q2 s)).
Proof. done. Qed.

Lemma moved_not_sure p1 p2 q1 q2 s :
  startedAt p1 p2 s → travel p1 q1 + travel p2 q2 <= 24 →
  (pinchMoved q1 q2 s).(pinchState) = not_sure.
Proof.
  intros Hs Ht. destruct (measurements_travel p1 p2 q1 q2 s Hs) as [Hd Ho].
  destruct Hs as (Hn & _). rewrite pinchState_pinchMoved, Hn.
  apply not_sure_stays; split; apply gt_false; lra.
Qed.

Lemma moved_decided p1 p2 q1 q2 s :
  startedAt p1 p2 s →
  ((pinchMoved q1 q2 s).(pinchState) = zooming → 24 < travel p1 q1 + travel p2 q2)
  ∧ ((pinchMoved q1 q2 s).(pinchState) = panning → 32 < travel p1 q1 + travel p2 q2).
Proof.
  intros Hs. destruct (measurements_travel p1 p2 q1 q2 s Hs) as [Hd Ho].
  destruct Hs as (Hn & _). rewrite pinchState_pinchMoved, Hn.
  split; [intros Hz%not_sure_zooming%gt_true|intros [_ Hp%gt_true]%not_sure_panning]; lra.
Qed.

End distances.

(** ** Pure gestures *)

(** The pointer [p] displaced by [(dx, dy)]. *)
Definition movedBy (dx dy : R) (p : DOM.PointerEvent R) : DOM.PointerEvent R := {|
  DOM.pointerId := p.(DOM.pointerId);
  DOM.pointer_mouse := {|
    DOM.clientX := (p.(DOM.clientX) + dx)%R; DOM.clientY := (p.(DOM.clientY) + dy)%R;
    DOM.shiftKey := p.(DOM.shiftKey); DOM.altKey := p.(DOM.altKey);
    DOM.ctrlKey := p.(DOM.ctrlKey); DOM.metaKey := p.(DOM.metaKey) |};
|}.

Section gestures.
Implicit Types (p q : DOM.PointerEvent R) (s : State R).
Local Open Scope R_scope.

(** Both fingers displaced by the same vector: the distance is kept, and
    the midpoint moves by the length of the vector. *)
Lemma translation_distance dx dy p1 p2 :
  getPointerDistance (movedBy dx dy p1) (movedBy dx dy p2) = getPointerDistance p1 p2.
Proof.
  rewrite !getPointerDistance_dist_euc. unfold dist_euc; simpl.
  f_equal; unfold Rsqr; ring.
Qed.

Lemma translation_midpoint dx dy p1 p2 :
  Vec_Dist (getPointerCenter p1 p2)
           (getPointerCenter (movedBy dx dy p1) (movedBy dx dy p2))
    = sqrt (dx² + dy²).
Proof.
  rewrite Vec_Dist_dist_euc. unfold dist_euc; simpl. f_equal; unfold Rsqr; field.
Qed.

(** The fingers displaced by opposite vectors: the midpoint is kept. *)
Lemma spread_midpoint dx dy p1 p2 :
  Vec_Dist (getPointerCenter p1 p2)
           (getPointerCenter (movedBy (- dx) (- dy) p1) (movedBy dx dy p2)) = 0.
Proof.
  rewrite Vec_Dist_dist_euc. unfold dist_euc; simpl. rewrite <-sqrt_0.
  f_equal; unfold Rsqr; field.
Qed.

(** In exact arithmetic, a pinch whose fingers have both been displaced
    by the same vector since it started is never classified as a zoom, and
    it is classified as a pan exactly when the vector is longer than 16
    pixels. *)
Theorem rigid_translation_pans dx dy p1 p2 s :
  startedAt p1 p2 s →
  (pinchMoved (movedBy dx dy p1) (movedBy dx dy p2) s).(pinchState)
    = if bool_decide (16 < sqrt (dx² + dy²)) then panning else not_sure.
Proof.
  intros (Hn & Hd & Hc). rewrite pinchState_pinchMoved, Hn.
  rewrite touchDistance_pinchMeasured, originDistance_pinchMeasured.
  rewrite Hd, Hc, translation_distance, translation_midpoint, Rminus_diag, Rabs_R0.
  cbn [nextPinchState ngtb n_of_Z R_Number]. by rewrite bool_decide_eq_false_2 by lra.
Qed.

(** In exact arithmetic, a pinch whose fingers have been displaced by
    opposite vectors since it started is never classified as a pan, and it
    is classified as a zoom exactly when the distance of the fingers has
    changed by more than 24 pixels. *)
Theorem symmetric_spread_zooms dx dy p1 p2 s :
  startedAt p1 p2 s →
  let q1 := movedBy (- dx) (- dy) p1 in
  let q2 := movedBy dx dy p2 in
  (pinchMoved q1 q2 s).(pinchState)
    = if bool_decide (24 < Rabs (getPointerDistance q1 q2 - getPointerDistance p1 p2))
      then zooming else not_sure.
Proof.
  intros (Hn & Hd & Hc) q1 q2. subst q1 q2. rewrite pinchState_pinchMoved, Hn.
  rewrite touchDistance_pinchMeasured, originDistance_pinchMeasured.
  rewrite Hd, Hc, spread_midpoint. cbn [nextPinchState ngtb n_of_Z R_Number].
  case_bool_decide; [done|]. by rewrite bool_decide_eq_false_2 by lra.
Qed.

End gestures.

(** ** The zoom *)

Section zoom.
Implicit Types (s : State R) (ed : Editor R).
Local Open Scope R_scope.

Lemma R_pow_base_one e : R_pow 1 e = 1.
Proof.
  unfold R_pow. repeat case_decide; try lra.
  unfold Rpower. by rewrite ln_1, Rmult_0_r, exp_0.
Qed.

Lemma R_pow_exp_one b : 0 <= b → R_pow b 1 = b.
Proof.
  intros Hb. unfold R_pow. repeat case_decide; try lra. by apply Rpower_1.
Qed.

Lemma R_pow_lt b1 b2 e : 0 < e → 0 <= b1 < b2 → R_pow b1 e < R_pow b2 e.
Proof.
  intros He [H1 H2]. unfold R_pow. repeat case_decide; try lra.
  - by apply Rlt_Rpower_l.
  - apply exp_pos.
Qed.

(** The zoom the hook reports when the fingers are [c] apart. *)
Definition zoomAt ed s (c : R) : R := zoomOf ed (set_currDistanceBetweenFingers c s).

Lemma zoomAt_initial ed s :
  0 < s.(initDistanceBetweenFingers) → zoomAt ed s s.(initDistanceBetweenFingers) = s.(initZoom).
Proof.
  intros Hi. unfold zoomAt, zoomOf; simpl. unfold Rdiv.
  rewrite Rinv_r, R_pow_base_one by lra. ring.
Qed.

Lemma zoomAt_linear ed s c :
  0 < s.(initDistanceBetweenFingers) → ed.(zoomSpeed) = 1 → 0 <= c →
  zoomAt ed s c = s.(initZoom) * c / s.(initDistanceBetweenFingers).
Proof.
  intros Hi He Hc. unfold zoomAt, zoomOf; simpl. rewrite He, R_pow_exp_one; [field; lra|].
  apply Rmult_le_pos; [done|]. left. by apply Rinv_0_lt_compat.
Qed.

Lemma zoomAt_lt ed s c1 c2 :
  0 < s.(initDistanceBetweenFingers) → 0 < ed.(zoomSpeed) → 0 < s.(initZoom) →
  0 <= c1 < c2 → zoomAt ed s c1 < zoomAt ed s c2.
Proof.
  intros Hi He Hz [H1 H2]. unfold zoomAt, zoomOf; simpl.
  apply Rmult_lt_compat_l; [done|]. apply R_pow_lt; [done|].
  pose proof (Rinv_0_lt_compat _ Hi). unfold Rdiv. split.
  - by apply Rmult_le_pos; [|left].
  - by apply Rmult_lt_compat_r.
Qed.

(** In exact arithmetic and for a positive initial distance of the
    fingers, the zoom the hook reports is the initial zoom when the fingers
    are at their initial distance; at zoom speed 1 it is the initial zoom
    times the ratio of the distances; and for a positive zoom speed and
    initial zoom it grows strictly with the distance of the fingers. *)
Theorem zoom_follows_distance ed s :
  0 < s.(initDistanceBetweenFingers) →
  zoomAt ed s s.(initDistanceBetweenFingers) = s.(initZoom)
  ∧ (ed.(zoomSpeed) = 1 → ∀ c, 0 <= c →
       zoomAt ed s c = s.(initZoom) * c / s.(initDistanceBetweenFingers))
  ∧ (0 < ed.(zoomSpeed) → 0 < s.(initZoom) → ∀ c1 c2, 0 <= c1 < c2 →
       zoomAt ed s c1 < zoomAt ed s c2).
Proof. intros Hi. split_and!; eauto using zoomAt_initial, zoomAt_linear, zoomAt_lt. Qed.

End zoom.

(** ** The handler *)

Section handler.
Context `{Host R}.
Implicit Types (p q e : DOM.PointerEvent R) (s : State R) (ed : Editor R).
Local Open Scope R_scope.


End handler.

(** ** The theorems on a pinch of two fingers 100 pixels apart *)

Local Open Scope R_scope.

#[export] Instance idealHost : Host R := {|
  isAccelKey := λ e, e.(DOM.ctrlKey) || e.(DOM.metaKey);
  normalizeWheel := λ w, mkVecModel (- w.(DOM.deltaX)) (- w.(DOM.deltaY)) None;
|}.

Definition idealEditor : Editor R := {|
  getZoomLevel := 1;
  zoomSpeed := 1;
  isFocused := true;
  getEditingShapeId := None;
  getShape := λ _, None;
  canScroll := λ _, false;
  getShapePageBounds := λ _, None;
  currentPagePoint := mkVec 0 0;
|}.

(** The state after the pointers 1 and 2 went down at [(0, 0)] and
    [(100, 0)]. *)
Definition idealStart : State R :=
  run [(idealEditor, pointerdown (pointerAt 1 0 0));
       (idealEditor, pointerdown (pointerAt 2 100 0))] initialState.

Lemma idealStart_startedAt : startedAt (pointerAt 1 0 0) (pointerAt 2 100 0) idealStart.
Proof. done. Qed.

Lemma dist_euc_horizontal x0 x1 y : dist_euc x0 y x1 y = Rabs (x0 - x1).
Proof.
  unfold dist_euc. rewrite Rminus_diag, Rsqr_0, Rplus_0_r. apply sqrt_Rsqr_abs.
Qed.

Lemma idealStart_distance : idealStart.(initDistanceBetweenFingers) = 100.
Proof.
  change (dist_euc 0 0 100 0 = 100). rewrite dist_euc_horizontal, Rabs_left; lra.
Qed.

Lemma rigid_translation_pans_witness :
  (pinchMoved (movedBy 20 0 (pointerAt 1 0 0)) (movedBy 20 0 (pointerAt 2 100 0))
     idealStart).(pinchState)
    = if bool_decide (16 < sqrt (20² + 0²)) then panning else not_sure.
Proof. exact (rigid_translation_pans 20 0 _ _ idealStart idealStart_startedAt). Defined.

Lemma symmetric_spread_zooms_witness :
  let q1 := movedBy (- 20) (- 0) (pointerAt 1 0 0) in
  let q2 := movedBy 20 0 (pointerAt 2 100 0) in
  (pinchMoved q1 q2 idealStart).(pinchState)
    = if bool_decide (24 < Rabs (getPointerDistance q1 q2
                                 - getPointerDistance (pointerAt 1 0 0) (pointerAt 2 100 0)))
      then zooming else not_sure.
Proof. exact (symmetric_spread_zooms 20 0 _ _ idealStart idealStart_startedAt). Defined.

Lemma zoom_follows_distance_witness :
  zoomAt idealEditor idealStart idealStart.(initDistanceBetweenFingers)
    = idealStart.(initZoom).
Proof.
  refine (proj1 (zoom_follows_distance idealEditor idealStart _)).
  rewrite idealStart_distance. lra.
Defined.

